(* ===== verification/_CoqProject ===== *)
-Q . S2P
Prelude.v
Piece.v
BoardModel.v
PathUtils.v
PieceRules.v
CollisionResolver.v
MoveScheduler.v
RealTimeArbiter.v
GameState.v
Liveness.v
CppString.v
Sha256.v
PasswordHash.v
BoardIO.v
GameInput.v
GameMessages.v
BoardView.v
Snapshot.v
Codecs.v
Rooms.v
Sessions.v
Users.v
GameLoop.v
Ratings.v
RuntimeStore.v
Matchmaking.v
RedisStore.v
Config.v
RedisClient.v
GameResult.v
Tables.v
Sqlite.v
Postgres.v
Hosting.v
Allocation.v
MatchService.v
Lobby.v
Observability.v
Http.v
LocalMatch.v
ClientInput.v
Client.v
Float32.v
Renderer.v
UiController.v
Threads.v
Transport.v
Runtime.v
Gui.v
Monolith.v
Programs.v
Cluster.v
