(* ===== verification/Prelude.v ===== *)
(** * Kung Fu Chess: a verification development

    The program is a real-time variant of chess without turns, written in C++
    (sources under [src/src]).  Every piece may move whenever it is not in flight,
    airborne or resting; moves take time, and captures are decided on arrival.
    The game core is used by a command-line program that replays text commands and
    by a game server on which two clients play over WebSockets: as one program, or as a
    gateway, a matchmaker and game servers that share a store and call each other over
    HTTP.  A graphical client plays locally or over the network.

    ** Parts of the program and where they are modelled

    - [Prelude.v]: no source of its own.  The result monad [res] ([Ok] or a fault:
      exception, undefined behaviour, divergence), total-correctness judgement
      [m ⇓ Q], machine integers, vectors, loops, tactics.
    - [Piece.v]: [model/piece.h], [piece_factory], [piece_token.cpp], [game_config.h]:
      pieces, the id factory and the two-character token codec.
    - [BoardModel.v]: [model/board_model.cpp]: the grid of piece ids with the piece
      store beside it.  Invariant [board_wf]: rectangular, ids consecutive, a cell
      holds id [k] exactly when piece [k] is idle there.
    - [PathUtils.v]: [logic/path_utils.cpp]: straight paths and their cells.
    - [PieceRules.v]: [rules/piece_rules/*.cpp], [rules_registry.cpp],
      [move_validator.cpp], [game_rules.cpp]: movement rules and the injectable
      rule bundle [GameRules].
    - [CollisionResolver.v], [MoveScheduler.v]: [realtime/collision_resolver.cpp],
      [move_scheduler.cpp], [render_snapshot.h]: queues of moves and jumps, rests,
      route conflicts, single-precision animation progress.
    - [RealTimeArbiter.v]: [realtime/real_time_arbiter.cpp]: the clock and the
      settlement of everything that is due.  The class [RulesOk] is what it relies
      on from the rules; the standard rules are an instance.
    - [GameState.v]: [logic/game_state.cpp], [game_action.h]: selection, move and jump
      requests, clock, verdict.  Invariant [game_inv].
    - [Liveness.v]: the same sources; every flight ends if the clock advances.
    - [CppString.v]: the operations of the C++ string and stream library that the
      text formats use.
    - [Sha256.v], [PasswordHash.v]: [server/password_hasher.cpp]: SHA-256, HMAC, PBKDF2
      and stored hashes, with the standards as reference definitions.
    - [BoardIO.v]: [rules/board_validator.cpp], [io/board_writer.cpp], [io/vpl_io.cpp].
    - [GameInput.v]: [io/game_input_handler.cpp], [ui/layout/*], [engine/game_engine.cpp],
      [main.cpp]: pixels to cells, click semantics, the command-line program.
    - [GameMessages.v]: [server/game_message_parser.cpp],
      [network/network_input_handler.cpp]: client messages and authorisation.
    - [BoardView.v]: [ui/view/board_view_model.cpp], [board_view_builder.cpp].
    - [Snapshot.v]: [server/snapshot_writer.cpp], [network/snapshot_reader.cpp].
    - [Codecs.v]: [matchmaking/protocol/matchmaking_codec.cpp],
      [server/game/protocol/game_creation_codec.cpp].
    - [Rooms.v]: [server/match.cpp], [server/room/room.cpp], [room_manager.cpp].
    - [Sessions.v]: [server/player_session.*], [session_registry.cpp],
      [session/client_session_manager.cpp], the client list of [websocket_server.cpp],
      [network/session_message_sink.cpp], [network/game_input_dispatcher.cpp].
    - [Users.v]: [server/user/user.cpp], [server/database/i_user_repository.h],
      [in_memory_user_repository.cpp], [authentication_service.cpp].
    - [GameLoop.v]: [server/room/active_room_processor.cpp]; what happens to a finished
      game is the interface [FinishHandler] with its contract [FinishOk].
    - [Ratings.v], [GameResult.v]: [server/rating_service.cpp],
      [server/game_result/game_result_handler.cpp], [game_result_message_writer.cpp],
      [gateway/local_game_completion_gateway.cpp]: the instance of that interface.
    - [Tables.v], [Sqlite.v], [Postgres.v]: the tables of players and games;
      [database/sqlite_database.cpp], [player_repository.cpp], [game_repository.cpp],
      [server/database/sqlite_user_repository.cpp]; [database/postgres_connection.cpp],
      [postgres_game_repository.cpp], [server/database/postgres_user_repository.cpp].
      The SQLite library and libpq are the classes [Sqlite] and [Libpq] with laws.
    - [RuntimeStore.v], [RedisStore.v], [RedisClient.v]: [app/i_runtime_store.h],
      [in_memory_runtime_store.cpp], [redis_runtime_store.cpp] (the store, and under it the
      connection and its commands), [redis_runtime_store_stub.cpp].
    - [Matchmaking.v], [MatchService.v]: [matchmaking/player_matchmaking_queue.cpp],
      [remote_matchmaking_service.cpp], the requests of [http/matchmaking_http_server.cpp].
    - [Config.v]: [app/config_loader.cpp] and the configuration structures of [app].
    - [Hosting.v], [Allocation.v]: [server/game/*.cpp]: local host, allocation handler,
      join handler; registry of live servers and remote allocator.
    - [Lobby.v]: [server/lobby/lobby_message_handler.cpp], [gateway/local_game_gateway.cpp],
      [gateway_notification_handler.cpp] and its listener's requests.  The matchmaking
      client is the interface [JoinClient] with its contract [JoinClientOk].
    - [LocalMatch.v]: [server/matchmaking/*.cpp], [server/match/match_lifecycle_handler.cpp],
      [matchmaking/local_matchmaking_join_client.cpp]: the instance of that interface in
      the single-server program.
    - [Observability.v]: [app/observability/*]: correlation ids, counters, reports, log lines.
    - [Http.v]: [matchmaking/http/*.cpp], [server/game/game_allocation_http_client.cpp],
      [game_creation_listener.cpp], [gateway/gateway_notification_listener.cpp],
      [app/health_http_server.cpp], the readiness checks: clients and listeners over the
      class [Network].
    - [Threads.v]: the thread of a listener beside its owner, of
      [matchmaking/http/matchmaking_http_server.cpp], [gateway_notification_listener.cpp],
      [game_creation_listener.cpp]: interleavings as a step relation, schedules as lists.
    - [ClientInput.v]: the mouse of the networked client, of [main_gui.cpp].
    - [Client.v]: [network/*_message_reader.cpp], [websocket_endpoint.cpp],
      [network_login_session.cpp], [network_game_redirect_flow.cpp], the GUI state of
      [main_gui.cpp] and the parts of [websocket_client.cpp] that are not sockets.
    - [Float32.v], [Renderer.v], [UiController.v]: single precision;
      [ui/rendering/ctd26_renderer.cpp], [ui/view/piece_sprite_selector.cpp], [ui/assets/*]
      over the class [Graphics] of the image library; [ui/controller/ui_controller.cpp] and
      [headless_renderer.cpp] over the interface of renderers.
    - [Transport.v]: [server/client_connection.cpp], [network/websocket_client.cpp] over the
      class [Stream] of the socket library.
    - [Gui.v]: the programs of [main_gui.cpp]: the local game, and the networked client as
      a machine of stages.
    - [Runtime.v]: [server/game_server_runtime.cpp], [gateway_server.cpp],
      [matchmaking/matchmaker_runtime.cpp]: one iteration of each program, heartbeats.
    - [Monolith.v]: [server/game_server.cpp], [gateway_server_monolith.cpp]: the single-server
      program, gateway and game server over shared objects.
    - [Programs.v]: [app/server_infrastructure.cpp], [server_builder.h],
      [matchmaker_builder.h], [client_connection_plane.cpp], [main_*.cpp]: the configured
      database and store behind their interfaces, construction, runs, readiness, exit codes.
    - [Cluster.v]: the distributed configuration: the same gateway over the HTTP clients of
      [Http.v], the service of [MatchService.v], [server/game/remote_game_allocator.cpp] and
      game servers by address, as the instance of [JoinClient] that the builders wire.

    C++ objects are records, methods are functions from the state to [res] of the
    new state, callbacks are functional arguments or class interfaces, references
    and pointers into shared containers are keys into the modelled container.
    [size_t], [uint64_t] and [uint32_t] wrap; overflow of [int] and [int64_t] is
    undefined; an unchecked subscript, a null or dangling pointer or an empty
    optional is undefined when it is dereferenced.

    ** What the theorems show

    - The game is safe: from any start position every sequence of actions runs
      without exception or undefined behaviour and keeps the game invariant
      ([run_safe], [settle_pending_moves_correct]); history is irreversible
      ([history_irreversible]); after each advance of the clock every piece is shown
      exactly once ([advance_clock_view]).
    - The game does what it should: movement rules ([is_legal_move_correct]), moves
      and jumps are accepted exactly under the stated conditions
      ([move_request_correct], [jump_request_correct]), arrivals refine a relational
      specification ([settle_move_correct]), the verdict is right
      ([winning_color_correct]); geometry ([for_each_cell_on_path_correct]).
    - Text in and out: round trips of boards, client messages, snapshots and server codecs
      ([vpl_roundtrip], [messages_roundtrip], [snapshot_roundtrip], [codec_roundtrips]),
      soundness and completeness of board parsing ([parse_board_rows_correct]), the view
      ([view_correct]) and totality of the whole command-line program ([main_total]).
    - The server: players act only on their own pieces ([authorisation_sound]);
      one iteration of the game loop is safe for every behaviour of the clients
      ([process_correct]), and so is one iteration of the game server program, heartbeats
      included and up to the pruning of clients that are gone, which is undefined
      ([runtime_tick_correct]), and of the single-server program, from lobby to games
      ([server_tick_correct]); a finished game is settled: ratings, database, routing,
      sessions ([finish_correct]); session bookkeeping ([accept_new_clients_correct]).
    - Accounts: the key derivation is the one of the standards ([pbkdf2_correct]), stored
      hashes verify their own password ([verify_hash_password]), authentication is sound
      and complete for every repository that obeys its interface
      ([authenticate_correct]), and the lobby logs nobody in without a password or twice
      ([lobby_process_correct]).  Every configuration is within its bounds
      ([load_config_correct]).
    - Finding an opponent: the matchmaking service pairs first come, first served over
      queues that survive a restart ([enter_queue_correct], [leave_and_timeouts_correct],
      [matchmaker_run_safe]); so does the single server, over pointers that never dangle
      ([local_join_correct]); games are made in fresh rooms ([allocate_correct]) or on the
      least loaded live server ([remote_allocation_correct]) and joined only by their
      players ([join_process_correct]).  What the servers share in Redis is what the
      in-memory store would tell them ([redis_refines_memory]), and the commands sent to
      Redis have the effects assumed there, the loop of SCAN included
      ([redis_client_correct]).
    - The distributed program: a request to play is followed through gateway, matchmaker and
      game servers and back to both players ([cluster_match_correct]), and searches that take
      too long are given up at the gateway ([cluster_timeouts_correct]).  A listener is safe
      in every interleaving with its owner and its clients ([listener_safe],
      [matchmaker_interleavings]), and [stop] returns unless a client that has connected
      stays silent ([stop_returns]); what its thread does is a run of the sequential loop of
      [Http.v] ([threads_refine_loop]).
    - Behind the interfaces: SQLite and PostgreSQL answer alike ([backends_agree]); a call
      over HTTP is the call of the service behind the listener ([remote_calls_are_local]);
      a connection sends and receives texts in order, each at most once
      ([connection_fifo]); a program starts exactly when store and database can be opened
      ([infrastructure_correct]); log lines read back ([log_line_roundtrip]).
    - The client: a click in the networked client does to the game what the same click
      does locally ([remote_input_refines_local]); the client reads every text of the
      server ([client_reads_server]), logs in in the right order
      ([login_handshake_correct]) and finds the game server, room and side of its match
      ([client_follows_match]); the whole networked program keeps to this protocol at every
      moment ([network_gui_protocol]); a local graphical game is the game of its frames and
      clicks ([ui_refines_game], [offline_gui_refines]); pictures are drawn with every
      piece where the game has it ([present_correct]).
    - Liveness: pieces in flight come down ([flights_come_down]).

    ** Bounds and fuel

    Boards have less than 2^31 rows and columns and less than 2^32 pieces (the
    widths of the coordinates and ids).  The clock is kept within 2^61 ms of zero, so
    that arrival times do not overflow; the snapshot format needs a non-negative
    clock.  [for_each_cell_on_path] gets fuel [max |dr| |dc|], enough for every straight
    path, and its divergence on other paths is proved.  The loop of SCAN gets one
    step per page of the server; with more it gives the same.  [to_string] gets one digit
    per bit.  Resources that run out are counted: ids of users and rooms, and the room
    for rating points, are budgets ([ids_left n], [client_inv n], [loop_ok n]) of the
    operations that use them.  All other recursion is structural.

    ** What is not modelled

    The libraries and systems the code calls are the environment: sockets (Boost.Asio
    and Beast), SQLite and libpq with the servers behind them, hiredis and Redis, OpenCV
    and the image class, [std::sin], the clocks, the process environment, the mouse.  They
    are arguments or classes, with laws where the code relies on documented behaviour,
    and the theorems quantify over them.  Diagnostic output, the tracer (which does
    nothing), signals, sleeping, destructors (but those of the listeners) and memory
    exhaustion are left out.  Threads
    are modelled in [Threads.v] at the level of whole operations: a handler and an operation
    of the owner take effect at once.  The code has no locks that would ensure this (the
    races are examples there); all other theorems are about sequences of calls.  The user and the game
    repository of a program share one connection and are modelled with a view each.  The
    exact value of [std::pow] is idealised in [Ratings.v]. *)

From stdpp Require Export base tactics list gmap strings.
From Stdlib Require Export ZArith Lia.

(** ** Faults and the result monad

    A C++ operation either returns a value or stops for one of these reasons.
    [Undefined] is undefined behaviour of the language (an unchecked vector
    subscript out of range, signed overflow, dereferencing a null pointer or an
    empty optional); [Diverges] is a loop that does not terminate. *)

Inductive fault :=
| OutOfRange
| InvalidArgument
| RuntimeError
| LengthError
| Undefined
| Diverges.

Inductive res (A : Type) :=
| Ok (a : A)
| Err (f : fault).
Arguments Ok {A} a.
Arguments Err {A} f.

#[export] Instance fault_eq_dec : EqDecision fault.
Proof. solve_decision. Defined.

#[export] Instance res_ret : MRet res := fun A a => Ok a.
#[export] Instance res_bind : MBind res :=
  fun A B k m => match m with Ok a => k a | Err f => Err f end.

Declare Scope kfc_scope.
Delimit Scope kfc_scope with kfc.

(** [returns m Q]: the computation [m] ends without a fault, in a value that
    satisfies [Q].  This is the total-correctness judgement of the development:
    a computation that throws, diverges or is undefined satisfies no [Q]. *)
Definition returns {A} (m : res A) (Q : A -> Prop) : Prop :=
  match m with Ok a => Q a | Err _ => False end.

Notation "m ⇓ Q" := (returns m Q) (at level 70, no associativity) : kfc_scope.
#[global] Open Scope kfc_scope.
#[global] Open Scope Z_scope.

Lemma returns_ok {A} (a : A) (Q : A -> Prop) : Q a -> Ok a ⇓ Q.
Proof. done. Qed.

Lemma returns_mret {A} (a : A) (Q : A -> Prop) : Q a -> (mret a : res A) ⇓ Q.
Proof. done. Qed.

Lemma returns_bind {A B} (m : res A) (k : A -> res B) (Q : B -> Prop) :
  m ⇓ (fun a => k a ⇓ Q) -> (m ≫= k) ⇓ Q.
Proof. by destruct m. Qed.

Lemma returns_mono {A} (m : res A) (P Q : A -> Prop) :
  m ⇓ P -> (forall a, P a -> Q a) -> m ⇓ Q.
Proof. destruct m; simpl; auto. Qed.

(** Postconditions may be rewritten pointwise. *)
#[export] Instance returns_proper {A} :
  Proper (eq ==> pointwise_relation A iff ==> iff) (@returns A).
Proof. intros m ? <- P Q HPQ. destruct m; simpl; [apply HPQ|done]. Qed.

Lemma returns_eq {A} (m : res A) (Q : A -> Prop) :
  m ⇓ Q <-> exists a, m = Ok a /\ Q a.
Proof. destruct m; simpl; split; [eauto|by intros (? & [= ->] & ?)|done|by intros (? & ? & ?)]. Qed.

Lemma returns_elim {A} (m : res A) (Q : A -> Prop) a : m ⇓ Q -> m = Ok a -> Q a.
Proof. by intros H ->. Qed.

Lemma returns_intro {A} (m : res A) (Q : A -> Prop) a : m = Ok a -> Q a -> m ⇓ Q.
Proof. by intros -> H. Qed.

Lemma bind_ok {A B} (a : A) (k : A -> res B) : (Ok a ≫= k) = k a.
Proof. done. Qed.

(** The result of a computation that is known to succeed. *)
Definition is_ok {A} (m : res A) : bool := match m with Ok _ => true | Err _ => false end.

Lemma ok_or {A} (m : res A) d : is_ok m = true -> m = Ok (match m with Ok a => a | Err _ => d end).
Proof. by destruct m. Qed.

Lemma bind_Ok_inv {A B} (m : res A) (k : A -> res B) b :
  (m ≫= k) = Ok b -> exists a, m = Ok a /\ k a = Ok b.
Proof. destruct m; simpl; naive_solver. Qed.

(** A fold of a fallible step over a list, and its invariant rule. *)
Fixpoint foldM {A S} (f : A -> S -> res S) (l : list A) (s : S) : res S :=
  match l with
  | [] => Ok s
  | x :: l' => s' ← f x s; foldM f l' s'
  end.

Lemma foldM_inv {A S} (f : A -> S -> res S) (P : list A -> S -> Prop) l s :
  P l s ->
  (forall x l' s', P (x :: l') s' -> f x s' ⇓ P l') ->
  foldM f l s ⇓ P [].
Proof.
  intros HP Hstep. revert s HP. induction l as [|x l IH]; intros s HP; [done|].
  simpl. apply returns_bind. eapply returns_mono; [by apply Hstep|]. simpl. auto.
Qed.

Lemma foldM_app {A S} (f : A -> S -> res S) l l' s : foldM f (l ++ l') s = (s' ← foldM f l s; foldM f l' s').
Proof. revert s. induction l as [|x l IH]; intros s; simpl; [done|]. destruct (f x s); [apply IH|done]. Qed.

(** The partial-correctness rule: what every successful step preserves. *)
Lemma foldM_Ok_inv {A S} (f : A -> S -> res S) (P : S -> Prop) l s s' :
  (forall x s s', P s -> f x s = Ok s' -> P s') -> P s -> foldM f l s = Ok s' -> P s'.
Proof.
  intros Hf. revert s. induction l as [|x l IH]; intros s HP; simpl.
  - by intros [= <-].
  - intros (s1 & H1 & H2)%bind_Ok_inv. eauto.
Qed.

(** A traversal that keeps the elements satisfying [P] and hands the others to
    a callback, in order: what [for_each_pending_due] and [expire_jumps] do. *)
Lemma foldM_keep {A S} (P : A -> Prop) `{!forall x, Decision (P x)} (fn : A -> S -> res S)
    (f : A -> list A * S -> res (list A * S)) l kept st :
  (forall x kept st, f x (kept, st) =
    if decide (P x) then Ok (kept ++ [x], st) else st' ← fn x st; Ok (kept, st')) ->
  foldM f l (kept, st) =
  (st' ← foldM fn (filter (fun x => ~ P x) l) st; Ok (kept ++ filter P l, st')).
Proof.
  intros Hf. revert kept st. induction l as [|x l IH]; intros kept st; cbn [foldM].
  { by rewrite filter_nil, app_nil_r. }
  rewrite Hf. destruct (decide (P x)) as [HP|HP].
  - rewrite bind_ok, IH, (filter_cons_False (fun x => ~ P x)), filter_cons_True by tauto.
    by rewrite <- app_assoc.
  - rewrite (filter_cons_True (fun x => ~ P x)), filter_cons_False by done. cbn [foldM].
    destruct (fn x st); [rewrite !bind_ok; apply IH|done].
Qed.

(** ** Machine integers *)

Definition wrap_u (w z : Z) : Z := z mod 2 ^ w.
Definition wrap_s (w z : Z) : Z := (z + 2 ^ (w - 1)) mod 2 ^ w - 2 ^ (w - 1).

(** [static_cast] to the integer types the program uses. *)
Definition to_u8 : Z -> Z := wrap_u 8.
Definition to_u16 : Z -> Z := wrap_u 16.
Definition to_u32 : Z -> Z := wrap_u 32.
Definition to_u64 : Z -> Z := wrap_u 64.
Definition to_size : Z -> Z := wrap_u 64.
Definition to_int : Z -> Z := wrap_s 32.
Definition to_i64 : Z -> Z := wrap_s 64.

Definition fits_int (z : Z) : Prop := - 2 ^ 31 <= z < 2 ^ 31.
Definition fits_i64 (z : Z) : Prop := - 2 ^ 63 <= z < 2 ^ 63.
Definition fits_u64 (z : Z) : Prop := 0 <= z < 2 ^ 64.

(** Signed 64-bit addition and multiplication: overflow is undefined. *)
Definition i64_checked (z : Z) : res Z :=
  if (- 2 ^ 63 <=? z) && (z <? 2 ^ 63) then Ok z else Err Undefined.
Definition i64_add (a b : Z) : res Z := i64_checked (a + b).
Definition i64_mul (a b : Z) : res Z := i64_checked (a * b).

(** The same for [int]. *)
Definition int_checked (z : Z) : res Z :=
  if (- 2 ^ 31 <=? z) && (z <? 2 ^ 31) then Ok z else Err Undefined.
Definition int_add (a b : Z) : res Z := int_checked (a + b).
Definition int_sub (a b : Z) : res Z := int_checked (a - b).
Definition int_mul (a b : Z) : res Z := int_checked (a * b).

Lemma wrap_u_id w z : 0 <= z < 2 ^ w -> wrap_u w z = z.
Proof. intros. unfold wrap_u. by apply Z.mod_small. Qed.

Lemma wrap_s_id w z : 0 < w -> - 2 ^ (w - 1) <= z < 2 ^ (w - 1) -> wrap_s w z = z.
Proof.
  intros Hw Hz. unfold wrap_s.
  assert (2 ^ w = 2 * 2 ^ (w - 1)) as Hp.
  { rewrite <- Z.pow_succ_r by lia. f_equal. lia. }
  rewrite Z.mod_small by lia. lia.
Qed.

Lemma wrap_u_range w z : 0 <= w -> 0 <= wrap_u w z < 2 ^ w.
Proof. intros. unfold wrap_u. apply Z.mod_pos_bound. by apply Z.pow_pos_nonneg. Qed.

Lemma to_size_id z : 0 <= z < 2 ^ 64 -> to_size z = z.
Proof. apply wrap_u_id. Qed.

Lemma to_int_id z : fits_int z -> to_int z = z.
Proof. intros. by apply wrap_s_id. Qed.

Lemma to_int_fits z : fits_int (to_int z).
Proof.
  unfold fits_int, to_int, wrap_s. pose proof (Z.mod_pos_bound (z + 2 ^ (32 - 1)) (2 ^ 32) ltac:(lia)). lia.
Qed.

Lemma to_int_size z : 0 <= z < 2 ^ 31 -> to_size (to_int z) = z.
Proof. intros. rewrite to_int_id by (unfold fits_int; lia). apply to_size_id. lia. Qed.

Lemma i64_checked_ok z : fits_i64 z -> i64_checked z = Ok z.
Proof.
  unfold fits_i64, i64_checked. intros [H1 H2].
  by rewrite (proj2 (Z.leb_le _ _) H1), (proj2 (Z.ltb_lt _ _) H2).
Qed.

Lemma int_checked_ok z : fits_int z -> int_checked z = Ok z.
Proof.
  unfold fits_int, int_checked. intros [H1 H2].
  by rewrite (proj2 (Z.leb_le _ _) H1), (proj2 (Z.ltb_lt _ _) H2).
Qed.

(** ** Vectors indexed by machine integers *)

Definition vlen {A} (l : list A) : Z := Z.of_nat (length l).

(** [l[i]] as an option: [None] where C++ leaves the subscript undefined. *)
Definition vat {A} (l : list A) (i : Z) : option A :=
  if i <? 0 then None else l !! Z.to_nat i.

(** [l[i] = x]. *)
Definition vset {A} (l : list A) (i : Z) (x : A) : list A :=
  if i <? 0 then l else <[Z.to_nat i := x]> l.

(** An unchecked subscript or dereference. *)
Definition deref {A} (o : option A) : res A :=
  match o with Some a => Ok a | None => Err Undefined end.

Section Vectors.
Context {A : Type}.
Implicit Types (l : list A) (i j : Z) (x : A).

Lemma vlen_nonneg l : 0 <= vlen l.
Proof. unfold vlen. lia. Qed.

Lemma vlen_app l1 l2 : vlen (l1 ++ l2) = vlen l1 + vlen l2.
Proof. unfold vlen. rewrite length_app. lia. Qed.

Lemma vlen_cons x l : vlen (x :: l) = 1 + vlen l.
Proof. unfold vlen. simpl. lia. Qed.

Lemma vlen_nil : vlen (@nil A) = 0.
Proof. done. Qed.

Lemma vlen_snoc l x : vlen (l ++ [x]) = vlen l + 1.
Proof. unfold vlen. rewrite length_app. simpl. lia. Qed.

Lemma vlen_vset l i x : vlen (vset l i x) = vlen l.
Proof. unfold vlen, vset. destruct (i <? 0); [done|]. by rewrite length_insert. Qed.

Lemma vat_Some_lt l i x : vat l i = Some x -> 0 <= i < vlen l.
Proof.
  unfold vat, vlen. destruct (Z.ltb_spec i 0); [done|].
  intros H1%lookup_lt_Some. lia.
Qed.

Lemma vat_lt l i : 0 <= i < vlen l -> exists x, vat l i = Some x.
Proof.
  unfold vat, vlen. intros Hi. destruct (Z.ltb_spec i 0); [lia|].
  apply lookup_lt_is_Some. lia.
Qed.

Lemma vat_None l i : vat l i = None <-> ~ 0 <= i < vlen l.
Proof.
  unfold vat, vlen. destruct (Z.ltb_spec i 0).
  - split; [lia|done].
  - rewrite lookup_ge_None. lia.
Qed.

Lemma vat_vset_eq l i x : 0 <= i < vlen l -> vat (vset l i x) i = Some x.
Proof.
  unfold vat, vset, vlen. intros Hi. destruct (Z.ltb_spec i 0); [lia|].
  apply list_lookup_insert_eq. lia.
Qed.

Lemma vat_vset_ne l i j x : i <> j -> vat (vset l i x) j = vat l j.
Proof.
  unfold vat, vset. intros Hij.
  destruct (Z.ltb_spec i 0), (Z.ltb_spec j 0); try done.
  apply list_lookup_insert_ne. lia.
Qed.

Lemma vset_vset_eq l i x y : vset (vset l i x) i y = vset l i y.
Proof. unfold vset. destruct (i <? 0); [done|]. apply list_insert_insert_eq. Qed.

Lemma vset_comm l i j x y : i <> j -> vset (vset l i x) j y = vset (vset l j y) i x.
Proof.
  unfold vset. intros Hij. destruct (Z.ltb_spec i 0), (Z.ltb_spec j 0); try done.
  apply list_insert_insert_ne. lia.
Qed.

Lemma vat_app_last l x : vat (l ++ [x]) (vlen l) = Some x.
Proof.
  unfold vat, vlen. destruct (Z.ltb_spec (Z.of_nat (length l)) 0); [lia|].
  rewrite Nat2Z.id. by apply list_lookup_middle.
Qed.

Lemma vat_app_l l1 l2 i : i < vlen l1 -> vat (l1 ++ l2) i = vat l1 i.
Proof.
  unfold vat, vlen. intros Hi. destruct (Z.ltb_spec i 0); [done|].
  apply lookup_app_l. lia.
Qed.

Lemma vat_elem_of l i x : vat l i = Some x -> x ∈ l.
Proof.
  unfold vat. destruct (i <? 0); [done|]. apply list_elem_of_lookup_2.
Qed.

Lemma elem_of_vat l x : x ∈ l -> exists i, vat l i = Some x.
Proof.
  intros [n Hn]%list_elem_of_lookup_1. exists (Z.of_nat n).
  unfold vat. destruct (Z.ltb_spec (Z.of_nat n) 0); [lia|]. by rewrite Nat2Z.id.
Qed.

Lemma vat_cons_0 x l : vat (x :: l) 0 = Some x.
Proof. done. Qed.

Lemma vat_cons_succ x l i : 0 <= i -> vat (x :: l) (1 + i) = vat l i.
Proof.
  intros Hi. unfold vat.
  destruct (Z.ltb_spec (1 + i) 0); [lia|]. destruct (Z.ltb_spec i 0); [lia|].
  by replace (Z.to_nat (1 + i)) with (S (Z.to_nat i)) by lia.
Qed.
End Vectors.

(** ** Loops *)

(** The values [0 .. n-1] of a counting loop. *)
Definition zrange (n : Z) : list Z := Z.of_nat <$> seq 0 (Z.to_nat n).

(** A loop that returns [false] as soon as the body does. *)
Fixpoint allM {A} (f : A -> res bool) (l : list A) : res bool :=
  match l with
  | [] => Ok true
  | x :: l' => b ← f x; if b : bool then allM f l' else Ok false
  end.

(** A loop that collects one value per element. *)
Fixpoint mapM_res {A B} (f : A -> res B) (l : list A) : res (list B) :=
  match l with
  | [] => Ok []
  | x :: l' => y ← f x; ys ← mapM_res f l'; Ok (y :: ys)
  end.

Lemma elem_of_zrange n i : i ∈ zrange n <-> 0 <= i < n.
Proof.
  unfold zrange. rewrite list_elem_of_fmap. setoid_rewrite elem_of_seq. split.
  - intros (k & -> & Hk). lia.
  - intros Hi. exists (Z.to_nat i). lia.
Qed.

Lemma zrange_succ n : 0 <= n -> zrange (n + 1) = zrange n ++ [n].
Proof.
  intros Hn. unfold zrange. replace (Z.to_nat (n + 1)) with (S (Z.to_nat n)) by lia.
  rewrite seq_S, fmap_app. simpl. by rewrite Z2Nat.id.
Qed.

Lemma vlen_zrange n : 0 <= n -> vlen (zrange n) = n.
Proof. intros. unfold vlen, zrange. rewrite length_fmap, length_seq. lia. Qed.

Lemma allM_ok {A} (f : A -> res bool) (g : A -> bool) l :
  (forall x, x ∈ l -> f x = Ok (g x)) -> allM f l = Ok (forallb g l).
Proof.
  induction l as [|x l IH]; intros H; [done|]. simpl.
  rewrite H by set_solver. simpl. destruct (g x); [|done]. apply IH. set_solver.
Qed.

Lemma mapM_res_ok {A B} (f : A -> res B) (g : A -> B) l :
  (forall x, x ∈ l -> f x = Ok (g x)) -> mapM_res f l = Ok (g <$> l).
Proof.
  induction l as [|x l IH]; intros H; [done|]. simpl.
  rewrite H by set_solver. simpl. rewrite IH by set_solver. done.
Qed.

(** ** Automation *)

Create HintDb kfc.
#[export] Hint Resolve returns_ok returns_mret vlen_nonneg : kfc.
#[export] Hint Resolve to_int_id to_size_id : kfc.

(** Turn the boolean comparisons of the program into propositions. *)
Ltac zbool :=
  repeat match goal with
  | H : (_ <? _) = true |- _ => apply Z.ltb_lt in H
  | H : (_ <? _) = false |- _ => apply Z.ltb_ge in H
  | H : (_ <=? _) = true |- _ => apply Z.leb_le in H
  | H : (_ <=? _) = false |- _ => apply Z.leb_gt in H
  | H : (_ =? _) = true |- _ => apply Z.eqb_eq in H
  | H : (_ =? _) = false |- _ => apply Z.eqb_neq in H
  | H : (_ && _) = true |- _ => apply andb_true_iff in H as [? ?]
  | H : (_ || _) = false |- _ => apply orb_false_iff in H as [? ?]
  | H : negb _ = true |- _ => apply negb_true_iff in H
  | H : negb _ = false |- _ => apply negb_false_iff in H
  end.

(** Symbolic execution of a monadic computation under [⇓]. *)
Ltac step :=
  match goal with
  | |- Ok _ ⇓ _ => apply returns_ok
  | |- mret _ ⇓ _ => apply returns_mret
  | |- (_ ≫= _) ⇓ _ => apply returns_bind
  | |- (if ?b then _ else _) ⇓ _ => let E := fresh "E" in destruct b eqn:E
  end.
Ltac steps := repeat (step; simpl).
