(* ===== verification/Piece.v ===== *)
(** * Pieces and their tokens

    [src/src/model/position.h], [piece.h], [piece.cpp], [piece_factory.h],
    [piece_factory.cpp], [piece_token.h], [piece_token.cpp] and the constants of
    [game_config.h]: positions, pieces, the id-allocating factory, and the
    two-character token codec used by the board files and the wire format. *)

From S2P Require Import Prelude.
From Stdlib Require Import Ascii String.

(** ** Constants of [game_config.h] *)

Definition kWhiteColor : ascii := "w"%char.
Definition kBlackColor : ascii := "b"%char.
Definition kEmptyToken : ascii := "."%char.
Definition kKingType : ascii := "K"%char.
Definition kQueenType : ascii := "Q"%char.
Definition kRookType : ascii := "R"%char.
Definition kBishopType : ascii := "B"%char.
Definition kKnightType : ascii := "N"%char.
Definition kPawnType : ascii := "P"%char.
Definition kMoveDurationMs : Z := 1000.
Definition kJumpDurationMs : Z := 1000.
Definition kLongRestDurationMs : Z := 4500.
Definition kShortRestDurationMs : Z := 2500.
Definition kTargetFrameMs : Z := 16.
Definition kBoardSectionHeader : string := "Board:".
Definition kCommandsSectionHeader : string := "Commands:".
Definition kPrintBoardCommand : string := "print board".
Definition kErrorUnknownToken : string := "ERROR UNKNOWN_TOKEN".
Definition kErrorRowWidthMismatch : string := "ERROR ROW_WIDTH_MISMATCH".

(** ** Data *)

Record Position := mkPosition { pos_row : Z; pos_col : Z }.

Inductive PieceColor := White | Black.

(** [Count] is the sentinel enumerator the tables are sized by. *)
Inductive PieceKind := King | Queen | Rook | Bishop | Knight | Pawn | Count.

Inductive PieceState := Idle | Moving | Captured.

Record Piece := mkPiece {
  p_id : Z;
  p_color : PieceColor;
  p_kind : PieceKind;
  p_cell : Position;
  p_state : PieceState
}.

Definition kInvalidId : Z := 0.

#[export] Instance Position_eq_dec : EqDecision Position.
Proof. solve_decision. Defined.
#[export] Instance PieceColor_eq_dec : EqDecision PieceColor.
Proof. solve_decision. Defined.
#[export] Instance PieceKind_eq_dec : EqDecision PieceKind.
Proof. solve_decision. Defined.
#[export] Instance PieceState_eq_dec : EqDecision PieceState.
Proof. solve_decision. Defined.
#[export] Instance Piece_eq_dec : EqDecision Piece.
Proof. solve_decision. Defined.

(** Enumerator comparison, as the compiled code does it. *)
Definition color_eqb (a b : PieceColor) : bool := bool_decide (a = b).
Definition kind_eqb (a b : PieceKind) : bool := bool_decide (a = b).

(** ** Piece predicates ([piece.cpp]) *)

Definition position_eqb (lhs rhs : Position) : bool :=
  (pos_row lhs =? pos_row rhs) && (pos_col lhs =? pos_col rhs).

Definition is_white (p : Piece) : bool := color_eqb (p_color p) White.
Definition is_black (p : Piece) : bool := color_eqb (p_color p) Black.
Definition is_same_color_as (p other : Piece) : bool :=
  negb (p_id p =? kInvalidId) && negb (p_id other =? kInvalidId)
  && color_eqb (p_color p) (p_color other).
Definition is_opponent_of (p other : Piece) : bool :=
  negb (p_id p =? kInvalidId) && negb (p_id other =? kInvalidId)
  && negb (color_eqb (p_color p) (p_color other)).
Definition piece_eqb (lhs rhs : Piece) : bool := p_id lhs =? p_id rhs.

Definition set_cell (p : Piece) (c : Position) : Piece :=
  mkPiece (p_id p) (p_color p) (p_kind p) c (p_state p).
Definition set_state (p : Piece) (s : PieceState) : Piece :=
  mkPiece (p_id p) (p_color p) (p_kind p) (p_cell p) s.
Definition set_kind (p : Piece) (k : PieceKind) : Piece :=
  mkPiece (p_id p) (p_color p) k (p_cell p) (p_state p).

(** ** [PieceFactory]: hands out consecutive 32-bit ids *)

Record PieceFactory := mkFactory { next_id_ : Z }.

Definition default_factory : PieceFactory := mkFactory 1.

Definition factory_create (f : PieceFactory) (color : PieceColor) (kind : PieceKind)
    (cell : Position) (state : PieceState) : Piece * PieceFactory :=
  (mkPiece (next_id_ f) color kind cell state, mkFactory (to_u32 (next_id_ f + 1))).

(** ** The token codec ([piece_token.cpp]) *)

Record PieceDescriptor := mkDescriptor { d_color : PieceColor; d_kind : PieceKind }.

Definition kPieceKindMappings : list (PieceKind * ascii) :=
  [(King, kKingType); (Queen, kQueenType); (Rook, kRookType);
   (Bishop, kBishopType); (Knight, kKnightType); (Pawn, kPawnType)].

(** [std::find_if] over the table. *)
Fixpoint find_if {A} (f : A -> bool) (l : list A) : option A :=
  match l with
  | [] => None
  | x :: l' => if f x then Some x else find_if f l'
  end.

Lemma find_if_elem {A} (f : A -> bool) l x : find_if f l = Some x -> x ∈ l /\ f x = true.
Proof.
  induction l as [|y l IH]; simpl; [done|]. destruct (f y) eqn:E.
  - intros [= <-]. split; [apply list_elem_of_here|done].
  - intros [? ?]%IH. split; [by apply list_elem_of_further|done].
Qed.

Definition color_to_char (color : PieceColor) : ascii :=
  match color with White => kWhiteColor | Black => kBlackColor end.

Definition kind_to_char (kind : PieceKind) : ascii :=
  match find_if (fun e => kind_eqb e.1 kind) kPieceKindMappings with
  | None => kPawnType
  | Some e => e.2
  end.

Definition color_from_char (c : ascii) : option PieceColor :=
  if Ascii.eqb c kWhiteColor then Some White
  else if Ascii.eqb c kBlackColor then Some Black
  else None.

Definition kind_from_char (c : ascii) : option PieceKind :=
  match find_if (fun e => Ascii.eqb e.2 c) kPieceKindMappings with
  | None => None
  | Some e => Some e.1
  end.

Definition is_empty_token (token : string) : bool :=
  match token with
  | String c EmptyString => Ascii.eqb c kEmptyToken
  | _ => false
  end.

Definition is_valid_token (token : string) : bool :=
  if is_empty_token token then true
  else match token with
  | String c0 (String c1 EmptyString) =>
      match color_from_char c0 with
      | None => false
      | Some _ => match kind_from_char c1 with Some _ => true | None => false end
      end
  | _ => false
  end.

Definition descriptor_from_token (token : string) : option PieceDescriptor :=
  if is_empty_token token then None
  else if negb (is_valid_token token) then None
  else match token with
  | String c0 (String c1 _) =>
      match color_from_char c0, kind_from_char c1 with
      | Some color, Some kind => Some (mkDescriptor color kind)
      | _, _ => None
      end
  | _ => None
  end.

Definition to_token (color : PieceColor) (kind : PieceKind) : string :=
  String (color_to_char color) (String (kind_to_char kind) EmptyString).

Definition empty_token : string := String kEmptyToken EmptyString.

(** ** Lemmas *)

Lemma color_eqb_true a b : color_eqb a b = true <-> a = b.
Proof. unfold color_eqb. apply bool_decide_eq_true. Qed.

Lemma color_eqb_false a b : color_eqb a b = false <-> a <> b.
Proof. unfold color_eqb. apply bool_decide_eq_false. Qed.

Lemma is_opponent_of_true p q :
  is_opponent_of p q = true <->
  p_id p <> kInvalidId /\ p_id q <> kInvalidId /\ p_color p <> p_color q.
Proof.
  unfold is_opponent_of.
  rewrite !andb_true_iff, !negb_true_iff, !Z.eqb_neq, color_eqb_false. tauto.
Qed.

Lemma is_opponent_of_false p q :
  p_id p <> kInvalidId -> p_id q <> kInvalidId ->
  is_opponent_of p q = false <-> p_color p = p_color q.
Proof.
  intros Hp Hq. unfold is_opponent_of.
  rewrite (proj2 (Z.eqb_neq _ _) Hp), (proj2 (Z.eqb_neq _ _) Hq). simpl.
  by rewrite negb_false_iff, color_eqb_true.
Qed.

Lemma color_from_to c : color_from_char (color_to_char c) = Some c.
Proof. by destruct c. Qed.

Lemma kind_from_to k : k <> Count -> kind_from_char (kind_to_char k) = Some k.
Proof. by destruct k. Qed.

Lemma color_from_char_Some c color :
  color_from_char c = Some color -> c = color_to_char color.
Proof.
  unfold color_from_char.
  destruct (Ascii.eqb_spec c kWhiteColor) as [->|]; [by intros [= <-]|].
  destruct (Ascii.eqb_spec c kBlackColor) as [->|]; [by intros [= <-]|done].
Qed.

Lemma kind_from_char_Some c kind :
  kind_from_char c = Some kind -> c = kind_to_char kind /\ kind <> Count.
Proof.
  destruct c as [[] [] [] [] [] [] [] []]; vm_compute; try done; by intros [= <-].
Qed.

Lemma to_token_not_empty color kind : is_empty_token (to_token color kind) = false.
Proof. done. Qed.

Lemma to_token_valid color kind : is_valid_token (to_token color kind) = true.
Proof. by destruct color, kind. Qed.

Lemma descriptor_to_token color kind :
  kind <> Count ->
  descriptor_from_token (to_token color kind) = Some (mkDescriptor color kind).
Proof. by destruct color, kind. Qed.

Lemma is_empty_token_true t : is_empty_token t = true -> t = empty_token.
Proof.
  destruct t as [|c [|? ?]]; try done. simpl. intros ->%Ascii.eqb_eq. done.
Qed.

Lemma valid_token_cases t :
  is_valid_token t = true ->
  t = empty_token \/ exists color kind, kind <> Count /\ t = to_token color kind.
Proof.
  unfold is_valid_token. destruct (is_empty_token t) eqn:E.
  { left. by apply is_empty_token_true. }
  destruct t as [|c0 [|c1 [|? ?]]]; try done.
  destruct (color_from_char c0) as [color|] eqn:Ec; [|done].
  destruct (kind_from_char c1) as [kind|] eqn:Ek; [|done].
  intros _. right. exists color, kind.
  apply color_from_char_Some in Ec as ->.
  by apply kind_from_char_Some in Ek as [-> ?].
Qed.

(** ** Properties *)

(** The token codec is a bijection between playable piece descriptors and
    the valid non-empty tokens: decoding a printed token gives the descriptor
    back, and whatever decodes prints back to the very same text. *)
Lemma token_roundtrip :
  (forall color kind, kind <> Count ->
     descriptor_from_token (to_token color kind) = Some (mkDescriptor color kind)) /\
  (forall t d, descriptor_from_token t = Some d ->
     to_token (d_color d) (d_kind d) = t /\ d_kind d <> Count).
Proof.
  split; [apply descriptor_to_token|].
  intros t d. unfold descriptor_from_token.
  destruct (is_empty_token t) eqn:E; [done|].
  destruct (is_valid_token t) eqn:V; [simpl|done].
  apply valid_token_cases in V as [->|(color & kind & Hk & ->)]; [done|].
  unfold to_token. rewrite color_from_to, kind_from_to by done.
  intros [= <-]. done.
Qed.
