(* ===== verification/BoardModel.v ===== *)
(** * The board

    [src/src/model/board_model.h] and [board_model.cpp]: a grid of piece ids and
    a store of pieces indexed by id.  Subscripts the source leaves unchecked are
    [Undefined] here when they are out of range, and [store_piece]/[get_piece]
    throw as they do in the source.

    Modelled state: [cells_] is the vector of rows of optional ids, [pieces_] the
    vector of pieces; the piece with id [k] is [pieces_[k-1]]. *)

From S2P Require Import Prelude Piece.
From Stdlib Require Import Ascii String.

(** ** State *)

Record BoardModel := mkBoard {
  cells_ : list (list (option Z));
  pieces_ : list Piece
}.

Definition empty_board : BoardModel := mkBoard [] [].

(** [cells_[row][col]] as an option. *)
Definition grid_get (g : list (list (option Z))) (r c : Z) : option (option Z) :=
  line ← vat g r; vat line c.

(** [cells_[row][col] = v]. *)
Definition grid_set (g : list (list (option Z))) (r c : Z) (v : option Z) :
    list (list (option Z)) :=
  match vat g r with
  | Some line => vset g r (vset line c v)
  | None => g
  end.

(** ** Queries *)

Definition rows (b : BoardModel) : Z := vlen (cells_ b).
Definition cols (b : BoardModel) : Z :=
  match cells_ b with [] => 0 | front :: _ => vlen front end.

Definition is_in_bounds (b : BoardModel) (r c : Z) : bool :=
  match cells_ b with
  | [] => false
  | front :: _ => (r <? vlen (cells_ b)) && (c <? vlen front)
  end.

Definition contains (b : BoardModel) (r c : Z) : bool :=
  if (r <? 0) || (c <? 0) then false else is_in_bounds b (to_size r) (to_size c).

Definition is_valid (b : BoardModel) : bool :=
  match cells_ b with
  | [] => false
  | front :: _ =>
      let width := vlen front in
      if width =? 0 then false else forallb (fun line => vlen line =? width) (cells_ b)
  end.

Definition cell_ref (b : BoardModel) (r c : Z) : res (option Z) :=
  deref (grid_get (cells_ b) r c).

Definition is_empty (b : BoardModel) (r c : Z) : res bool :=
  o ← cell_ref b r c; Ok (match o with Some _ => false | None => true end).

Definition find_piece_by_id (b : BoardModel) (id : Z) : option Piece :=
  if (id =? kInvalidId) || (vlen (pieces_ b) <? id) then None
  else vat (pieces_ b) (id - 1).

Definition piece_at (b : BoardModel) (r c : Z) : res (option Piece) :=
  if negb (is_in_bounds b r c) then Ok None
  else
    o ← cell_ref b r c;
    match o with
    | None => Ok None
    | Some id => Ok (find_piece_by_id b id)
    end.

Definition get_piece (b : BoardModel) (id : Z) : res Piece :=
  if (id =? kInvalidId) || (vlen (pieces_ b) <? id) then Err OutOfRange
  else deref (vat (pieces_ b) (id - 1)).

Definition token_at (b : BoardModel) (r c : Z) : res string :=
  piece ← piece_at b r c;
  match piece with
  | None => Ok empty_token
  | Some p => Ok (to_token (p_color p) (p_kind p))
  end.

Definition next_piece_id (b : BoardModel) : Z := to_u32 (vlen (pieces_ b) + 1).

(** ** Mutation *)

(** Assignment through the reference [get_piece(id)] returns. *)
Definition update_piece (b : BoardModel) (id : Z) (f : Piece -> Piece) : res BoardModel :=
  p ← get_piece b id;
  Ok (mkBoard (cells_ b) (vset (pieces_ b) (id - 1) (f p))).

(** Assignment through the unchecked subscript [cells_[row][col]]. *)
Definition write_cell (b : BoardModel) (r c : Z) (v : option Z) : res BoardModel :=
  _ ← cell_ref b r c;
  Ok (mkBoard (grid_set (cells_ b) r c v) (pieces_ b)).

Definition store_piece (b : BoardModel) (piece : Piece) : res BoardModel :=
  let n := vlen (pieces_ b) in
  if (p_id piece =? kInvalidId) || (n + 1 <? p_id piece) then Err InvalidArgument
  else if p_id piece =? n + 1 then Ok (mkBoard (cells_ b) (pieces_ b ++ [piece]))
  else Ok (mkBoard (cells_ b) (vset (pieces_ b) (p_id piece - 1) piece)).

Definition place_piece_at (b : BoardModel) (r c : Z) (piece : Piece) : res BoardModel :=
  let piece' := set_cell piece (mkPosition (to_int r) (to_int c)) in
  b' ← store_piece b piece';
  write_cell b' r c (Some (p_id piece)).

Definition place_piece (b : BoardModel) (piece : Piece) : res BoardModel :=
  place_piece_at b (to_size (pos_row (p_cell piece))) (to_size (pos_col (p_cell piece))) piece.

Definition remove_piece_at (b : BoardModel) (r c : Z) : res BoardModel :=
  o ← cell_ref b r c;
  b' ← match o with
       | Some id => update_piece b id (fun p => set_state p Captured)
       | None => Ok b
       end;
  write_cell b' r c None.

Definition clear_cell (b : BoardModel) (r c : Z) : res BoardModel := write_cell b r c None.

(** ** Construction from tokens *)

(** One iteration of the loop of [append_token_row]: the board, the factory, the
    row under construction and the column counter. *)
Definition append_token (row_index : Z) (token : string)
    (s : BoardModel * PieceFactory * list (option Z) * Z) :
    res (BoardModel * PieceFactory * list (option Z) * Z) :=
  let '(b, factory, cell_row, col_index) := s in
  if is_empty_token token then Ok (b, factory, cell_row ++ [None], col_index + 1)
  else
    descriptor ← deref (descriptor_from_token token);
    let '(piece, factory') :=
      factory_create factory (d_color descriptor) (d_kind descriptor)
        (mkPosition (to_int row_index) (to_int col_index)) Idle in
    b' ← store_piece b piece;
    back ← deref (last (pieces_ b'));
    Ok (b', factory', cell_row ++ [Some (p_id back)], col_index + 1).

Definition append_token_row (b : BoardModel) (tokens : list string) (row_index : Z)
    (factory : PieceFactory) : res (BoardModel * PieceFactory) :=
  s ← foldM (append_token row_index) tokens (b, factory, [], 0);
  let '(b', factory', cell_row, _) := s in
  Ok (mkBoard (cells_ b' ++ [cell_row]) (pieces_ b'), factory').

Definition from_token_grid_row (tokens : list string)
    (s : BoardModel * PieceFactory * Z) : res (BoardModel * PieceFactory * Z) :=
  let '(b, factory, row_index) := s in
  r ← append_token_row b tokens row_index factory;
  Ok (r.1, r.2, row_index + 1).

Definition from_token_grid (grid : list (list string)) : res BoardModel :=
  s ← foldM from_token_grid_row grid (empty_board, default_factory, 0);
  Ok s.1.1.

(** [operator==]: same dimensions and same tokens. *)
Definition board_eqb (lhs rhs : BoardModel) : res bool :=
  if negb (rows lhs =? rows rhs) || negb (cols lhs =? cols rhs) then Ok false
  else
    allM (fun r =>
      allM (fun c =>
        a ← token_at lhs r c;
        b ← token_at rhs r c;
        Ok (String.eqb a b)) (zrange (cols lhs)))
      (zrange (rows lhs)).

(** ** Well-formedness *)

(** Shape: a rectangular grid of [int]-sized dimensions and a store in which the
    piece with id [k] sits at index [k-1]. *)
Record board_shape (b : BoardModel) : Prop := {
  sh_rect : forall line, line ∈ cells_ b -> vlen line = cols b;
  sh_rows : rows b < 2 ^ 31;
  sh_cols : cols b < 2 ^ 31;
  sh_npieces : vlen (pieces_ b) < 2 ^ 32;
  sh_ids : forall i p, vat (pieces_ b) i = Some p -> p_id p = i + 1
}.

(** Occupancy: a cell holds the id [k] exactly when piece [k] is idle at that
    cell (the invariant stated in the comment of [board_model.h]). *)
Record board_occupancy (b : BoardModel) : Prop := {
  oc_occupied : forall r c id, grid_get (cells_ b) r c = Some (Some id) ->
    exists p, find_piece_by_id b id = Some p /\ p_cell p = mkPosition r c /\ p_state p = Idle;
  oc_idle : forall id p, find_piece_by_id b id = Some p -> p_state p = Idle ->
    grid_get (cells_ b) (pos_row (p_cell p)) (pos_col (p_cell p)) = Some (Some id)
}.

Definition board_wf (b : BoardModel) : Prop := board_shape b /\ board_occupancy b.

(** The in-bounds coordinates, as a proposition. *)
Definition inside (b : BoardModel) (r c : Z) : Prop := 0 <= r < rows b /\ 0 <= c < cols b.

(** The piece standing on a cell: the abstract view of the board. *)
Definition occupant (b : BoardModel) (r c : Z) : option Piece :=
  match grid_get (cells_ b) r c with
  | Some (Some id) => find_piece_by_id b id
  | _ => None
  end.

(** The two elementary changes every mutation is made of. *)
Definition with_cell (b : BoardModel) (r c : Z) (v : option Z) : BoardModel :=
  mkBoard (grid_set (cells_ b) r c v) (pieces_ b).
Definition with_piece (b : BoardModel) (id : Z) (p : Piece) : BoardModel :=
  mkBoard (cells_ b) (vset (pieces_ b) (id - 1) p).

(** ** Grid lemmas *)

Lemma grid_get_Some_vat g r c v :
  grid_get g r c = Some v -> exists line, vat g r = Some line /\ vat line c = Some v.
Proof. unfold grid_get. destruct (vat g r) as [line|]; naive_solver. Qed.

Lemma grid_get_set_eq g r c v o :
  grid_get g r c = Some o -> grid_get (grid_set g r c v) r c = Some v.
Proof.
  intros (line & Hr & Hc)%grid_get_Some_vat. unfold grid_get, grid_set. rewrite Hr.
  rewrite vat_vset_eq by (by eapply vat_Some_lt). simpl.
  apply vat_vset_eq. by eapply vat_Some_lt.
Qed.

Lemma grid_get_set_ne g r c v r' c' :
  (r, c) <> (r', c') -> grid_get (grid_set g r c v) r' c' = grid_get g r' c'.
Proof.
  intros Hne. unfold grid_get, grid_set. destruct (vat g r) as [line|] eqn:Hr; [|done].
  destruct (decide (r = r')) as [<-|Hrr].
  - rewrite vat_vset_eq by (by eapply vat_Some_lt). rewrite Hr. simpl.
    apply vat_vset_ne. congruence.
  - by rewrite vat_vset_ne.
Qed.

Lemma vlen_grid_set g r c v : vlen (grid_set g r c v) = vlen g.
Proof. unfold grid_set. destruct (vat g r); [apply vlen_vset|done]. Qed.

Lemma grid_set_front g r c v :
  match grid_set g r c v with [] => 0 | front :: _ => vlen front end =
  match g with [] => 0 | front :: _ => vlen front end.
Proof.
  unfold grid_set. destruct (vat g r) as [line|] eqn:Hr; [|done].
  unfold vset. destruct (Z.ltb_spec r 0) as [|Hr0]; [done|].
  destruct g as [|front g]; [done|].
  destruct (Z.to_nat r) eqn:E; simpl; [|done].
  assert (r = 0) as -> by lia. rewrite vat_cons_0 in Hr. injection Hr as ->.
  destruct (c <? 0); [done|]. unfold vlen. by rewrite length_insert.
Qed.

(** ** Elementary changes and the views *)

Lemma rows_with_cell b r c v : rows (with_cell b r c v) = rows b.
Proof. apply vlen_grid_set. Qed.

Lemma cols_with_cell b r c v : cols (with_cell b r c v) = cols b.
Proof. unfold cols, with_cell. simpl. apply grid_set_front. Qed.

Lemma rows_with_piece b id p : rows (with_piece b id p) = rows b.
Proof. done. Qed.

Lemma cols_with_piece b id p : cols (with_piece b id p) = cols b.
Proof. done. Qed.

Lemma find_with_cell b r c v id :
  find_piece_by_id (with_cell b r c v) id = find_piece_by_id b id.
Proof. done. Qed.

Lemma find_Some_range b id p : find_piece_by_id b id = Some p -> 1 <= id <= vlen (pieces_ b).
Proof.
  unfold find_piece_by_id, kInvalidId. destruct (_ || _) eqn:E; [done|]. zbool.
  intros Hv%vat_Some_lt. lia.
Qed.

Lemma find_vat b id : 1 <= id <= vlen (pieces_ b) ->
  find_piece_by_id b id = vat (pieces_ b) (id - 1).
Proof.
  intros Hid. unfold find_piece_by_id, kInvalidId.
  destruct (Z.eqb_spec id 0); [lia|]. destruct (Z.ltb_spec (vlen (pieces_ b)) id); [lia|done].
Qed.

Lemma find_with_piece_eq b id p q :
  find_piece_by_id b id = Some q -> find_piece_by_id (with_piece b id p) id = Some p.
Proof.
  intros H%find_Some_range. rewrite find_vat; simpl; rewrite ?vlen_vset; [|lia].
  apply vat_vset_eq. lia.
Qed.

Lemma find_with_piece_ne b id p id' :
  id <> id' -> find_piece_by_id (with_piece b id p) id' = find_piece_by_id b id'.
Proof.
  intros Hne. unfold find_piece_by_id. simpl. rewrite vlen_vset, vat_vset_ne by lia. done.
Qed.

Lemma cells_with_piece b id p : cells_ (with_piece b id p) = cells_ b.
Proof. done. Qed.

Lemma grid_with_cell_eq b r c v o :
  grid_get (cells_ b) r c = Some o -> grid_get (cells_ (with_cell b r c v)) r c = Some v.
Proof. apply grid_get_set_eq. Qed.

Lemma grid_with_cell_ne b r c v r' c' :
  (r, c) <> (r', c') ->
  grid_get (cells_ (with_cell b r c v)) r' c' = grid_get (cells_ b) r' c'.
Proof. apply grid_get_set_ne. Qed.

(** ** Shape *)

Lemma grid_get_inside b r c o : board_shape b -> grid_get (cells_ b) r c = Some o -> inside b r c.
Proof.
  intros Hs (line & Hr & Hc)%grid_get_Some_vat. split.
  - by apply vat_Some_lt in Hr.
  - rewrite <- (sh_rect b Hs line) by (by eapply vat_elem_of). by eapply vat_Some_lt.
Qed.

Lemma inside_grid_get b r c : board_shape b -> inside b r c ->
  exists o, grid_get (cells_ b) r c = Some o.
Proof.
  intros Hs [Hr Hc]. unfold grid_get.
  destruct (vat_lt (cells_ b) r Hr) as [line Hl]. rewrite Hl. simpl.
  apply vat_lt. rewrite (sh_rect b Hs line) by (by eapply vat_elem_of). done.
Qed.

Lemma is_in_bounds_spec b r c : 0 <= r -> 0 <= c ->
  is_in_bounds b r c = true <-> inside b r c.
Proof.
  intros Hr Hc. unfold is_in_bounds, inside, rows, cols. destruct (cells_ b) as [|front g] eqn:E.
  - unfold vlen. simpl. split; [done|lia].
  - rewrite andb_true_iff, !Z.ltb_lt. lia.
Qed.

Lemma is_in_bounds_false b r c : 0 <= r -> 0 <= c ->
  is_in_bounds b r c = false <-> ~ inside b r c.
Proof.
  intros. rewrite <- is_in_bounds_spec by done. by rewrite not_true_iff_false.
Qed.

Lemma inside_bounds b r c : inside b r c -> is_in_bounds b r c = true.
Proof. intros [Hr Hc]. apply is_in_bounds_spec; [lia..|done]. Qed.

Lemma contains_spec b r c : fits_int r -> fits_int c -> contains b r c = true <-> inside b r c.
Proof.
  unfold fits_int, contains. intros Hr Hc.
  destruct ((r <? 0) || (c <? 0)) eqn:E.
  - apply orb_true_iff in E. rewrite !Z.ltb_lt in E. unfold inside. split; [done|lia].
  - zbool. rewrite !to_size_id by lia. by apply is_in_bounds_spec.
Qed.

Lemma inside_fits b r c : board_shape b -> inside b r c -> 0 <= r < 2 ^ 31 /\ 0 <= c < 2 ^ 31.
Proof. intros Hs [Hr Hc]. pose proof (sh_rows b Hs). pose proof (sh_cols b Hs). lia. Qed.

Lemma shape_with_piece b id p : board_shape b -> p_id p = id -> board_shape (with_piece b id p).
Proof.
  intros Hs Hid. destruct Hs as [H1 H2 H3 H4 H5].
  split; simpl; rewrite ?vlen_vset; auto.
  intros i q. destruct (decide (id - 1 = i)) as [<-|Hne].
  - intros Hq. destruct (decide (0 <= id - 1 < vlen (pieces_ b))).
    + rewrite vat_vset_eq in Hq by done. injection Hq as <-. lia.
    + apply vat_Some_lt in Hq. rewrite vlen_vset in Hq. lia.
  - rewrite vat_vset_ne by done. apply H5.
Qed.

Lemma shape_with_cell b r c v : board_shape b -> board_shape (with_cell b r c v).
Proof.
  intros Hs. destruct Hs as [H1 H2 H3 H4 H5].
  split; rewrite ?rows_with_cell, ?cols_with_cell; auto.
  intros line Hin. unfold with_cell, grid_set in Hin. simpl in Hin.
  destruct (vat (cells_ b) r) as [l0|] eqn:Hr; [|by apply H1].
  apply elem_of_vat in Hin as [i Hi]. destruct (decide (r = i)) as [<-|Hne].
  - rewrite vat_vset_eq in Hi by (by eapply vat_Some_lt). injection Hi as <-.
    rewrite vlen_vset. apply H1. by eapply vat_elem_of.
  - rewrite vat_vset_ne in Hi by done. apply H1. by eapply vat_elem_of.
Qed.

Lemma find_id b id p : board_shape b -> find_piece_by_id b id = Some p -> p_id p = id.
Proof.
  intros Hs H. pose proof (find_Some_range _ _ _ H). rewrite find_vat in H by done.
  apply (sh_ids b Hs) in H. lia.
Qed.

Lemma find_id_valid b id p : board_shape b -> find_piece_by_id b id = Some p -> p_id p <> kInvalidId.
Proof.
  intros Hs H. rewrite (find_id b id p) by done. apply find_Some_range in H. unfold kInvalidId. lia.
Qed.

#[export] Hint Resolve shape_with_cell shape_with_piece : kfc.

(** ** The operations as elementary changes *)

Lemma cell_ref_ok b r c o : grid_get (cells_ b) r c = Some o -> cell_ref b r c = Ok o.
Proof. intros H. unfold cell_ref. by rewrite H. Qed.

Lemma is_empty_ok b r c o : grid_get (cells_ b) r c = Some o ->
  is_empty b r c = Ok (bool_decide (o = None)).
Proof. intros H. unfold is_empty. rewrite (cell_ref_ok _ _ _ _ H). by destruct o. Qed.

Lemma is_empty_inside b r c : board_wf b -> inside b r c ->
  is_empty b r c = Ok (bool_decide (occupant b r c = None)).
Proof.
  intros [Hs Ho] Hin. destruct (inside_grid_get b r c Hs Hin) as [o Hg].
  rewrite (is_empty_ok _ _ _ _ Hg). unfold occupant. rewrite Hg. f_equal.
  destruct o as [id|]; [|done].
  destruct (oc_occupied b Ho _ _ _ Hg) as (p & -> & _). done.
Qed.

Lemma piece_at_inside b r c : board_shape b -> inside b r c -> piece_at b r c = Ok (occupant b r c).
Proof.
  intros Hs Hin. destruct (inside_grid_get b r c Hs Hin) as [o Hg].
  unfold piece_at, occupant. rewrite (inside_bounds _ _ _ Hin), (cell_ref_ok _ _ _ _ Hg), Hg.
  by destruct o.
Qed.

Lemma occupant_outside b r c : board_shape b -> ~ inside b r c -> occupant b r c = None.
Proof.
  intros Hs Hout. unfold occupant. destruct (grid_get (cells_ b) r c) as [o|] eqn:Hg; [|done].
  by apply grid_get_inside in Hg.
Qed.

(** [piece_at] is total on a well-shaped board and reads the abstract view. *)
Lemma piece_at_ok b r c : board_shape b -> 0 <= r -> 0 <= c -> piece_at b r c = Ok (occupant b r c).
Proof.
  intros Hs Hr Hc. destruct (is_in_bounds b r c) eqn:E.
  - apply piece_at_inside; [done|]. by apply is_in_bounds_spec.
  - unfold piece_at. rewrite E. simpl.
    rewrite occupant_outside; [done..|]. by apply is_in_bounds_false.
Qed.

Lemma get_piece_ok b id p : find_piece_by_id b id = Some p -> get_piece b id = Ok p.
Proof.
  unfold find_piece_by_id, get_piece. destruct (_ || _); [done|]. by intros ->.
Qed.

Lemma update_piece_ok b id p f : find_piece_by_id b id = Some p ->
  update_piece b id f = Ok (with_piece b id (f p)).
Proof. intros H. unfold update_piece. by rewrite (get_piece_ok _ _ _ H). Qed.

Lemma write_cell_ok b r c v o : grid_get (cells_ b) r c = Some o ->
  write_cell b r c v = Ok (with_cell b r c v).
Proof. intros H. unfold write_cell. by rewrite (cell_ref_ok _ _ _ _ H). Qed.

Lemma clear_cell_ok b r c o : grid_get (cells_ b) r c = Some o ->
  clear_cell b r c = Ok (with_cell b r c None).
Proof. apply write_cell_ok. Qed.

Lemma store_existing_ok b p q : find_piece_by_id b (p_id p) = Some q ->
  store_piece b p = Ok (with_piece b (p_id p) p).
Proof.
  intros H%find_Some_range. unfold store_piece, kInvalidId.
  destruct (Z.eqb_spec (p_id p) 0); [lia|].
  destruct (Z.ltb_spec (vlen (pieces_ b) + 1) (p_id p)); [lia|]. simpl.
  destruct (Z.eqb_spec (p_id p) (vlen (pieces_ b) + 1)); [lia|done].
Qed.

Lemma place_existing_ok b r c p q : board_shape b -> inside b r c ->
  find_piece_by_id b (p_id p) = Some q ->
  place_piece_at b r c p =
    Ok (with_cell (with_piece b (p_id p) (set_cell p (mkPosition r c))) r c (Some (p_id p))).
Proof.
  intros Hs Hin Hf. destruct (inside_fits b r c Hs Hin).
  unfold place_piece_at. rewrite !to_int_id by (unfold fits_int; lia).
  rewrite (store_existing_ok _ (set_cell p _) q) by done. simpl.
  destruct (inside_grid_get b r c Hs Hin) as [o Hg].
  by rewrite (write_cell_ok _ _ _ _ o).
Qed.

Lemma place_piece_cell b r c p : board_shape b -> inside b r c -> p_cell p = mkPosition r c ->
  place_piece b p = place_piece_at b r c p.
Proof.
  intros Hs Hin Hp. destruct (inside_fits b r c Hs Hin).
  unfold place_piece. rewrite Hp. simpl. by rewrite !to_size_id by lia.
Qed.

Lemma remove_occupied_ok b r c id p :
  grid_get (cells_ b) r c = Some (Some id) -> find_piece_by_id b id = Some p ->
  remove_piece_at b r c = Ok (with_cell (with_piece b id (set_state p Captured)) r c None).
Proof.
  intros Hg Hf. unfold remove_piece_at. rewrite (cell_ref_ok _ _ _ _ Hg). simpl.
  rewrite (update_piece_ok _ _ _ _ Hf). simpl. by rewrite (write_cell_ok _ _ _ _ (Some id)).
Qed.

Lemma with_piece_twice b id p q : with_piece (with_piece b id p) id q = with_piece b id q.
Proof. unfold with_piece. simpl. by rewrite vset_vset_eq. Qed.

Lemma with_piece_comm b id id' p q : id <> id' ->
  with_piece (with_piece b id p) id' q = with_piece (with_piece b id' q) id p.
Proof. intros. unfold with_piece. simpl. rewrite vset_comm by lia. done. Qed.

Lemma with_piece_with_cell b id p r c v :
  with_piece (with_cell b r c v) id p = with_cell (with_piece b id p) r c v.
Proof. done. Qed.

Lemma occupant_Some b r c p : board_wf b -> occupant b r c = Some p ->
  grid_get (cells_ b) r c = Some (Some (p_id p)) /\ find_piece_by_id b (p_id p) = Some p /\
  p_cell p = mkPosition r c /\ p_state p = Idle /\ inside b r c.
Proof.
  intros [Hs Ho]. unfold occupant.
  destruct (grid_get (cells_ b) r c) as [[id|]|] eqn:Hg; [|done..]. intros Hf.
  rewrite (find_id b id p) by done.
  destruct (oc_occupied b Ho _ _ _ Hg) as (q & Hq & Hc & Hi). simplify_eq.
  eauto 10 using grid_get_inside.
Qed.

Lemma occupant_None_cell b r c : board_wf b -> inside b r c -> occupant b r c = None ->
  grid_get (cells_ b) r c = Some None.
Proof.
  intros [Hs Ho] Hin. unfold occupant.
  destruct (inside_grid_get b r c Hs Hin) as [[id|] Hg]; rewrite Hg; [|done].
  by destruct (oc_occupied b Ho _ _ _ Hg) as (p & -> & _).
Qed.

(** ** Occupancy of the composite changes *)

(** Taking a piece off the board: its state stops being [Idle] and its cell is
    emptied (the start of a move or jump, and a capture). *)
Lemma wf_take_off b r c id p st :
  board_wf b -> grid_get (cells_ b) r c = Some (Some id) -> find_piece_by_id b id = Some p ->
  st <> Idle ->
  board_wf (with_cell (with_piece b id (set_state p st)) r c None).
Proof.
  intros [Hs Ho] Hg Hf Hst.
  assert (p_id p = id) as Hid by (by eapply find_id).
  split; [eauto with kfc|]. split.
  - intros r' c' id' Hg'. destruct (decide ((r, c) = (r', c'))) as [[= <- <-]|Hne].
    { by rewrite (grid_with_cell_eq _ _ _ _ (Some id)) in Hg'. }
    rewrite grid_with_cell_ne in Hg' by done.
    destruct (oc_occupied b Ho _ _ _ Hg') as (q & Hq & Hc & Hi).
    destruct (oc_occupied b Ho _ _ _ Hg) as (q0 & Hq0 & Hc0 & _). simplify_eq.
    exists q. rewrite find_with_cell, find_with_piece_ne; [done|].
    intros <-. congruence.
  - intros id' q Hq Hi. rewrite find_with_cell in Hq.
    destruct (decide (id = id')) as [<-|Hne].
    { rewrite (find_with_piece_eq _ _ _ p) in Hq by done. by simplify_eq. }
    rewrite find_with_piece_ne in Hq by done.
    pose proof (oc_idle b Ho _ _ Hq Hi) as Hgq.
    rewrite grid_with_cell_ne; [done|]. intros [= -> ->]. simplify_eq.
Qed.

(** Putting an off-board piece on an empty cell. *)
Lemma wf_put_on b r c id p q :
  board_wf b -> grid_get (cells_ b) r c = Some None -> find_piece_by_id b id = Some q ->
  p_state q <> Idle -> p_id p = id -> p_cell p = mkPosition r c -> p_state p = Idle ->
  board_wf (with_cell (with_piece b id p) r c (Some id)).
Proof.
  intros [Hs Ho] Hg Hf Hq Hid Hcell Hst. split; [eauto with kfc|]. split.
  - intros r' c' id' Hg'. destruct (decide ((r, c) = (r', c'))) as [[= <- <-]|Hne].
    + rewrite (grid_with_cell_eq _ _ _ _ None) in Hg' by done. injection Hg' as <-.
      exists p. by rewrite find_with_cell, (find_with_piece_eq _ _ _ q).
    + rewrite grid_with_cell_ne in Hg' by done.
      destruct (oc_occupied b Ho _ _ _ Hg') as (p' & Hp' & Hc' & Hi').
      exists p'. rewrite find_with_cell, find_with_piece_ne; [done|]. intros <-. congruence.
  - intros id' p' Hp' Hi. rewrite find_with_cell in Hp'.
    destruct (decide (id = id')) as [<-|Hne].
    + rewrite (find_with_piece_eq _ _ _ q) in Hp' by done. injection Hp' as <-.
      rewrite Hcell. cbn [pos_row pos_col]. by rewrite (grid_with_cell_eq _ _ _ _ None).
    + rewrite find_with_piece_ne in Hp' by done.
      pose proof (oc_idle b Ho _ _ Hp' Hi) as Hg'.
      rewrite grid_with_cell_ne; [done|]. intros [= -> ->]. simplify_eq.
Qed.

(** ** Construction from tokens: lemmas *)

(** The token shown by a cell content, and the whole board as tokens. *)
Definition cell_token (pieces : list Piece) (o : option Z) : string :=
  match o with
  | None => empty_token
  | Some id =>
      match find_piece_by_id (mkBoard [] pieces) id with
      | None => empty_token
      | Some p => to_token (p_color p) (p_kind p)
      end
  end.

Definition line_tokens (pieces : list Piece) (line : list (option Z)) : list string :=
  cell_token pieces <$> line.

Definition token_rows (b : BoardModel) : list (list string) :=
  line_tokens (pieces_ b) <$> cells_ b.

Lemma token_at_ok b r c o : board_shape b -> grid_get (cells_ b) r c = Some o ->
  token_at b r c = Ok (cell_token (pieces_ b) o).
Proof.
  intros Hs Hg. unfold token_at. rewrite piece_at_inside by eauto using grid_get_inside.
  unfold occupant. rewrite Hg. destruct o as [id|]; [|done]. simpl.
  change (find_piece_by_id (mkBoard [] (pieces_ b)) id) with (find_piece_by_id b id).
  by destruct (find_piece_by_id b id).
Qed.

Lemma vat_fmap {A B} (f : A -> B) l i : vat (f <$> l) i = f <$> vat l i.
Proof. unfold vat. destruct (i <? 0); [done|]. apply list_lookup_fmap. Qed.

Lemma vlen_fmap {A B} (f : A -> B) l : vlen (f <$> l) = vlen l.
Proof. unfold vlen. by rewrite length_fmap. Qed.

Lemma token_rows_at b r c o : grid_get (cells_ b) r c = Some o ->
  vat (token_rows b) r ≫= (fun toks => vat toks c) = Some (cell_token (pieces_ b) o).
Proof.
  intros (line & Hr & Hc)%grid_get_Some_vat. unfold token_rows.
  rewrite vat_fmap, Hr. simpl. unfold line_tokens. by rewrite vat_fmap, Hc.
Qed.

Lemma find_append pieces p id : id <= vlen pieces ->
  find_piece_by_id (mkBoard [] (pieces ++ [p])) id = find_piece_by_id (mkBoard [] pieces) id.
Proof.
  intros Hid. unfold find_piece_by_id, kInvalidId. simpl.
  rewrite vlen_snoc.
  destruct (Z.eqb_spec id 0); [done|].
  destruct (Z.ltb_spec (vlen pieces + 1) id), (Z.ltb_spec (vlen pieces) id); try lia.
  simpl. rewrite vat_app_l by lia. done.
Qed.

Lemma find_appended pieces p :
  find_piece_by_id (mkBoard [] (pieces ++ [p])) (vlen pieces + 1) = Some p.
Proof.
  pose proof (vlen_nonneg pieces). rewrite find_vat; simpl.
  - replace (vlen pieces + 1 - 1) with (vlen pieces) by lia. apply vat_app_last.
  - rewrite vlen_snoc. lia.
Qed.

Lemma find_ignores_cells g g' pieces id :
  find_piece_by_id (mkBoard g pieces) id = find_piece_by_id (mkBoard g' pieces) id.
Proof. done. Qed.

Lemma vat_snoc {A} (l : list A) x i :
  vat (l ++ [x]) i = if decide (i = vlen l) then Some x else vat l i.
Proof.
  case_decide as H; [subst; apply vat_app_last|].
  destruct (decide (i < vlen l)); [by apply vat_app_l|].
  destruct (vat l i) eqn:E; [apply vat_Some_lt in E; lia|].
  apply vat_None. rewrite vlen_snoc. lia.
Qed.

Lemma grid_get_snoc_cell g line v r c :
  grid_get (g ++ [line ++ [v]]) r c =
  if decide (r = vlen g /\ c = vlen line) then Some v else grid_get (g ++ [line]) r c.
Proof.
  unfold grid_get. rewrite !vat_snoc. destruct (decide (r = vlen g)) as [->|Hr].
  - simpl. rewrite vat_snoc. repeat case_decide; naive_solver.
  - case_decide; naive_solver.
Qed.

Lemma grid_get_snoc_nil g r c : grid_get (g ++ [[]]) r c = grid_get g r c.
Proof.
  unfold grid_get. rewrite vat_snoc. case_decide as H; [|done]. subst. simpl.
  destruct (vat g (vlen g)) eqn:E; [apply vat_Some_lt in E; lia|].
  unfold vat. by destruct (c <? 0).
Qed.

(** The loop invariant of [append_token_row]: [b] is the board before the row,
    [line] the row so far and [done] the tokens consumed. *)
Record build_inv (g0 : list (list (option Z))) (toks0 : list (list string))
    (done : list string) (s : BoardModel * PieceFactory * list (option Z) * Z) : Prop := {
  bi_cells : cells_ s.1.1.1 = g0;
  bi_next : next_id_ s.1.1.2 = vlen (pieces_ s.1.1.1) + 1;
  bi_col : s.2 = vlen s.1.2;
  bi_ids : forall i p, vat (pieces_ s.1.1.1) i = Some p -> p_id p = i + 1;
  bi_occ : board_occupancy (mkBoard (g0 ++ [s.1.2]) (pieces_ s.1.1.1));
  bi_line : line_tokens (pieces_ s.1.1.1) s.1.2 = done;
  bi_prev : line_tokens (pieces_ s.1.1.1) <$> g0 = toks0
}.

(** Appending a piece changes no token already shown. *)
Lemma cell_token_append g pieces p (o : option Z) r c :
  board_occupancy (mkBoard g pieces) -> grid_get g r c = Some o ->
  cell_token (pieces ++ [p]) o = cell_token pieces o.
Proof.
  intros Ho Hg. destruct o as [id|]; [|done]. unfold cell_token.
  destruct (oc_occupied _ Ho _ _ _ Hg) as (q & Hq & _).
  apply find_Some_range in Hq. simpl in Hq. rewrite find_append; [done|lia].
Qed.

Lemma line_token_append g line pieces p r :
  board_occupancy (mkBoard g pieces) -> vat g r = Some line ->
  line_tokens (pieces ++ [p]) line = line_tokens pieces line.
Proof.
  intros Ho Hr. apply list_fmap_ext. intros i o Ho'.
  eapply (cell_token_append g _ _ _ r (Z.of_nat i)); [done|].
  unfold grid_get. rewrite Hr. simpl. unfold vat.
  destruct (Z.ltb_spec (Z.of_nat i) 0); [lia|]. by rewrite Nat2Z.id.
Qed.

(** The occupancy of the board with one more piece at the end of its last row. *)
Lemma occupancy_append g line pieces p :
  board_occupancy (mkBoard (g ++ [line]) pieces) ->
  p_cell p = mkPosition (vlen g) (vlen line) -> p_state p = Idle ->
  board_occupancy (mkBoard (g ++ [line ++ [Some (vlen pieces + 1)]]) (pieces ++ [p])).
Proof.
  intros Ho Hc Hst. split; simpl.
  - intros r c id. rewrite grid_get_snoc_cell. case_decide as Hd.
    + destruct Hd as [-> ->]. intros [= <-]. exists p.
      by rewrite (find_ignores_cells _ []), find_appended.
    + intros Hg. destruct (oc_occupied _ Ho _ _ _ Hg) as (q & Hq & ? & ?). exists q.
      rewrite (find_ignores_cells _ []), find_append; [done|].
      apply find_Some_range in Hq. simpl in Hq. lia.
  - intros id q Hq Hi. rewrite (find_ignores_cells _ []) in Hq.
    destruct (decide (id = vlen pieces + 1)) as [->|Hne].
    + rewrite find_appended in Hq. injection Hq as <-. rewrite Hc, grid_get_snoc_cell.
      simpl. by rewrite decide_True.
    + assert (id <= vlen pieces) as Hle.
      { apply find_Some_range in Hq. simpl in Hq.
        rewrite vlen_snoc in Hq. lia. }
      rewrite find_append in Hq by done. rewrite grid_get_snoc_cell.
      pose proof (oc_idle _ Ho id q Hq Hi) as Hg. simpl in Hg.
      case_decide as Hd; [|done]. destruct Hd as [Hd1 Hd2]. exfalso.
      rewrite Hd1, Hd2 in Hg. unfold grid_get in Hg. rewrite vat_snoc, decide_True in Hg by done.
      simpl in Hg. apply vat_Some_lt in Hg. lia.
Qed.

Lemma occupancy_append_empty g line pieces :
  board_occupancy (mkBoard (g ++ [line]) pieces) ->
  board_occupancy (mkBoard (g ++ [line ++ [None]]) pieces).
Proof.
  intros Ho. split; simpl.
  - intros r c id. rewrite grid_get_snoc_cell. case_decide; [done|].
    apply (oc_occupied _ Ho).
  - intros id q Hq Hi. pose proof (oc_idle _ Ho id q Hq Hi) as Hg. simpl in Hg.
    rewrite grid_get_snoc_cell. case_decide as Hd; [|done]. destruct Hd as [Hd1 Hd2]. exfalso.
    rewrite Hd1, Hd2 in Hg. unfold grid_get in Hg. rewrite vat_snoc, decide_True in Hg by done.
    simpl in Hg. apply vat_Some_lt in Hg. lia.
Qed.

Lemma append_token_step g0 toks0 consumed token s row_index :
  build_inv g0 toks0 consumed s -> is_valid_token token = true ->
  row_index = vlen g0 -> row_index < 2 ^ 31 -> s.2 < 2 ^ 31 - 1 ->
  vlen (pieces_ s.1.1.1) < 2 ^ 32 - 2 ->
  append_token row_index token s ⇓ (fun s' =>
    build_inv g0 toks0 (consumed ++ [token]) s' /\ s'.2 = s.2 + 1 /\
    vlen (pieces_ s'.1.1.1) <= vlen (pieces_ s.1.1.1) + 1).
Proof.
  destruct s as [[[b f] line] ci]. intros [Hg Hn Hc Hids Hocc Hline Hprev] Htok Hri Hr31 Hc31 Hp32.
  simpl in *. pose proof (vlen_nonneg (pieces_ b)) as Hp0.
  pose proof (vlen_nonneg line) as Hl0. pose proof (vlen_nonneg g0) as Hg0.
  apply valid_token_cases in Htok as [->|(color & kind & Hk & ->)].
  - simpl. split; [|simpl; lia]. split; simpl; auto.
    + rewrite vlen_snoc. lia.
    + by apply occupancy_append_empty.
    + unfold line_tokens in *. by rewrite fmap_app, Hline.
  - rewrite to_token_not_empty, descriptor_to_token by done. simpl.
    rewrite !to_int_id by (unfold fits_int; lia).
    set (p := mkPiece (next_id_ f) color kind (mkPosition row_index ci) Idle).
    assert (store_piece b p = Ok (mkBoard (cells_ b) (pieces_ b ++ [p]))) as ->.
    { unfold store_piece, p, kInvalidId. simpl. rewrite Hn.
      destruct (Z.eqb_spec (vlen (pieces_ b) + 1) 0); [lia|].
      destruct (Z.ltb_spec (vlen (pieces_ b) + 1) (vlen (pieces_ b) + 1)); [lia|]. simpl.
      by rewrite Z.eqb_refl. }
    simpl. rewrite last_snoc. simpl. rewrite Hn.
    split; [|rewrite vlen_snoc; lia]. split; simpl; auto.
    + rewrite vlen_snoc. apply wrap_u_id. lia.
    + rewrite vlen_snoc. lia.
    + intros i q. rewrite vat_snoc. case_decide as Hi; [|apply Hids].
      intros [= <-]. simpl. lia.
    + apply occupancy_append; [done| |done]. simpl. by rewrite Hri, Hc.
    + unfold line_tokens. rewrite fmap_app. f_equal.
      * rewrite <- Hline. eapply (line_token_append _ _ _ _ (vlen g0)); [done|].
        by apply vat_app_last.
      * simpl. by rewrite find_appended.
    + rewrite <- Hprev. apply list_fmap_ext. intros i l0 Hl.
      eapply (line_token_append _ _ _ _ (Z.of_nat i)); [done|].
      rewrite vat_app_l by (apply lookup_lt_Some in Hl; unfold vlen; lia).
      unfold vat. destruct (Z.ltb_spec (Z.of_nat i) 0); [lia|]. by rewrite Nat2Z.id.
Qed.

Lemma append_tokens_loop g0 toks0 tokens row_index consumed s :
  build_inv g0 toks0 consumed s -> Forall (fun t => is_valid_token t = true) tokens ->
  row_index = vlen g0 -> row_index < 2 ^ 31 ->
  s.2 + vlen tokens < 2 ^ 31 -> vlen (pieces_ s.1.1.1) + vlen tokens < 2 ^ 32 - 1 ->
  foldM (append_token row_index) tokens s ⇓ (fun s' =>
    build_inv g0 toks0 (consumed ++ tokens) s' /\
    vlen (pieces_ s'.1.1.1) <= vlen (pieces_ s.1.1.1) + vlen tokens).
Proof.
  intros Hb Hv Hri Hr Hc Hp. revert consumed s Hb Hc Hp.
  induction Hv as [|t tokens Ht Hv IH]; intros consumed s Hb Hc Hp; simpl.
  - rewrite app_nil_r. split; [done|]. rewrite vlen_nil. lia.
  - rewrite vlen_cons in Hc, Hp. pose proof (vlen_nonneg tokens).
    apply returns_bind. eapply returns_mono.
    { apply (append_token_step g0 toks0 consumed); [done..|lia|lia]. }
    intros s' (Hb' & Hc' & Hp').
    eapply returns_mono; [apply (IH (consumed ++ [t]) s' Hb'); lia|].
    intros s'' [H1 H2]. rewrite <- app_assoc in H1. split; [done|]. rewrite vlen_cons. lia.
Qed.

(** A board under construction: every row so far is in place. *)
Record built (toks : list (list string)) (b : BoardModel) (f : PieceFactory) : Prop := {
  bt_next : next_id_ f = vlen (pieces_ b) + 1;
  bt_ids : forall i p, vat (pieces_ b) i = Some p -> p_id p = i + 1;
  bt_occ : board_occupancy b;
  bt_rows : token_rows b = toks
}.

Lemma built_init : built [] empty_board default_factory.
Proof.
  split; try done.
  - intros i p H. apply vat_Some_lt in H. unfold vlen in H. simpl in H. lia.
  - split; simpl.
    + intros r c id H%grid_get_Some_vat. destruct H as (l & H & _).
      apply vat_Some_lt in H. unfold vlen in H. simpl in H. lia.
    + intros id p H%find_Some_range. unfold vlen in H. simpl in H. lia.
Qed.

Lemma append_token_row_built toks b f tokens :
  built toks b f -> Forall (fun t => is_valid_token t = true) tokens ->
  rows b < 2 ^ 31 -> vlen tokens < 2 ^ 31 -> vlen (pieces_ b) + vlen tokens < 2 ^ 32 - 1 ->
  append_token_row b tokens (rows b) f ⇓ (fun r =>
    built (toks ++ [tokens]) r.1 r.2 /\
    vlen (pieces_ r.1) <= vlen (pieces_ b) + vlen tokens).
Proof.
  intros [Hn Hids Ho Ht] Hv Hr Hc Hp. unfold append_token_row.
  apply returns_bind. eapply returns_mono.
  { apply (append_tokens_loop (cells_ b) toks tokens (rows b) []); simpl; [|done..].
    split; simpl; try done. split; simpl.
    - intros r c id. rewrite grid_get_snoc_nil. apply (oc_occupied _ Ho).
    - intros id p. rewrite grid_get_snoc_nil. apply (oc_idle _ Ho). }
  intros [[[b' f'] line] ci] [[Hg' Hn' Hc' Hids' Hocc' Hline' Hprev'] Hp']. simpl in *.
  split; [|done]. split; simpl; try done; [by rewrite Hg'|].
  unfold token_rows. simpl. rewrite Hg', fmap_app, Hprev'. by rewrite <- Hline'.
Qed.

(** The number of cells of a token grid bounds the number of pieces. *)
Definition cell_count (grid : list (list string)) : Z :=
  vlen (List.concat grid).

Definition tokens_valid (grid : list (list string)) : Prop :=
  Forall (Forall (fun t => is_valid_token t = true)) grid.

(** The dimensions fit the C++ types: [int] rows and columns, 32-bit ids. *)
Definition grid_fits (grid : list (list string)) : Prop :=
  vlen grid < 2 ^ 31 /\ Forall (fun l => vlen l < 2 ^ 31) grid /\ cell_count grid < 2 ^ 32 - 1.

Lemma from_token_grid_loop grid toks b f :
  built toks b f -> tokens_valid grid ->
  rows b + vlen grid < 2 ^ 31 -> Forall (fun l => vlen l < 2 ^ 31) grid ->
  vlen (pieces_ b) + cell_count grid < 2 ^ 32 - 1 ->
  foldM from_token_grid_row grid (b, f, rows b) ⇓ (fun s =>
    built (toks ++ grid) s.1.1 s.1.2 /\
    vlen (pieces_ s.1.1) <= vlen (pieces_ b) + cell_count grid).
Proof.
  intros Hb Hv Hr Hc Hp. revert toks b f Hb Hr Hp.
  induction grid as [|l grid IH]; intros toks b f Hb Hr Hp; simpl.
  { rewrite app_nil_r. split; [done|]. unfold cell_count. simpl. rewrite vlen_nil. lia. }
  apply Forall_cons in Hv as [Hv1 Hv2]. apply Forall_cons in Hc as [Hc1 Hc2].
  rewrite vlen_cons in Hr. unfold cell_count in *. simpl in *. rewrite vlen_app in *.
  pose proof (vlen_nonneg (List.concat grid)). pose proof (vlen_nonneg grid).
  pose proof (vlen_nonneg l).
  apply returns_bind. apply returns_bind. eapply returns_mono.
  { apply (append_token_row_built toks); [done..|lia|done|lia]. }
  intros [b' f'] [Hb' Hp']. simpl in *.
  assert (rows b' = rows b + 1) as Hrows.
  { pose proof (bt_rows _ _ _ Hb') as Hr1. pose proof (bt_rows _ _ _ Hb) as Hr2.
    apply (f_equal vlen) in Hr1, Hr2. rewrite vlen_snoc in Hr1. unfold token_rows in *.
    rewrite !vlen_fmap in *. unfold rows. lia. }
  rewrite <- Hrows. eapply returns_mono; [apply (IH Hv2 Hc2 (toks ++ [l])); [done|lia..]|].
  intros s [Hs1 Hs2]. rewrite <- app_assoc in Hs1. split; [done|lia].
Qed.

Definition rectangular (grid : list (list string)) : Prop :=
  forall l, l ∈ grid -> vlen l = match grid with [] => 0 | front :: _ => vlen front end.

Lemma built_wf toks b f : built toks b f -> rectangular toks ->
  vlen toks < 2 ^ 31 -> Forall (fun l => vlen l < 2 ^ 31) toks -> vlen (pieces_ b) < 2 ^ 32 ->
  board_wf b.
Proof.
  intros [Hn Hids Ho Ht] Hrect Hr Hc Hp. split; [|done].
  assert (cols b = match toks with [] => 0 | front :: _ => vlen front end) as Hcols.
  { rewrite <- Ht. unfold token_rows, cols. destruct (cells_ b); simpl; [done|].
    unfold line_tokens. by rewrite vlen_fmap. }
  split; auto.
  - intros line Hl. rewrite Hcols, <- (Hrect (line_tokens (pieces_ b) line)).
    + unfold line_tokens. by rewrite vlen_fmap.
    + rewrite <- Ht. unfold token_rows. by apply list_elem_of_fmap_2.
  - rewrite <- Ht in Hr. unfold token_rows in Hr. by rewrite vlen_fmap in Hr.
  - rewrite Hcols. destruct toks as [|front toks']; [lia|]. by apply Forall_cons in Hc as [? _].
Qed.

Lemma from_token_grid_built grid : tokens_valid grid -> grid_fits grid ->
  from_token_grid grid ⇓ (fun b => token_rows b = grid /\
    (exists f, built grid b f) /\ vlen (pieces_ b) < 2 ^ 32).
Proof.
  intros Hv (Hr & Hc & Hp). unfold from_token_grid. apply returns_bind.
  change 0 with (rows empty_board).
  eapply returns_mono; [apply (from_token_grid_loop grid []); [apply built_init|done|done|done|done]|].
  intros [[b f] ri] [Hb Hle]. simpl in *. split; [apply (bt_rows _ _ _ Hb)|].
  change (vlen []) with 0 in Hle. split; [by exists f|lia].
Qed.

Lemma token_at_rows b r c toks tok : board_shape b ->
  vat (token_rows b) r = Some toks -> vat toks c = Some tok -> token_at b r c = Ok tok.
Proof.
  intros Hs Hr Hc. unfold token_rows in Hr. rewrite vat_fmap in Hr.
  destruct (vat (cells_ b) r) as [line|] eqn:Hl; [|done]. injection Hr as <-.
  unfold line_tokens in Hc. rewrite vat_fmap in Hc.
  destruct (vat line c) as [o|] eqn:Ho; [|done]. injection Hc as <-.
  apply token_at_ok; [done|]. unfold grid_get. by rewrite Hl.
Qed.

Lemma from_token_grid_wf grid b : tokens_valid grid -> rectangular grid -> grid_fits grid ->
  from_token_grid grid = Ok b -> board_wf b.
Proof.
  intros Hv Hrect Hfit Hb. pose proof (from_token_grid_built grid Hv Hfit) as H.
  rewrite Hb in H. destruct H as (_ & [f Hbt] & Hp). destruct Hfit as (Hr & Hc & _).
  by eapply built_wf.
Qed.

(** Boolean versions of the side conditions, to discharge them by evaluation. *)
Definition grid_okb (grid : list (list string)) : bool :=
  forallb (forallb is_valid_token) grid
  && forallb (fun l => vlen l =? match grid with [] => 0 | front :: _ => vlen front end) grid
  && (vlen grid <? 2 ^ 31) && forallb (fun l => vlen l <? 2 ^ 31) grid
  && (cell_count grid <? 2 ^ 32 - 1).

Lemma grid_okb_sound grid : grid_okb grid = true ->
  tokens_valid grid /\ rectangular grid /\ grid_fits grid.
Proof.
  unfold grid_okb, tokens_valid, rectangular, grid_fits. intros H.
  rewrite !andb_true_iff, !forallb_forall, !Z.ltb_lt in H.
  destruct H as ((((H1 & H2) & H3) & H4) & H5). rewrite !Forall_forall. split_and!; try done.
  - intros l Hl. rewrite Forall_forall. intros t Ht.
    apply list_elem_of_In in Hl, Ht. specialize (H1 l Hl). rewrite forallb_forall in H1. auto.
  - intros l Hl%list_elem_of_In. by apply Z.eqb_eq, H2.
  - intros l Hl%list_elem_of_In. by apply Z.ltb_lt, H4.
Qed.

Lemma board_of_tokens_wf grid b : grid_okb grid = true -> from_token_grid grid = Ok b -> board_wf b.
Proof. intros (H1 & H2 & H3)%grid_okb_sound Hb. by apply (from_token_grid_wf grid). Qed.

(** The result of a construction that is known to succeed. *)
Definition board_of (grid : list (list string)) : BoardModel :=
  match from_token_grid grid with Ok b => b | Err _ => empty_board end.

Lemma board_of_wf grid : grid_okb grid = true -> board_wf (board_of grid).
Proof.
  intros Hok. destruct (grid_okb_sound grid Hok) as (H1 & H2 & H3).
  pose proof (from_token_grid_built grid H1 H3) as Hb. unfold board_of.
  destruct (from_token_grid grid) as [b|] eqn:E; [|done]. by eapply board_of_tokens_wf.
Qed.

(** Construction leaves every piece idle. *)
Definition all_idle (b : BoardModel) : Prop := Forall (fun p => p_state p = Idle) (pieces_ b).

Lemma append_token_row_idle b tokens r f x :
  all_idle b -> append_token_row b tokens r f = Ok x -> all_idle x.1.
Proof.
  intros Hi Hx. unfold append_token_row in Hx.
  apply bind_Ok_inv in Hx as ([[[b2 f2] line] ci] & Hx & [= <-]). simpl.
  pose proof (foldM_Ok_inv (append_token r) (fun s => all_idle s.1.1.1) tokens
    (b, f, [], 0) (b2, f2, line, ci)) as Hfold. apply Hfold; [|done|done].
  clear. intros t [[[b f] l] c] s' Hi. unfold append_token.
  destruct (is_empty_token t); [by intros [= <-]|].
  intros (d & _ & Hx)%bind_Ok_inv. destruct (factory_create _ _ _ _ _) as [p f'] eqn:Ef.
  injection Ef as <- <-. apply bind_Ok_inv in Hx as (b' & Hs & Hx).
  apply bind_Ok_inv in Hx as (back & _ & [= <-]). simpl in *. unfold all_idle in *.
  unfold store_piece in Hs. repeat case_match; try done; injection Hs as <-; simpl.
  - apply Forall_app. split; [done|]. by apply Forall_singleton.
  - unfold vset. case_match; [done|]. by apply Forall_insert.
Qed.

Lemma from_token_grid_idle grid b : from_token_grid grid = Ok b -> all_idle b.
Proof.
  unfold from_token_grid. intros ([[b0 f0] r0] & Hf & [= <-])%bind_Ok_inv. simpl.
  pose proof (foldM_Ok_inv from_token_grid_row (fun s => all_idle s.1.1) grid
    (empty_board, default_factory, 0) (b0, f0, r0)) as Hrows.
  apply Hrows; [|by apply Forall_nil|done]. clear.
  intros tokens [[b1 f1] r1] s' Hi (x & Hx & [= <-])%bind_Ok_inv. simpl in *.
  by eapply append_token_row_idle.
Qed.

Lemma all_idle_find b id p : all_idle b -> find_piece_by_id b id = Some p -> p_state p = Idle.
Proof.
  intros Hi. unfold find_piece_by_id. case_match; [done|]. intros Hv%vat_elem_of.
  unfold all_idle in Hi. rewrite Forall_forall in Hi. auto.
Qed.

Lemma board_of_idle grid : all_idle (board_of grid).
Proof.
  unfold board_of. destruct (from_token_grid grid) eqn:E; [by eapply from_token_grid_idle|].
  apply Forall_nil. done.
Qed.

(** ** Properties *)

(** Building a board from a rectangular grid of valid tokens never faults
    and yields a well-formed board (occupancy and piece store agree) that shows
    exactly the given token at every cell. *)
Lemma from_token_grid_shows grid :
  tokens_valid grid -> rectangular grid -> grid_fits grid ->
  from_token_grid grid ⇓ (fun b =>
    board_wf b /\ rows b = vlen grid /\
    forall r c toks tok, vat grid r = Some toks -> vat toks c = Some tok ->
      token_at b r c = Ok tok).
Proof.
  intros Hv Hrect Hfit. eapply returns_mono; [by apply from_token_grid_built|].
  intros b (Ht & [f Hb] & Hp). destruct Hfit as (Hr & Hc & _).
  assert (board_wf b) as Hwf by (by eapply built_wf).
  split; [done|]. split.
  - rewrite <- Ht. unfold token_rows. by rewrite vlen_fmap.
  - rewrite <- Ht. intros. eapply token_at_rows; [apply Hwf|done..].
Qed.
