(* ===== verification/PathUtils.v ===== *)
(** * Straight paths on the board

    [src/src/logic/path_utils.h] and [path_utils.cpp].  Both functions are
    unbounded [while] loops in the source: they are modelled with fuel, running
    out of fuel is [Diverges], and the theorems show the fuel is enough exactly
    for the paths the callers pass (horizontal, vertical or diagonal). *)

From S2P Require Import Prelude.

Definition Cell : Type := Z * Z.

Definition is_straight_or_diagonal_path (dr dc : Z) : bool :=
  if (dr =? 0) || (dc =? 0) then true else Z.abs dr =? Z.abs dc.

(** [(d == 0) ? 0 : (d > 0 ? 1 : -1)]. *)
Definition step_of (d : Z) : Z := if d =? 0 then 0 else if 0 <? d then 1 else -1.

(** The [while] loop of [for_each_cell_on_path]. *)
Fixpoint path_loop {S} (fuel : nat) (r c end_row end_col step_r step_c : Z)
    (visitor : Z -> Z -> S -> res S) (s : S) : res S :=
  if negb (r =? end_row) || negb (c =? end_col) then
    match fuel with
    | O => Err Diverges
    | Datatypes.S fuel' =>
        s' ← visitor r c s;
        path_loop fuel' (r + step_r) (c + step_c) end_row end_col step_r step_c visitor s'
    end
  else Ok s.

(** Number of unit steps from one end of a straight path to the other. *)
Definition path_span (dr dc : Z) : Z := Z.max (Z.abs dr) (Z.abs dc).

Definition for_each_cell_on_path {S} (start_row start_col end_row end_col : Z)
    (visitor : Z -> Z -> S -> res S) (s : S) : res S :=
  let dr := end_row - start_row in
  let dc := end_col - start_col in
  let step_r := step_of dr in
  let step_c := step_of dc in
  path_loop (Z.to_nat (path_span dr dc)) (start_row + step_r) (start_col + step_c)
    end_row end_col step_r step_c visitor s.

(** The inner loop of [paths_share_cell]: walk the second path looking for a
    fixed cell of the first. *)
Fixpoint share_inner (fuel : nat) (a_row a_col b_row b_col b_end_row b_end_col
    b_step_r b_step_c : Z) : res bool :=
  if (a_row =? b_row) && (a_col =? b_col) then Ok true
  else if (b_row =? b_end_row) && (b_col =? b_end_col) then Ok false
  else match fuel with
  | O => Err Diverges
  | Datatypes.S fuel' =>
      share_inner fuel' a_row a_col (b_row + b_step_r) (b_col + b_step_c)
        b_end_row b_end_col b_step_r b_step_c
  end.

(** The outer loop: walk the first path. *)
Fixpoint share_outer (fuel : nat) (a_row a_col a_end_row a_end_col a_step_r a_step_c : Z)
    (inner : Z -> Z -> res bool) : res bool :=
  found ← inner a_row a_col;
  if found : bool then Ok true
  else if (a_row =? a_end_row) && (a_col =? a_end_col) then Ok false
  else match fuel with
  | O => Err Diverges
  | Datatypes.S fuel' =>
      share_outer fuel' (a_row + a_step_r) (a_col + a_step_c)
        a_end_row a_end_col a_step_r a_step_c inner
  end.

Definition cell_eqb (a b : Cell) : bool := (a.1 =? b.1) && (a.2 =? b.2).

Definition paths_share_cell (a_start a_end b_start b_end : Cell) : res bool :=
  let a_dr := to_int a_end.1 - to_int a_start.1 in
  let a_dc := to_int a_end.2 - to_int a_start.2 in
  let b_dr := to_int b_end.1 - to_int b_start.1 in
  let b_dc := to_int b_end.2 - to_int b_start.2 in
  if negb (is_straight_or_diagonal_path a_dr a_dc)
     || negb (is_straight_or_diagonal_path b_dr b_dc) then
    Ok (cell_eqb a_start b_start || cell_eqb a_start b_end
        || cell_eqb a_end b_start || cell_eqb a_end b_end)
  else
    share_outer (Z.to_nat (path_span a_dr a_dc)) (to_int a_start.1) (to_int a_start.2)
      (to_int a_end.1) (to_int a_end.2) (step_of a_dr) (step_of a_dc)
      (fun a_row a_col =>
         share_inner (Z.to_nat (path_span b_dr b_dc)) a_row a_col
           (to_int b_start.1) (to_int b_start.2) (to_int b_end.1) (to_int b_end.2)
           (step_of b_dr) (step_of b_dc)).

(** ** Specification: points of a straight path *)

Definition straight (dr dc : Z) : Prop := dr = 0 \/ dc = 0 \/ Z.abs dr = Z.abs dc.

#[export] Instance straight_dec dr dc : Decision (straight dr dc).
Proof. unfold straight. apply _. Defined.

(** The point [k] unit steps away from the start. *)
Definition path_point (sr sc er ec k : Z) : Z * Z :=
  (sr + k * Z.sgn (er - sr), sc + k * Z.sgn (ec - sc)).

(** The cells strictly between the two ends, in the order they are visited. *)
Definition path_cells (sr sc er ec : Z) : list (Z * Z) :=
  (fun i => path_point sr sc er ec (i + 1)) <$> zrange (path_span (er - sr) (ec - sc) - 1).

(** The cell [p] lies on the straight path, ends included. *)
Definition on_path (a b p : Cell) : Prop :=
  exists k, 0 <= k <= path_span (b.1 - a.1) (b.2 - a.2) /\ p = path_point a.1 a.2 b.1 b.2 k.

(** ** Lemmas *)

Lemma step_of_sgn d : step_of d = Z.sgn d.
Proof.
  unfold step_of. destruct (Z.eqb_spec d 0); [lia|]. destruct (Z.ltb_spec 0 d); lia.
Qed.

Lemma is_straight_spec dr dc : is_straight_or_diagonal_path dr dc = true <-> straight dr dc.
Proof.
  unfold is_straight_or_diagonal_path, straight.
  destruct (Z.eqb_spec dr 0), (Z.eqb_spec dc 0); simpl; rewrite ?Z.eqb_eq; lia.
Qed.

Lemma path_point_end sr sc er ec : straight (er - sr) (ec - sc) ->
  path_point sr sc er ec (path_span (er - sr) (ec - sc)) = (er, ec).
Proof. unfold straight, path_span, path_point. intros H. f_equal; lia. Qed.

(** On a straight path the end is met after exactly [path_span] steps. *)
Lemma path_point_inj_end sr sc er ec k : straight (er - sr) (ec - sc) ->
  0 <= k -> path_point sr sc er ec k = (er, ec) -> (sr, sc) <> (er, ec) ->
  k = path_span (er - sr) (ec - sc).
Proof.
  unfold straight, path_span, path_point. intros H Hk [= H1 H2] Hne.
  assert (sr <> er \/ sc <> ec) by (destruct (decide (sr = er)); naive_solver). nia.
Qed.

Lemma zrange_cons n : 0 < n -> zrange n = 0 :: ((fun i => i + 1) <$> zrange (n - 1)).
Proof.
  intros Hn. unfold zrange. replace (Z.to_nat n) with (S (Z.to_nat (n - 1))) by lia.
  simpl. f_equal. rewrite <- fmap_S_seq, <- !list_fmap_compose.
  apply list_fmap_ext. intros i x Hx. simpl. lia.
Qed.

Lemma path_loop_spec {S} (visitor : Z -> Z -> S -> res S) sr sc er ec fuel k s :
  straight (er - sr) (ec - sc) -> (sr, sc) <> (er, ec) ->
  0 < k <= path_span (er - sr) (ec - sc) ->
  path_span (er - sr) (ec - sc) - k <= Z.of_nat fuel ->
  let p := path_point sr sc er ec k in
  path_loop fuel p.1 p.2 er ec (Z.sgn (er - sr)) (Z.sgn (ec - sc)) visitor s =
  foldM (fun q => visitor q.1 q.2)
    ((fun i => path_point sr sc er ec (i + k)) <$> zrange (path_span (er - sr) (ec - sc) - k)) s.
Proof.
  intros Hst Hne. revert k s. induction fuel as [|fuel IH]; intros k s Hk Hfuel p.
  - assert (k = path_span (er - sr) (ec - sc)) as Hke by lia.
    unfold p. rewrite Hke, path_point_end by done. simpl.
    by rewrite !Z.eqb_refl, Z.sub_diag.
  - destruct (decide (k = path_span (er - sr) (ec - sc))) as [Hke|Hke].
    { unfold p. rewrite Hke, path_point_end by done. simpl.
      by rewrite !Z.eqb_refl, Z.sub_diag. }
    assert (negb (p.1 =? er) || negb (p.2 =? ec) = true) as Hgo.
    { destruct (Z.eqb_spec p.1 er) as [H1|], (Z.eqb_spec p.2 ec) as [H2|]; try done.
      exfalso. apply Hke. apply (path_point_inj_end _ _ _ _ _ Hst); [lia| |done].
      fold p. destruct p; simpl in *; congruence. }
    cbn [path_loop]. rewrite Hgo, (zrange_cons (_ - k)) by lia.
    rewrite fmap_cons, <- list_fmap_compose. cbn [foldM].
    replace (0 + k) with k by lia. fold p.
    destruct (visitor p.1 p.2 s) as [s'|f]; [|done]. simpl.
    pose proof (IH (k + 1) s') as IHk. cbn [path_point fst snd] in IHk.
    replace (sr + k * Z.sgn (er - sr) + Z.sgn (er - sr))
      with (sr + (k + 1) * Z.sgn (er - sr)) by lia.
    replace (sc + k * Z.sgn (ec - sc) + Z.sgn (ec - sc))
      with (sc + (k + 1) * Z.sgn (ec - sc)) by lia.
    rewrite IHk by lia. f_equal.
    replace (path_span (er - sr) (ec - sc) - k - 1)
      with (path_span (er - sr) (ec - sc) - (k + 1)) by lia.
    apply list_fmap_ext. intros i x _. unfold compose. f_equal. lia.
Qed.

Lemma for_each_straight {S} (visitor : Z -> Z -> S -> res S) sr sc er ec s :
  straight (er - sr) (ec - sc) ->
  for_each_cell_on_path sr sc er ec visitor s =
  foldM (fun q => visitor q.1 q.2) (path_cells sr sc er ec) s.
Proof.
  intros Hst. unfold for_each_cell_on_path. rewrite !step_of_sgn.
  destruct (decide ((sr, sc) = (er, ec))) as [[= -> ->]|Hne].
  { unfold path_cells. rewrite !Z.sub_diag. simpl. by rewrite !Z.add_0_r, !Z.eqb_refl. }
  assert (0 < path_span (er - sr) (ec - sc)) as Hpos.
  { unfold path_span. destruct (decide (sr = er)); [|lia].
    assert (sc <> ec) by congruence. lia. }
  pose proof (path_loop_spec visitor sr sc er ec
    (Z.to_nat (path_span (er - sr) (ec - sc))) 1 s Hst Hne) as H.
  unfold path_point in H at 1 2. simpl in H. rewrite !Z.mul_1_l in H.
  apply H; lia.
Qed.

Lemma elem_of_path_cells sr sc er ec p :
  p ∈ path_cells sr sc er ec <->
  exists k, 0 < k < path_span (er - sr) (ec - sc) /\ p = path_point sr sc er ec k.
Proof.
  unfold path_cells. rewrite list_elem_of_fmap. setoid_rewrite elem_of_zrange. split.
  - intros (i & -> & Hi). exists (i + 1). split; [lia|done].
  - intros (k & Hk & ->). exists (k - 1). split; [f_equal; lia|lia].
Qed.

(** The intermediate cells lie in the rectangle spanned by the ends. *)
Lemma path_cells_between sr sc er ec p : straight (er - sr) (ec - sc) ->
  p ∈ path_cells sr sc er ec ->
  Z.min sr er <= p.1 <= Z.max sr er /\ Z.min sc ec <= p.2 <= Z.max sc ec.
Proof.
  intros Hst (k & Hk & ->)%elem_of_path_cells. unfold straight, path_span, path_point in *.
  simpl. nia.
Qed.

(** On a path that is not straight the loop never meets its end. *)
Lemma path_loop_diverges {S} (visitor : Z -> Z -> S -> res S) sr sc er ec fuel k s :
  ~ straight (er - sr) (ec - sc) -> (forall r c s, visitor r c s = Ok s) ->
  0 < k ->
  path_loop fuel (sr + k * Z.sgn (er - sr)) (sc + k * Z.sgn (ec - sc)) er ec
    (Z.sgn (er - sr)) (Z.sgn (ec - sc)) visitor s = Err Diverges.
Proof.
  intros Hst Hv. revert k s. induction fuel as [|fuel IH]; intros k s Hk.
  all: assert (negb (sr + k * Z.sgn (er - sr) =? er)
         || negb (sc + k * Z.sgn (ec - sc) =? ec) = true) as Hgo.
  1, 3: unfold straight in Hst;
    destruct (Z.eqb_spec (sr + k * Z.sgn (er - sr)) er),
             (Z.eqb_spec (sc + k * Z.sgn (ec - sc)) ec); try done; exfalso; nia.
  - cbn [path_loop]. by rewrite Hgo.
  - cbn [path_loop]. rewrite Hgo, Hv. cbn.
    replace (sr + k * Z.sgn (er - sr) + Z.sgn (er - sr))
      with (sr + (k + 1) * Z.sgn (er - sr)) by lia.
    replace (sc + k * Z.sgn (ec - sc) + Z.sgn (ec - sc))
      with (sc + (k + 1) * Z.sgn (ec - sc)) by lia.
    apply IH. lia.
Qed.

(** The end test of both loops, at the [k]-th point. *)
Lemma at_end_iff sr sc er ec k : straight (er - sr) (ec - sc) ->
  0 <= k <= path_span (er - sr) (ec - sc) ->
  (sr + k * Z.sgn (er - sr) =? er) && (sc + k * Z.sgn (ec - sc) =? ec) = true <->
  k = path_span (er - sr) (ec - sc).
Proof.
  intros Hst Hk. rewrite andb_true_iff, !Z.eqb_eq. split.
  - intros [H1 H2]. destruct (decide ((sr, sc) = (er, ec))) as [[= -> ->]|Hne].
    + revert Hk. rewrite !Z.sub_diag. unfold path_span. simpl. lia.
    + eapply path_point_inj_end; [done|lia| |done]. unfold path_point. by rewrite H1, H2.
  - intros ->. pose proof (path_point_end sr sc er ec Hst) as H.
    unfold path_point in H. by injection H.
Qed.

Lemma share_inner_spec sr sc er ec x y fuel j : straight (er - sr) (ec - sc) ->
  0 <= j <= path_span (er - sr) (ec - sc) ->
  path_span (er - sr) (ec - sc) - j <= Z.of_nat fuel ->
  share_inner fuel x y (sr + j * Z.sgn (er - sr)) (sc + j * Z.sgn (ec - sc)) er ec
    (Z.sgn (er - sr)) (Z.sgn (ec - sc)) ⇓ (fun r => r = true <->
      exists k, j <= k <= path_span (er - sr) (ec - sc) /\
        (x, y) = path_point sr sc er ec k).
Proof.
  intros Hst. revert j. induction fuel as [|fuel IH]; intros j Hj Hf; cbn [share_inner].
  all: destruct ((x =? sr + j * Z.sgn (er - sr)) && (y =? sc + j * Z.sgn (ec - sc))) eqn:E1.
  1, 3: zbool; subst; simpl; split; [intros _; exists j; split; [lia|done]|done].
  all: destruct ((sr + j * Z.sgn (er - sr) =? er) && (sc + j * Z.sgn (ec - sc) =? ec)) eqn:E2.
  1, 3: apply at_end_iff in E2; [|done..]; simpl; split; [done|]; intros (k & Hk & Hp);
    assert (k = j) as -> by lia; injection Hp as -> ->;
    by rewrite !Z.eqb_refl in E1.
  all: assert (j <> path_span (er - sr) (ec - sc))
    by (rewrite <- at_end_iff by done; by rewrite E2).
  - lia.
  - replace (sr + j * Z.sgn (er - sr) + Z.sgn (er - sr))
      with (sr + (j + 1) * Z.sgn (er - sr)) by lia.
    replace (sc + j * Z.sgn (ec - sc) + Z.sgn (ec - sc))
      with (sc + (j + 1) * Z.sgn (ec - sc)) by lia.
    eapply returns_mono; [apply IH; lia|]. intros r Hr. rewrite Hr. split.
    + intros (k & Hk & Hp). exists k. split; [lia|done].
    + intros (k & Hk & Hp). exists k. split; [|done].
      destruct (decide (k = j)) as [->|]; [|lia].
      injection Hp as -> ->. by rewrite !Z.eqb_refl in E1.
Qed.

Lemma share_outer_spec sr sc er ec (Q : Z * Z -> Prop) inner fuel j :
  straight (er - sr) (ec - sc) ->
  (forall p, inner p.1 p.2 ⇓ (fun r => r = true <-> Q p)) ->
  0 <= j <= path_span (er - sr) (ec - sc) ->
  path_span (er - sr) (ec - sc) - j <= Z.of_nat fuel ->
  share_outer fuel (sr + j * Z.sgn (er - sr)) (sc + j * Z.sgn (ec - sc)) er ec
    (Z.sgn (er - sr)) (Z.sgn (ec - sc)) inner ⇓ (fun r => r = true <->
      exists k, j <= k <= path_span (er - sr) (ec - sc) /\ Q (path_point sr sc er ec k)).
Proof.
  intros Hst Hin. revert j. induction fuel as [|fuel IH]; intros j Hj Hf; cbn [share_outer].
  all: apply returns_bind; eapply returns_mono; [apply (Hin (path_point sr sc er ec j))|].
  all: intros [|] Hr; [simpl; split; [intros _; exists j; split; [lia|by apply Hr]|done]|].
  all: assert (~ Q (path_point sr sc er ec j)) as HQ by (rewrite <- Hr; done).
  all: destruct ((sr + j * Z.sgn (er - sr) =? er) && (sc + j * Z.sgn (ec - sc) =? ec)) eqn:E2.
  1, 3: apply at_end_iff in E2; [|done..]; simpl; split; [done|]; intros (k & Hk & Hp);
    assert (k = j) as -> by lia; done.
  all: assert (j <> path_span (er - sr) (ec - sc))
    by (rewrite <- at_end_iff by done; by rewrite E2).
  - lia.
  - replace (sr + j * Z.sgn (er - sr) + Z.sgn (er - sr))
      with (sr + (j + 1) * Z.sgn (er - sr)) by lia.
    replace (sc + j * Z.sgn (ec - sc) + Z.sgn (ec - sc))
      with (sc + (j + 1) * Z.sgn (ec - sc)) by lia.
    eapply returns_mono; [apply IH; lia|]. intros r Hr'. rewrite Hr'. split.
    + intros (k & Hk & Hp). exists k. split; [lia|done].
    + intros (k & Hk & Hp). exists k. split; [|done].
      destruct (decide (k = j)) as [->|]; [done|lia].
Qed.

Definition cell_fits (c : Cell) : Prop := 0 <= c.1 < 2 ^ 31 /\ 0 <= c.2 < 2 ^ 31.

Lemma paths_share_cell_straight a a' b b' :
  cell_fits a -> cell_fits a' -> cell_fits b -> cell_fits b' ->
  straight (a'.1 - a.1) (a'.2 - a.2) -> straight (b'.1 - b.1) (b'.2 - b.2) ->
  paths_share_cell a a' b b' ⇓ (fun r => r = true <->
    exists p, on_path a a' p /\ on_path b b' p).
Proof.
  unfold cell_fits. intros Ha Ha' Hb Hb' Hsa Hsb. unfold paths_share_cell.
  rewrite !to_int_id by (unfold fits_int; lia).
  rewrite (proj2 (is_straight_spec _ _) Hsa), (proj2 (is_straight_spec _ _) Hsb). simpl.
  rewrite !step_of_sgn.
  pose proof (share_outer_spec a.1 a.2 a'.1 a'.2 (on_path b b')
    (fun a_row a_col => share_inner (Z.to_nat (path_span (b'.1 - b.1) (b'.2 - b.2))) a_row a_col
       b.1 b.2 b'.1 b'.2 (Z.sgn (b'.1 - b.1)) (Z.sgn (b'.2 - b.2)))
    (Z.to_nat (path_span (a'.1 - a.1) (a'.2 - a.2))) 0 Hsa) as H.
  rewrite !Z.mul_0_l, !Z.add_0_r in H. eapply returns_mono; [apply H|].
  - intros p. pose proof (share_inner_spec b.1 b.2 b'.1 b'.2 p.1 p.2
      (Z.to_nat (path_span (b'.1 - b.1) (b'.2 - b.2))) 0 Hsb) as Hi.
    rewrite !Z.mul_0_l, !Z.add_0_r in Hi. eapply returns_mono; [apply Hi; unfold path_span; lia|].
    intros r ->. unfold on_path. by destruct p.
  - unfold path_span. lia.
  - unfold path_span. lia.
  - intros r ->. unfold on_path at 2. naive_solver.
Qed.

(** When two routes meet: on a common cell if both are straight, at an end point
    otherwise. *)
Definition shares_cell (a a' b b' : Cell) : Prop :=
  if decide (straight (a'.1 - a.1) (a'.2 - a.2) /\ straight (b'.1 - b.1) (b'.2 - b.2))
  then exists p, on_path a a' p /\ on_path b b' p
  else a = b \/ a = b' \/ a' = b \/ a' = b'.

Lemma cell_eqb_eq x y : cell_eqb x y = true <-> x = y.
Proof.
  destruct x as [x1 x2], y as [y1 y2]. unfold cell_eqb. simpl.
  rewrite andb_true_iff, !Z.eqb_eq. naive_solver.
Qed.

Lemma paths_share_cell_spec a a' b b' :
  cell_fits a -> cell_fits a' -> cell_fits b -> cell_fits b' ->
  paths_share_cell a a' b b' ⇓ (fun r => r = true <-> shares_cell a a' b b').
Proof.
  intros Ha Ha' Hb Hb'. unfold shares_cell. case_decide as Hd.
  { destruct Hd. by apply paths_share_cell_straight. }
  rewrite <- !is_straight_spec in Hd. unfold cell_fits in *. unfold paths_share_cell.
  rewrite !to_int_id by (unfold fits_int; lia).
  destruct (is_straight_or_diagonal_path (a'.1 - a.1) (a'.2 - a.2)),
           (is_straight_or_diagonal_path (b'.1 - b.1) (b'.2 - b.2)); simpl; try tauto.
  all: rewrite !orb_true_iff, !cell_eqb_eq; tauto.
Qed.

(** ** Properties *)

(** [for_each_cell_on_path] terminates exactly on horizontal, vertical and
    diagonal paths: there it visits the cells strictly between the two ends, in
    order, each once; on any other path (with a visitor that returns) the loop
    never ends. *)
Theorem for_each_cell_on_path_correct (sr sc er ec : Z) :
  (straight (er - sr) (ec - sc) ->
     for_each_cell_on_path sr sc er ec (fun r c acc => Ok (acc ++ [(r, c)])) [] =
       Ok (path_cells sr sc er ec)) /\
  (~ straight (er - sr) (ec - sc) -> forall fuel,
     path_loop fuel (sr + step_of (er - sr)) (sc + step_of (ec - sc)) er ec
       (step_of (er - sr)) (step_of (ec - sc)) (fun _ _ (u : unit) => Ok u) tt = Err Diverges).
Proof.
  split.
  - intros Hst. rewrite for_each_straight by done.
    enough (forall l acc, foldM (fun (q : Z * Z) acc => Ok (acc ++ [(q.1, q.2)])) l acc =
      Ok (acc ++ l)) as Hf by apply (Hf _ []).
    induction l as [|[r c] l IH]; intros acc; simpl; [by rewrite app_nil_r|].
    rewrite IH. by rewrite <- app_assoc.
  - intros Hst fuel. rewrite !step_of_sgn.
    pose proof (path_loop_diverges (fun _ _ (u : unit) => Ok u) sr sc er ec fuel 1 tt Hst) as H.
    rewrite !Z.mul_1_l in H. apply H; [done|lia].
Qed.

(** [paths_share_cell] always returns; on two straight paths it answers
    whether some cell lies on both (ends included), and if either path is not
    straight it compares end points only. *)
Lemma paths_share_cell_correct (a a' b b' : Cell) :
  cell_fits a -> cell_fits a' -> cell_fits b -> cell_fits b' ->
  paths_share_cell a a' b b' ⇓ (fun r => r = true <-> shares_cell a a' b b').
Proof. apply paths_share_cell_spec. Qed.

Lemma paths_share_cell_correct_witness :
  paths_share_cell (0, 0) (0, 4) (2, 2) (0, 2) ⇓ (fun r => r = true <->
    shares_cell (0, 0) (0, 4) (2, 2) (0, 2)).
Proof.
  apply (paths_share_cell_correct (0, 0) (0, 4) (2, 2) (0, 2));
    unfold cell_fits; simpl; lia.
Defined.
