(* ===== verification/PieceRules.v ===== *)
(** * Move legality

    [src/src/rules/piece_rules/*.cpp], [rules_registry.cpp], [move_validator.cpp]
    and [game_rules.h]/[game_rules.cpp]: the geometry of each piece, the registry
    that dispatches on the piece kind, static move legality and the injectable
    rule bundle [GameRules]. *)

From S2P Require Import Prelude Piece BoardModel PathUtils.

(** ** Piece rules *)

Definition MoveValidatorFn : Type := BoardModel -> Z -> Z -> Z -> Z -> res bool.

Record PieceRuleEntry := mkRule {
  validator : option MoveValidatorFn;
  requires_destination_check : bool
}.

Definition is_king_move (b : BoardModel) (start_row start_col end_row end_col : Z) : res bool :=
  let dr := end_row - start_row in
  let dc := end_col - start_col in
  let adr := Z.abs dr in
  let adc := Z.abs dc in
  Ok ((adr <=? 1) && (adc <=? 1) && (negb (adr =? 0) || negb (adc =? 0))).

Definition is_knight_move (dr dc : Z) : bool :=
  let adr := Z.abs dr in
  let adc := Z.abs dc in
  ((adr =? 2) && (adc =? 1)) || ((adr =? 1) && (adc =? 2)).

Definition validate_knight_move (b : BoardModel) (start_row start_col end_row end_col : Z) :
    res bool :=
  Ok (is_knight_move (end_row - start_row) (end_col - start_col)).

(** The visitor of [is_path_clear]: a cell that is not empty clears the flag. *)
Definition path_visitor (b : BoardModel) (r c : Z) (clear : bool) : res bool :=
  e ← is_empty b (to_size r) (to_size c);
  Ok (if e : bool then clear else false).

(** [is_path_clear] of [rook_rules.cpp] (the same text is in [bishop_rules.cpp]). *)
Definition is_path_clear (b : BoardModel) (start_row start_col end_row end_col : Z) : res bool :=
  for_each_cell_on_path start_row start_col end_row end_col (path_visitor b) true.

Definition is_rook_move (b : BoardModel) (start_row start_col end_row end_col : Z) : res bool :=
  if negb (start_row =? end_row) && negb (start_col =? end_col) then Ok false
  else is_path_clear b start_row start_col end_row end_col.

Definition is_bishop_move (b : BoardModel) (start_row start_col end_row end_col : Z) : res bool :=
  let dr := end_row - start_row in
  let dc := end_col - start_col in
  if negb (Z.abs dr =? Z.abs dc) then Ok false
  else is_path_clear b start_row start_col end_row end_col.

Definition is_queen_move (b : BoardModel) (start_row start_col end_row end_col : Z) : res bool :=
  r ← is_rook_move b start_row start_col end_row end_col;
  if r : bool then Ok true else is_bishop_move b start_row start_col end_row end_col.

Definition is_pawn_start_row (b : BoardModel) (pawn_color : PieceColor) (start_row : Z) : bool :=
  let n := to_int (rows b) in
  if n <? 4 then false
  else match pawn_color with
  | White => start_row =? n - 2
  | Black => start_row =? 1
  end.

Definition is_pawn_move_for_piece (b : BoardModel) (moving : Piece)
    (start_row start_col end_row end_col : Z) : res bool :=
  let dr := end_row - start_row in
  let dc := end_col - start_col in
  dest ← piece_at b (to_size end_row) (to_size end_col);
  if dc =? 0 then
    match dest with
    | Some _ => Ok false
    | None =>
        if is_white moving && (dr =? -1) then Ok true
        else if is_black moving && (dr =? 1) then Ok true
        else if is_white moving && (dr =? -2)
                && is_pawn_start_row b (p_color moving) start_row then
          is_empty b (to_size (start_row - 1)) (to_size start_col)
        else if is_black moving && (dr =? 2)
                && is_pawn_start_row b (p_color moving) start_row then
          is_empty b (to_size (start_row + 1)) (to_size start_col)
        else Ok false
    end
  else if Z.abs dc =? 1 then
    match dest with
    | None => Ok false
    | Some d =>
        if is_white moving && (dr =? -1) then Ok (is_black d)
        else if is_black moving && (dr =? 1) then Ok (is_white d)
        else Ok false
    end
  else Ok false.

Definition is_pawn_move (b : BoardModel) (start_row start_col end_row end_col : Z) : res bool :=
  moving ← piece_at b (to_size start_row) (to_size start_col);
  match moving with
  | None => Ok false
  | Some p => is_pawn_move_for_piece b p start_row start_col end_row end_col
  end.

(** ** The registry *)

(** [static_cast<std::size_t>(kind)]. *)
Definition kind_index (kind : PieceKind) : Z :=
  match kind with
  | King => 0 | Queen => 1 | Rook => 2 | Bishop => 3 | Knight => 4 | Pawn => 5 | Count => 6
  end.

Definition kRules : list PieceRuleEntry :=
  [ mkRule (Some is_king_move) true;
    mkRule (Some is_queen_move) true;
    mkRule (Some is_rook_move) true;
    mkRule (Some is_bishop_move) true;
    mkRule (Some validate_knight_move) true;
    mkRule (Some is_pawn_move) false ].

Definition get_rule_entry (kind : PieceKind) : PieceRuleEntry :=
  let index := kind_index kind in
  if vlen kRules <=? index then mkRule None false
  else match vat kRules index with Some e => e | None => mkRule None false end.

(** ** Static legality ([move_validator.cpp]) *)

Definition is_destination_legal (b : BoardModel) (start_row start_col end_row end_col : Z) :
    res bool :=
  dest ← piece_at b (to_size end_row) (to_size end_col);
  match dest with
  | None => Ok true
  | Some d =>
      moving ← piece_at b (to_size start_row) (to_size start_col);
      match moving with
      | None => Ok false
      | Some p => Ok (is_opponent_of p d)
      end
  end.

Definition is_legal_move (b : BoardModel) (kind : PieceKind)
    (start_row start_col end_row end_col : Z) : res bool :=
  if (rows b =? 0) || (cols b =? 0) then Ok false
  else if negb (contains b start_row start_col) || negb (contains b end_row end_col) then Ok false
  else if (start_row =? end_row) && (start_col =? end_col) then Ok false
  else
    let rule := get_rule_entry kind in
    match validator rule with
    | None => Ok false
    | Some v =>
        ok ← v b start_row start_col end_row end_col;
        if negb ok then Ok false
        else if requires_destination_check rule then
          is_destination_legal b start_row start_col end_row end_col
        else Ok true
    end.

(** ** [GameRules] *)

Record GameRules := mkGameRules {
  rule_is_legal_move : BoardModel -> PieceKind -> Z -> Z -> Z -> Z -> res bool;
  rule_on_reach_last_row : Piece -> Z -> Z -> Piece;
  rule_is_game_over : Piece -> bool;
  move_duration_ms : Z;
  jump_duration_ms : Z;
  long_rest_duration_ms : Z;
  short_rest_duration_ms : Z
}.

Definition promote_pawn_to_queen (piece : Piece) (end_row board_rows : Z) : Piece :=
  if negb (kind_eqb (p_kind piece) Pawn) then piece
  else
    let last_row := to_size (board_rows - 1) in
    if is_white piece && (end_row =? 0) then set_kind piece Queen
    else if is_black piece && (end_row =? last_row) then set_kind piece Queen
    else piece.

Definition king_capture_ends_game (lost_piece : Piece) : bool :=
  kind_eqb (p_kind lost_piece) King.

Definition standard : GameRules :=
  mkGameRules is_legal_move promote_pawn_to_queen king_capture_ends_game
    kMoveDurationMs kJumpDurationMs kLongRestDurationMs kShortRestDurationMs.

(** ** Specification of legality *)

(** No piece stands strictly between the two cells. *)
Definition path_free (b : BoardModel) (sr sc er ec : Z) : Prop :=
  forall p, p ∈ path_cells sr sc er ec -> occupant b p.1 p.2 = None.

(** The direction in which a colour's pawns advance. *)
Definition forward (color : PieceColor) : Z := match color with White => -1 | Black => 1 end.

Definition pawn_home_row (b : BoardModel) (color : PieceColor) : Z :=
  match color with White => rows b - 2 | Black => 1 end.

Definition pawn_rule (b : BoardModel) (color : PieceColor) (sr sc er ec : Z) : Prop :=
  (ec = sc /\ er = sr + forward color /\ occupant b er ec = None) \/
  (ec = sc /\ er = sr + 2 * forward color /\ 4 <= rows b /\ sr = pawn_home_row b color /\
   occupant b (sr + forward color) sc = None /\ occupant b er ec = None) \/
  (Z.abs (ec - sc) = 1 /\ er = sr + forward color /\
   exists d, occupant b er ec = Some d /\ p_color d <> color).

(** Which squares a piece of each kind reaches, given who is moving. *)
Definition kind_rule (b : BoardModel) (kind : PieceKind) (color : PieceColor)
    (sr sc er ec : Z) : Prop :=
  match kind with
  | King => path_span (er - sr) (ec - sc) = 1
  | Queen => straight (er - sr) (ec - sc) /\ path_free b sr sc er ec
  | Rook => (er = sr \/ ec = sc) /\ path_free b sr sc er ec
  | Bishop => Z.abs (er - sr) = Z.abs (ec - sc) /\ path_free b sr sc er ec
  | Knight => Z.abs (er - sr) + Z.abs (ec - sc) = 3 /\ path_span (er - sr) (ec - sc) = 2
  | Pawn => pawn_rule b color sr sc er ec
  | Count => False
  end.

(** A piece of the player's own colour never stands on the destination. *)
Definition capture_rule (b : BoardModel) (color : PieceColor) (er ec : Z) : Prop :=
  forall d, occupant b er ec = Some d -> p_color d <> color.

(** ** Lemmas *)

Lemma inside_size b r c : board_shape b -> inside b r c -> to_size r = r /\ to_size c = c.
Proof. intros Hs Hin. destruct (inside_fits b r c Hs Hin). split; apply to_size_id; lia. Qed.

Lemma piece_at_cast b r c : board_shape b -> inside b r c ->
  piece_at b (to_size r) (to_size c) = Ok (occupant b r c).
Proof.
  intros Hs Hin. destruct (inside_size b r c Hs Hin) as [-> ->]. by apply piece_at_inside.
Qed.

Lemma path_cells_inside b sr sc er ec p : inside b sr sc -> inside b er ec ->
  straight (er - sr) (ec - sc) -> p ∈ path_cells sr sc er ec -> inside b p.1 p.2.
Proof.
  intros [Hs1 Hs2] [He1 He2] Hst Hp. apply path_cells_between in Hp; [|done].
  unfold inside. lia.
Qed.

Lemma is_path_clear_spec b sr sc er ec : board_wf b -> inside b sr sc -> inside b er ec ->
  straight (er - sr) (ec - sc) ->
  is_path_clear b sr sc er ec ⇓ (fun r => r = true <-> path_free b sr sc er ec).
Proof.
  intros Hwf Hs He Hst. unfold is_path_clear. rewrite for_each_straight by done.
  unfold path_free.
  assert (forall p, p ∈ path_cells sr sc er ec -> inside b p.1 p.2) as Hin
    by (intros p; by apply path_cells_inside).
  enough (forall l acc, (forall p, p ∈ l -> inside b p.1 p.2) ->
    foldM (fun q => path_visitor b q.1 q.2) l acc ⇓ (fun r => r = true <->
      acc = true /\ forall p, p ∈ l -> occupant b p.1 p.2 = None)) as Hgen.
  { eapply returns_mono; [by apply Hgen|]. intros r ->. naive_solver. }
  clear - Hwf. induction l as [|q l IH]; intros acc Hin; simpl.
  { split; [|tauto]. intros ->. split; [done|]. intros p Hp. by apply not_elem_of_nil in Hp. }
  assert (inside b q.1 q.2) as Hq by (apply Hin; set_solver).
  apply returns_bind. unfold path_visitor.
  destruct (inside_size b q.1 q.2 (proj1 Hwf) Hq) as [-> ->].
  rewrite is_empty_inside by done. rewrite bind_ok. apply returns_ok.
  eapply returns_mono; [apply IH; intros; apply Hin; by apply list_elem_of_further|]. intros r ->.
  destruct (decide (occupant b q.1 q.2 = None)) as [Ho|Ho].
  - rewrite bool_decide_true by done. setoid_rewrite elem_of_cons. naive_solver.
  - rewrite bool_decide_false by done. split; [naive_solver|].
    intros [_ Hall]. exfalso. apply Ho, Hall, list_elem_of_here.
Qed.

Lemma is_rook_move_spec b sr sc er ec : board_wf b -> inside b sr sc -> inside b er ec ->
  is_rook_move b sr sc er ec ⇓ (fun r => r = true <->
    (er = sr \/ ec = sc) /\ path_free b sr sc er ec).
Proof.
  intros Hwf Hs He. unfold is_rook_move.
  destruct (Z.eqb_spec sr er), (Z.eqb_spec sc ec); simpl.
  4: split; [done|lia].
  all: eapply returns_mono; [apply is_path_clear_spec; unfold straight; auto; lia|].
  all: intros r ->; intuition lia.
Qed.

Lemma is_bishop_move_spec b sr sc er ec : board_wf b -> inside b sr sc -> inside b er ec ->
  is_bishop_move b sr sc er ec ⇓ (fun r => r = true <->
    Z.abs (er - sr) = Z.abs (ec - sc) /\ path_free b sr sc er ec).
Proof.
  intros Hwf Hs He. unfold is_bishop_move.
  destruct (Z.eqb_spec (Z.abs (er - sr)) (Z.abs (ec - sc))); simpl.
  2: split; [done|lia].
  eapply returns_mono; [apply is_path_clear_spec; unfold straight; auto; lia|].
  intros r ->. tauto.
Qed.

Lemma is_queen_move_spec b sr sc er ec : board_wf b -> inside b sr sc -> inside b er ec ->
  is_queen_move b sr sc er ec ⇓ (fun r => r = true <->
    straight (er - sr) (ec - sc) /\ path_free b sr sc er ec).
Proof.
  intros Hwf Hs He. unfold is_queen_move, straight.
  apply returns_bind. eapply returns_mono; [by apply is_rook_move_spec|].
  intros r Hr. destruct r.
  - simpl. split; [|done]. intros _. destruct (proj1 Hr eq_refl) as [H ?]. split; [lia|done].
  - eapply returns_mono; [by apply is_bishop_move_spec|]. intros r' ->.
    assert (~ ((er = sr \/ ec = sc) /\ path_free b sr sc er ec)) by (rewrite <- Hr; done).
    split; [intros []; split; [lia|done]|].
    intros [Hd Hf]. split; [|done]. destruct Hd as [Hd|[Hd|Hd]]; [exfalso..|done].
    all: match goal with Hn : ~ _ |- _ => apply Hn end; split; [lia|done].
Qed.

Lemma is_pawn_start_row_spec b color sr : rows b < 2 ^ 31 ->
  is_pawn_start_row b color sr = true <-> 4 <= rows b /\ sr = pawn_home_row b color.
Proof.
  intros Hr. unfold is_pawn_start_row, pawn_home_row.
  rewrite to_int_id by (unfold fits_int; pose proof (vlen_nonneg (cells_ b)); unfold rows in *; lia).
  destruct (Z.ltb_spec (rows b) 4); [split; [done|lia]|].
  destruct color; rewrite Z.eqb_eq; lia.
Qed.

Lemma not_color_opposite (a b : PieceColor) : a <> b <-> a = match b with White => Black | Black => White end.
Proof. destruct a, b; naive_solver. Qed.

(** The double step: allowed from the home row over an empty cell. *)
Lemma pawn_double_step_spec b color sr sc mid : board_wf b -> inside b sr sc ->
  mid = sr + forward color ->
  (if is_pawn_start_row b color sr then is_empty b (to_size mid) (to_size sc) else Ok false)
  ⇓ (fun r => r = true <->
      4 <= rows b /\ sr = pawn_home_row b color /\ occupant b (sr + forward color) sc = None).
Proof.
  intros Hwf Hs ->. pose proof (proj1 Hwf) as Hsh. pose proof (sh_rows b Hsh) as Hrows.
  destruct (is_pawn_start_row b color sr) eqn:Est.
  - apply is_pawn_start_row_spec in Est as [Hr4 Hsr]; [|done].
    assert (inside b (sr + forward color) sc) as Hmid
      by (unfold inside, pawn_home_row, forward in *; destruct color; lia).
    destruct (inside_size b _ _ Hsh Hmid) as [-> ->].
    rewrite is_empty_inside by done. simpl. rewrite bool_decide_eq_true. tauto.
  - simpl. split; [done|]. intros (H1 & H2 & _).
    by rewrite (proj2 (is_pawn_start_row_spec b color sr Hrows)) in Est.
Qed.

(** A move along the pawn's own column. *)
Lemma pawn_advance_spec b p sr sc er ec : board_wf b -> inside b sr sc -> inside b er ec ->
  ec - sc = 0 ->
  is_pawn_move_for_piece b p sr sc er ec ⇓ (fun r => r = true <->
    pawn_rule b (p_color p) sr sc er ec).
Proof.
  intros Hwf Hs He Hc. unfold is_pawn_move_for_piece. rewrite piece_at_cast by (done || apply Hwf).
  simpl. rewrite Hc. simpl. unfold pawn_rule.
  destruct (occupant b er ec) as [d|] eqn:Ho.
  { simpl. split; [done|]. intros [H1|[H1|H1]]; [naive_solver..|lia]. }
  unfold is_white, is_black, color_eqb.
  destruct (p_color p) eqn:Hp; simpl.
  - destruct (Z.eqb_spec (er - sr) (-1)); simpl.
    { split; [|done]. intros _. left. split_and!; [lia|lia|done]. }
    destruct (Z.eqb_spec (er - sr) (-2)); simpl.
    2: split; [done|]; intros [H1|[H1|H1]]; lia.
    eapply returns_mono; [by apply pawn_double_step_spec|]. intros r ->. simpl.
    split; [intros; right; left; intuition lia|]. intros [H1|[H1|H1]]; [lia|tauto|lia].
  - destruct (Z.eqb_spec (er - sr) 1); simpl.
    { split; [|done]. intros _. left. split_and!; [lia|lia|done]. }
    destruct (Z.eqb_spec (er - sr) 2); simpl.
    2: split; [done|]; intros [H1|[H1|H1]]; lia.
    eapply returns_mono; [by apply pawn_double_step_spec|]. intros r ->. simpl.
    split; [intros; right; left; intuition lia|]. intros [H1|[H1|H1]]; [lia|tauto|lia].
Qed.

(** A diagonal step captures an enemy. *)
Lemma pawn_capture_spec b p sr sc er ec : board_wf b -> inside b er ec -> ec - sc <> 0 ->
  is_pawn_move_for_piece b p sr sc er ec ⇓ (fun r => r = true <->
    pawn_rule b (p_color p) sr sc er ec).
Proof.
  intros Hwf He Hc. unfold is_pawn_move_for_piece. rewrite piece_at_cast by (done || apply Hwf).
  simpl. rewrite (proj2 (Z.eqb_neq _ _) Hc). unfold pawn_rule.
  destruct (Z.eqb_spec (Z.abs (ec - sc)) 1) as [Hc1|Hc1]; simpl.
  2: split; [done|]; intros [H1|[H1|H1]]; lia.
  destruct (occupant b er ec) as [d|] eqn:Ho.
  2: split; [done|]; intros [H1|[H1|(_ & _ & d & H1 & _)]]; [lia..|done].
  assert (forall color, (exists d', Some d = Some d' /\ p_color d' <> color) <-> p_color d <> color)
    as Hd by naive_solver.
  setoid_rewrite Hd. unfold is_white, is_black, color_eqb.
  destruct (p_color p) eqn:Hp; simpl.
  - destruct (Z.eqb_spec (er - sr) (-1)); simpl.
    2: split; [done|]; intros [H1|[H1|H1]]; lia.
    rewrite bool_decide_eq_true, not_color_opposite. intuition lia.
  - destruct (Z.eqb_spec (er - sr) 1); simpl.
    2: split; [done|]; intros [H1|[H1|H1]]; lia.
    rewrite bool_decide_eq_true, not_color_opposite. intuition lia.
Qed.

Lemma is_pawn_move_spec b p sr sc er ec : board_wf b -> inside b sr sc -> inside b er ec ->
  is_pawn_move_for_piece b p sr sc er ec ⇓ (fun r => r = true <->
    pawn_rule b (p_color p) sr sc er ec).
Proof.
  intros. destruct (decide (ec - sc = 0)); [by apply pawn_advance_spec|by apply pawn_capture_spec].
Qed.

Lemma is_king_move_spec b sr sc er ec :
  is_king_move b sr sc er ec ⇓ (fun r => r = true <-> path_span (er - sr) (ec - sc) = 1).
Proof.
  unfold is_king_move, path_span. simpl.
  rewrite !andb_true_iff, orb_true_iff, !negb_true_iff, !Z.leb_le, !Z.eqb_neq. lia.
Qed.

Lemma validate_knight_move_spec b sr sc er ec :
  validate_knight_move b sr sc er ec ⇓ (fun r => r = true <->
    Z.abs (er - sr) + Z.abs (ec - sc) = 3 /\ path_span (er - sr) (ec - sc) = 2).
Proof.
  unfold validate_knight_move, is_knight_move, path_span. simpl.
  rewrite orb_true_iff, !andb_true_iff, !Z.eqb_eq. lia.
Qed.

(** Every validator of the registry decides the rule of its kind, without fault. *)
Lemma validator_spec b kind p sr sc er ec v : board_wf b -> inside b sr sc -> inside b er ec ->
  validator (get_rule_entry kind) = Some v -> kind <> Pawn ->
  v b sr sc er ec ⇓ (fun r => r = true <-> kind_rule b kind (p_color p) sr sc er ec).
Proof.
  intros Hwf Hs He Hv Hk. destruct kind; try done; cbn in Hv; injection Hv as <-;
    auto using is_king_move_spec, is_queen_move_spec, is_rook_move_spec, is_bishop_move_spec,
      validate_knight_move_spec.
Qed.

Lemma is_destination_legal_spec b p sr sc er ec : board_wf b -> inside b sr sc ->
  inside b er ec -> occupant b sr sc = Some p ->
  is_destination_legal b sr sc er ec ⇓ (fun r => r = true <-> capture_rule b (p_color p) er ec).
Proof.
  intros Hwf Hs He Hp. pose proof (proj1 Hwf) as Hsh. unfold is_destination_legal, capture_rule.
  rewrite !piece_at_cast by done. simpl. rewrite Hp.
  destruct (occupant b er ec) as [d|] eqn:Ho; simpl; [|naive_solver].
  destruct (occupant_Some b _ _ _ Hwf Hp) as (_ & Hfp & _).
  destruct (occupant_Some b _ _ _ Hwf Ho) as (_ & Hfd & _).
  rewrite is_opponent_of_true.
  pose proof (find_id_valid b _ _ Hsh Hfp). pose proof (find_id_valid b _ _ Hsh Hfd).
  split; [intros (_ & _ & ?) ? [= <-]; congruence|]. intros H1. repeat split; try done.
  intros Heq. by apply (H1 d eq_refl).
Qed.

(** A pawn move never lands on the pawn's own colour. *)
Lemma pawn_rule_capture b color sr sc er ec :
  pawn_rule b color sr sc er ec -> capture_rule b color er ec.
Proof. unfold pawn_rule, capture_rule. naive_solver. Qed.

Lemma is_legal_move_spec b p sr sc er ec :
  board_wf b -> fits_int sr -> fits_int sc -> fits_int er -> fits_int ec ->
  occupant b sr sc = Some p ->
  is_legal_move b (p_kind p) sr sc er ec ⇓ (fun r => r = true <->
    inside b er ec /\ (sr, sc) <> (er, ec) /\
    kind_rule b (p_kind p) (p_color p) sr sc er ec /\ capture_rule b (p_color p) er ec).
Proof.
  intros Hwf Hsr Hsc Her Hec Hp. pose proof (proj1 Hwf) as Hsh.
  destruct (occupant_Some b _ _ _ Hwf Hp) as (_ & Hfp & _ & _ & Hin).
  unfold is_legal_move.
  destruct (Z.eqb_spec (rows b) 0); [unfold inside in Hin; lia|].
  destruct (Z.eqb_spec (cols b) 0); [unfold inside in Hin; lia|]. simpl.
  rewrite (proj2 (contains_spec b sr sc Hsr Hsc) Hin). simpl.
  destruct (contains b er ec) eqn:Hce; simpl.
  2: { split; [done|]. intros (H1 & _). apply contains_spec in H1; [congruence|done..]. }
  apply contains_spec in Hce; [|done..].
  destruct ((sr =? er) && (sc =? ec)) eqn:Heq.
  { zbool. subst. simpl. split; [done|]. naive_solver. }
  assert ((sr, sc) <> (er, ec)) as Hne.
  { intros [= -> ->]. by rewrite !Z.eqb_refl in Heq. }
  destruct (decide (p_kind p = Pawn)) as [Hk|Hk].
  - rewrite Hk. simpl. apply returns_bind.
    unfold is_pawn_move. rewrite piece_at_cast by done. simpl. rewrite Hp.
    eapply returns_mono; [by apply is_pawn_move_spec|]. intros [] Hr; simpl.
    + split; [|done]. intros _. assert (pawn_rule b (p_color p) sr sc er ec) by (by apply Hr).
      split; [done|]. split; [done|]. split; [done|]. by eapply pawn_rule_capture.
    + split; [done|]. intros (_ & _ & H1 & _). by apply Hr in H1.
  - destruct (validator (get_rule_entry (p_kind p))) as [v|] eqn:Hv.
    2: { destruct (p_kind p); try done. simpl. split; [done|]. naive_solver. }
    apply returns_bind.
    eapply returns_mono; [by apply (validator_spec b (p_kind p) p)|]. intros [] Hr; simpl.
    + assert (requires_destination_check (get_rule_entry (p_kind p)) = true) as ->
        by (by destruct (p_kind p)).
      eapply returns_mono; [by apply (is_destination_legal_spec b p)|].
      intros r ->. assert (kind_rule b (p_kind p) (p_color p) sr sc er ec) by (by apply Hr). tauto.
    + split; [done|]. intros (_ & _ & H1 & _). by apply Hr in H1.
Qed.

(** ** Properties *)

(** C3: Static legality is sound and complete for the rules of chess movement:
    on a well-formed board [is_legal_move] never faults, and for the piece
    standing on the start cell it answers [true] exactly when both cells are on
    the board, they differ, the piece's own geometry allows the move (with an
    unobstructed path for the sliding pieces) and the destination does not hold
    a piece of the same colour. *)
Theorem is_legal_move_correct b p sr sc er ec :
  board_wf b -> fits_int sr -> fits_int sc -> fits_int er -> fits_int ec ->
  occupant b sr sc = Some p ->
  is_legal_move b (p_kind p) sr sc er ec ⇓ (fun r => r = true <->
    inside b er ec /\ (sr, sc) <> (er, ec) /\
    kind_rule b (p_kind p) (p_color p) sr sc er ec /\ capture_rule b (p_color p) er ec).
Proof. apply is_legal_move_spec. Qed.

Lemma is_legal_move_correct_witness :
  let b := board_of [["wR"; "."; "bP"]; ["."; "."; "."]]%string in
  let p := mkPiece 1 White Rook (mkPosition 0 0) Idle in
  is_legal_move b (p_kind p) 0 0 0 2 ⇓ (fun r => r = true <->
    inside b 0 2 /\ (0, 0) <> (0, 2) /\
    kind_rule b (p_kind p) (p_color p) 0 0 0 2 /\ capture_rule b (p_color p) 0 2).
Proof.
  apply (is_legal_move_correct _ (mkPiece 1 White Rook (mkPosition 0 0) Idle));
    [by apply board_of_wf|unfold fits_int; lia..|reflexivity].
Defined.
