(* ===== verification/CollisionResolver.v ===== *)
(** * Collisions between moves in flight

    The scheduling records of [src/src/realtime/move_scheduler.h] and the class
    [CollisionResolver] of [collision_resolver.h]/[collision_resolver.cpp]: route
    overlap, same-colour destination claims and the resolution of an arrival
    (capture by an active jump, capture of the occupant, or neither). *)

From S2P Require Import Prelude Piece BoardModel PathUtils PieceRules.

Inductive RestKind := Short | Long.

#[export] Instance RestKind_eq_dec : EqDecision RestKind.
Proof. solve_decision. Defined.

Record PendingMove := mkMove {
  pm_piece_id : Z;
  pm_color : PieceColor;
  pm_kind : PieceKind;
  pm_start_pos : Cell;
  pm_end_pos : Cell;
  pm_start_time : Z;
  pm_arrival_time : Z
}.

Record JumpState := mkJump {
  j_piece_id : Z;
  j_color : PieceColor;
  j_kind : PieceKind;
  j_cell : Cell;
  j_start_time : Z;
  j_arrival_time : Z
}.

Record ActiveRest := mkRest {
  ar_kind : RestKind;
  ar_start_time_ms : Z;
  ar_end_time_ms : Z;
  ar_row : Z;
  ar_col : Z
}.

Record ArrivingPieceInfo := mkArriving {
  ap_piece_id : Z;
  ap_start_pos : Cell;
  ap_end_pos : Cell
}.

(** ** Routes *)

Definition ranges_overlap (a_min a_max b_min b_max : Z) : bool :=
  (a_min <=? b_max) && (b_min <=? a_max).

Definition has_common_route (a b : PendingMove) : res bool :=
  share ← paths_share_cell (pm_start_pos a) (pm_end_pos a) (pm_start_pos b) (pm_end_pos b);
  if share : bool then Ok true
  else
    let a_horizontal := (pm_start_pos a).1 =? (pm_end_pos a).1 in
    let b_horizontal := (pm_start_pos b).1 =? (pm_end_pos b).1 in
    if a_horizontal && b_horizontal then
      Ok (ranges_overlap
            (Z.min (pm_start_pos a).2 (pm_end_pos a).2) (Z.max (pm_start_pos a).2 (pm_end_pos a).2)
            (Z.min (pm_start_pos b).2 (pm_end_pos b).2) (Z.max (pm_start_pos b).2 (pm_end_pos b).2))
    else
      let a_vertical := (pm_start_pos a).2 =? (pm_end_pos a).2 in
      let b_vertical := (pm_start_pos b).2 =? (pm_end_pos b).2 in
      if a_vertical && b_vertical then
        Ok (ranges_overlap
              (Z.min (pm_start_pos a).1 (pm_end_pos a).1) (Z.max (pm_start_pos a).1 (pm_end_pos a).1)
              (Z.min (pm_start_pos b).1 (pm_end_pos b).1) (Z.max (pm_start_pos b).1 (pm_end_pos b).1))
      else Ok false.

Fixpoint conflicts_with_opposite_color_move (pending_moves : list PendingMove) (clock_ms : Z)
    (moving_color : PieceColor) (proposed : PendingMove) : res bool :=
  match pending_moves with
  | [] => Ok false
  | existing :: rest =>
      if pm_arrival_time existing <=? clock_ms then
        conflicts_with_opposite_color_move rest clock_ms moving_color proposed
      else if color_eqb (pm_color existing) moving_color then
        conflicts_with_opposite_color_move rest clock_ms moving_color proposed
      else
        common ← has_common_route existing proposed;
        if common : bool then Ok true
        else conflicts_with_opposite_color_move rest clock_ms moving_color proposed
  end.

Fixpoint is_same_color_destination_claimed (pending_moves : list PendingMove) (clock_ms : Z)
    (moving_color : PieceColor) (end_pos : Cell) : bool :=
  match pending_moves with
  | [] => false
  | existing :: rest =>
      if pm_arrival_time existing <=? clock_ms then
        is_same_color_destination_claimed rest clock_ms moving_color end_pos
      else if negb (color_eqb (pm_color existing) moving_color) then
        is_same_color_destination_claimed rest clock_ms moving_color end_pos
      else if cell_eqb (pm_end_pos existing) end_pos then true
      else is_same_color_destination_claimed rest clock_ms moving_color end_pos
  end.

(** ** Arrival *)

(** The loop over the active jumps: the first enemy jump over the target cell
    captures the arriving piece. *)
Fixpoint jump_captures (clock_ms : Z) (active_jumps : list JumpState) (target_cell : Cell)
    (arriving_piece : Piece) : bool :=
  match active_jumps with
  | [] => false
  | jump :: rest =>
      if (clock_ms <=? j_arrival_time jump) && cell_eqb (j_cell jump) target_cell
         && negb (color_eqb (p_color arriving_piece) (j_color jump))
      then true
      else jump_captures clock_ms rest target_cell arriving_piece
  end.

(** [check_for_jump_capture]: (resolved as a capture, board, game over). *)
Definition check_for_jump_capture (b : BoardModel) (rules : GameRules) (clock_ms : Z)
    (active_jumps : list JumpState) (target_cell : Cell) (info : ArrivingPieceInfo)
    (game_over : bool) : res (bool * BoardModel * bool) :=
  let '(end_row, end_col) := target_cell in
  arriving_piece ← get_piece b (ap_piece_id info);
  if jump_captures clock_ms active_jumps target_cell arriving_piece then
    Ok (true, b, if rule_is_game_over rules arriving_piece then true else game_over)
  else
    destination ← piece_at b end_row end_col;
    match destination with
    | Some d =>
        if negb (color_eqb (p_color d) (p_color arriving_piece)) then
          let game_over' := if rule_is_game_over rules d then true else game_over in
          b1 ← remove_piece_at b end_row end_col;
          arriving_piece' ← get_piece b1 (ap_piece_id info);
          let placed := rule_on_reach_last_row rules arriving_piece' end_row (rows b1) in
          let placed := set_cell placed (mkPosition (to_int end_row) (to_int end_col)) in
          let placed := set_state placed Idle in
          b2 ← place_piece b1 placed;
          Ok (true, b2, game_over')
        else Ok (false, b, game_over)
    | None => Ok (false, b, game_over)
    end.

(** ** Lemmas *)

Lemma is_same_color_destination_claimed_spec pending clock color end_pos :
  is_same_color_destination_claimed pending clock color end_pos = true <->
  exists m, m ∈ pending /\ clock < pm_arrival_time m /\ pm_color m = color /\
    pm_end_pos m = end_pos.
Proof.
  induction pending as [|m pending IH]; simpl; [set_solver|].
  destruct (Z.leb_spec (pm_arrival_time m) clock).
  { rewrite IH. setoid_rewrite elem_of_cons.
    split; [naive_solver|]. intros (x & [->|] & ?); [lia|naive_solver]. }
  destruct (color_eqb (pm_color m) color) eqn:Ec; simpl.
  - apply color_eqb_true in Ec. destruct (cell_eqb (pm_end_pos m) end_pos) eqn:Ee.
    + apply cell_eqb_eq in Ee. split; [|done]. intros _. exists m. set_solver.
    + rewrite IH. setoid_rewrite elem_of_cons. split; [naive_solver|].
      intros (x & [->|] & ? & ? & Hx); [|naive_solver]. apply cell_eqb_eq in Hx. congruence.
  - apply color_eqb_false in Ec. rewrite IH. setoid_rewrite elem_of_cons. naive_solver.
Qed.

Lemma jump_captures_spec clock jumps target p :
  jump_captures clock jumps target p = true <->
  exists j, j ∈ jumps /\ clock <= j_arrival_time j /\ j_cell j = target /\
    j_color j <> p_color p.
Proof.
  induction jumps as [|j jumps IH]; simpl; [set_solver|].
  setoid_rewrite elem_of_cons.
  destruct ((clock <=? j_arrival_time j) && cell_eqb (j_cell j) target
    && negb (color_eqb (p_color p) (j_color j))) eqn:E.
  - zbool. apply cell_eqb_eq in H1. apply color_eqb_false in H0.
    split; [|done]. intros _. exists j. naive_solver.
  - rewrite IH. split; [naive_solver|]. intros (x & [->|] & H1 & H2 & H3); [|naive_solver].
    exfalso. rewrite (proj2 (Z.leb_le _ _) H1), (proj2 (cell_eqb_eq _ _) H2) in E. simpl in E.
    apply negb_false_iff, color_eqb_true in E. congruence.
Qed.

(** Two closed ranges given by unordered end points meet. *)
Definition spans_meet (a a' b b' : Z) : Prop :=
  Z.min a a' <= Z.max b b' /\ Z.min b b' <= Z.max a a'.

(** When the source treats two routes as conflicting: they meet, or both are
    horizontal with overlapping columns, or (not both horizontal) both are
    vertical with overlapping rows. *)
Definition routes_conflict (a b : PendingMove) : Prop :=
  let '(sa, ea, sb, eb) := (pm_start_pos a, pm_end_pos a, pm_start_pos b, pm_end_pos b) in
  shares_cell sa ea sb eb \/
  (if decide (sa.1 = ea.1 /\ sb.1 = eb.1) then spans_meet sa.2 ea.2 sb.2 eb.2
   else sa.2 = ea.2 /\ sb.2 = eb.2 /\ spans_meet sa.1 ea.1 sb.1 eb.1).

Definition route_fits (m : PendingMove) : Prop :=
  cell_fits (pm_start_pos m) /\ cell_fits (pm_end_pos m).

Lemma ranges_overlap_spec a b c d : ranges_overlap a b c d = true <-> a <= d /\ c <= b.
Proof. unfold ranges_overlap. by rewrite andb_true_iff, !Z.leb_le. Qed.

Lemma has_common_route_spec a b : route_fits a -> route_fits b ->
  has_common_route a b ⇓ (fun r => r = true <-> routes_conflict a b).
Proof.
  intros [H1 H2] [H3 H4]. unfold has_common_route, routes_conflict. apply returns_bind.
  eapply returns_mono; [by apply paths_share_cell_spec|]. intros [] Hs; [apply returns_ok; tauto|].
  assert (~ shares_cell (pm_start_pos a) (pm_end_pos a) (pm_start_pos b) (pm_end_pos b)) as Hn
    by (rewrite <- Hs; done).
  destruct ((_ =? _) && (_ =? _)) eqn:Eh.
  - zbool. rewrite decide_True by done. apply returns_ok. rewrite ranges_overlap_spec.
    unfold spans_meet. tauto.
  - rewrite decide_False.
    2: { intros [E1 E2]. by rewrite E1, E2, !Z.eqb_refl in Eh. }
    destruct (((pm_start_pos a).2 =? _) && (_ =? _)) eqn:Ev; apply returns_ok.
    + zbool. cbn beta. rewrite ranges_overlap_spec. unfold spans_meet. tauto.
    + split; [done|]. intros [?|(E1 & E2 & _)]; [done|].
      by rewrite E1, E2, !Z.eqb_refl in Ev.
Qed.

Lemma conflicts_with_opposite_color_move_spec pending clock color proposed :
  (forall m, m ∈ pending -> route_fits m) -> route_fits proposed ->
  conflicts_with_opposite_color_move pending clock color proposed ⇓ (fun r => r = true <->
    exists m, m ∈ pending /\ clock < pm_arrival_time m /\ pm_color m <> color /\
      routes_conflict m proposed).
Proof.
  intros Hfit Hp. induction pending as [|m pending IH].
  { apply returns_ok. set_solver. }
  assert (forall (Q : Prop), ~ (clock < pm_arrival_time m /\ pm_color m <> color /\
      routes_conflict m proposed) ->
    (Q <-> exists x, x ∈ pending /\ clock < pm_arrival_time x /\ pm_color x <> color /\
      routes_conflict x proposed) ->
    (Q <-> exists x, x ∈ m :: pending /\ clock < pm_arrival_time x /\ pm_color x <> color /\
      routes_conflict x proposed)) as Hskip.
  { intros Q Hn ->. setoid_rewrite elem_of_cons. naive_solver. }
  specialize (IH ltac:(intros; by apply Hfit, list_elem_of_further)). simpl.
  destruct (Z.leb_spec (pm_arrival_time m) clock).
  { eapply returns_mono; [apply IH|]. intros r Hr. apply Hskip; [lia|done]. }
  destruct (color_eqb (pm_color m) color) eqn:Ec.
  { apply color_eqb_true in Ec. eapply returns_mono; [apply IH|]. intros r Hr.
    apply Hskip; [tauto|done]. }
  apply color_eqb_false in Ec. apply returns_bind.
  eapply returns_mono; [apply has_common_route_spec; [by apply Hfit, list_elem_of_here|done]|].
  intros [] Hr.
  - apply returns_ok. split; [|done]. intros _. exists m. split; [apply list_elem_of_here|].
    split_and!; [lia|done|by apply Hr].
  - eapply returns_mono; [apply IH|]. intros r Hr'. apply Hskip; [|done].
    intros (_ & _ & Hc). by apply Hr in Hc.
Qed.

(** ** Properties *)

(** The conflict check against enemy moves returns on every queue of moves
    on the board, and answers [true] exactly when some enemy move still in
    flight has a conflicting route. *)
Lemma conflict_check_correct pending clock color proposed :
  (forall m, m ∈ pending -> route_fits m) -> route_fits proposed ->
  conflicts_with_opposite_color_move pending clock color proposed ⇓ (fun r => r = true <->
    exists m, m ∈ pending /\ clock < pm_arrival_time m /\ pm_color m <> color /\
      routes_conflict m proposed).
Proof. apply conflicts_with_opposite_color_move_spec. Qed.

Lemma conflict_check_correct_witness :
  let m := mkMove 1 White Rook (0, 0) (0, 5) 0 5000 in
  let n := mkMove 2 Black Rook (3, 2) (0, 2) 0 3000 in
  conflicts_with_opposite_color_move [m] 100 Black n ⇓ (fun r => r = true <->
    exists x, x ∈ [m] /\ 100 < pm_arrival_time x /\ pm_color x <> Black /\ routes_conflict x n).
Proof.
  apply conflict_check_correct.
  - intros m ->%list_elem_of_singleton. vm_compute. intuition discriminate.
  - vm_compute. intuition discriminate.
Defined.

(** Two horizontal moves on different rows count as conflicting as soon as their
    column ranges overlap. *)
Example horizontal_moves_on_different_rows_conflict :
  has_common_route (mkMove 1 White Rook (0, 0) (0, 5) 0 5000)
    (mkMove 2 Black Rook (7, 3) (7, 6) 0 3000) = Ok true.
Proof. reflexivity. Qed.
