(* ===== verification/MoveScheduler.v ===== *)
(** * The move scheduler

    [src/src/realtime/move_scheduler.h]/[move_scheduler.cpp] and
    [render_snapshot.h]: the queues of moves and jumps in flight, the table of
    resting pieces, the temporal queries over them and the animation snapshot.

    The public methods take the clock as [uint64_t] and cast it back to
    [int64_t]; [clock_of] is that cast.  A callback receives and returns the
    scheduler together with the caller's state, because the callbacks of
    [RealTimeArbiter] write [active_rests_] while a queue is traversed. *)

From S2P Require Import Prelude Piece BoardModel PathUtils PieceRules CollisionResolver.
From Stdlib Require Import Floats.SpecFloat.

(** ** Animation snapshots ([render_snapshot.h]) *)

(** IEEE single precision, round to nearest even. *)
Definition float32_of_int (z : Z) : spec_float := binary_normalize 24 128 z 0 false.
Definition float32_div : spec_float -> spec_float -> spec_float := SFdiv 24 128.

Record ActiveMoveSnapshot := mkMoveSnapshot {
  ams_piece_id : Z; ams_kind : PieceKind; ams_color : PieceColor;
  ams_from_row : Z; ams_from_col : Z; ams_to_row : Z; ams_to_col : Z;
  ams_progress : spec_float
}.

Record ActiveJumpSnapshot := mkJumpSnapshot {
  ajs_piece_id : Z; ajs_kind : PieceKind; ajs_color : PieceColor;
  ajs_row : Z; ajs_col : Z; ajs_progress : spec_float
}.

Record ActiveRestSnapshot := mkRestSnapshot {
  ars_piece_id : Z; ars_row : Z; ars_col : Z; ars_kind : RestKind; ars_progress : spec_float
}.

Record AnimationSnapshot := mkAnimation {
  snap_moves : list ActiveMoveSnapshot;
  snap_jumps : list ActiveJumpSnapshot;
  snap_rests : list ActiveRestSnapshot
}.

Definition compute_animation_progress (clock_ms start_time arrival_time : Z) : spec_float :=
  if arrival_time <=? clock_ms then float32_of_int 1
  else if clock_ms <=? start_time then float32_of_int 0
  else
    let duration := arrival_time - start_time in
    float32_div (float32_of_int (clock_ms - start_time)) (float32_of_int duration).

(** ** State *)

Record MoveScheduler := mkScheduler {
  pending_moves_ : list PendingMove;
  active_jumps_ : list JumpState;
  active_rests_ : gmap Z ActiveRest
}.

Definition empty_scheduler : MoveScheduler := mkScheduler [] [] ∅.

Definition set_pending (s : MoveScheduler) (l : list PendingMove) : MoveScheduler :=
  mkScheduler l (active_jumps_ s) (active_rests_ s).
Definition set_jumps (s : MoveScheduler) (l : list JumpState) : MoveScheduler :=
  mkScheduler (pending_moves_ s) l (active_rests_ s).
Definition set_rests (s : MoveScheduler) (m : gmap Z ActiveRest) : MoveScheduler :=
  mkScheduler (pending_moves_ s) (active_jumps_ s) m.

(** [static_cast<std::int64_t>(current_time_ms)]. *)
Definition clock_of (current_time_ms : Z) : Z := to_i64 current_time_ms.

(** ** Queries *)

Definition is_piece_moving (s : MoveScheduler) (current_time_ms row col : Z) : bool :=
  let clock_ms := clock_of current_time_ms in
  existsb (fun move => (clock_ms <? pm_arrival_time move)
    && ((pm_start_pos move).1 =? row) && ((pm_start_pos move).2 =? col)) (pending_moves_ s).

Definition is_piece_jumping (s : MoveScheduler) (current_time_ms row col : Z) : bool :=
  let clock_ms := clock_of current_time_ms in
  existsb (fun jump => (clock_ms <? j_arrival_time jump)
    && ((j_cell jump).1 =? row) && ((j_cell jump).2 =? col)) (active_jumps_ s).

Definition destination_claimed (s : MoveScheduler) (current_time_ms : Z) (color : PieceColor)
    (end_pos : Cell) : bool :=
  is_same_color_destination_claimed (pending_moves_ s) (clock_of current_time_ms) color end_pos.

Definition conflicts_with_opposite (s : MoveScheduler) (current_time_ms : Z)
    (moving_color : PieceColor) (proposed : PendingMove) : res bool :=
  conflicts_with_opposite_color_move (pending_moves_ s) (clock_of current_time_ms)
    moving_color proposed.

Definition is_piece_resting (s : MoveScheduler) (current_time_ms piece_id : Z) : bool :=
  match active_rests_ s !! piece_id with
  | None => false
  | Some rest => clock_of current_time_ms <? ar_end_time_ms rest
  end.

Definition rest_kind (s : MoveScheduler) (current_time_ms piece_id : Z) : option RestKind :=
  match active_rests_ s !! piece_id with
  | None => None
  | Some rest =>
      if ar_end_time_ms rest <=? clock_of current_time_ms then None else Some (ar_kind rest)
  end.

(** ** Traversals *)

Definition for_each_in_flight_pending {S} (s : MoveScheduler) (current_time_ms : Z)
    (fn : PendingMove -> S -> res S) (st : S) : res S :=
  let clock_ms := clock_of current_time_ms in
  foldM (fun move st => if clock_ms <? pm_arrival_time move then fn move st else Ok st)
    (pending_moves_ s) st.

(** One iteration of the loop of [for_each_pending_due]; the accumulator carries
    [still_pending]. *)
Definition pending_due_step {S} (clock_ms : Z)
    (fn : PendingMove -> MoveScheduler * S -> res (MoveScheduler * S)) (move : PendingMove)
    (acc : list PendingMove * (MoveScheduler * S)) :
    res (list PendingMove * (MoveScheduler * S)) :=
  let '(still_pending, st) := acc in
  if clock_ms <? pm_arrival_time move then Ok (still_pending ++ [move], st)
  else st' ← fn move st; Ok (still_pending, st').

Definition for_each_pending_due {S} (s : MoveScheduler) (current_time_ms : Z)
    (fn : PendingMove -> MoveScheduler * S -> res (MoveScheduler * S)) (st : S) :
    res (MoveScheduler * S) :=
  acc ← foldM (pending_due_step (clock_of current_time_ms) fn) (pending_moves_ s) ([], (s, st));
  let '(still_pending, (s', st')) := acc in
  Ok (set_pending s' still_pending, st').

Definition expire_jumps_step {S} (clock_ms : Z)
    (on_complete : JumpState -> MoveScheduler * S -> res (MoveScheduler * S)) (jump : JumpState)
    (acc : list JumpState * (MoveScheduler * S)) : res (list JumpState * (MoveScheduler * S)) :=
  let '(still_jumping, st) := acc in
  if clock_ms <? j_arrival_time jump then Ok (still_jumping ++ [jump], st)
  else st' ← on_complete jump st; Ok (still_jumping, st').

Definition expire_jumps {S} (s : MoveScheduler) (current_time_ms : Z)
    (on_complete : JumpState -> MoveScheduler * S -> res (MoveScheduler * S)) (st : S) :
    res (MoveScheduler * S) :=
  acc ← foldM (expire_jumps_step (clock_of current_time_ms) on_complete) (active_jumps_ s)
          ([], (s, st));
  let '(still_jumping, (s', st')) := acc in
  Ok (set_jumps s' still_jumping, st').

(** ** Updates *)

(** Erase the first move of the piece. *)
Fixpoint erase_first_move (piece_id : Z) (l : list PendingMove) : list PendingMove :=
  match l with
  | [] => []
  | move :: l' =>
      if pm_piece_id move =? piece_id then l' else move :: erase_first_move piece_id l'
  end.

Definition cancel_pending_move (s : MoveScheduler) (piece_id : Z) : MoveScheduler :=
  set_pending s (erase_first_move piece_id (pending_moves_ s)).

Definition schedule_move (s : MoveScheduler) (move : PendingMove) : MoveScheduler :=
  set_pending s (pending_moves_ s ++ [move]).

Definition schedule_jump (s : MoveScheduler) (jump : JumpState) : MoveScheduler :=
  set_jumps s (active_jumps_ s ++ [jump]).

Definition schedule_rest (s : MoveScheduler) (piece_id : Z) (kind : RestKind)
    (start_time_ms end_time_ms row col : Z) : MoveScheduler :=
  set_rests s (<[piece_id := mkRest kind start_time_ms end_time_ms row col]> (active_rests_ s)).

Definition clear_rest (s : MoveScheduler) (piece_id : Z) : MoveScheduler :=
  set_rests s (delete piece_id (active_rests_ s)).

Definition expire_rests (s : MoveScheduler) (current_time_ms : Z) : MoveScheduler :=
  let clock_ms := clock_of current_time_ms in
  set_rests s (filter (fun e => clock_ms < ar_end_time_ms e.2) (active_rests_ s)).

(** The order of [snap_rests] is the order of the table's traversal, which the
    hash map of the source leaves unspecified. *)
Definition animations_at (s : MoveScheduler) (clock_ms : Z) : AnimationSnapshot :=
  mkAnimation
    (omap (fun move =>
      if pm_arrival_time move <=? clock_ms then None
      else Some (mkMoveSnapshot (pm_piece_id move) (pm_kind move) (pm_color move)
        (pm_start_pos move).1 (pm_start_pos move).2 (pm_end_pos move).1 (pm_end_pos move).2
        (compute_animation_progress clock_ms (pm_start_time move) (pm_arrival_time move))))
      (pending_moves_ s))
    (omap (fun jump =>
      if j_arrival_time jump <=? clock_ms then None
      else Some (mkJumpSnapshot (j_piece_id jump) (j_kind jump) (j_color jump)
        (j_cell jump).1 (j_cell jump).2
        (compute_animation_progress clock_ms (j_start_time jump) (j_arrival_time jump))))
      (active_jumps_ s))
    (omap (fun e =>
      let '(piece_id, rest) := e in
      if ar_end_time_ms rest <=? clock_ms then None
      else Some (mkRestSnapshot piece_id (ar_row rest) (ar_col rest) (ar_kind rest)
        (compute_animation_progress clock_ms (ar_start_time_ms rest) (ar_end_time_ms rest))))
      (map_to_list (active_rests_ s))).

(** ** Lemmas *)

Lemma clock_of_cast t : fits_i64 t -> clock_of (to_u64 t) = t.
Proof.
  unfold fits_i64, clock_of, to_i64, to_u64, wrap_s, wrap_u. intros Ht.
  rewrite Zplus_mod_idemp_l. change (64 - 1) with 63. rewrite Z.mod_small; lia.
Qed.

Lemma erase_first_move_elem l id m : pm_piece_id m <> id ->
  m ∈ erase_first_move id l <-> m ∈ l.
Proof.
  intros Hne. induction l as [|x l IH]; simpl; [done|].
  destruct (Z.eqb_spec (pm_piece_id x) id); rewrite !elem_of_cons, ?IH; [|done].
  naive_solver.
Qed.

Lemma erase_first_move_perm l m :
  NoDup (pm_piece_id <$> l) -> m ∈ l -> l ≡ₚ m :: erase_first_move (pm_piece_id m) l.
Proof.
  induction l as [|x l IH]; [set_solver|]. intros Hnd Hm. simpl in *.
  apply NoDup_cons in Hnd as [Hx Hnd]. destruct (Z.eqb_spec (pm_piece_id x) (pm_piece_id m)) as [E|E].
  - apply elem_of_cons in Hm as [->|Hm]; [done|].
    exfalso. apply Hx. rewrite E. by apply list_elem_of_fmap_2.
  - apply elem_of_cons in Hm as [->|Hm]; [done|]. rewrite (IH Hnd Hm) at 1. apply Permutation_swap.
Qed.

(** The due moves are handed to the callback in queue order, the others stay. *)
Lemma for_each_pending_due_eq {S} (s : MoveScheduler) t fn (st : S) : fits_i64 t ->
  for_each_pending_due s (to_u64 t) fn st =
  (r ← foldM fn (filter (fun m => ~ t < pm_arrival_time m) (pending_moves_ s)) (s, st);
   Ok (set_pending r.1 (filter (fun m => t < pm_arrival_time m) (pending_moves_ s)), r.2)).
Proof.
  intros Ht. unfold for_each_pending_due. rewrite clock_of_cast by done.
  rewrite (foldM_keep (fun m => t < pm_arrival_time m) fn).
  - by destruct (foldM fn _ _) as [[]|].
  - intros m kept st0. simpl. by destruct (Z.ltb_spec t (pm_arrival_time m)); case_decide; try lia.
Qed.

Lemma expire_jumps_eq {S} (s : MoveScheduler) t fn (st : S) : fits_i64 t ->
  expire_jumps s (to_u64 t) fn st =
  (r ← foldM fn (filter (fun j => ~ t < j_arrival_time j) (active_jumps_ s)) (s, st);
   Ok (set_jumps r.1 (filter (fun j => t < j_arrival_time j) (active_jumps_ s)), r.2)).
Proof.
  intros Ht. unfold expire_jumps. rewrite clock_of_cast by done.
  rewrite (foldM_keep (fun j => t < j_arrival_time j) fn).
  - by destruct (foldM fn _ _) as [[]|].
  - intros j kept st0. simpl. by destruct (Z.ltb_spec t (j_arrival_time j)); case_decide; try lia.
Qed.

Lemma is_piece_moving_spec s t r c : fits_i64 t ->
  is_piece_moving s (to_u64 t) r c = true <->
  exists m, m ∈ pending_moves_ s /\ t < pm_arrival_time m /\ pm_start_pos m = (r, c).
Proof.
  intros Ht. unfold is_piece_moving. rewrite clock_of_cast by done.
  rewrite existsb_exists. setoid_rewrite <- list_elem_of_In.
  apply exist_proper. intros m. destruct (pm_start_pos m) as [r0 c0]. simpl.
  rewrite !andb_true_iff, Z.ltb_lt, !Z.eqb_eq. naive_solver.
Qed.

Lemma is_piece_jumping_spec s t r c : fits_i64 t ->
  is_piece_jumping s (to_u64 t) r c = true <->
  exists j, j ∈ active_jumps_ s /\ t < j_arrival_time j /\ j_cell j = (r, c).
Proof.
  intros Ht. unfold is_piece_jumping. rewrite clock_of_cast by done.
  rewrite existsb_exists. setoid_rewrite <- list_elem_of_In.
  apply exist_proper. intros j. destruct (j_cell j) as [r0 c0]. simpl.
  rewrite !andb_true_iff, Z.ltb_lt, !Z.eqb_eq. naive_solver.
Qed.

Lemma is_piece_resting_spec s t id : fits_i64 t ->
  is_piece_resting s (to_u64 t) id = true <->
  exists rest, active_rests_ s !! id = Some rest /\ t < ar_end_time_ms rest.
Proof.
  intros Ht. unfold is_piece_resting. rewrite clock_of_cast by done.
  destruct (active_rests_ s !! id); [rewrite Z.ltb_lt|]; naive_solver.
Qed.

Lemma expire_rests_lookup s t id rest : fits_i64 t ->
  active_rests_ (expire_rests s (to_u64 t)) !! id = Some rest <->
  active_rests_ s !! id = Some rest /\ t < ar_end_time_ms rest.
Proof.
  intros Ht. unfold expire_rests. rewrite clock_of_cast by done. simpl.
  by rewrite map_lookup_filter_Some.
Qed.
