(* ===== verification/RealTimeArbiter.v ===== *)
(** * The real-time arbiter

    [src/src/realtime/real_time_arbiter.h]/[real_time_arbiter.cpp]: the game clock,
    the scheduling of moves and jumps, and the settlement of arrivals on the
    board.  The settlement callback, its re-validation, the restoration of an
    aborted move and the cancellation of moves that became illegal are modelled
    statement by statement.

    The second half proves the flight invariant: every piece off the grid and
    not captured is the piece of exactly one move or jump in flight, and every
    settlement step re-establishes this on a well-formed board without fault. *)

From S2P Require Import Prelude Piece BoardModel PathUtils PieceRules CollisionResolver MoveScheduler.

(** ** State *)

Record RealTimeArbiter := mkArbiter {
  scheduler_ : MoveScheduler;
  clock_ms_ : Z
}.

Definition initial_arbiter : RealTimeArbiter := mkArbiter empty_scheduler 0.

Definition with_scheduler (a : RealTimeArbiter) (s : MoveScheduler) : RealTimeArbiter :=
  mkArbiter s (clock_ms_ a).

(** ** Settlement *)

Definition can_settle_move (b : BoardModel) (move : PendingMove) : res bool :=
  let '(start_row, start_col) := pm_start_pos move in
  let '(end_row, end_col) := pm_end_pos move in
  piece ← get_piece b (pm_piece_id move);
  let rule := get_rule_entry (p_kind piece) in
  match validator rule with
  | None => Ok false
  | Some v =>
      ok ← (if kind_eqb (p_kind piece) Pawn then
              is_pawn_move_for_piece b piece (to_int start_row) (to_int start_col)
                (to_int end_row) (to_int end_col)
            else v b (to_int start_row) (to_int start_col) (to_int end_row) (to_int end_col));
      if negb ok then Ok false
      else if requires_destination_check rule then
        dest ← piece_at b end_row end_col;
        Ok (match dest with
            | Some d => if negb (is_opponent_of piece d) then false else true
            | None => true
            end)
      else Ok true
  end.

Definition restore_piece_to_cell (b : BoardModel) (piece_id row col : Z) : res BoardModel :=
  b ← update_piece b piece_id (fun p => set_state p Idle);
  at_cell ← piece_at b row col;
  if match at_cell with Some q => p_id q =? piece_id | None => false end then Ok b
  else
    e ← is_empty b row col;
    b ← (if negb e then remove_piece_at b row col else Ok b);
    updated ← get_piece b piece_id;
    let updated := set_cell updated (mkPosition (to_int row) (to_int col)) in
    place_piece_at b row col updated.

Definition restore_aborted_move (b : BoardModel) (move : PendingMove) : res BoardModel :=
  let '(start_row, start_col) := pm_start_pos move in
  restore_piece_to_cell b (pm_piece_id move) start_row start_col.

Definition restore_jumper (b : BoardModel) (jump : JumpState) : res BoardModel :=
  let '(row, col) := j_cell jump in
  restore_piece_to_cell b (j_piece_id jump) row col.

Definition cancel_invalid_in_flight_moves (a : RealTimeArbiter) (b : BoardModel) :
    res (RealTimeArbiter * BoardModel) :=
  let current_time_ms := to_u64 (clock_ms_ a) in
  invalid_moves ← for_each_in_flight_pending (scheduler_ a) current_time_ms
    (fun move invalid_moves =>
      ok ← can_settle_move b move;
      Ok (if negb ok then invalid_moves ++ [move] else invalid_moves)) [];
  r ← foldM (fun move '(s, b) =>
        b' ← restore_aborted_move b move;
        Ok (cancel_pending_move s (pm_piece_id move), b'))
      invalid_moves (scheduler_ a, b);
  Ok (with_scheduler a r.1, r.2).

(** [scheduler_.schedule_rest(...)] with the casts to [int] of the call sites. *)
Definition schedule_rest_at (s : MoveScheduler) (piece_id : Z) (kind : RestKind)
    (arrival_time duration row col : Z) : res MoveScheduler :=
  end_time ← i64_add arrival_time duration;
  Ok (schedule_rest s piece_id kind (to_int arrival_time) (to_int end_time) row col).

(** What the settlement callback captures by reference, the scheduler apart. *)
Record SettleCtx := mkCtx {
  ctx_board : BoardModel;
  ctx_game_over : bool;
  board_changed : bool
}.

(** The body of the callback passed to [for_each_pending_due]. *)
Definition settle_move (rules : GameRules) (clock_ms : Z) (move : PendingMove)
    (st : MoveScheduler * SettleCtx) : res (MoveScheduler * SettleCtx) :=
  let '(s, ctx) := st in
  let b := ctx_board ctx in
  ok ← can_settle_move b move;
  if negb ok then
    b' ← restore_aborted_move b move;
    Ok (s, mkCtx b' (ctx_game_over ctx) (board_changed ctx))
  else
    let '(start_row, start_col) := pm_start_pos move in
    let '(end_row, end_col) := pm_end_pos move in
    at_start ← piece_at b start_row start_col;
    b ← (if match at_start with Some q => p_id q =? pm_piece_id move | None => false end
         then clear_cell b start_row start_col else Ok b);
    let info := mkArriving (pm_piece_id move) (pm_start_pos move) (pm_end_pos move) in
    arriving_piece ← get_piece b (pm_piece_id move);
    opponent_before ← piece_at b end_row end_col;
    let captured_opponent_id :=
      match opponent_before with
      | Some o => if is_opponent_of o arriving_piece then p_id o else kInvalidId
      | None => kInvalidId
      end in
    r ← check_for_jump_capture b rules clock_ms (active_jumps_ s) (pm_end_pos move) info
          (ctx_game_over ctx);
    let '(captured, b, game_over) := r in
    destination_piece ← piece_at b end_row end_col;
    if negb captured then
      updated ← get_piece b (pm_piece_id move);
      let updated := rule_on_reach_last_row rules updated end_row (rows b) in
      let updated := set_cell updated (mkPosition (to_int end_row) (to_int end_col)) in
      let updated := set_state updated Idle in
      b ← place_piece b updated;
      s ← schedule_rest_at s (pm_piece_id move) Long (pm_arrival_time move)
            (long_rest_duration_ms rules) end_row end_col;
      Ok (s, mkCtx b game_over true)
    else if match destination_piece with
            | Some d => p_id d =? pm_piece_id move
            | None => false
            end then
      let s := if negb (captured_opponent_id =? kInvalidId)
               then clear_rest s captured_opponent_id else s in
      s ← schedule_rest_at s (pm_piece_id move) Long (pm_arrival_time move)
            (long_rest_duration_ms rules) end_row end_col;
      Ok (s, mkCtx b game_over true)
    else
      let s := clear_rest s (pm_piece_id move) in
      b ← update_piece b (pm_piece_id move) (fun p => set_state p Captured);
      Ok (s, mkCtx b game_over (board_changed ctx)).

(** The body of the callback passed to [expire_jumps]. *)
Definition land_jump (rules : GameRules) (jump : JumpState) (st : MoveScheduler * BoardModel) :
    res (MoveScheduler * BoardModel) :=
  let '(s, b) := st in
  b ← restore_jumper b jump;
  s ← schedule_rest_at s (j_piece_id jump) Short (j_arrival_time jump)
        (short_rest_duration_ms rules) (j_cell jump).1 (j_cell jump).2;
  Ok (s, b).

Definition settle_pending_moves (a : RealTimeArbiter) (b : BoardModel) (rules : GameRules)
    (game_over : bool) : res (RealTimeArbiter * BoardModel * bool) :=
  let current_time_ms := to_u64 (clock_ms_ a) in
  r ← for_each_pending_due (scheduler_ a) current_time_ms
        (settle_move rules (clock_of current_time_ms)) (mkCtx b game_over false);
  let '(s, ctx) := r in
  let a := with_scheduler a s in
  r ← (if board_changed ctx then cancel_invalid_in_flight_moves a (ctx_board ctx)
       else Ok (a, ctx_board ctx));
  let '(a, b) := r in
  r ← expire_jumps (scheduler_ a) current_time_ms (land_jump rules) b;
  let '(s, b) := r in
  Ok (with_scheduler a (expire_rests s current_time_ms), b, ctx_game_over ctx).

Definition update_time (a : RealTimeArbiter) (ms : Z) (b : BoardModel) (rules : GameRules)
    (game_over : bool) : res (RealTimeArbiter * BoardModel * bool) :=
  clock' ← i64_add (clock_ms_ a) ms;
  settle_pending_moves (mkArbiter (scheduler_ a) clock') b rules game_over.

(** ** Queries and requests *)

Definition is_piece_moving (a : RealTimeArbiter) (row col : Z) : bool :=
  MoveScheduler.is_piece_moving (scheduler_ a) (to_u64 (clock_ms_ a)) row col.

Definition is_piece_jumping (a : RealTimeArbiter) (row col : Z) : bool :=
  MoveScheduler.is_piece_jumping (scheduler_ a) (to_u64 (clock_ms_ a)) row col.

Definition is_piece_resting (a : RealTimeArbiter) (piece_id : Z) : bool :=
  MoveScheduler.is_piece_resting (scheduler_ a) (to_u64 (clock_ms_ a)) piece_id.

Definition is_destination_claimed (a : RealTimeArbiter) (color : PieceColor) (end_pos : Cell) :
    bool :=
  destination_claimed (scheduler_ a) (to_u64 (clock_ms_ a)) color end_pos.

Definition would_conflict_with_opposite_color_move (a : RealTimeArbiter)
    (moving_color : PieceColor) (piece_id : Z) (start_pos end_pos : Cell)
    (move_duration_ms : Z) : res bool :=
  arrival ← i64_add (clock_ms_ a) move_duration_ms;
  let proposed := mkMove piece_id moving_color Pawn start_pos end_pos (clock_ms_ a) arrival in
  conflicts_with_opposite (scheduler_ a) (to_u64 (clock_ms_ a)) moving_color proposed.

Definition request_move (a : RealTimeArbiter) (piece_id : Z) (color : PieceColor)
    (kind : PieceKind) (start_pos end_pos : Cell) (move_duration_ms : Z) : res RealTimeArbiter :=
  arrival ← i64_add (clock_ms_ a) move_duration_ms;
  Ok (with_scheduler a (schedule_move (scheduler_ a)
        (mkMove piece_id color kind start_pos end_pos (clock_ms_ a) arrival))).

Definition request_jump (a : RealTimeArbiter) (piece_id : Z) (color : PieceColor)
    (kind : PieceKind) (cell : Cell) (jump_duration_ms : Z) : res RealTimeArbiter :=
  arrival ← i64_add (clock_ms_ a) jump_duration_ms;
  Ok (with_scheduler a (schedule_jump (scheduler_ a)
        (mkJump piece_id color kind cell (clock_ms_ a) arrival))).

Definition animations_for_render (a : RealTimeArbiter) : AnimationSnapshot :=
  animations_at (scheduler_ a) (clock_ms_ a).

(** ** The interface to the rule set

    What the arbiter and the game state rely on of the injected [GameRules]. *)
Class RulesOk (rules : GameRules) : Prop := {
  rules_promote_id : forall p r n, p_id (rule_on_reach_last_row rules p r n) = p_id p;
  rules_promote_color : forall p r n, p_color (rule_on_reach_last_row rules p r n) = p_color p;
  rules_promote_kind : forall p r n,
    p_kind (rule_on_reach_last_row rules p r n) = p_kind p \/
    p_kind p = Pawn /\ p_kind (rule_on_reach_last_row rules p r n) <> King;
  rules_over_state : forall p st,
    rule_is_game_over rules (set_state p st) = rule_is_game_over rules p;
  rules_legal_total : forall b p r c r' c', board_wf b -> occupant b r c = Some p ->
    fits_int r' -> fits_int c' ->
    rule_is_legal_move rules b (p_kind p) r c r' c' ⇓ (fun _ => True);
  rules_move_duration : 0 <= move_duration_ms rules <= 100000;
  rules_jump_duration : 0 <= jump_duration_ms rules <= 100000;
  rules_long_rest : 0 <= long_rest_duration_ms rules <= 100000;
  rules_short_rest : 0 <= short_rest_duration_ms rules <= 100000
}.

Lemma is_legal_move_total b p sr sc er ec : board_wf b -> occupant b sr sc = Some p ->
  fits_int er -> fits_int ec ->
  is_legal_move b (p_kind p) sr sc er ec ⇓ (fun _ => True).
Proof.
  intros Hwf Hp Her Hec. destruct (occupant_Some b sr sc p Hwf Hp) as (_ & _ & _ & _ & Hin).
  destruct (inside_fits b sr sc (proj1 Hwf) Hin).
  eapply returns_mono; [apply (is_legal_move_spec b p)|done]; unfold fits_int in *; auto; lia.
Qed.

#[export] Instance standard_ok : RulesOk standard.
Proof.
  split; simpl; try (unfold kMoveDurationMs, kJumpDurationMs, kLongRestDurationMs,
    kShortRestDurationMs; lia); try done.
  1-3: intros p r n; unfold promote_pawn_to_queen;
    destruct (kind_eqb (p_kind p) Pawn) eqn:Ek; simpl; auto.
  1-3: repeat case_match; simpl; auto.
  1-2: right; split; [by apply bool_decide_eq_true in Ek|done].
  intros; by apply is_legal_move_total.
Qed.

(** ** Abstract board changes *)

(** Remove the piece [q] standing at [(r, c)], leaving it in state [st]. *)
Definition take_off (b : BoardModel) (r c : Z) (q : Piece) (st : PieceState) : BoardModel :=
  with_cell (with_piece b (p_id q) (set_state q st)) r c None.

(** Put the piece [p] on the cell [(r, c)]. *)
Definition put_on (b : BoardModel) (r c : Z) (p : Piece) : BoardModel :=
  with_cell (with_piece b (p_id p) p) r c (Some (p_id p)).

(** Capture whatever stands on a cell. *)
Definition vacate (b : BoardModel) (cell : Cell) : BoardModel :=
  match occupant b cell.1 cell.2 with
  | Some d => take_off b cell.1 cell.2 d Captured
  | None => b
  end.

(** The piece as it stands on a cell after landing there. *)
Definition landed (p : Piece) (cell : Cell) : Piece :=
  set_state (set_cell p (mkPosition cell.1 cell.2)) Idle.

(** [changes b b' id q]: [b'] has the dimensions and pieces of [b], except that
    the piece [id] is now [q]. *)
Record changes (b b' : BoardModel) (id : Z) (q : Piece) : Prop := {
  ch_rows : rows b' = rows b;
  ch_cols : cols b' = cols b;
  ch_at : find_piece_by_id b' id = Some q;
  ch_other : forall id', id' <> id -> find_piece_by_id b' id' = find_piece_by_id b id'
}.

(** The history relation: a board evolves by moving, promoting and capturing
    pieces; colours are fixed and captured pieces are never touched again. *)
Definition piece_evolves (p p' : Piece) : Prop :=
  p_id p' = p_id p /\ p_color p' = p_color p /\
  (p_kind p' = p_kind p \/ p_kind p = Pawn /\ p_kind p' <> King) /\
  (p_state p = Captured -> p' = p).

Record evolves (b b' : BoardModel) : Prop := {
  ev_rows : rows b' = rows b;
  ev_cols : cols b' = cols b;
  ev_piece : forall id p, find_piece_by_id b id = Some p ->
    exists p', find_piece_by_id b' id = Some p' /\ piece_evolves p p';
  ev_back : forall id p', find_piece_by_id b' id = Some p' ->
    exists p, find_piece_by_id b id = Some p
}.

#[export] Instance piece_evolves_preorder : PreOrder piece_evolves.
Proof.
  split.
  - intros p. unfold piece_evolves. auto.
  - unfold piece_evolves.
    intros p q r (H1 & H2 & H3 & H4) (H5 & H6 & H7 & H8).
    split_and!; [congruence..| |].
    + destruct H3 as [H3|[H3 H3']], H7 as [H7|[H7 H7']]; [left|right|right|right]; split_and?;
        congruence.
    + intros Hc. rewrite (H4 Hc) in *. auto.
Qed.

#[export] Instance evolves_preorder : PreOrder evolves.
Proof.
  split.
  - intros b. split; eauto. intros id p Hp. exists p. split; [done|reflexivity].
  - intros b1 b2 b3 [H1 H2 H3 H4] [H5 H6 H7 H8]. split; [congruence..| |].
    + intros id p Hp. destruct (H3 id p Hp) as (p2 & Hp2 & He2).
      destruct (H7 id p2 Hp2) as (p3 & Hp3 & He3). exists p3. split; [done|]. by etrans.
    + intros id p3 Hp3. destruct (H8 _ _ Hp3) as [p2 Hp2]. eauto.
Qed.

Lemma changes_evolves b b' id p q : changes b b' id q -> find_piece_by_id b id = Some p ->
  piece_evolves p q -> evolves b b'.
Proof.
  intros [Hr Hc Ha Ho] Hp He. split; [done..| |].
  - intros id0 p0 Hp0. destruct (decide (id0 = id)) as [->|Hne].
    + simplify_eq. eauto.
    + rewrite Ho by done. exists p0. split; [done|reflexivity].
  - intros id0 p0 Hp0. destruct (decide (id0 = id)) as [->|Hne]; [eauto|].
    rewrite Ho in Hp0 by done. eauto.
Qed.

Lemma evolves_inside b b' r c : evolves b b' -> inside b r c <-> inside b' r c.
Proof. intros []. unfold inside. by rewrite ev_rows0, ev_cols0. Qed.

Lemma changes_with_piece b id p q : find_piece_by_id b id = Some p ->
  changes b (with_piece b id q) id q.
Proof.
  intros Hp. split; [done..| |].
  - by eapply find_with_piece_eq.
  - intros. by apply find_with_piece_ne.
Qed.

Lemma changes_with_cell b b' id q r c v : changes b b' id q -> changes b (with_cell b' r c v) id q.
Proof.
  intros [Hr Hc Ha Ho]. split; rewrite ?rows_with_cell, ?cols_with_cell; auto.
Qed.

#[export] Hint Resolve changes_with_piece changes_with_cell : kfc.

Lemma take_off_changes b r c q st : find_piece_by_id b (p_id q) = Some q ->
  changes b (take_off b r c q st) (p_id q) (set_state q st).
Proof. unfold take_off. eauto with kfc. Qed.

Lemma put_on_changes b r c p q : find_piece_by_id b (p_id p) = Some q ->
  changes b (put_on b r c p) (p_id p) p.
Proof. unfold put_on. eauto with kfc. Qed.

Lemma grid_take_off b r c q st o : grid_get (cells_ b) r c = Some o ->
  grid_get (cells_ (take_off b r c q st)) r c = Some None.
Proof. intros Hg. unfold take_off. by rewrite (grid_with_cell_eq _ _ _ _ o). Qed.

(** A piece that is off the grid may change its off-grid state. *)
Lemma wf_off_grid b id p q : board_wf b -> find_piece_by_id b id = Some p ->
  p_state p <> Idle -> p_id q = id -> p_state q <> Idle -> board_wf (with_piece b id q).
Proof.
  intros [Hs Ho] Hp Hpi Hid Hqi. split; [eauto with kfc|]. split.
  - intros r c id' Hg. destruct (oc_occupied b Ho _ _ _ Hg) as (p' & Hp' & Hc & Hi).
    exists p'. rewrite find_with_piece_ne; [done|]. intros <-. congruence.
  - intros id' p' Hp' Hi. destruct (decide (id = id')) as [<-|Hne].
    + rewrite (find_with_piece_eq _ _ _ p) in Hp' by done. congruence.
    + rewrite find_with_piece_ne in Hp' by done. by apply (oc_idle b Ho).
Qed.

(** ** Flights *)

Record Flight := mkFlight {
  fl_id : Z;
  fl_color : PieceColor;
  fl_from : Cell;
  fl_to : Cell;
  fl_arrival : Z
}.

Definition move_flight (m : PendingMove) : Flight :=
  mkFlight (pm_piece_id m) (pm_color m) (pm_start_pos m) (pm_end_pos m) (pm_arrival_time m).
Definition jump_flight (j : JumpState) : Flight :=
  mkFlight (j_piece_id j) (j_color j) (j_cell j) (j_cell j) (j_arrival_time j).

Definition flights (s : MoveScheduler) : list Flight :=
  (move_flight <$> pending_moves_ s) ++ (jump_flight <$> active_jumps_ s).

Record flight_ok (b : BoardModel) (f : Flight) : Prop := {
  fo_piece : exists p, find_piece_by_id b (fl_id f) = Some p /\ p_state p = Moving /\
    p_color p = fl_color f;
  fo_from : inside b (fl_from f).1 (fl_from f).2;
  fo_to : inside b (fl_to f).1 (fl_to f).2;
  fo_time : - 2 ^ 62 <= fl_arrival f <= 2 ^ 62
}.

Record flight_inv (b : BoardModel) (fl : list Flight) : Prop := {
  fi_wf : board_wf b;
  fi_ok : forall f, f ∈ fl -> flight_ok b f;
  fi_nodup : NoDup (fl_id <$> fl);
  fi_all : forall id p, find_piece_by_id b id = Some p -> p_state p = Moving ->
    id ∈ fl_id <$> fl
}.

#[export] Instance flight_inv_proper b : Proper ((≡ₚ) ==> iff) (flight_inv b).
Proof.
  assert (forall l l', l ≡ₚ l' -> flight_inv b l -> flight_inv b l') as H.
  { intros l l' Hl [H1 H2 H3 H4]. split; [done| | |].
    - intros f Hf. apply H2. by rewrite Hl.
    - by rewrite <- Hl.
    - intros. rewrite <- Hl. eauto. }
  intros l l' Hl. split; apply H; [done|by symmetry].
Qed.

Lemma flight_ok_changes b b' id q f : flight_ok b f -> changes b b' id q -> id <> fl_id f ->
  flight_ok b' f.
Proof.
  intros [(p & Hp & Hm & Hc) Hf Ht Htm] [Hr Hcl _ Ho] Hne.
  split; [|unfold inside in *; by rewrite Hr, Hcl..|done].
  exists p. by rewrite Ho.
Qed.

(** A flight ends: its piece is on the grid again, or captured. *)
Lemma flight_end b b' f fl q : flight_inv b (f :: fl) -> board_wf b' ->
  changes b b' (fl_id f) q -> p_state q <> Moving -> flight_inv b' fl.
Proof.
  intros [Hwf Hok Hnd Hall] Hwf' Hch Hq. simpl in Hnd. apply NoDup_cons in Hnd as [Hnin Hnd].
  split; [done| |done|].
  - intros g Hg. eapply flight_ok_changes; [by apply Hok, list_elem_of_further|done|].
    intros E. apply Hnin. rewrite E. by apply list_elem_of_fmap_2.
  - intros id p Hp Hm. destruct (decide (id = fl_id f)) as [->|Hne].
    + rewrite (ch_at _ _ _ _ Hch) in Hp. congruence.
    + rewrite (ch_other _ _ _ _ Hch) in Hp by done.
      specialize (Hall id p Hp Hm). simpl in Hall. set_solver.
Qed.

(** A piece takes off. *)
Lemma flight_start b b' f fl p q : flight_inv b fl -> board_wf b' ->
  changes b b' (fl_id f) q -> find_piece_by_id b (fl_id f) = Some p -> p_state p <> Moving ->
  flight_ok b' f -> flight_inv b' (f :: fl).
Proof.
  intros [Hwf Hok Hnd Hall] Hwf' Hch Hp Hnm Hf.
  assert (forall g, g ∈ fl -> fl_id f <> fl_id g) as Hfresh.
  { intros g Hg E. destruct (fo_piece _ _ (Hok g Hg)) as (p' & Hp' & Hm & _). congruence. }
  split; [done| | |].
  - intros g [->|Hg]%elem_of_cons; [done|]. eauto using flight_ok_changes.
  - simpl. apply NoDup_cons. split; [|done]. intros (g & E & Hg)%list_elem_of_fmap.
    by apply (Hfresh g Hg).
  - intros id p' Hp' Hm. simpl. destruct (decide (id = fl_id f)) as [->|Hne]; [set_solver|].
    rewrite (ch_other _ _ _ _ Hch) in Hp' by done. apply list_elem_of_further. eauto.
Qed.

(** A piece on the grid is captured: no flight is concerned. *)
Lemma flight_other b b' id p q fl : flight_inv b fl -> board_wf b' -> changes b b' id q ->
  find_piece_by_id b id = Some p -> p_state p <> Moving -> p_state q <> Moving ->
  flight_inv b' fl.
Proof.
  intros [Hwf Hok Hnd Hall] Hwf' Hch Hp Hnm Hq. split; [done| |done|].
  - intros g Hg. eapply flight_ok_changes; [by apply Hok|done|]. intros ->.
    destruct (fo_piece _ _ (Hok g Hg)) as (p' & Hp' & Hm & _). congruence.
  - intros id' p' Hp' Hm. destruct (decide (id' = id)) as [->|Hne].
    + rewrite (ch_at _ _ _ _ Hch) in Hp'. congruence.
    + rewrite (ch_other _ _ _ _ Hch) in Hp' by done. eauto.
Qed.

(** ** Vacating a cell and landing on it *)

Lemma take_off_wf b r c q st : board_wf b -> occupant b r c = Some q -> st <> Idle ->
  board_wf (take_off b r c q st).
Proof.
  intros Hwf Hq Hst. destruct (occupant_Some b r c q Hwf Hq) as (Hg & Hf & _).
  by apply wf_take_off.
Qed.

Lemma vacate_flight b cell fl : flight_inv b fl -> flight_inv (vacate b cell) fl.
Proof.
  intros Hi. unfold vacate. destruct (occupant b cell.1 cell.2) as [d|] eqn:Hd; [|done].
  destruct (occupant_Some _ _ _ _ (fi_wf _ _ Hi) Hd) as (_ & Hf & _ & Hst & _).
  eapply (flight_other b _ (p_id d) d); [done| |by apply take_off_changes|done| |]; try done.
  - by apply take_off_wf; [apply Hi|..].
  - congruence.
Qed.

Lemma vacate_evolves b cell : board_wf b -> evolves b (vacate b cell).
Proof.
  intros Hwf. unfold vacate. destruct (occupant b cell.1 cell.2) as [d|] eqn:Hd; [|reflexivity].
  destruct (occupant_Some _ _ _ _ Hwf Hd) as (_ & Hf & _ & Hst & _).
  eapply (changes_evolves b _ (p_id d) d); [by apply take_off_changes|done|].
  unfold piece_evolves. simpl. rewrite Hst. by split_and!; auto.
Qed.

Lemma vacate_find b cell id p : board_wf b -> find_piece_by_id b id = Some p ->
  p_state p <> Idle -> find_piece_by_id (vacate b cell) id = Some p.
Proof.
  intros Hwf Hp Hst. unfold vacate. destruct (occupant b cell.1 cell.2) as [d|] eqn:Hd; [|done].
  destruct (occupant_Some _ _ _ _ Hwf Hd) as (_ & Hf & _ & Hsd & _).
  rewrite (ch_other _ _ _ _ (take_off_changes b _ _ d Captured Hf)); [done|]. intros ->. congruence.
Qed.

Lemma vacate_empty b cell : board_wf b -> inside b cell.1 cell.2 ->
  grid_get (cells_ (vacate b cell)) cell.1 cell.2 = Some None.
Proof.
  intros Hwf Hin. unfold vacate. destruct (occupant b cell.1 cell.2) as [d|] eqn:Hd.
  - destruct (occupant_Some _ _ _ _ Hwf Hd) as (Hg & _). by eapply grid_take_off.
  - by apply occupant_None_cell.
Qed.

(** A piece in flight lands on a cell, capturing whatever stands there. *)
Definition land (b : BoardModel) (cell : Cell) (p : Piece) : BoardModel :=
  put_on (vacate b cell) cell.1 cell.2 (landed p cell).

Lemma land_flight b f fl cell p q : flight_inv b (f :: fl) -> inside b cell.1 cell.2 ->
  find_piece_by_id b (fl_id f) = Some q -> p_id p = fl_id f -> piece_evolves q p ->
  flight_inv (land b cell p) fl /\ evolves b (land b cell p).
Proof.
  intros Hi Hin Hq Hid Hev.
  destruct (fo_piece _ _ (fi_ok _ _ Hi f (list_elem_of_here _ _))) as (q' & Hq' & Hm & Hcol).
  simplify_eq. pose proof (fi_wf _ _ Hi) as Hwf.
  assert (find_piece_by_id (vacate b cell) (p_id (landed p cell)) = Some q) as Hv.
  { simpl. rewrite Hid. apply vacate_find; [done..|congruence]. }
  pose proof (put_on_changes _ cell.1 cell.2 _ _ Hv) as Hch. split.
  - eapply (flight_end (vacate b cell) _ f fl (landed p cell)); [by apply vacate_flight| | |done].
    + simpl in Hid. unfold land, put_on.
      eapply (wf_put_on _ _ _ _ _ q);
        [by apply (fi_wf _ (f :: fl)), vacate_flight|by apply vacate_empty|done| |done..].
      congruence.
    + by rewrite <- Hid.
  - etrans; [by apply vacate_evolves|]. eapply changes_evolves; [done|done|].
    destruct Hev as (H1 & H2 & H3 & H4). unfold piece_evolves. simpl. split_and!; try done.
    rewrite Hm. done.
Qed.

(** ** Restoration *)

Lemma occupant_with_piece b id p q r c : board_wf b -> find_piece_by_id b id = Some p ->
  p_state p <> Idle -> occupant (with_piece b id q) r c = occupant b r c.
Proof.
  intros [Hs Ho] Hp Hst. unfold occupant. rewrite cells_with_piece.
  destruct (grid_get (cells_ b) r c) as [[id'|]|] eqn:Hg; [|done..].
  destruct (oc_occupied b Ho _ _ _ Hg) as (p' & Hp' & _ & Hi).
  apply find_with_piece_ne. congruence.
Qed.

(** Restoring a piece in flight lands it on the cell, capturing any occupant. *)
Lemma restore_piece_to_cell_eq b id r c p : board_wf b -> inside b r c ->
  find_piece_by_id b id = Some p -> p_state p = Moving ->
  restore_piece_to_cell b id r c = Ok (land b (r, c) p).
Proof.
  intros Hwf Hin Hp Hm. assert (p_state p <> Idle) as Hni by congruence.
  pose proof (find_id b id p (proj1 Hwf) Hp) as Hid.
  destruct (inside_fits b r c (proj1 Hwf) Hin) as [Hr Hc].
  unfold restore_piece_to_cell. rewrite (update_piece_ok _ _ _ _ Hp), bind_ok.
  set (b1 := with_piece b id (set_state p Idle)).
  assert (board_shape b1) as Hs1 by (apply shape_with_piece; [apply Hwf|done]).
  rewrite piece_at_inside, bind_ok by done. unfold b1 at 1.
  rewrite (occupant_with_piece b id p) by done.
  rewrite !to_int_id by (unfold fits_int; lia). unfold land, vacate. simpl.
  destruct (occupant b r c) as [d|] eqn:Hd.
  - destruct (occupant_Some b r c d Hwf Hd) as (Hg & Hfd & _ & Hst & _).
    assert (p_id d <> id) as Hne by congruence.
    rewrite (proj2 (Z.eqb_neq _ _) Hne), (is_empty_ok b1 r c (Some (p_id d))), bind_ok by done.
    assert (find_piece_by_id b1 (p_id d) = Some d) as Hfd1
      by (unfold b1; by rewrite find_with_piece_ne).
    simpl. rewrite (remove_occupied_ok b1 r c _ d), bind_ok by done.
    rewrite (get_piece_ok _ _ (set_state p Idle)), bind_ok.
    2: { rewrite find_with_cell, find_with_piece_ne by done. by eapply find_with_piece_eq. }
    rewrite (place_existing_ok _ _ _ _ (set_state p Idle)).
    + unfold b1, put_on, take_off. simpl. rewrite Hid, !with_piece_with_cell.
      by rewrite (with_piece_comm b id), with_piece_twice by done.
    + apply shape_with_cell, shape_with_piece; [done|]. done.
    + unfold inside. by rewrite rows_with_cell, cols_with_cell.
    + simpl. rewrite Hid, find_with_cell, find_with_piece_ne by done. by eapply find_with_piece_eq.
  - rewrite (is_empty_ok b1 r c None), bind_ok by (by apply (occupant_None_cell b)). simpl.
    rewrite (get_piece_ok _ _ (set_state p Idle)), bind_ok by (by eapply find_with_piece_eq).
    rewrite (place_existing_ok _ _ _ _ (set_state p Idle)); [|done|done|].
    + unfold b1, put_on. simpl. by rewrite Hid, with_piece_twice.
    + simpl. rewrite Hid. by eapply find_with_piece_eq.
Qed.

(** ** Re-validation *)

(** The move is allowed on the board as it is now, the moving piece being off
    the grid. *)
Definition move_allowed (b : BoardModel) (p : Piece) (from to : Cell) : Prop :=
  kind_rule b (p_kind p) (p_color p) from.1 from.2 to.1 to.2 /\
  capture_rule b (p_color p) to.1 to.2.

Lemma can_settle_move_spec b m p : board_wf b ->
  inside b (pm_start_pos m).1 (pm_start_pos m).2 -> inside b (pm_end_pos m).1 (pm_end_pos m).2 ->
  find_piece_by_id b (pm_piece_id m) = Some p ->
  can_settle_move b m ⇓ (fun r => r = true <-> move_allowed b p (pm_start_pos m) (pm_end_pos m)).
Proof.
  intros Hwf Hs He Hp. unfold can_settle_move, move_allowed.
  destruct (pm_start_pos m) as [sr sc], (pm_end_pos m) as [er ec]. simpl in *.
  destruct (inside_fits b sr sc (proj1 Hwf) Hs), (inside_fits b er ec (proj1 Hwf) He).
  rewrite (get_piece_ok _ _ _ Hp), bind_ok, !to_int_id by (unfold fits_int; lia).
  destruct (decide (p_kind p = Pawn)) as [Hk|Hk].
  { rewrite Hk. simpl. apply returns_bind. eapply returns_mono; [by apply is_pawn_move_spec|].
    intros [] Hr; simpl; [|naive_solver]. split; [|done]. intros _.
    split; [by apply Hr|]. eapply pawn_rule_capture. by apply Hr. }
  destruct (validator (get_rule_entry (p_kind p))) as [v|] eqn:Hv.
  2: { destruct (p_kind p); try done. simpl. naive_solver. }
  unfold kind_eqb. rewrite bool_decide_false by done. apply returns_bind.
  eapply returns_mono; [by apply (validator_spec b (p_kind p) p)|]. intros [] Hr; simpl.
  2: { split; [done|]. intros [Hx _]. by apply Hr in Hx. }
  assert (requires_destination_check (get_rule_entry (p_kind p)) = true) as ->
    by (by destruct (p_kind p)).
  rewrite piece_at_inside, bind_ok by (done || apply Hwf). simpl.
  assert (kind_rule b (p_kind p) (p_color p) sr sc er ec) by (by apply Hr).
  unfold capture_rule. destruct (occupant b er ec) as [d|] eqn:Ho; [|naive_solver].
  destruct (occupant_Some b _ _ _ Hwf Ho) as (_ & Hfd & _).
  pose proof (find_id_valid b _ _ (proj1 Hwf) Hp). pose proof (find_id_valid b _ _ (proj1 Hwf) Hfd).
  destruct (is_opponent_of p d) eqn:Eo; simpl.
  - apply is_opponent_of_true in Eo. naive_solver.
  - split; [done|]. intros [_ Hall]. specialize (Hall d eq_refl).
    assert (is_opponent_of p d = true); [|congruence]. apply is_opponent_of_true. naive_solver.
Qed.

(** ** The outcome of an arrival *)

(** An enemy jump over the destination that is still active. *)
Definition intercepted (s : MoveScheduler) (clock_ms : Z) (p : Piece) (to : Cell) : Prop :=
  exists j, j ∈ active_jumps_ s /\ clock_ms <= j_arrival_time j /\ j_cell j = to /\
    j_color j <> p_color p.

(** The rest entry written when a piece comes to rest. *)
Definition rest_entry (kind : RestKind) (arrival_time duration : Z) (cell : Cell) : ActiveRest :=
  mkRest kind (to_int arrival_time) (to_int (arrival_time + duration)) cell.1 cell.2.

Definition forget_rest (s : MoveScheduler) (o : option Piece) : MoveScheduler :=
  match o with Some d => clear_rest s (p_id d) | None => s end.

Definition set_rest (s : MoveScheduler) (id : Z) (e : ActiveRest) : MoveScheduler :=
  set_rests s (<[id := e]> (active_rests_ s)).

(** Capturing the occupant may end the game. *)
Definition over_after (rules : GameRules) (game_over : bool) (o : option Piece) : bool :=
  match o with Some d => rule_is_game_over rules d || game_over | None => game_over end.

(** The specification of one arrival of the piece [p]: the move is aborted and
    the piece put back, or an enemy jump captures it, or it lands. *)
Inductive arrival (rules : GameRules) (clock_ms : Z) (m : PendingMove) (p : Piece)
    (s : MoveScheduler) (b : BoardModel) (game_over changed : bool) :
    MoveScheduler * SettleCtx -> Prop :=
| arrival_aborted :
    ~ move_allowed b p (pm_start_pos m) (pm_end_pos m) ->
    arrival rules clock_ms m p s b game_over changed
      (s, mkCtx (land b (pm_start_pos m) p) game_over changed)
| arrival_intercepted :
    move_allowed b p (pm_start_pos m) (pm_end_pos m) ->
    intercepted s clock_ms p (pm_end_pos m) ->
    arrival rules clock_ms m p s b game_over changed
      (clear_rest s (pm_piece_id m),
       mkCtx (with_piece b (pm_piece_id m) (set_state p Captured))
         (over_after rules game_over (Some p)) changed)
| arrival_lands :
    move_allowed b p (pm_start_pos m) (pm_end_pos m) ->
    ~ intercepted s clock_ms p (pm_end_pos m) ->
    let victim := occupant b (pm_end_pos m).1 (pm_end_pos m).2 in
    arrival rules clock_ms m p s b game_over changed
      (set_rest (forget_rest s victim) (pm_piece_id m)
         (rest_entry Long (pm_arrival_time m) (long_rest_duration_ms rules) (pm_end_pos m)),
       mkCtx (land b (pm_end_pos m)
           (rule_on_reach_last_row rules p (pm_end_pos m).1 (rows b)))
         (over_after rules game_over victim) true).

Lemma schedule_rest_at_eq s id kind t d r c : - 2 ^ 62 <= t <= 2 ^ 62 -> 0 <= d <= 100000 ->
  schedule_rest_at s id kind t d r c = Ok (set_rest s id (rest_entry kind t d (r, c))).
Proof.
  intros Ht Hd. unfold schedule_rest_at, i64_add. rewrite i64_checked_ok; [done|].
  unfold fits_i64. lia.
Qed.

(** Landing through [place_piece] on an empty cell. *)
Lemma place_landed_eq b r c p q : board_shape b -> inside b r c ->
  find_piece_by_id b (p_id p) = Some q ->
  place_piece b (set_state (set_cell p (mkPosition (to_int r) (to_int c))) Idle) =
  Ok (put_on b r c (landed p (r, c))).
Proof.
  intros Hs Hin Hq. destruct (inside_fits b r c Hs Hin).
  rewrite !to_int_id by (unfold fits_int; lia).
  rewrite (place_piece_cell _ r c) by done. by rewrite (place_existing_ok _ _ _ _ q).
Qed.

Lemma land_wf b to p q : board_wf b -> inside b to.1 to.2 ->
  find_piece_by_id b (p_id p) = Some q -> p_state q = Moving -> board_wf (land b to p).
Proof.
  intros Hwf Hin Hq Hm. unfold land, put_on.
  assert (find_piece_by_id (vacate b to) (p_id p) = Some q) as Hv
    by (apply vacate_find; [done..|congruence]).
  eapply (wf_put_on _ _ _ _ _ q); [|by apply vacate_empty|done|congruence|done..].
  unfold vacate. destruct (occupant b to.1 to.2) eqn:Hd; [by apply take_off_wf|done].
Qed.

Lemma land_occupant b to p q : board_wf b -> inside b to.1 to.2 ->
  find_piece_by_id b (p_id p) = Some q -> p_state q = Moving ->
  occupant (land b to p) to.1 to.2 = Some (landed p to).
Proof.
  intros Hwf Hin Hq Hm. unfold occupant, land, put_on.
  rewrite (grid_with_cell_eq _ _ _ _ None) by (by apply vacate_empty).
  rewrite find_with_cell. apply (find_with_piece_eq _ _ _ q). simpl.
  apply vacate_find; [done..|congruence].
Qed.

Lemma land_dims b to p : board_wf b -> rows (land b to p) = rows b /\ cols (land b to p) = cols b.
Proof.
  intros Hwf. unfold land, put_on. rewrite rows_with_cell, cols_with_cell.
  rewrite rows_with_piece, cols_with_piece. destruct (vacate_evolves b to Hwf). auto.
Qed.

(** No cell of the grid shows a piece in flight. *)
Lemma occupant_not_flying b r c id p : board_wf b -> find_piece_by_id b id = Some p ->
  p_state p = Moving ->
  match occupant b r c with Some q => p_id q =? id | None => false end = false.
Proof.
  intros Hwf Hp Hm. destruct (occupant b r c) as [d|] eqn:Hd; [|done]. apply Z.eqb_neq.
  destruct (occupant_Some b r c d Hwf Hd) as (_ & Hfd & _ & Hst & _). congruence.
Qed.

(** The victim of a landing, as the callback computes it. *)
Lemma victim_forgotten b r c id p s : board_wf b -> find_piece_by_id b id = Some p ->
  capture_rule b (p_color p) r c ->
  let victim := match occupant b r c with
    | Some o => if is_opponent_of o p then p_id o else kInvalidId
    | None => kInvalidId
    end in
  (if negb (victim =? kInvalidId) then clear_rest s victim else s) =
  forget_rest s (occupant b r c).
Proof.
  intros Hwf Hp Hcap. unfold capture_rule in Hcap.
  destruct (occupant b r c) as [d|] eqn:Hd; [|done]. simpl.
  destruct (occupant_Some b r c d Hwf Hd) as (_ & Hfd & _).
  pose proof (find_id_valid b _ _ (proj1 Hwf) Hp) as Hv1.
  pose proof (find_id_valid b _ _ (proj1 Hwf) Hfd) as Hv2.
  assert (is_opponent_of d p = true) as -> by (apply is_opponent_of_true; naive_solver).
  by rewrite (proj2 (Z.eqb_neq _ _) Hv2).
Qed.

Section Arrival.
Context (rules : GameRules) `{!RulesOk rules}.

(** What [check_for_jump_capture] does for a piece in flight. *)
Lemma check_for_jump_capture_eq b clock jumps to info p game_over :
  board_wf b -> inside b to.1 to.2 -> find_piece_by_id b (ap_piece_id info) = Some p ->
  p_state p = Moving -> capture_rule b (p_color p) to.1 to.2 ->
  check_for_jump_capture b rules clock jumps to info game_over =
  Ok (if jump_captures clock jumps to p then (true, b, over_after rules game_over (Some p))
      else match occupant b to.1 to.2 with
           | Some d => (true, land b to (rule_on_reach_last_row rules p to.1 (rows b)),
                        over_after rules game_over (Some d))
           | None => (false, b, game_over)
           end).
Proof.
  intros Hwf Hin Hp Hm Hcap. destruct to as [er ec]. simpl in *.
  unfold check_for_jump_capture. rewrite (get_piece_ok _ _ _ Hp), bind_ok.
  destruct (jump_captures clock jumps (er, ec) p).
  { by destruct (rule_is_game_over rules p). }
  rewrite piece_at_inside, bind_ok by (done || apply Hwf).
  destruct (occupant b er ec) as [d|] eqn:Hd; [|done].
  rewrite (proj2 (color_eqb_false _ _) (Hcap d Hd)). simpl.
  destruct (occupant_Some b er ec d Hwf Hd) as (Hg & Hfd & _ & Hst & _).
  assert (p_id d <> ap_piece_id info) as Hne by congruence.
  rewrite (remove_occupied_ok b er ec _ d), bind_ok by done.
  change (with_cell (with_piece b (p_id d) (set_state d Captured)) er ec None)
    with (take_off b er ec d Captured).
  pose proof (take_off_changes b er ec d Captured Hfd) as Hch.
  assert (find_piece_by_id (take_off b er ec d Captured) (ap_piece_id info) = Some p) as Hp1
    by (by rewrite (ch_other _ _ _ _ Hch)).
  rewrite (get_piece_ok _ _ _ Hp1), bind_ok. rewrite (ch_rows _ _ _ _ Hch).
  rewrite (place_landed_eq _ er ec _ p).
  - rewrite bind_ok. unfold land, vacate. simpl. rewrite Hd. by destruct (rule_is_game_over rules d).
  - by apply (proj1 (take_off_wf b er ec d Captured Hwf Hd ltac:(done))).
  - unfold inside in *. by rewrite (ch_rows _ _ _ _ Hch), (ch_cols _ _ _ _ Hch).
  - rewrite rules_promote_id, (find_id b _ p (proj1 Hwf) Hp). done.
Qed.

(** The part of the callback after the re-validation succeeded. *)
Lemma settle_allowed_arrival clock m p s b game_over changed :
  board_wf b -> flight_ok b (move_flight m) -> find_piece_by_id b (pm_piece_id m) = Some p ->
  move_allowed b p (pm_start_pos m) (pm_end_pos m) -> can_settle_move b m = Ok true ->
  settle_move rules clock m (s, mkCtx b game_over changed) ⇓
    arrival rules clock m p s b game_over changed.
Proof.
  intros Hwf [(q & Hq & Hm & _) Hfrom Hto Ht] Hp Ha Hok. simpl in *.
  assert (q = p) as -> by congruence.
  pose proof (find_id b _ p (proj1 Hwf) Hp) as Hid. pose proof (proj1 Hwf) as Hsh.
  unfold settle_move. cbn [ctx_board ctx_game_over]. rewrite Hok, bind_ok. cbn [negb].
  destruct (pm_start_pos m) as [sr sc] eqn:Es. destruct (pm_end_pos m) as [er ec] eqn:Ee.
  cbn [fst snd] in Hfrom, Hto. rewrite piece_at_inside, bind_ok by done.
  rewrite (occupant_not_flying b sr sc _ p), bind_ok, (get_piece_ok _ _ _ Hp), bind_ok by done.
  rewrite piece_at_inside, bind_ok by done.
  rewrite (check_for_jump_capture_eq _ _ _ _ _ p), bind_ok by (done || apply Ha). cbn [fst snd].
  destruct (jump_captures clock (active_jumps_ s) (er, ec) p) eqn:Ej.
  { apply jump_captures_spec in Ej. rewrite piece_at_inside, bind_ok by done. cbn [negb].
    rewrite (occupant_not_flying b er ec _ p), (update_piece_ok _ _ _ _ Hp), bind_ok by done.
    apply returns_ok. rewrite <- Es, <- Ee in *. by apply arrival_intercepted. }
  assert (~ intercepted s clock p (er, ec)) as Hni
    by (intros Hj%jump_captures_spec; congruence).
  pose proof (arrival_lands rules clock m p s b game_over changed) as Hland.
  rewrite Es, Ee in Hland. specialize (Hland Ha Hni). cbn [fst snd] in Hland.
  rewrite <- (victim_forgotten b er ec _ p s Hwf Hp (proj2 Ha)) in Hland.
  set (p' := rule_on_reach_last_row rules p er (rows b)) in *.
  assert (p_id p' = pm_piece_id m) as Hid' by (unfold p'; by rewrite rules_promote_id).
  assert (find_piece_by_id b (p_id p') = Some p) as Hp' by (by rewrite Hid').
  destruct (occupant b er ec) as [d|] eqn:Hd.
  - pose proof (land_occupant b (er, ec) p' p Hwf Hto Hp' Hm) as Hocc. cbn [fst snd] in Hocc.
    rewrite piece_at_inside, bind_ok.
    + rewrite Hocc. cbn [negb]. simpl (p_id (landed _ _)). rewrite Hid', Z.eqb_refl.
      rewrite schedule_rest_at_eq, bind_ok by (done || apply rules_long_rest). done.
    + by apply (land_wf b (er, ec) p' p).
    + destruct (land_dims b (er, ec) p' Hwf) as [E1 E2]. unfold inside in *. by rewrite E1, E2.
  - rewrite piece_at_inside, bind_ok by done. cbn [negb].
    rewrite (get_piece_ok _ _ _ Hp), bind_ok. fold p'.
    rewrite (place_landed_eq _ _ _ _ p), bind_ok by done.
    rewrite schedule_rest_at_eq, bind_ok by (done || apply rules_long_rest).
    unfold land, vacate in Hland. cbn [fst snd] in Hland. rewrite Hd in Hland. done.
Qed.

(** A due move settles according to the specification. *)
Lemma settle_move_arrival clock m p s b game_over changed :
  board_wf b -> flight_ok b (move_flight m) -> find_piece_by_id b (pm_piece_id m) = Some p ->
  settle_move rules clock m (s, mkCtx b game_over changed) ⇓
    arrival rules clock m p s b game_over changed.
Proof.
  intros Hwf Hfl Hp. destruct (fo_piece _ _ Hfl) as (q & Hq & Hm & _). simpl in *.
  assert (q = p) as -> by congruence.
  pose proof (can_settle_move_spec b m p Hwf (fo_from _ _ Hfl) (fo_to _ _ Hfl) Hp) as Hok.
  apply returns_eq in Hok as ([] & Hcs & Hok).
  { apply settle_allowed_arrival; [done..|by apply Hok|done]. }
  assert (~ move_allowed b p (pm_start_pos m) (pm_end_pos m)) as Hna by (rewrite <- Hok; done).
  unfold settle_move. cbn [ctx_board ctx_game_over]. rewrite Hcs, bind_ok. cbn [negb].
  pose proof (arrival_aborted rules clock m p s b game_over changed Hna) as Hab.
  pose proof (fo_from _ _ Hfl) as Hfrom. simpl in Hfrom.
  unfold restore_aborted_move. destruct (pm_start_pos m) as [sr sc] eqn:Es.
  by rewrite (restore_piece_to_cell_eq _ _ _ _ p), bind_ok.
Qed.
End Arrival.

(** ** Settlement as a whole *)

(** A decisive piece (a king, under the standard rules) has been captured. *)
Definition decided (rules : GameRules) (b : BoardModel) : Prop :=
  exists id p, find_piece_by_id b id = Some p /\ p_state p = Captured /\
    rule_is_game_over rules p = true.

(** What settlement may do to the board and the game-over flag. *)
Record progress (rules : GameRules) (b : BoardModel) (go : bool) (b' : BoardModel) (go' : bool) :
    Prop := {
  pr_evolves : evolves b b';
  pr_mono : go = true -> go' = true;
  pr_decided : go' = true -> go = true \/ decided rules b'
}.

(** No move, jump or rest that is due remains. *)
Definition quiescent (a : RealTimeArbiter) : Prop :=
  (forall m, m ∈ pending_moves_ (scheduler_ a) -> clock_ms_ a < pm_arrival_time m) /\
  (forall j, j ∈ active_jumps_ (scheduler_ a) -> clock_ms_ a < j_arrival_time j) /\
  (forall id r, active_rests_ (scheduler_ a) !! id = Some r -> clock_ms_ a < ar_end_time_ms r).

Lemma decided_evolves rules b b' : evolves b b' -> decided rules b -> decided rules b'.
Proof.
  intros Hev (id & p & Hp & Hc & Ho). destruct (ev_piece _ _ Hev id p Hp) as (p' & Hp' & He).
  destruct He as (_ & _ & _ & He). rewrite (He Hc) in Hp'. by exists id, p.
Qed.

Lemma progress_refl rules b go : progress rules b go b go.
Proof. split; auto. reflexivity. Qed.

Lemma progress_trans rules b1 g1 b2 g2 b3 g3 :
  progress rules b1 g1 b2 g2 -> progress rules b2 g2 b3 g3 -> progress rules b1 g1 b3 g3.
Proof.
  intros [H1 H2 H3] [H4 H5 H6]. split; [by etrans|auto|].
  intros [Hg|Hd]%H6; [|auto]. destruct (H3 Hg); eauto using decided_evolves.
Qed.

Lemma progress_evolves rules b go b' : evolves b b' -> progress rules b go b' go.
Proof. split; auto. Qed.

Section Settle.
Context (rules : GameRules) `{!RulesOk rules}.

Lemma decided_captured b id p : find_piece_by_id b id = Some (set_state p Captured) ->
  rule_is_game_over rules p = true -> decided rules b.
Proof.
  intros Hf Ho. exists id, (set_state p Captured). by rewrite rules_over_state.
Qed.

Lemma promote_evolves p r n : p_state p = Moving ->
  piece_evolves p (rule_on_reach_last_row rules p r n).
Proof.
  intros Hm. unfold piece_evolves. rewrite rules_promote_id, rules_promote_color.
  split_and!; [done..|apply rules_promote_kind|congruence].
Qed.

(** The victim of a landing is captured in the resulting board. *)
Lemma land_captures b to p d q : board_wf b -> occupant b to.1 to.2 = Some d ->
  find_piece_by_id b (p_id p) = Some q -> p_state q = Moving ->
  find_piece_by_id (land b to p) (p_id d) = Some (set_state d Captured).
Proof.
  intros Hwf Hd Hq Hm. destruct (occupant_Some _ _ _ _ Hwf Hd) as (_ & Hf & _ & Hst & _).
  unfold land, put_on. rewrite find_with_cell, find_with_piece_ne by (simpl; congruence).
  unfold vacate. rewrite Hd. apply (ch_at _ _ _ _ (take_off_changes b _ _ d Captured Hf)).
Qed.

(** Every outcome of an arrival ends the flight and keeps the invariant. *)
Lemma arrival_flight clock m p s b go ch fl s' ctx' :
  flight_inv b (move_flight m :: fl) -> find_piece_by_id b (pm_piece_id m) = Some p ->
  arrival rules clock m p s b go ch (s', ctx') ->
  flight_inv (ctx_board ctx') fl /\ progress rules b go (ctx_board ctx') (ctx_game_over ctx') /\
  pending_moves_ s' = pending_moves_ s /\ active_jumps_ s' = active_jumps_ s.
Proof.
  intros Hi Hp Har. pose proof (fi_wf _ _ Hi) as Hwf.
  pose proof (fi_ok _ _ Hi _ (list_elem_of_here _ _)) as Hfl.
  destruct (fo_piece _ _ Hfl) as (q & Hq & Hm & _). simpl in Hq.
  assert (q = p) as -> by congruence. pose proof (find_id b _ p (proj1 Hwf) Hp) as Hid.
  inversion Har; subst; simpl.
  - destruct (land_flight b _ fl (pm_start_pos m) p p Hi (fo_from _ _ Hfl) Hp Hid) as [H1 H2];
      [reflexivity|]. auto using progress_evolves.
  - pose proof (changes_with_piece b _ p (set_state p Captured) Hp) as Hch. split_and!; try done.
    + eapply (flight_end b _ (move_flight m)); [done| |done|done].
      eapply wf_off_grid; try done. congruence.
    + split; [|by intros ->; apply orb_true_r|].
      * eapply changes_evolves; [done|done|]. unfold piece_evolves. simpl. rewrite Hm.
        by split_and!; auto.
      * intros [Ho|?]%orb_true_iff; [right|by left].
        eapply decided_captured; [apply (ch_at _ _ _ _ Hch)|done].
  - set (p' := rule_on_reach_last_row rules p _ _) in *.
    assert (p_id p' = pm_piece_id m) as Hid' by (unfold p'; by rewrite rules_promote_id).
    destruct (land_flight b _ fl (pm_end_pos m) p' p Hi (fo_to _ _ Hfl) Hp Hid') as [Hl1 Hl2];
      [by apply promote_evolves|].
    split_and!; [done| |by destruct (occupant b _ _)..].
    unfold victim. destruct (occupant b (pm_end_pos m).1 (pm_end_pos m).2) as [d|] eqn:Hd;
      [|by apply progress_evolves].
    split; [done|by intros ->; apply orb_true_r|]. simpl.
    intros [Ho|?]%orb_true_iff; [right|by left].
    eapply decided_captured; [|done]. eapply (land_captures b _ p' d p); try done. by rewrite Hid'.
Qed.

(** The loop over the due moves. *)
Lemma settle_due_moves clock l rest s b go ch :
  flight_inv b ((move_flight <$> l) ++ rest) ->
  foldM (settle_move rules clock) l (s, mkCtx b go ch) ⇓ (fun st =>
    flight_inv (ctx_board st.2) rest /\
    progress rules b go (ctx_board st.2) (ctx_game_over st.2) /\
    active_jumps_ st.1 = active_jumps_ s).
Proof.
  revert s b go ch. induction l as [|m l IH]; intros s b go ch Hi; cbn [foldM].
  { apply returns_ok. simpl. auto using progress_refl. }
  cbn in Hi. destruct (fo_piece _ _ (fi_ok _ _ Hi _ (list_elem_of_here _ _))) as (p & Hp & _).
  apply returns_bind. eapply returns_mono.
  { apply (settle_move_arrival rules clock m p); [apply Hi| |done].
    apply (fi_ok _ _ Hi), list_elem_of_here. }
  intros [s' [b' go' ch']] Har.
  destruct (arrival_flight clock m p s b go ch _ s' _ Hi Hp Har) as (Hi' & Hpr & _ & Hj).
  eapply returns_mono; [by apply IH|]. intros st (H1 & H2 & H3).
  split; [done|]. split; [by eapply progress_trans|congruence].
Qed.

(** Restoring the piece of an aborted move. *)
Lemma restore_move_flight m b fl : flight_inv b (move_flight m :: fl) ->
  restore_aborted_move b m ⇓ (fun b' => flight_inv b' fl /\ evolves b b').
Proof.
  intros Hi. pose proof (fi_ok _ _ Hi _ (list_elem_of_here _ _)) as Hfl.
  destruct (fo_piece _ _ Hfl) as (p & Hp & Hm & _). pose proof (fo_from _ _ Hfl) as Hin.
  pose proof (find_id b _ p (proj1 (fi_wf _ _ Hi)) Hp) as Hid.
  pose proof (land_flight b _ fl (pm_start_pos m) p p Hi Hin Hp Hid ltac:(reflexivity)) as Hland.
  unfold restore_aborted_move. simpl in *. destruct (pm_start_pos m) as [r c].
  by rewrite (restore_piece_to_cell_eq _ _ _ _ p) by (done || apply Hi).
Qed.

Lemma land_jump_flight j s b fl : flight_inv b (jump_flight j :: fl) ->
  land_jump rules j (s, b) ⇓ (fun st => flight_inv st.2 fl /\ evolves b st.2 /\
    pending_moves_ st.1 = pending_moves_ s).
Proof.
  intros Hi. pose proof (fi_ok _ _ Hi _ (list_elem_of_here _ _)) as Hfl.
  destruct (fo_piece _ _ Hfl) as (p & Hp & Hm & _). pose proof (fo_from _ _ Hfl) as Hin.
  pose proof (find_id b _ p (proj1 (fi_wf _ _ Hi)) Hp) as Hid. pose proof (fo_time _ _ Hfl) as Ht.
  pose proof (land_flight b _ fl (j_cell j) p p Hi Hin Hp Hid ltac:(reflexivity)) as [H1 H2].
  unfold land_jump, restore_jumper. simpl in *. destruct (j_cell j) as [r c].
  rewrite (restore_piece_to_cell_eq _ _ _ _ p), bind_ok by (done || apply Hi).
  by rewrite schedule_rest_at_eq by (done || apply rules_short_rest).
Qed.

(** A move in flight whose path or destination has become illegal. *)
Definition stale (b : BoardModel) (clock : Z) (m : PendingMove) : Prop :=
  clock < pm_arrival_time m /\
  exists p, find_piece_by_id b (pm_piece_id m) = Some p /\
    ~ move_allowed b p (pm_start_pos m) (pm_end_pos m).

(** The first loop of the cancellation collects the stale moves, in order. *)
Lemma collect_stale b clock l acc :
  board_wf b -> (forall m, m ∈ l -> flight_ok b (move_flight m)) ->
  foldM (fun move st =>
      if clock <? pm_arrival_time move then
        ok ← can_settle_move b move;
        Ok (if negb ok then st ++ [move] else st)
      else Ok st) l acc ⇓ (fun st => exists bad, st = acc ++ bad /\ bad `sublist_of` l /\
    forall m, m ∈ bad <-> m ∈ l /\ stale b clock m).
Proof.
  intros Hwf. revert acc. induction l as [|m l IH]; intros acc Hok; cbn [foldM].
  { apply returns_ok. exists []. rewrite app_nil_r. set_solver. }
  assert (forall m, m ∈ l -> flight_ok b (move_flight m)) as Hok'
    by (intros; by apply Hok, list_elem_of_further).
  assert (forall st bad, (st = acc ++ bad /\ bad `sublist_of` l /\
      forall x, x ∈ bad <-> x ∈ l /\ stale b clock x) -> ~ stale b clock m ->
    st = acc ++ bad /\ bad `sublist_of` m :: l /\
      forall x, x ∈ bad <-> x ∈ m :: l /\ stale b clock x) as Hskip.
  { intros st bad (H1 & H2 & H3) Hns. split_and!; [done|by apply sublist_cons|].
    intros x. rewrite H3, elem_of_cons. naive_solver. }
  destruct (Z.ltb_spec clock (pm_arrival_time m)).
  2: { rewrite bind_ok. eapply returns_mono; [by apply IH|]. intros st [bad Hb].
       exists bad. apply Hskip; [done|]. intros [? _]. lia. }
  pose proof (Hok m (list_elem_of_here _ _)) as Hfl.
  destruct (fo_piece _ _ Hfl) as (p & Hp & _).
  apply returns_bind, returns_bind.
  eapply returns_mono; [apply (can_settle_move_spec b m p Hwf (fo_from _ _ Hfl) (fo_to _ _ Hfl) Hp)|].
  intros [] Hr; apply returns_ok; (eapply returns_mono; [by apply IH|]); intros st [bad Hb].
  - exists bad. apply Hskip; [done|]. intros (_ & p' & Hp' & Hn). simpl in *. simplify_eq.
    by apply Hn, Hr.
  - destruct Hb as (H1 & H2 & H3). exists (m :: bad). cbn [negb] in H1. rewrite H1.
    split_and!; [by rewrite <- (app_assoc acc)|by apply sublist_skip|]. intros x. rewrite !elem_of_cons, H3.
    assert (stale b clock m); [|naive_solver]. split; [done|]. exists p. split; [done|].
    rewrite <- Hr. done.
Qed.

(** The second loop restores them one by one. *)
Lemma cancel_moves_flight bad s b :
  flight_inv b (flights s) -> NoDup (pm_piece_id <$> bad) ->
  (forall m, m ∈ bad -> m ∈ pending_moves_ s) ->
  foldM (fun move '(s, b) =>
        b' ← restore_aborted_move b move;
        Ok (cancel_pending_move s (pm_piece_id move), b')) bad (s, b) ⇓ (fun st =>
    flight_inv st.2 (flights st.1) /\ evolves b st.2 /\
    active_jumps_ st.1 = active_jumps_ s /\ active_rests_ st.1 = active_rests_ s /\
    (forall m, m ∈ pending_moves_ st.1 -> m ∈ pending_moves_ s)).
Proof.
  revert s b. induction bad as [|m bad IH]; intros s b Hi Hnd Hin; cbn [foldM].
  { apply returns_ok. split_and!; auto. reflexivity. }
  apply NoDup_cons in Hnd as [Hm Hnd].
  assert (NoDup (pm_piece_id <$> pending_moves_ s)) as Hndp.
  { pose proof (fi_nodup _ _ Hi) as Hd. unfold flights in Hd.
    rewrite fmap_app, <- list_fmap_compose in Hd. by apply NoDup_app in Hd as [Hd _]. }
  assert (flights s ≡ₚ move_flight m :: flights (cancel_pending_move s (pm_piece_id m))) as Hperm.
  { unfold flights, cancel_pending_move. simpl.
    by rewrite (erase_first_move_perm (pending_moves_ s) m Hndp) at 1
      by (apply Hin, list_elem_of_here). }
  rewrite Hperm in Hi. apply returns_bind, returns_bind.
  eapply returns_mono; [by apply restore_move_flight|]. intros b' [Hi' Hev']. apply returns_ok.
  eapply returns_mono; [apply IH; [done..|]|].
  - intros x Hx. simpl. apply erase_first_move_elem; [|by apply Hin, list_elem_of_further].
    intros E. apply Hm. rewrite <- E. by apply list_elem_of_fmap_2.
  - intros [s2 b2] (H1 & H2 & H3 & H4 & H5). simpl in *. split_and!; try done; [by etrans|].
    intros x Hx. apply H5 in Hx.
    destruct (decide (pm_piece_id x = pm_piece_id m)) as [E|E].
    + clear - Hx. induction (pending_moves_ s) as [|y l IH]; simpl in *; [done|].
      destruct (pm_piece_id y =? pm_piece_id m); set_solver.
    + by apply (erase_first_move_elem _ (pm_piece_id m)).
Qed.

Lemma cancel_invalid_flight a b : flight_inv b (flights (scheduler_ a)) ->
  fits_i64 (clock_ms_ a) ->
  cancel_invalid_in_flight_moves a b ⇓ (fun st =>
    flight_inv st.2 (flights (scheduler_ st.1)) /\ evolves b st.2 /\
    clock_ms_ st.1 = clock_ms_ a /\
    active_jumps_ (scheduler_ st.1) = active_jumps_ (scheduler_ a) /\
    (forall m, m ∈ pending_moves_ (scheduler_ st.1) -> m ∈ pending_moves_ (scheduler_ a))).
Proof.
  intros Hi Hc. unfold cancel_invalid_in_flight_moves, for_each_in_flight_pending.
  rewrite clock_of_cast by done. apply returns_bind. eapply returns_mono.
  { apply collect_stale; [apply Hi|]. intros m Hm. apply (fi_ok _ _ Hi).
    unfold flights. apply elem_of_app. left. by apply list_elem_of_fmap_2. }
  intros ? (bad & -> & Hsub & Hbad). simpl. apply returns_bind. eapply returns_mono.
  { apply cancel_moves_flight; [done| |].
    - pose proof (fi_nodup _ _ Hi) as Hd. unfold flights in Hd.
      rewrite fmap_app, <- list_fmap_compose in Hd. apply NoDup_app in Hd as [Hd _].
      eapply sublist_NoDup; [done|]. by apply (fmap_sublist (fl_id ∘ move_flight)).
    - intros m Hm. by apply Hbad. }
  intros [s' b'] (H1 & H2 & H3 & _ & H5). simpl in *. auto.
Qed.

Lemma expire_jumps_loop l rest s b :
  flight_inv b ((jump_flight <$> l) ++ rest) ->
  foldM (land_jump rules) l (s, b) ⇓ (fun st => flight_inv st.2 rest /\ evolves b st.2 /\
    pending_moves_ st.1 = pending_moves_ s).
Proof.
  revert s b. induction l as [|j l IH]; intros s b Hi; cbn [foldM].
  { apply returns_ok. split_and!; auto. reflexivity. }
  cbn in Hi. apply returns_bind. eapply returns_mono; [by apply land_jump_flight|].
  intros [s' b'] (H1 & H2 & H3). eapply returns_mono; [by apply IH|].
  intros st (H4 & H5 & H6). simpl in *. split_and!; [done|by etrans|congruence].
Qed.

(** The flights split into the due moves, the other moves and the jumps. *)
Lemma flights_due s t :
  flights s ≡ₚ (move_flight <$> filter (fun m => ~ t < pm_arrival_time m) (pending_moves_ s)) ++
    flights (set_pending s (filter (fun m => t < pm_arrival_time m) (pending_moves_ s))).
Proof.
  unfold flights. simpl. rewrite app_assoc, <- fmap_app.
  by rewrite (Permutation_app_comm (filter _ _)), filter_app_complement.
Qed.

Lemma flights_jumps_due s t :
  flights s ≡ₚ (jump_flight <$> filter (fun j => ~ t < j_arrival_time j) (active_jumps_ s)) ++
    flights (set_jumps s (filter (fun j => t < j_arrival_time j) (active_jumps_ s))).
Proof.
  unfold flights. simpl.
  rewrite <- (filter_app_complement (fun j => t < j_arrival_time j) (active_jumps_ s)) at 1.
  rewrite fmap_app. solve_Permutation.
Qed.

Definition settled (rules : GameRules) (a : RealTimeArbiter) (b : BoardModel) (go : bool)
    (a' : RealTimeArbiter) (b' : BoardModel) (go' : bool) : Prop :=
  flight_inv b' (flights (scheduler_ a')) /\ progress rules b go b' go' /\
  clock_ms_ a' = clock_ms_ a /\ quiescent a' /\
  (forall m, m ∈ pending_moves_ (scheduler_ a') -> m ∈ pending_moves_ (scheduler_ a)) /\
  active_jumps_ (scheduler_ a') =
    filter (fun j => clock_ms_ a < j_arrival_time j) (active_jumps_ (scheduler_ a)).

Lemma settle_pending_moves_settled a b go : flight_inv b (flights (scheduler_ a)) ->
  fits_i64 (clock_ms_ a) ->
  settle_pending_moves a b rules go ⇓ (fun '(a', b', go') => settled rules a b go a' b' go').
Proof.
  intros Hi Hc. unfold settle_pending_moves. rewrite (flights_due _ (clock_ms_ a)) in Hi.
  rewrite for_each_pending_due_eq, clock_of_cast by done. apply returns_bind, returns_bind.
  eapply returns_mono; [by apply settle_due_moves|].
  intros [s1 [b1 go1 ch1]] (Hi1 & Hpr1 & Hj1). simpl in Hi1, Hpr1, Hj1. apply returns_ok. cbn.
  set (a1 := with_scheduler a (set_pending s1 _)).
  assert (flight_inv b1 (flights (scheduler_ a1))) as Hi1'.
  { unfold flights in *. simpl in *. by rewrite Hj1. }
  assert ((if ch1 then cancel_invalid_in_flight_moves a1 b1 else Ok (a1, b1)) ⇓ (fun st =>
    flight_inv st.2 (flights (scheduler_ st.1)) /\ evolves b1 st.2 /\
    clock_ms_ st.1 = clock_ms_ a1 /\
    active_jumps_ (scheduler_ st.1) = active_jumps_ (scheduler_ a1) /\
    (forall m, m ∈ pending_moves_ (scheduler_ st.1) -> m ∈ pending_moves_ (scheduler_ a1)))) as Hcan.
  { destruct ch1; [by apply cancel_invalid_flight|]. apply returns_ok. split_and!; auto. reflexivity. }
  apply returns_bind. eapply returns_mono; [exact Hcan|].
  intros [a2 b2] (Hi2 & Hev2 & Hc2 & Hj2 & Hp2). cbn [fst snd] in *.
  apply returns_bind. rewrite expire_jumps_eq by done.
  rewrite (flights_jumps_due _ (clock_ms_ a)) in Hi2.
  apply returns_bind. eapply returns_mono; [by apply expire_jumps_loop|].
  intros [s3 b3] (Hi3 & Hev3 & Hp3). simpl in Hi3, Hev3, Hp3. apply returns_ok. cbn.
  assert (active_jumps_ (scheduler_ a2) = active_jumps_ (scheduler_ a)) as Hj.
  { rewrite Hj2. simpl. done. }
  split_and!.
  - unfold flights in *. simpl in *. by rewrite Hp3.
  - eapply progress_trans; [done|]. apply progress_evolves. by etrans.
  - done.
  - split_and!.
    + intros m. simpl. rewrite Hp3. intros Hm%Hp2. simpl in Hm. rewrite Hc2. simpl.
      by apply list_elem_of_filter in Hm as [? _].
    + intros j. simpl. rewrite Hj, Hc2. simpl. by intros [? _]%list_elem_of_filter.
    + intros id r Hr. simpl in *. rewrite Hc2. simpl. rewrite clock_of_cast in Hr by done.
      by apply map_lookup_filter_Some in Hr as [_ ?].
  - intros m Hm. simpl in Hm. rewrite Hp3 in Hm. apply Hp2 in Hm. simpl in Hm.
    by apply list_elem_of_filter in Hm as [_ ?].
  - simpl. by rewrite Hj.
Qed.
End Settle.

(** ** Properties *)

(** C4: The settlement of an arrival refines its specification: a due move whose
    path or destination is no longer allowed on the present board puts the piece
    back on its start cell; an allowed move onto a cell over which an enemy jump
    is active loses the moving piece; any other allowed move lands, capturing the
    enemy that stands there, promoting if the rules say so, starting the long
    rest and reporting whether a decisive piece was lost.  It never faults. *)
Theorem settle_move_correct rules clock m p s b game_over changed :
  RulesOk rules -> board_wf b -> flight_ok b (move_flight m) ->
  find_piece_by_id b (pm_piece_id m) = Some p ->
  settle_move rules clock m (s, mkCtx b game_over changed) ⇓
    arrival rules clock m p s b game_over changed.
Proof. intros. by apply settle_move_arrival. Qed.

Lemma settle_move_correct_witness :
  let p := mkPiece 1 White Rook (mkPosition 0 0) Idle in
  let b := take_off (board_of [["wR"; "."; "bP"]]%string) 0 0 p Moving in
  let m := mkMove 1 White Rook (0, 0) (0, 2) 0 1000 in
  settle_move standard 1000 m (empty_scheduler, mkCtx b false false) ⇓
    arrival standard 1000 m (set_state p Moving) empty_scheduler b false false.
Proof.
  apply settle_move_correct; [apply standard_ok|by apply take_off_wf; [by apply board_of_wf|..]| |done].
  split; simpl; [by eexists|vm_compute; intuition discriminate..|lia].
Defined.


