(* ===== verification/GameState.v ===== *)
(** * The game state

    [src/src/logic/game_state.h]/[game_state.cpp] and [game_action.h]: the
    session-level coordinator that owns the board, the rules, the arbiter, the
    selection and the game-over flag, and interprets player actions.

    The second half proves the game invariant: from any board built from valid
    tokens, every sequence of actions runs without fault, keeps the occupancy
    and flight invariants, never resurrects a captured piece and never takes
    back a game-over verdict. *)

From S2P Require Import Prelude Piece BoardModel PathUtils PieceRules CollisionResolver MoveScheduler RealTimeArbiter.
From Stdlib Require Import String.

(** ** Actions and state *)

Inductive GameAction :=
| Select (row col : Z)
| ClearSelection
| MoveSelected (to_row to_col : Z)
| JumpSelected
| JumpAt (row col : Z)
| AdvanceClock (milliseconds : Z).

Record GameState := mkGame {
  board_ : BoardModel;
  rules_ : GameRules;
  arbiter_ : RealTimeArbiter;
  selected_ : option Cell;
  game_over_ : bool
}.

Definition game_with_rules (b : BoardModel) (rules : GameRules) : GameState :=
  mkGame b rules initial_arbiter None false.
Definition new_game (b : BoardModel) : GameState := game_with_rules b standard.

Definition set_selected (g : GameState) (o : option Cell) : GameState :=
  mkGame (board_ g) (rules_ g) (arbiter_ g) o (game_over_ g).
Definition set_board_arbiter (g : GameState) (b : BoardModel) (a : RealTimeArbiter) : GameState :=
  mkGame b (rules_ g) a (selected_ g) (game_over_ g).
Definition set_settled (g : GameState) (r : RealTimeArbiter * BoardModel * bool) : GameState :=
  mkGame r.1.2 (rules_ g) r.1.1 (selected_ g) r.2.

(** ** Queries *)

Definition gs_rows (g : GameState) : Z := rows (board_ g).
Definition gs_cols (g : GameState) : Z := cols (board_ g).
Definition clock_ms (g : GameState) : Z := clock_ms_ (arbiter_ g).
Definition has_selection (g : GameState) : bool :=
  match selected_ g with Some _ => true | None => false end.
Definition is_game_over (g : GameState) : bool := game_over_ g.
Definition gs_token_at (g : GameState) (row col : Z) : res string := token_at (board_ g) row col.
Definition same_board_layout_as (g other : GameState) : res bool :=
  board_eqb (board_ g) (board_ other).

(** [selection(row, col)]: the out-parameters are written when it returns true. *)
Definition selection (g : GameState) : option Cell := selected_ g.

(** The double loop of [winning_color]. *)
Definition scan_cell (g : GameState) (row : Z) (col : Z) (present : bool * bool) :
    res (bool * bool) :=
  token ← gs_token_at g row col;
  Ok (if String.eqb token (to_token White King) then (true, present.2)
      else if String.eqb token (to_token Black King) then (present.1, true)
      else present).

Definition winning_color (g : GameState) : res (option PieceColor) :=
  if negb (game_over_ g) then Ok None
  else
    present ← foldM (fun row present =>
        foldM (scan_cell g row) (zrange (gs_cols g)) present)
      (zrange (gs_rows g)) (false, false);
    let '(white_king_present, black_king_present) := present : bool * bool in
    Ok (if white_king_present && negb black_king_present then Some White
        else if black_king_present && negb white_king_present then Some Black
        else None).

Definition gs_is_in_bounds (g : GameState) (row col : Z) : bool :=
  is_in_bounds (board_ g) row col.

Definition is_piece (g : GameState) (row col : Z) : res bool :=
  if negb (gs_is_in_bounds g row col) then Ok false
  else e ← is_empty (board_ g) row col; Ok (negb e).

Definition is_piece_moving (g : GameState) (row col : Z) : bool :=
  RealTimeArbiter.is_piece_moving (arbiter_ g) row col.

Definition is_piece_jumping (g : GameState) (row col : Z) : bool :=
  RealTimeArbiter.is_piece_jumping (arbiter_ g) row col.

Definition is_piece_resting (g : GameState) (row col : Z) : res bool :=
  piece ← piece_at (board_ g) row col;
  Ok (match piece with
      | None => false
      | Some p => RealTimeArbiter.is_piece_resting (arbiter_ g) (p_id p)
      end).

Definition is_selectable_piece (g : GameState) (row col : Z) : res bool :=
  p ← is_piece g row col;
  if p && negb (is_piece_moving g row col) && negb (is_piece_jumping g row col) then
    r ← is_piece_resting g row col; Ok (negb r)
  else Ok false.

Definition is_friendly_to_selection (g : GameState) (row col : Z) : res bool :=
  match selected_ g with
  | None => Ok false
  | Some (srow, scol) =>
      s ← is_selectable_piece g row col;
      if negb s then Ok false
      else
        selected_piece ← piece_at (board_ g) srow scol;
        cell_piece ← piece_at (board_ g) row col;
        Ok (match selected_piece, cell_piece with
            | Some sp, Some cp => is_same_color_as cp sp
            | _, _ => false
            end)
  end.

Definition gs_animations_for_render (g : GameState) : AnimationSnapshot :=
  animations_for_render (arbiter_ g).

Definition gs_is_legal_move (g : GameState) (start_row start_col end_row end_col : Z) : res bool :=
  moving ← piece_at (board_ g) (to_size start_row) (to_size start_col);
  match moving with
  | None => Ok false
  | Some p =>
      rule_is_legal_move (rules_ g) (board_ g) (p_kind p) start_row start_col end_row end_col
  end.

Definition compute_move_duration (g : GameState) (from_row from_col to_row to_col : Z)
    (is_capture : bool) : res Z :=
  if is_capture then Ok (move_duration_ms (rules_ g))
  else
    let row_delta := if to_row <? from_row then from_row - to_row else to_row - from_row in
    let col_delta := if to_col <? from_col then from_col - to_col else to_col - from_col in
    i64_mul (to_i64 (Z.max row_delta col_delta)) (move_duration_ms (rules_ g)).

Definition can_move_selected_to (g : GameState) (from_row from_col to_row to_col : Z) : res bool :=
  if negb (gs_is_in_bounds g to_row to_col) then Ok false
  else if is_piece_moving g from_row from_col then Ok false
  else if is_piece_jumping g from_row from_col then Ok false
  else
    resting ← is_piece_resting g from_row from_col;
    if resting : bool then Ok false
    else
      moving ← piece_at (board_ g) from_row from_col;
      match moving with
      | None => Ok false
      | Some p =>
          legal ← gs_is_legal_move g (to_int from_row) (to_int from_col)
                    (to_int to_row) (to_int to_col);
          if negb legal then Ok false
          else if is_destination_claimed (arbiter_ g) (p_color p) (to_row, to_col) then Ok false
          else Ok true
      end.

(** ** Actions *)

Definition add_clock (g : GameState) (ms : Z) : res GameState :=
  r ← update_time (arbiter_ g) ms (board_ g) (rules_ g) (game_over_ g);
  Ok (set_settled g r).

Definition gs_settle_pending_moves (g : GameState) : res GameState :=
  r ← settle_pending_moves (arbiter_ g) (board_ g) (rules_ g) (game_over_ g);
  Ok (set_settled g r).

Definition select (g : GameState) (row col : Z) : GameState :=
  if negb (gs_is_in_bounds g row col) then g else set_selected g (Some (row, col)).

Definition clear_selection (g : GameState) : GameState := set_selected g None.

Definition move_selected_to (g : GameState) (to_row to_col : Z) : res GameState :=
  match selected_ g with
  | None => Ok g
  | Some (from_row, from_col) =>
      can ← can_move_selected_to g from_row from_col to_row to_col;
      if negb can then Ok g
      else
        moving ← piece_at (board_ g) from_row from_col;
        destination ← piece_at (board_ g) to_row to_col;
        is_capture ← match destination with
                     | None => Ok false
                     | Some d => p ← deref moving; Ok (is_opponent_of d p)
                     end;
        move_duration ← compute_move_duration g from_row from_col to_row to_col is_capture;
        p ← deref moving;
        b ← update_piece (board_ g) (p_id p) (fun q => set_state q Moving);
        b ← clear_cell b from_row from_col;
        a ← request_move (arbiter_ g) (p_id p) (p_color p) (p_kind p) (from_row, from_col)
              (to_row, to_col) move_duration;
        Ok (clear_selection (set_board_arbiter g b a))
  end.

Definition jump_at (g : GameState) (row col : Z) : res GameState :=
  if negb (gs_is_in_bounds g row col) then Ok g
  else
    e ← is_empty (board_ g) row col;
    if e : bool then Ok g
    else if is_piece_moving g row col then Ok g
    else if is_piece_jumping g row col then Ok g
    else
      resting ← is_piece_resting g row col;
      if resting : bool then Ok g
      else
        piece ← piece_at (board_ g) row col;
        match piece with
        | None => Ok g
        | Some p =>
            b ← update_piece (board_ g) (p_id p) (fun q => set_state q Moving);
            b ← clear_cell b row col;
            a ← request_jump (arbiter_ g) (p_id p) (p_color p) (p_kind p) (row, col)
                  (jump_duration_ms (rules_ g));
            Ok (set_board_arbiter g b a)
        end.

Definition jump_selected (g : GameState) : res GameState :=
  match selected_ g with
  | None => Ok g
  | Some (row, col) => g' ← jump_at g row col; Ok (clear_selection g')
  end.

Definition apply_action (g : GameState) (action : GameAction) : res GameState :=
  match action with
  | Select row col => Ok (select g row col)
  | ClearSelection => Ok (clear_selection g)
  | MoveSelected to_row to_col => move_selected_to g to_row to_col
  | JumpSelected => jump_selected g
  | JumpAt row col => jump_at g row col
  | AdvanceClock ms => add_clock g ms
  end.

(** [write_board]: the writer is the caller's; it receives the settled board. *)
Definition write_board {O} (g : GameState) (out : O) (writer : O -> BoardModel -> res O) :
    res (GameState * O) :=
  g' ← gs_settle_pending_moves g;
  out' ← writer out (board_ g');
  Ok (g', out').

(** A session: the actions in the order they are received. *)
Definition run (actions : list GameAction) (g : GameState) : res GameState :=
  foldM (fun action g => apply_action g action) actions g.

(** ** The game invariant *)

Record game_inv (g : GameState) : Prop := {
  gi_flights : flight_inv (board_ g) (flights (scheduler_ (arbiter_ g)));
  gi_clock : - 2 ^ 61 <= clock_ms g <= 2 ^ 61;
  gi_selected : forall r c, selected_ g = Some (r, c) -> inside (board_ g) r c;
  gi_over : game_over_ g = true -> decided (rules_ g) (board_ g)
}.

(** The values a [GameAction] can carry: [size_t] coordinates, and a clock that
    stays 2^61 ms away from both ends of its type. *)
Definition action_ok (g : GameState) (action : GameAction) : Prop :=
  match action with
  | Select r c | MoveSelected r c | JumpAt r c => fits_u64 r /\ fits_u64 c
  | ClearSelection | JumpSelected => True
  | AdvanceClock ms => - 2 ^ 61 <= clock_ms g + ms <= 2 ^ 61
  end.

(** By how much an action advances the clock. *)
Definition clock_step (action : GameAction) : Z :=
  match action with AdvanceClock ms => ms | _ => 0 end.

(** What any action may do to the game. *)
Record game_evolves (g g' : GameState) : Prop := {
  ge_rules : rules_ g' = rules_ g;
  ge_progress : progress (rules_ g) (board_ g) (game_over_ g) (board_ g') (game_over_ g')
}.

#[export] Instance game_evolves_preorder : PreOrder game_evolves.
Proof.
  split.
  - intros g. split; [done|apply progress_refl].
  - intros g1 g2 g3 [H1 H2] [H3 H4]. split; [congruence|].
    eapply progress_trans; [done|]. by rewrite <- H1.
Qed.

Lemma clock_fits g : game_inv g -> fits_i64 (clock_ms g).
Proof. intros Hg. pose proof (gi_clock g Hg). unfold fits_i64. lia. Qed.

(** ** Requests *)

(** The piece on a cell that may start a move or a jump now. *)
Record ready (g : GameState) (r c : Z) (p : Piece) : Prop := {
  rd_occupant : occupant (board_ g) r c = Some p;
  rd_not_moving : ~ exists m, m ∈ pending_moves_ (scheduler_ (arbiter_ g)) /\
    clock_ms g < pm_arrival_time m /\ pm_start_pos m = (r, c);
  rd_not_jumping : ~ exists j, j ∈ active_jumps_ (scheduler_ (arbiter_ g)) /\
    clock_ms g < j_arrival_time j /\ j_cell j = (r, c);
  rd_not_resting : ~ exists rest, active_rests_ (scheduler_ (arbiter_ g)) !! p_id p = Some rest /\
    clock_ms g < ar_end_time_ms rest
}.

(** A friendly move in flight already claims the destination. *)
Definition claimed (g : GameState) (color : PieceColor) (to : Cell) : Prop :=
  exists m, m ∈ pending_moves_ (scheduler_ (arbiter_ g)) /\ clock_ms g < pm_arrival_time m /\
    pm_color m = color /\ pm_end_pos m = to.

Definition may_move (g : GameState) (p : Piece) (from to : Cell) : Prop :=
  ready g from.1 from.2 p /\ inside (board_ g) to.1 to.2 /\
  rule_is_legal_move (rules_ g) (board_ g) (p_kind p) from.1 from.2 to.1 to.2 = Ok true /\
  ~ claimed g (p_color p) to.

(** Captures take one move time, other moves one per square of distance. *)
Definition flight_time (g : GameState) (p : Piece) (from to : Cell) : Z :=
  match occupant (board_ g) to.1 to.2 with
  | Some d => if is_opponent_of d p then 1 else path_span (to.1 - from.1) (to.2 - from.2)
  | None => path_span (to.1 - from.1) (to.2 - from.2)
  end * move_duration_ms (rules_ g).

(** The game after the piece [p] has left the cell [from] for the cell [to]. *)
Definition launched (g : GameState) (p : Piece) (from to : Cell) : GameState :=
  mkGame (take_off (board_ g) from.1 from.2 p Moving) (rules_ g)
    (with_scheduler (arbiter_ g) (schedule_move (scheduler_ (arbiter_ g))
      (mkMove (p_id p) (p_color p) (p_kind p) from to (clock_ms g)
        (clock_ms g + flight_time g p from to))))
    None (game_over_ g).

(** The game after the piece [p] has jumped off the cell. *)
Definition airborne (g : GameState) (p : Piece) (cell : Cell) : GameState :=
  set_board_arbiter g (take_off (board_ g) cell.1 cell.2 p Moving)
    (with_scheduler (arbiter_ g) (schedule_jump (scheduler_ (arbiter_ g))
      (mkJump (p_id p) (p_color p) (p_kind p) cell (clock_ms g)
        (clock_ms g + jump_duration_ms (rules_ g))))).

Section Requests.
Context (g : GameState) `{!RulesOk (rules_ g)} (Hg : game_inv g).

Let Hwf : board_wf (board_ g) := fi_wf _ _ (gi_flights g Hg).

Lemma is_piece_moving_iff r c : is_piece_moving g r c = true <->
  exists m, m ∈ pending_moves_ (scheduler_ (arbiter_ g)) /\
    clock_ms g < pm_arrival_time m /\ pm_start_pos m = (r, c).
Proof. by apply is_piece_moving_spec, clock_fits. Qed.

Lemma is_piece_jumping_iff r c : is_piece_jumping g r c = true <->
  exists j, j ∈ active_jumps_ (scheduler_ (arbiter_ g)) /\
    clock_ms g < j_arrival_time j /\ j_cell j = (r, c).
Proof. by apply is_piece_jumping_spec, clock_fits. Qed.

Lemma is_piece_resting_eq r c : 0 <= r -> 0 <= c -> is_piece_resting g r c =
  Ok (match occupant (board_ g) r c with
      | Some p => RealTimeArbiter.is_piece_resting (arbiter_ g) (p_id p)
      | None => false
      end).
Proof.
  intros Hr Hc. unfold is_piece_resting. rewrite piece_at_ok by (done || apply Hwf). done.
Qed.

Lemma is_resting_iff id : RealTimeArbiter.is_piece_resting (arbiter_ g) id = true <->
  exists rest, active_rests_ (scheduler_ (arbiter_ g)) !! id = Some rest /\
    clock_ms g < ar_end_time_ms rest.
Proof. by apply is_piece_resting_spec, clock_fits. Qed.

(** Readiness as the guards of the source compute it. *)
Lemma ready_iff r c p : occupant (board_ g) r c = Some p ->
  ready g r c p <->
  is_piece_moving g r c = false /\ is_piece_jumping g r c = false /\
  RealTimeArbiter.is_piece_resting (arbiter_ g) (p_id p) = false.
Proof.
  intros Hp. rewrite <- !not_true_iff_false, is_piece_moving_iff, is_piece_jumping_iff,
    is_resting_iff. split; [by intros []|]. intros (? & ? & ?). by split.
Qed.

Lemma take_off_eq r c p : occupant (board_ g) r c = Some p ->
  (b ← update_piece (board_ g) (p_id p) (fun q => set_state q Moving); clear_cell b r c) =
  Ok (take_off (board_ g) r c p Moving).
Proof.
  intros Hp. destruct (occupant_Some _ _ _ _ Hwf Hp) as (Hgr & Hf & _).
  rewrite (update_piece_ok _ _ _ _ Hf), bind_ok. by erewrite clear_cell_ok.
Qed.

Lemma duration_eq from to p d : inside (board_ g) from.1 from.2 -> inside (board_ g) to.1 to.2 ->
  occupant (board_ g) to.1 to.2 = d ->
  compute_move_duration g from.1 from.2 to.1 to.2
    (match d with Some q => is_opponent_of q p | None => false end) =
  Ok (flight_time g p from to) /\ 0 <= flight_time g p from to < 2 ^ 60.
Proof.
  intros Hf Ht Hd. pose proof (rules_move_duration (rules := rules_ g)) as Hdur.
  destruct (inside_fits _ _ _ (proj1 Hwf) Hf), (inside_fits _ _ _ (proj1 Hwf) Ht).
  unfold compute_move_duration, flight_time. rewrite Hd.
  assert (0 <= path_span (to.1 - from.1) (to.2 - from.2) < 2 ^ 31) as Hspan
    by (unfold path_span; lia).
  assert (i64_mul (to_i64 (Z.max
      (if to.1 <? from.1 then from.1 - to.1 else to.1 - from.1)
      (if to.2 <? from.2 then from.2 - to.2 else to.2 - from.2))) (move_duration_ms (rules_ g)) =
    Ok (path_span (to.1 - from.1) (to.2 - from.2) * move_duration_ms (rules_ g))) as Hmul.
  { replace (Z.max _ _) with (path_span (to.1 - from.1) (to.2 - from.2))
      by (unfold path_span; destruct (Z.ltb_spec to.1 from.1), (Z.ltb_spec to.2 from.2); lia).
    unfold to_i64. rewrite wrap_s_id by lia. apply i64_checked_ok. unfold fits_i64. nia. }
  destruct d as [d|]; [destruct (is_opponent_of d p)|]; (split; [|nia]); [f_equal; lia|done..].
Qed.

Lemma destination_claimed_iff color to :
  is_destination_claimed (arbiter_ g) color to = true <-> claimed g color to.
Proof.
  unfold is_destination_claimed, destination_claimed.
  rewrite clock_of_cast by (by apply clock_fits). apply is_same_color_destination_claimed_spec.
Qed.

Lemma can_move_selected_to_spec from to : inside (board_ g) from.1 from.2 ->
  0 <= to.1 -> 0 <= to.2 ->
  can_move_selected_to g from.1 from.2 to.1 to.2 ⇓ (fun can =>
    can = true <-> exists p, may_move g p from to).
Proof.
  intros Hf Ht1 Ht2. pose proof (proj1 Hwf) as Hsh.
  destruct (inside_fits _ _ _ Hsh Hf) as [Hf1 Hf2].
  assert ((forall p, occupant (board_ g) from.1 from.2 = Some p -> ~ may_move g p from to) ->
    ~ exists p, may_move g p from to) as Hnone.
  { intros Hall [p Hp]. apply (Hall p); [|done]. apply Hp. }
  unfold can_move_selected_to, gs_is_in_bounds.
  destruct (is_in_bounds (board_ g) to.1 to.2) eqn:Hb; cbn [negb].
  2: { apply returns_ok. split; [done|]. intros [p (_ & Hin & _)].
       apply inside_bounds in Hin. congruence. }
  apply is_in_bounds_spec in Hb; [|done..]. destruct (inside_fits _ _ _ Hsh Hb) as [Hb1 Hb2].
  destruct (occupant (board_ g) from.1 from.2) as [p|] eqn:Hp.
  2: { assert (~ exists p, may_move g p from to) as Hno by (by apply Hnone).
       repeat case_match; try (apply returns_ok; by split).
       rewrite is_piece_resting_eq, bind_ok, Hp by (done || lia).
       rewrite piece_at_inside, bind_ok, Hp by done. apply returns_ok. by split. }
  assert ((exists p, may_move g p from to) <-> may_move g p from to) as Hex.
  { split; [intros [q Hq]|eauto]. pose proof (rd_occupant _ _ _ _ (proj1 Hq)) as Hq'.
    congruence. }
  setoid_rewrite Hex. unfold may_move. setoid_rewrite (ready_iff _ _ _ Hp).
  destruct (is_piece_moving g from.1 from.2); [apply returns_ok; naive_solver|].
  destruct (is_piece_jumping g from.1 from.2); [apply returns_ok; naive_solver|].
  rewrite is_piece_resting_eq, bind_ok, Hp by lia.
  destruct (RealTimeArbiter.is_piece_resting _ _); [apply returns_ok; naive_solver|].
  rewrite piece_at_inside, bind_ok, Hp by done.
  unfold gs_is_legal_move. rewrite !to_int_id by (unfold fits_int; lia).
  rewrite piece_at_cast, bind_ok, Hp by done. apply returns_bind.
  pose proof (rules_legal_total (rules := rules_ g) (board_ g) p from.1 from.2 to.1 to.2 Hwf Hp)
    as Hleg.
  apply returns_eq in Hleg as (legal & Hleg & _); [|unfold fits_int; lia..].
  rewrite Hleg. apply returns_ok. destruct legal; cbn [negb]; [|apply returns_ok; naive_solver].
  setoid_rewrite <- destination_claimed_iff. setoid_rewrite not_true_iff_false.
  rewrite <- surjective_pairing. destruct (is_destination_claimed _ _ _); apply returns_ok; naive_solver.
Qed.

(** A move request is carried out exactly when it is allowed. *)
Lemma move_selected_to_spec from r c : selected_ g = Some from -> 0 <= r -> 0 <= c ->
  move_selected_to g r c ⇓ (fun g' =>
    (exists p, may_move g p from (r, c) /\ g' = launched g p from (r, c)) \/
    (~ exists p, may_move g p from (r, c)) /\ g' = g).
Proof.
  intros Hsel Hr Hc. unfold move_selected_to. rewrite Hsel. destruct from as [fr fc].
  pose proof (gi_selected g Hg fr fc Hsel) as Hin. apply returns_bind. eapply returns_mono.
  { apply (can_move_selected_to_spec (fr, fc) (r, c)); done. }
  intros [] Hcan; cbn [negb].
  2: { apply returns_ok. right. split; [|done]. rewrite <- Hcan. done. }
  destruct (proj1 Hcan eq_refl) as [p Hp]. destruct Hp as (Hrd & Hto & Hrest). simpl in Hto.
  pose proof (rd_occupant _ _ _ _ Hrd) as Ho. simpl in Ho.
  rewrite !piece_at_inside, !bind_ok, Ho by (done || apply Hwf). cbn [deref].
  destruct (duration_eq (fr, fc) (r, c) p _ Hin Hto eq_refl) as [Hdur Hbound]. simpl in Hdur.
  assert (match occupant (board_ g) r c with
    | Some d => Ok p ≫= (fun q => Ok (is_opponent_of d q)) | None => Ok false end =
    Ok (match occupant (board_ g) r c with Some q => is_opponent_of q p | None => false end))
    as -> by (by destruct (occupant (board_ g) r c)).
  rewrite bind_ok, Hdur, !bind_ok. pose proof (take_off_eq fr fc p Ho) as Htake.
  apply bind_Ok_inv in Htake as (b1 & -> & Htake). rewrite bind_ok, Htake, bind_ok.
  unfold request_move, i64_add. pose proof (gi_clock g Hg) as Hclk. unfold clock_ms in Hclk.
  rewrite i64_checked_ok by (unfold fits_i64; lia). rewrite !bind_ok. apply returns_ok.
  left. exists p. done.
Qed.

(** A jump request is carried out exactly when the piece is ready. *)
Lemma jump_at_spec r c : 0 <= r -> 0 <= c ->
  jump_at g r c ⇓ (fun g' =>
    (exists p, ready g r c p /\ g' = airborne g p (r, c)) \/
    (~ exists p, ready g r c p) /\ g' = g).
Proof.
  intros Hr Hc. unfold jump_at, gs_is_in_bounds. pose proof (proj1 Hwf) as Hsh.
  destruct (occupant (board_ g) r c) as [p|] eqn:Hp.
  2: { assert (~ exists p, ready g r c p) as Hno by (intros [p []]; congruence).
       destruct (is_in_bounds (board_ g) r c) eqn:Hb; cbn [negb]; [|apply returns_ok; by right].
       apply is_in_bounds_spec in Hb; [|done..].
       rewrite is_empty_inside, bind_ok, bool_decide_true by done. apply returns_ok; by right. }
  destruct (occupant_Some _ _ _ _ Hwf Hp) as (_ & _ & _ & _ & Hin).
  rewrite inside_bounds by done. cbn [negb].
  rewrite is_empty_inside, bind_ok, bool_decide_false by (done || congruence).
  assert ((exists q, ready g r c q) <-> ready g r c p) as Hex.
  { split; [intros [q Hq]|eauto]. pose proof (rd_occupant _ _ _ _ Hq). congruence. }
  rewrite (ready_iff _ _ _ Hp) in Hex.
  destruct (is_piece_moving g r c) eqn:Em; [apply returns_ok; right; naive_solver|].
  destruct (is_piece_jumping g r c) eqn:Ej; [apply returns_ok; right; naive_solver|].
  rewrite is_piece_resting_eq, bind_ok, Hp by done.
  destruct (RealTimeArbiter.is_piece_resting _ _) eqn:Er; [apply returns_ok; right; naive_solver|].
  rewrite piece_at_inside, bind_ok, Hp by done.
  pose proof (take_off_eq r c p Hp) as Htake.
  apply bind_Ok_inv in Htake as (b1 & -> & Htake). rewrite bind_ok, Htake, bind_ok.
  unfold request_jump, i64_add. pose proof (gi_clock g Hg) as Hclk. unfold clock_ms in Hclk.
  pose proof (rules_jump_duration (rules := rules_ g)).
  rewrite i64_checked_ok by (unfold fits_i64; lia). rewrite !bind_ok. apply returns_ok.
  left. exists p. split; [|done]. rewrite (ready_iff _ _ _ Hp). auto.
Qed.
End Requests.

(** ** Preservation *)

Lemma take_off_evolves b r c p : board_wf b -> occupant b r c = Some p ->
  evolves b (take_off b r c p Moving).
Proof.
  intros Hwf Hp. destruct (occupant_Some _ _ _ _ Hwf Hp) as (_ & Hf & _ & Hst & _).
  eapply changes_evolves; [by apply take_off_changes|done|].
  unfold piece_evolves. simpl. rewrite Hst. by split_and!; auto.
Qed.

(** A piece that takes off joins the flights. *)
Lemma take_off_flight b r c p f fl : flight_inv b fl -> occupant b r c = Some p ->
  fl_id f = p_id p -> fl_color f = p_color p ->
  inside b (fl_from f).1 (fl_from f).2 -> inside b (fl_to f).1 (fl_to f).2 ->
  - 2 ^ 62 <= fl_arrival f <= 2 ^ 62 ->
  flight_inv (take_off b r c p Moving) (f :: fl).
Proof.
  intros Hi Hp Hid Hcol Hf Ht Hti. pose proof (fi_wf _ _ Hi) as Hwf.
  destruct (occupant_Some _ _ _ _ Hwf Hp) as (_ & Hfp & _ & Hst & _).
  pose proof (take_off_changes b r c p Moving Hfp) as Hch. rewrite <- Hid in Hch, Hfp.
  eapply (flight_start b _ f fl p); [done|by apply take_off_wf|done|done|congruence|].
  destruct Hch as [Hr Hc Ha _]. split; [|unfold inside in *; by rewrite Hr, Hc..|done].
  exists (set_state p Moving). by rewrite Hcol.
Qed.

Lemma flights_schedule_move s m : flights (schedule_move s m) ≡ₚ move_flight m :: flights s.
Proof. unfold flights. simpl. rewrite fmap_app. simpl. solve_Permutation. Qed.

Lemma flights_schedule_jump s j : flights (schedule_jump s j) ≡ₚ jump_flight j :: flights s.
Proof. unfold flights. simpl. rewrite fmap_app. simpl. solve_Permutation. Qed.

Section Preservation.
Context (g : GameState) `{!RulesOk (rules_ g)} (Hg : game_inv g).

Let Hwf : board_wf (board_ g) := fi_wf _ _ (gi_flights g Hg).

Lemma airborne_inv p cell : ready g cell.1 cell.2 p ->
  game_inv (airborne g p cell) /\ game_evolves g (airborne g p cell).
Proof.
  intros Hr. pose proof (rd_occupant _ _ _ _ Hr) as Hp.
  destruct (occupant_Some _ _ _ _ Hwf Hp) as (_ & _ & _ & _ & Hin).
  pose proof (take_off_evolves _ _ _ _ Hwf Hp) as Hev. pose proof (gi_clock g Hg).
  pose proof (rules_jump_duration (rules := rules_ g)).
  set (j := mkJump (p_id p) (p_color p) (p_kind p) cell (clock_ms g)
              (clock_ms g + jump_duration_ms (rules_ g))).
  split; [split|split]; try done.
  - change (flight_inv (take_off (board_ g) cell.1 cell.2 p Moving)
      (flights (schedule_jump (scheduler_ (arbiter_ g)) j))).
    rewrite flights_schedule_jump. apply take_off_flight; simpl; try done; [apply Hg|lia].
  - intros r c Hs. apply (evolves_inside _ _ r c Hev). by apply (gi_selected g Hg).
  - intros Ho. by eapply decided_evolves, (gi_over g Hg).
  - by apply progress_evolves.
Qed.

Lemma launched_inv p from to : may_move g p from to ->
  game_inv (launched g p from to) /\ game_evolves g (launched g p from to).
Proof.
  intros (Hr & Hto & _). pose proof (rd_occupant _ _ _ _ Hr) as Hp.
  destruct (occupant_Some _ _ _ _ Hwf Hp) as (_ & _ & _ & _ & Hin).
  pose proof (take_off_evolves _ _ _ _ Hwf Hp) as Hev. pose proof (gi_clock g Hg).
  destruct (duration_eq g Hg from to p _ Hin Hto eq_refl) as [_ Hdur].
  set (m := mkMove (p_id p) (p_color p) (p_kind p) from to (clock_ms g)
              (clock_ms g + flight_time g p from to)).
  split; [split|split]; try done.
  - change (flight_inv (take_off (board_ g) from.1 from.2 p Moving)
      (flights (schedule_move (scheduler_ (arbiter_ g)) m))).
    rewrite flights_schedule_move. apply take_off_flight; simpl; try done; [apply Hg|lia].
  - intros Ho. by eapply decided_evolves, (gi_over g Hg).
  - by apply progress_evolves.
Qed.

Lemma set_selected_inv o : (forall r c, o = Some (r, c) -> inside (board_ g) r c) ->
  game_inv (set_selected g o) /\ game_evolves g (set_selected g o).
Proof.
  intros Ho. destruct Hg as [H1 H2 H3 H4].
  split; [by split|]. split; [done|apply progress_refl].
Qed.

(** Settlement at a clock value in range. *)
Lemma settle_inv clock : - 2 ^ 61 <= clock <= 2 ^ 61 ->
  settle_pending_moves (mkArbiter (scheduler_ (arbiter_ g)) clock) (board_ g) (rules_ g)
    (game_over_ g) ⇓ (fun r =>
    game_inv (set_settled g r) /\ game_evolves g (set_settled g r) /\
    quiescent (arbiter_ (set_settled g r)) /\ clock_ms (set_settled g r) = clock).
Proof.
  intros Hc. eapply returns_mono.
  { apply settle_pending_moves_settled; [done|apply Hg|]. unfold fits_i64. simpl. lia. }
  intros [[a' b'] go'] (Hi & Hpr & Hclk & Hq & _). simpl in Hclk.
  split_and!; [|by split|done|done]. split; simpl; unfold clock_ms; simpl; [done|lia| |].
  - intros r c Hs. apply (evolves_inside _ _ r c (pr_evolves _ _ _ _ _ Hpr)).
    by apply (gi_selected g Hg).
  - intros Ho. destruct (pr_decided _ _ _ _ _ Hpr Ho) as [Ho'|]; [|done].
    eapply decided_evolves; [apply Hpr|]. by apply (gi_over g Hg).
Qed.

Lemma add_clock_inv ms : - 2 ^ 61 <= clock_ms g + ms <= 2 ^ 61 ->
  add_clock g ms ⇓ (fun g' => game_inv g' /\ game_evolves g g' /\
    quiescent (arbiter_ g') /\ clock_ms g' = clock_ms g + ms).
Proof.
  intros Hc. unfold add_clock, update_time, i64_add. unfold clock_ms in Hc.
  rewrite i64_checked_ok, bind_ok by (unfold fits_i64; lia).
  apply returns_bind. eapply returns_mono; [by apply settle_inv|]. done.
Qed.

Lemma jump_at_inv r c : 0 <= r -> 0 <= c ->
  jump_at g r c ⇓ (fun g' => game_inv g' /\ game_evolves g g' /\ clock_ms g' = clock_ms g).
Proof.
  intros Hr Hc. eapply returns_mono; [by apply jump_at_spec|].
  intros g' [(p & Hp & ->)|[_ ->]]; [|split; [done|split; [reflexivity|done]]].
  destruct (airborne_inv p (r, c) Hp). by split_and!.
Qed.

Lemma apply_action_inv action : action_ok g action ->
  apply_action g action ⇓ (fun g' => game_inv g' /\ game_evolves g g' /\
    clock_ms g' = clock_ms g + clock_step action).
Proof.
  intros Hok. assert (game_inv g /\ game_evolves g g /\ clock_ms g = clock_ms g + 0) as Hsame.
  { split_and!; [done|reflexivity|lia]. }
  destruct action as [r c| |r c| |r c|ms]; simpl in *.
  - unfold select, gs_is_in_bounds. destruct (is_in_bounds (board_ g) r c) eqn:Hb; simpl; [|done].
    destruct (set_selected_inv (Some (r, c))) as [H1 H2].
    + intros ? ? [= <- <-]. apply is_in_bounds_spec; [apply Hok..|done].
    + split_and!; [done..|]. unfold clock_ms. simpl. lia.
  - destruct (set_selected_inv None) as [H1 H2]; [done|]. split_and!; [done..|].
    unfold clock_ms. simpl. lia.
  - destruct (selected_ g) as [from|] eqn:Hs.
    + eapply returns_mono; [by apply (move_selected_to_spec g Hg from); [|apply Hok..]|].
      intros g' [(p & Hp & ->)|[_ ->]]; [|done]. destruct (launched_inv p from (r, c) Hp).
      split_and!; [done..|]. unfold clock_ms. simpl. lia.
    + unfold move_selected_to. by rewrite Hs.
  - unfold jump_selected. destruct (selected_ g) as [[r c]|] eqn:Hs; [|done].
    apply returns_bind. pose proof (gi_selected g Hg r c Hs) as [? ?].
    eapply returns_mono; [apply jump_at_inv; lia|]. intros g' ([H1 H2 H3 H4] & H5 & H6).
    split_and!; [by split| |unfold clock_ms in *; simpl in *; lia].
    etrans; [done|]. split; [done|apply progress_refl].
  - eapply returns_mono; [apply jump_at_inv; apply Hok|]. intros g' (? & ? & ?).
    split_and!; [done..|lia].
  - eapply returns_mono; [by apply add_clock_inv|]. by intros g' (? & ? & _ & ?).
Qed.
End Preservation.

(** ** Sessions *)

(** A sequence of well-typed actions that keeps the clock in range. *)
Fixpoint actions_ok (clock : Z) (actions : list GameAction) : Prop :=
  match actions with
  | [] => True
  | a :: rest =>
      match a with
      | Select r c | MoveSelected r c | JumpAt r c => fits_u64 r /\ fits_u64 c
      | ClearSelection | JumpSelected => True
      | AdvanceClock ms => - 2 ^ 61 <= clock + ms <= 2 ^ 61
      end /\ actions_ok (clock + clock_step a) rest
  end.

(** By how much a sequence of actions advances the clock. *)
Definition clock_steps (actions : list GameAction) : Z :=
  foldr (fun a t => clock_step a + t) 0 actions.

Lemma run_inv actions g : RulesOk (rules_ g) -> game_inv g -> actions_ok (clock_ms g) actions ->
  run actions g ⇓ (fun g' => game_inv g' /\ game_evolves g g' /\
    clock_ms g' = clock_ms g + clock_steps actions).
Proof.
  unfold run. revert g. induction actions as [|a actions IH]; intros g Hr Hg Hok; simpl.
  { split_and!; [done|reflexivity|lia]. }
  destruct Hok as [Ha Hok]. apply returns_bind. eapply returns_mono.
  { apply apply_action_inv; [done..|]. by destruct a. }
  intros g1 (Hg1 & Hev & Hc). eapply returns_mono; [apply IH|].
  - by rewrite (ge_rules _ _ Hev).
  - done.
  - by rewrite Hc.
  - intros g2 (Hg2 & Hev2 & Hc2). split_and!; [done|by etrans|lia].
Qed.

(** A board on which no piece is in flight is a valid start. *)
Lemma game_with_rules_inv b rules : board_wf b -> all_idle b -> game_inv (game_with_rules b rules).
Proof.
  intros Hwf Hi. split; try done. split; try done.
  - intros f Hf. by apply not_elem_of_nil in Hf.
  - apply NoDup_nil. done.
  - intros id p Hp Hm. rewrite (all_idle_find b id p Hi Hp) in Hm. done.
Qed.

(** ** The animation snapshot *)

(** The ids of the pieces drawn in flight. *)
Definition animated (snap : AnimationSnapshot) : list Z :=
  (ams_piece_id <$> snap_moves snap) ++ (ajs_piece_id <$> snap_jumps snap).

Lemma fmap_omap_all {A B C} (f : A -> option B) (h : B -> C) (k : A -> C) (l : list A) :
  (forall x, x ∈ l -> h <$> f x = Some (k x)) -> h <$> omap f l = k <$> l.
Proof.
  induction l as [|x l IH]; intros Hl; [done|]. cbn. specialize (Hl x) as Hx.
  destruct (f x) as [y|]; simpl in Hx; [|by specialize (Hx (list_elem_of_here _ _))].
  specialize (Hx (list_elem_of_here _ _)). injection Hx as Hx. cbn. rewrite Hx. f_equal.
  apply IH. intros z Hz. by apply Hl, list_elem_of_further.
Qed.

(** At a quiescent instant every flight is drawn. *)
Lemma animated_flights a : quiescent a ->
  animated (animations_for_render a) = fl_id <$> flights (scheduler_ a).
Proof.
  intros (Hm & Hj & _). unfold animated, animations_for_render, flights. simpl.
  rewrite fmap_app, <- !list_fmap_compose. f_equal; apply fmap_omap_all.
  - intros m Hin. specialize (Hm m Hin). by destruct (Z.leb_spec (pm_arrival_time m) (clock_ms_ a)); [lia|].
  - intros j Hin. specialize (Hj j Hin). by destruct (Z.leb_spec (j_arrival_time j) (clock_ms_ a)); [lia|].
Qed.

(** Where each piece of the store is. *)
Definition accounted (g : GameState) (snap : AnimationSnapshot) : Prop :=
  NoDup (animated snap) /\
  forall id p, find_piece_by_id (board_ g) id = Some p ->
    match p_state p with
    | Idle => id ∉ animated snap /\
        forall r c, occupant (board_ g) r c = Some p <-> p_cell p = mkPosition r c
    | Moving => id ∈ animated snap /\ forall r c, occupant (board_ g) r c <> Some p
    | Captured => id ∉ animated snap /\ forall r c, occupant (board_ g) r c <> Some p
    end.

Lemma accounted_quiescent g : game_inv g -> quiescent (arbiter_ g) ->
  accounted g (gs_animations_for_render g).
Proof.
  intros Hg Hq. pose proof (gi_flights g Hg) as [Hwf Hok Hnd Hall].
  unfold accounted, gs_animations_for_render. rewrite (animated_flights _ Hq). split; [done|].
  assert (forall id p, find_piece_by_id (board_ g) id = Some p ->
    id ∈ fl_id <$> flights (scheduler_ (arbiter_ g)) -> p_state p = Moving) as Hmov.
  { intros id p Hp (f & -> & Hf)%list_elem_of_fmap.
    destruct (fo_piece _ _ (Hok f Hf)) as (q & Hq' & Hm & _). congruence. }
  assert (forall p r c, occupant (board_ g) r c = Some p -> p_state p = Idle) as Hidle.
  { intros p r c Ho. by destruct (occupant_Some _ _ _ _ Hwf Ho) as (_ & _ & _ & ? & _). }
  intros id p Hp. destruct (p_state p) eqn:Est.
  - split; [intros Hin; specialize (Hmov id p Hp Hin); congruence|]. intros r c. split.
    + intros Ho. by destruct (occupant_Some _ _ _ _ Hwf Ho) as (_ & _ & ? & _).
    + intros Hc. unfold occupant. pose proof (oc_idle _ (proj2 Hwf) id p Hp Est) as Hgr.
      rewrite Hc in Hgr. simpl in Hgr. by rewrite Hgr.
  - split; [by eapply Hall|]. intros r c Ho%Hidle. congruence.
  - split; [intros Hin; specialize (Hmov id p Hp Hin); congruence|].
    intros r c Ho%Hidle. congruence.
Qed.

(** ** The winner *)

Definition opposite (color : PieceColor) : PieceColor :=
  match color with White => Black | Black => White end.

Definition king_at (b : BoardModel) (color : PieceColor) (r c : Z) : Prop :=
  exists p, occupant b r c = Some p /\ p_color p = color /\ p_kind p = King.

Definition king_on_grid (b : BoardModel) (color : PieceColor) : Prop :=
  exists r c, king_at b color r c.

Lemma king_token color p :
  String.eqb (to_token (p_color p) (p_kind p)) (to_token color King) = true <->
  p_color p = color /\ p_kind p = King.
Proof.
  destruct p as [id pc pk cell st]. simpl in *.
  destruct color, pc, pk; vm_compute; split; try done; by intros [? ?].
Qed.

Lemma exists_cons {A} (P : A -> Prop) x (l : list A) :
  (exists y, y ∈ x :: l /\ P y) <-> P x \/ exists y, y ∈ l /\ P y.
Proof. setoid_rewrite elem_of_cons. naive_solver. Qed.

(** One cell of the scan records the king it shows. *)
Lemma scan_cell_spec g row col present : board_wf (board_ g) -> inside (board_ g) row col ->
  scan_cell g row col present ⇓ (fun pr =>
    (pr.1 = true <-> present.1 = true \/ king_at (board_ g) White row col) /\
    (pr.2 = true <-> present.2 = true \/ king_at (board_ g) Black row col)).
Proof.
  intros Hwf Hin. unfold scan_cell, gs_token_at, token_at, king_at.
  rewrite piece_at_inside, bind_ok by (done || apply Hwf).
  destruct (occupant (board_ g) row col) as [p|]; rewrite bind_ok; apply returns_ok.
  - pose proof (king_token White p) as Hw. pose proof (king_token Black p) as Hb.
    assert (forall color, (exists q, Some p = Some q /\ p_color q = color /\ p_kind q = King) <->
      p_color p = color /\ p_kind p = King) as Hq by naive_solver.
    rewrite !Hq, <- Hw, <- Hb. clear Hq.
    destruct (String.eqb _ (to_token White King)), (String.eqb _ (to_token Black King)).
    + exfalso. destruct (proj1 Hw eq_refl), (proj1 Hb eq_refl). congruence.
    + cbn [fst snd]. clear. intuition congruence.
    + cbn [fst snd]. clear. intuition congruence.
    + clear. intuition congruence.
  - split; (split; [by left|]); intros [?|(? & ? & _)]; done.
Qed.

Lemma scan_row_spec g row l present : board_wf (board_ g) ->
  (forall c, c ∈ l -> inside (board_ g) row c) ->
  foldM (scan_cell g row) l present ⇓ (fun pr =>
    (pr.1 = true <-> present.1 = true \/ exists c, c ∈ l /\ king_at (board_ g) White row c) /\
    (pr.2 = true <-> present.2 = true \/ exists c, c ∈ l /\ king_at (board_ g) Black row c)).
Proof.
  intros Hwf. revert present. induction l as [|c l IH]; intros present Hin; cbn [foldM].
  { apply returns_ok. set_solver. }
  assert (inside (board_ g) row c) as Hc by (apply Hin, list_elem_of_here).
  apply returns_bind. eapply returns_mono; [exact (scan_cell_spec g row c present Hwf Hc)|].
  intros pr1 [Hw1 Hb1].
  eapply returns_mono; [apply IH; intros; by apply Hin, list_elem_of_further|].
  intros pr2 [Hw2 Hb2]. rewrite Hw2, Hb2, Hw1, Hb1, !exists_cons. tauto.
Qed.

Lemma scan_rows_spec g l present : board_wf (board_ g) ->
  (forall r, r ∈ l -> 0 <= r < rows (board_ g)) ->
  foldM (fun row present => foldM (scan_cell g row) (zrange (gs_cols g)) present) l present
  ⇓ (fun pr =>
    (pr.1 = true <-> present.1 = true \/ exists r, r ∈ l /\ exists c, king_at (board_ g) White r c) /\
    (pr.2 = true <-> present.2 = true \/ exists r, r ∈ l /\ exists c, king_at (board_ g) Black r c)).
Proof.
  intros Hwf. revert present. induction l as [|r l IH]; intros present Hin; cbn [foldM].
  { apply returns_ok. set_solver. }
  assert (0 <= r < rows (board_ g)) as Hr by (by apply Hin, list_elem_of_here).
  assert (forall color, (exists c, c ∈ zrange (gs_cols g) /\ king_at (board_ g) color r c) <->
    exists c, king_at (board_ g) color r c) as Hcols.
  { intros color. split; [naive_solver|]. intros [c Hk]. exists c. split; [|done].
    apply elem_of_zrange. destruct Hk as (p & Ho & _).
    by destruct (occupant_Some _ _ _ _ Hwf Ho) as (_ & _ & _ & _ & [_ ?]). }
  apply returns_bind. eapply returns_mono; [apply scan_row_spec; [done|]|].
  { intros c Hc%elem_of_zrange. by split. }
  intros pr1 [Hw1 Hb1]. rewrite Hcols in Hw1, Hb1.
  eapply returns_mono; [apply IH; intros; by apply Hin, list_elem_of_further|].
  intros pr2 [Hw2 Hb2]. rewrite Hw2, Hb2, Hw1, Hb1, !exists_cons. tauto.
Qed.

Lemma winning_color_spec g : board_wf (board_ g) ->
  winning_color g ⇓ (fun o => forall color, o = Some color <->
    game_over_ g = true /\ king_on_grid (board_ g) color /\
    ~ king_on_grid (board_ g) (opposite color)).
Proof.
  intros Hwf. unfold winning_color. destruct (game_over_ g); simpl; [|naive_solver].
  apply returns_bind. eapply returns_mono; [apply scan_rows_spec; [done|]|].
  { intros r Hr. by apply elem_of_zrange. }
  assert (forall color, (exists r, r ∈ zrange (gs_rows g) /\ exists c, king_at (board_ g) color r c) <->
    king_on_grid (board_ g) color) as Hrows.
  { intros color. unfold king_on_grid. split; [naive_solver|]. intros (r & c & Hk). exists r.
    split; [|by exists c]. apply elem_of_zrange. destruct Hk as (p & Ho & _).
    by destruct (occupant_Some _ _ _ _ Hwf Ho) as (_ & _ & _ & _ & [? _]). }
  intros [w bk] [Hw Hb]. rewrite Hrows in Hw, Hb. simpl in Hw, Hb. simpl.
  destruct w, bk; simpl; intros []; simpl; naive_solver.
Qed.

(** ** Concrete games for the witnesses *)

Definition sample_board : BoardModel :=
  board_of [["bK"; "."; "."; "bR"]; ["."; "."; "."; "."]; ["wP"; "."; "."; "."];
            ["."; "wK"; "."; "wR"]]%string.

Definition sample_game : GameState := new_game sample_board.

Lemma sample_game_inv : game_inv sample_game.
Proof. apply game_with_rules_inv; [by apply board_of_wf|apply board_of_idle]. Qed.

(** ** Properties *)

(** C1: No sequence of player actions can crash a game: from any start position
    without pieces in flight, every sequence of well-typed actions that keeps the
    clock in range runs without an exception or undefined behaviour, and the
    game invariant holds at its end: occupancy and piece store agree, each piece
    off the grid is in exactly one flight or captured, the selection is on the
    board, and a game-over flag means that a king was captured. *)
Theorem run_safe b actions :
  board_wf b -> all_idle b -> actions_ok 0 actions -> run actions (new_game b) ⇓ game_inv.
Proof.
  intros Hwf Hi Hok. eapply returns_mono.
  - apply (run_inv actions (new_game b)); [apply standard_ok|by apply game_with_rules_inv|done].
  - by intros g [? _].
Qed.

Lemma run_safe_witness :
  run [Select 3 3; MoveSelected 0 3; AdvanceClock 1000; JumpAt 0 0; AdvanceClock 5000]
    (new_game sample_board) ⇓ game_inv.
Proof.
  apply run_safe; [by apply board_of_wf|apply board_of_idle|].
  simpl. unfold fits_u64. lia.
Defined.

(** C6: History is irreversible: over any sequence of actions the colour of a
    piece never changes, its kind changes only by promotion of a pawn to
    something other than a king, a captured piece is never touched again, the
    dimensions of the board are fixed, and a game that is over stays over. *)
Theorem history_irreversible g actions g' id p :
  RulesOk (rules_ g) -> game_inv g -> actions_ok (clock_ms g) actions ->
  run actions g = Ok g' -> find_piece_by_id (board_ g) id = Some p ->
  exists p', find_piece_by_id (board_ g') id = Some p' /\
    p_color p' = p_color p /\
    (p_kind p' = p_kind p \/ p_kind p = Pawn /\ p_kind p' <> King) /\
    (p_state p = Captured -> p' = p) /\
    rows (board_ g') = rows (board_ g) /\ cols (board_ g') = cols (board_ g) /\
    (game_over_ g = true -> game_over_ g' = true).
Proof.
  intros Hr Hg Hok Hrun Hp.
  destruct (returns_elim _ _ _ (run_inv actions g Hr Hg Hok) Hrun) as (_ & [_ [Hev Hm _]] & _).
  destruct (ev_piece _ _ Hev id p Hp) as (p' & Hp' & _ & H2 & H3 & H4).
  exists p'. split_and!; auto; apply Hev.
Qed.

Lemma history_irreversible_witness :
  let g := sample_game in
  match run [Select 3 3; MoveSelected 0 3; AdvanceClock 1000] g with
  | Ok g' => exists p', find_piece_by_id (board_ g') 2 = Some p' /\
      p_color p' = Black /\ (p_kind p' = Rook \/ Rook = Pawn /\ p_kind p' <> King) /\
      (Idle = Captured -> p' = mkPiece 2 Black Rook (mkPosition 0 3) Idle) /\
      rows (board_ g') = rows (board_ g) /\ cols (board_ g') = cols (board_ g) /\
      (game_over_ g = true -> game_over_ g' = true)
  | Err _ => False
  end.
Proof.
  cbv zeta. destruct (run _ sample_game) as [g'|f] eqn:E.
  - apply (history_irreversible sample_game
      [Select 3 3; MoveSelected 0 3; AdvanceClock 1000] g' 2
      (mkPiece 2 Black Rook (mkPosition 0 3) Idle)); [apply standard_ok|apply sample_game_inv| |done|done].
    simpl. unfold fits_u64, clock_ms. simpl. lia.
  - assert (match run [Select 3 3; MoveSelected 0 3; AdvanceClock 1000] sample_game with
      | Ok _ => true | Err _ => false end = true) as Hrun by (vm_compute; reflexivity).
    rewrite E in Hrun. discriminate Hrun.
Defined.

(** C2: A move request under the standard rules is carried out exactly when the
    selected cell holds a piece that is not moving, jumping or resting, the
    destination is a different cell of the board that the piece's geometry
    reaches on the present board without capturing its own colour, and no
    friendly move in flight claims it; then the piece leaves its cell at once
    and is scheduled to arrive after one move time per square (one in all for a
    capture), and the selection is cleared.  Otherwise nothing changes. *)
Theorem move_request_correct g fr fc r c :
  game_inv g -> rules_ g = standard -> selected_ g = Some (fr, fc) -> fits_u64 r -> fits_u64 c ->
  move_selected_to g r c ⇓ (fun g' =>
    let allowed p := ready g fr fc p /\ inside (board_ g) r c /\ (fr, fc) <> (r, c) /\
      kind_rule (board_ g) (p_kind p) (p_color p) fr fc r c /\
      capture_rule (board_ g) (p_color p) r c /\ ~ claimed g (p_color p) (r, c) in
    (exists p, allowed p /\ g' = launched g p (fr, fc) (r, c)) \/
    (~ exists p, allowed p) /\ g' = g).
Proof.
  intros Hg Hstd Hsel Hr Hc. assert (RulesOk (rules_ g)) by (rewrite Hstd; apply standard_ok).
  pose proof (fi_wf _ _ (gi_flights g Hg)) as Hwf.
  assert (forall p, may_move g p (fr, fc) (r, c) <-> ready g fr fc p /\ inside (board_ g) r c /\
    (fr, fc) <> (r, c) /\ kind_rule (board_ g) (p_kind p) (p_color p) fr fc r c /\
    capture_rule (board_ g) (p_color p) r c /\ ~ claimed g (p_color p) (r, c)) as Hmay.
  { intros p. unfold may_move. simpl. rewrite Hstd. simpl.
    split; intros H0; destruct H0 as (Hrd & Hin & Hrest);
      destruct (occupant_Some _ _ _ _ Hwf (rd_occupant _ _ _ _ Hrd)) as (_ & _ & _ & _ & Hf);
      destruct (inside_fits _ _ _ (proj1 Hwf) Hf), (inside_fits _ _ _ (proj1 Hwf) Hin).
    all: pose proof (is_legal_move_spec (board_ g) p fr fc r c Hwf) as Hleg; unfold fits_int in Hleg.
    all: apply returns_eq in Hleg as (x & Hx & Hleg); [|lia..|apply Hrd].
    - destruct Hrest as [Hok Hcl]. rewrite Hx in Hok. injection Hok as ->. naive_solver.
    - rewrite Hx. split_and!; [done..| |tauto]. f_equal. apply Hleg. tauto. }
  eapply returns_mono; [by apply (move_selected_to_spec g Hg (fr, fc)); [|apply Hr|apply Hc]|].
  intros g' Hcases. cbv zeta. setoid_rewrite <- Hmay. done.
Qed.

Lemma move_request_correct_witness :
  let g := select sample_game 3 3 in
  move_selected_to g 0 3 ⇓ (fun g' =>
    let allowed p := ready g 3 3 p /\ inside (board_ g) 0 3 /\ (3, 3) <> (0, 3) /\
      kind_rule (board_ g) (p_kind p) (p_color p) 3 3 0 3 /\
      capture_rule (board_ g) (p_color p) 0 3 /\ ~ claimed g (p_color p) (0, 3) in
    (exists p, allowed p /\ g' = launched g p (3, 3) (0, 3)) \/
    (~ exists p, allowed p) /\ g' = g).
Proof.
  apply (move_request_correct (select sample_game 3 3) 3 3 0 3);
    [|reflexivity|reflexivity|unfold fits_u64; lia..].
  apply (set_selected_inv sample_game sample_game_inv (Some (3, 3))).
  intros r c [= <- <-]. vm_compute. intuition discriminate.
Defined.

(** C37: A jump request is carried out exactly when the cell holds a piece that is
    not moving, jumping or resting; the piece then leaves the grid and is
    scheduled to come down after the jump time.  Otherwise nothing changes. *)
Theorem jump_request_correct g r c :
  RulesOk (rules_ g) -> game_inv g -> fits_u64 r -> fits_u64 c ->
  jump_at g r c ⇓ (fun g' =>
    (exists p, ready g r c p /\ g' = airborne g p (r, c)) \/
    (~ exists p, ready g r c p) /\ g' = g).
Proof. intros Hr Hg [? _] [? _]. by apply jump_at_spec. Qed.

Lemma jump_request_correct_witness :
  jump_at sample_game 0 0 ⇓ (fun g' =>
    (exists p, ready sample_game 0 0 p /\ g' = airborne sample_game p (0, 0)) \/
    (~ exists p, ready sample_game 0 0 p) /\ g' = sample_game).
Proof.
  apply jump_request_correct; [apply standard_ok|apply sample_game_inv|unfold fits_u64; lia..].
Defined.

(** After the clock is advanced nothing that was due is left, and the view
    is complete: no pending move, jump or rest has its end at or before the new
    clock value, and every piece is shown exactly once, on its own grid cell if
    idle, in exactly one animation if in flight, and nowhere if captured. *)
Theorem advance_clock_view g ms :
  RulesOk (rules_ g) -> game_inv g -> - 2 ^ 61 <= clock_ms g + ms <= 2 ^ 61 ->
  apply_action g (AdvanceClock ms) ⇓ (fun g' =>
    clock_ms g' = clock_ms g + ms /\ quiescent (arbiter_ g') /\
    accounted g' (gs_animations_for_render g')).
Proof.
  intros Hr Hg Hc. eapply returns_mono; [by apply add_clock_inv|].
  intros g' (Hg' & _ & Hq & Hclk). split_and!; [done..|]. by apply accounted_quiescent.
Qed.

Lemma advance_clock_view_witness :
  apply_action sample_game (AdvanceClock 16) ⇓ (fun g' =>
    clock_ms g' = clock_ms sample_game + 16 /\ quiescent (arbiter_ g') /\
    accounted g' (gs_animations_for_render g')).
Proof.
  apply (advance_clock_view sample_game 16); [apply standard_ok|apply sample_game_inv|].
  unfold clock_ms. simpl. lia.
Defined.

(** The winner is the colour whose king stands on the grid while the other
    colour's does not, once the game is over; otherwise there is none. *)
Theorem winning_color_correct g :
  game_inv g ->
  winning_color g ⇓ (fun o => forall color, o = Some color <->
    game_over_ g = true /\ king_on_grid (board_ g) color /\
    ~ king_on_grid (board_ g) (opposite color)).
Proof. intros Hg. by apply winning_color_spec, (fi_wf _ _ (gi_flights g Hg)). Qed.

Lemma winning_color_correct_witness :
  winning_color sample_game ⇓ (fun o => forall color, o = Some color <->
    game_over_ sample_game = true /\ king_on_grid (board_ sample_game) color /\
    ~ king_on_grid (board_ sample_game) (opposite color)).
Proof. apply winning_color_correct, sample_game_inv. Defined.

(** ** Behaviours worth knowing *)

(** A jump that comes down on a cell its own king has entered meanwhile captures
    that king, and the game goes on. *)
Example jumper_captures_own_king :
  run [JumpAt 0 1; Select 0 0; MoveSelected 0 1; AdvanceClock 1000]
    (new_game (board_of [["wK"; "wR"]; ["."; "bK"]]%string)) ⇓ (fun g =>
    game_over_ g = false /\
    option_map p_state (find_piece_by_id (board_ g) 1) = Some Captured /\
    token_at (board_ g) 0 1 = Ok "wR"%string).
Proof. vm_compute. auto. Qed.

(** The winner is not reported while the winning king is in flight. *)
Example winner_in_flight_unknown :
  run [Select 0 1; MoveSelected 0 0; AdvanceClock 500; Select 2 0; MoveSelected 2 1;
       AdvanceClock 500] (new_game (board_of [["bK"; "wR"]; ["."; "."]; ["wK"; "."]]%string)) ⇓
  (fun g => game_over_ g = true /\ winning_color g = Ok None).
Proof. vm_compute. auto. Qed.

(** Rest times are kept in 32 bits: a piece that lands before 2^31 ms rests, the
    same move 2^31 ms later is not followed by a rest. *)
Example rest_lost_after_2_31_ms :
  let moves := [Select 0 0; MoveSelected 0 1; AdvanceClock 1000] in
  let g := new_game (board_of [["wR"; "."]; ["wK"; "bK"]]%string) in
  (run moves g ⇓ fun g' => is_piece_resting g' 0 1 = Ok true) /\
  (run (AdvanceClock (2 ^ 31) :: moves) g ⇓ fun g' => is_piece_resting g' 0 1 = Ok false).
Proof. vm_compute. auto. Qed.
