(* ===== verification/Liveness.v ===== *)
(** * Progress of the game

    Every move and every jump comes down: a game that is only given time
    ([AdvanceClock] in any portions, as the game loop does with its frames) reaches a
    state in which nothing is in flight, as soon as the clock has passed the last
    arrival.  Built on the settlement of [RealTimeArbiter.v] and the game of
    [GameState.v]. *)

From S2P Require Import Prelude Piece BoardModel PathUtils PieceRules CollisionResolver MoveScheduler RealTimeArbiter GameState.
Open Scope Z_scope.

(** The flights of a game, as moves and jumps. *)
Definition in_flight (g : GameState) : list Flight := flights (scheduler_ (arbiter_ g)).

(** Given time only: the frames of the loop. *)
Definition wait_for (frames : list Z) : list GameAction := AdvanceClock <$> frames.
Definition total (frames : list Z) : Z := foldr Z.add 0 frames.

Lemma elem_of_flights s f : f ∈ flights s <->
  (exists m, m ∈ pending_moves_ s /\ f = move_flight m) \/
  (exists j, j ∈ active_jumps_ s /\ f = jump_flight j).
Proof. unfold flights. rewrite elem_of_app, !list_elem_of_fmap. naive_solver. Qed.

(** Time starts no flight, and ends those that are due. *)
Lemma add_clock_flights g ms : RulesOk (rules_ g) -> game_inv g ->
  - 2 ^ 61 <= clock_ms g + ms <= 2 ^ 61 ->
  add_clock g ms ⇓ (fun g' => forall f, f ∈ in_flight g' ->
    f ∈ in_flight g /\ clock_ms g + ms < fl_arrival f).
Proof.
  intros Hr Hg Hc. unfold add_clock, update_time, i64_add. unfold clock_ms in Hc.
  rewrite i64_checked_ok, bind_ok by (unfold fits_i64; lia). apply returns_bind.
  eapply returns_mono; [apply settle_pending_moves_settled; [done|apply Hg|unfold fits_i64; simpl; lia]|].
  intros [[a' b'] go'] (_ & _ & Hclk & (Hqm & Hqj & _) & Hsub & Hj). apply returns_ok.
  simpl in *. intros f. unfold in_flight, clock_ms. rewrite !elem_of_flights. simpl. rewrite Hclk in *.
  intros [(m & Hm & ->)|(j & Hjm & ->)]; simpl.
  - split; [left; eauto|]. by apply Hqm.
  - split; [|by apply Hqj]. rewrite Hj in Hjm. apply list_elem_of_filter in Hjm as [_ Hjm]. right. eauto.
Qed.

Lemma wait_flights frames g : RulesOk (rules_ g) -> game_inv g -> Forall (fun ms => 0 <= ms) frames ->
  clock_ms g + total frames <= 2 ^ 61 ->
  run (wait_for frames) g ⇓ (fun g' => game_inv g' /\ clock_ms g' = clock_ms g + total frames /\
    forall f, f ∈ in_flight g' -> f ∈ in_flight g /\
      (frames <> [] -> clock_ms g + total frames < fl_arrival f)).
Proof.
  unfold run. intros Hr Hg Hf. revert g Hr Hg.
  induction Hf as [|ms frames Hms Hf IH]; intros g Hr Hg Hb; simpl.
  { split_and!; [done|lia|]. intros f Hin. split; [done|]. done. }
  assert (0 <= total frames) as Ht.
  { clear -Hf. induction Hf; simpl; lia. }
  simpl in Hb. pose proof (gi_clock g Hg). apply returns_bind.
  pose proof (add_clock_inv g Hg ms ltac:(lia)) as Hi.
  pose proof (add_clock_flights g ms Hr Hg ltac:(lia)) as Hfl.
  destruct (add_clock g ms) as [g1|]; [|done]. simpl in Hi, Hfl |- *.
  destruct Hi as (Hg1 & Hev & _ & Hc1).
  eapply returns_mono; [apply IH; [by rewrite (ge_rules _ _ Hev)|done|rewrite Hc1; lia]|].
  intros g2 (Hg2 & Hc2 & Hin2). split_and!; [done|lia|]. intros f Hf2.
  destruct (Hin2 f Hf2) as [Hf1 Hlt]. destruct (Hfl f Hf1) as [Hf0 Hlt1]. split; [done|]. intros _.
  destruct frames as [|m frames]; [simpl; lia|]. specialize (Hlt ltac:(done)). lia.
Qed.

(** C20: every flight comes down.  Give a game time, in any non-negative portions, until
    the clock reaches the last arrival: it returns without a fault in a state with no
    move and no jump in flight, where each piece is captured or stands on its own cell. *)
Theorem flights_come_down (g : GameState) (frames : list Z) (Hr : RulesOk (rules_ g))
    (Hg : game_inv g) (Hf : Forall (fun ms => 0 <= ms) frames) (Hne : frames <> [])
    (Hb : clock_ms g + total frames <= 2 ^ 61)
    (Hlast : forall f, f ∈ in_flight g -> fl_arrival f <= clock_ms g + total frames) :
  run (wait_for frames) g ⇓ (fun g' => in_flight g' = [] /\
    forall id p, find_piece_by_id (board_ g') id = Some p ->
      p_state p = Captured \/
      p_state p = Idle /\ occupant (board_ g') (pos_row (p_cell p)) (pos_col (p_cell p)) = Some p).
Proof.
  eapply returns_mono; [by apply wait_flights|]. intros g' (Hg' & _ & Hin).
  assert (in_flight g' = []) as Hnil.
  { destruct (in_flight g') as [|f l]; [done|].
    destruct (Hin f (list_elem_of_here _ _)) as [H1 H2]. specialize (H2 Hne). specialize (Hlast f H1). lia. }
  split; [done|]. pose proof (gi_flights g' Hg') as [Hwf _ _ Hall]. intros id p Hp.
  destruct (p_state p) eqn:E; [right|exfalso|by left].
  - split; [done|]. unfold occupant. by rewrite (oc_idle _ (proj2 Hwf) id p Hp E).
  - specialize (Hall id p Hp E). unfold in_flight in Hnil. rewrite Hnil in Hall. by apply not_elem_of_nil in Hall.
Qed.

(** The black king of the sample game, in a jump. *)
Definition jumping_king : Piece := mkPiece 1 Black King (mkPosition 0 0) Idle.
Definition airborne_game : GameState := airborne sample_game jumping_king (0, 0).

Lemma airborne_game_inv : game_inv airborne_game.
Proof.
  apply airborne_inv; [apply standard_ok|apply sample_game_inv|]. split.
  - vm_compute. reflexivity.
  - intros (m & Hm & _). by apply not_elem_of_nil in Hm.
  - intros (j & Hj & _). by apply not_elem_of_nil in Hj.
  - intros (rest & Hrest & _). vm_compute in Hrest. discriminate Hrest.
Qed.

Lemma flights_come_down_witness :
  run (wait_for [600; 600]) airborne_game ⇓ (fun g' => in_flight g' = [] /\
    forall id p, find_piece_by_id (board_ g') id = Some p ->
      p_state p = Captured \/
      p_state p = Idle /\ occupant (board_ g') (pos_row (p_cell p)) (pos_col (p_cell p)) = Some p).
Proof.
  apply (flights_come_down airborne_game [600; 600]).
  - apply standard_ok.
  - apply airborne_game_inv.
  - repeat constructor; lia.
  - done.
  - vm_compute. discriminate.
  - intros f. unfold in_flight, airborne_game, airborne. cbn [set_board_arbiter arbiter_ with_scheduler scheduler_].
    change (flights _) with [jump_flight (mkJump 1 Black King (0, 0) 0 1000)].
    rewrite list_elem_of_singleton. intros ->. vm_compute. discriminate.
Defined.
