(* ===== verification/CppString.v ===== *)
(** * Strings of the C++ standard library

    The operations on [std::string] and on character streams that the program
    uses: the C-locale character classes, [istream >> std::string],
    [istream >> int], [std::getline], [std::to_string] and decimal parsing,
    splitting and joining on a separator, [find], [substr] and prefix tests.
    Strings are Rocq strings of 8-bit characters. *)

From S2P Require Import Prelude.
From Stdlib Require Import Ascii String.
Open Scope string_scope.
Open Scope Z_scope.
#[global] Arguments String.append !_ _ / : simpl nomatch.

(** ** Characters *)

Definition code (c : ascii) : Z := Z.of_nat (nat_of_ascii c).
Definition chr (z : Z) : ascii := ascii_of_nat (Z.to_nat z).

Definition newline : ascii := ascii_of_nat 10.
Definition space : ascii := " "%char.

(** [std::isspace] in the C locale: space, \t, \n, \v, \f, \r. *)
Definition isspace (c : ascii) : bool := (code c =? 32) || ((9 <=? code c) && (code c <=? 13)).
Definition isdigit (c : ascii) : bool := (48 <=? code c) && (code c <=? 57).
Definition digit_value (c : ascii) : Z := code c - 48.

(** ** Whole-string predicates *)

Fixpoint all_chars (f : ascii -> bool) (s : string) : bool :=
  match s with
  | EmptyString => true
  | String c s' => f c && all_chars f s'
  end.

Definition slen (s : string) : Z := Z.of_nat (String.length s).
Definition is_empty_string (s : string) : bool :=
  match s with EmptyString => true | _ => false end.

(** ** Words: [stream >> token] *)

Fixpoint skip_ws (s : string) : string :=
  match s with
  | String c s' => if isspace c then skip_ws s' else s
  | EmptyString => EmptyString
  end.

(** The longest prefix of characters satisfying [f], and the rest. *)
Fixpoint span (f : ascii -> bool) (s : string) : string * string :=
  match s with
  | EmptyString => (EmptyString, EmptyString)
  | String c s' =>
      if f c then let '(a, b) := span f s' in (String c a, b) else (EmptyString, s)
  end.

Definition not_space (c : ascii) : bool := negb (isspace c).

(** One extraction: [None] is a failed stream. *)
Definition extract_word (s : string) : option (string * string) :=
  match span not_space (skip_ws s) with
  | (EmptyString, _) => None
  | r => Some r
  end.

(** [while (stream >> token) tokens.push_back(token);] on a string: the words
    separated by white space.  [w] is the word being read. *)
Fixpoint split_words_from (w : string) (s : string) : list string :=
  match s with
  | EmptyString => match w with EmptyString => [] | _ => [w] end
  | String c s' =>
      if isspace c then
        match w with
        | EmptyString => split_words_from EmptyString s'
        | _ => w :: split_words_from EmptyString s'
        end
      else split_words_from (w ++ String c EmptyString) s'
  end.
Definition split_words (s : string) : list string := split_words_from EmptyString s.

(** ** Lines: [std::getline] *)

(** The lines of a text: a final line is delivered only if it is not empty. *)
Fixpoint lines_from (l : string) (s : string) : list string :=
  match s with
  | EmptyString => match l with EmptyString => [] | _ => [l] end
  | String c s' =>
      if Ascii.eqb c newline then l :: lines_from EmptyString s'
      else lines_from (l ++ String c EmptyString) s'
  end.
Definition lines (s : string) : list string := lines_from EmptyString s.

Fixpoint join (sep : string) (l : list string) : string :=
  match l with
  | [] => EmptyString
  | [x] => x
  | x :: l' => x ++ sep ++ join sep l'
  end.

(** ** Decimal numbers *)

Definition digit_char (d : Z) : ascii := chr (48 + d).

(** [std::to_string] of a non-negative number; the fuel is its number of bits. *)
Fixpoint to_string_loop (fuel : nat) (n : Z) (acc : string) : string :=
  match fuel with
  | O => String (digit_char (n mod 10)) acc
  | S k =>
      let acc' := String (digit_char (n mod 10)) acc in
      if n <? 10 then acc' else to_string_loop k (n / 10) acc'
  end.
Definition to_string_nat (n : Z) : string := to_string_loop (Z.to_nat (Z.log2 n)) n EmptyString.
Definition to_string (n : Z) : string :=
  if n <? 0 then String "-"%char (to_string_nat (- n)) else to_string_nat n.

(** The value of a string of digits. *)
Fixpoint dec_value_from (v : Z) (s : string) : Z :=
  match s with
  | EmptyString => v
  | String c s' => dec_value_from (10 * v + digit_value c) s'
  end.
Definition dec_value (s : string) : Z := dec_value_from 0 s.

(** [stream >> x] for a signed integer type with the given bounds: an optional
    sign and digits; no digit or a value out of range fails the stream. *)
Definition extract_signed (lo hi : Z) (s : string) : option (Z * string) :=
  let s1 := skip_ws s in
  let '(neg, s2) :=
    match s1 with
    | String c s' =>
        if Ascii.eqb c "-"%char then (true, s')
        else if Ascii.eqb c "+"%char then (false, s')
        else (false, s1)
    | EmptyString => (false, s1)
    end in
  match span isdigit s2 with
  | (EmptyString, _) => None
  | (digits, rest) =>
      let v := if neg : bool then - dec_value digits else dec_value digits in
      if (lo <=? v) && (v <=? hi) then Some (v, rest) else None
  end.
Definition extract_int (s : string) : option (Z * string) :=
  extract_signed (- 2 ^ 31) (2 ^ 31 - 1) s.
Definition extract_i64 (s : string) : option (Z * string) :=
  extract_signed (- 2 ^ 63) (2 ^ 63 - 1) s.

(** [std::strtol(s, nullptr, 10)] for a 64-bit [long]: no digits give 0, and a value out
    of range the nearest bound.  [std::atoi] is its conversion to [int]. *)
Definition strtol (s : string) : Z :=
  let s1 := skip_ws s in
  let '(neg, s2) :=
    match s1 with
    | String c s' =>
        if Ascii.eqb c "-"%char then (true, s')
        else if Ascii.eqb c "+"%char then (false, s')
        else (false, s1)
    | EmptyString => (false, s1)
    end in
  let digits := fst (span isdigit s2) in
  let v := if neg : bool then - dec_value digits else dec_value digits in
  Z.max (- 2 ^ 63) (Z.min v (2 ^ 63 - 1)).
Definition atoi (s : string) : Z := to_int (strtol s).

(** ** Lemmas on append *)

Lemma app_nil_string s : s ++ EmptyString = s.
Proof. induction s as [|c s IH]; simpl; [done|by rewrite IH]. Qed.

Lemma app_assoc_string a b c : (a ++ b) ++ c = a ++ (b ++ c).
Proof. induction a as [|x a IH]; simpl; [done|by rewrite IH]. Qed.

Lemma slen_app a b : slen (a ++ b) = slen a + slen b.
Proof. unfold slen. induction a as [|c a IH]; simpl; [lia|]. lia. Qed.

Lemma all_chars_app f a b : all_chars f (a ++ b) = all_chars f a && all_chars f b.
Proof. induction a as [|c a IH]; simpl; [done|]. rewrite IH. by rewrite andb_assoc. Qed.

Lemma app_cons_string a c b : (a ++ String c EmptyString) ++ b = a ++ String c b.
Proof. by rewrite app_assoc_string. Qed.

Lemma not_nil_app_r a c : a ++ String c EmptyString <> EmptyString.
Proof. by destruct a. Qed.

Lemma span_app f a b : all_chars f a = true ->
  match b with EmptyString => True | String c _ => f c = false end -> span f (a ++ b) = (a, b).
Proof.
  intros Ha Hb. induction a as [|c a IH]; simpl in *.
  - destruct b as [|c b]; simpl; [done|by rewrite Hb].
  - apply andb_true_iff in Ha as [-> Ha]. by rewrite IH.
Qed.

Lemma span_all f a : all_chars f a = true -> span f a = (a, EmptyString).
Proof. intros Ha. rewrite <- (app_nil_string a) at 1. by apply span_app. Qed.

(** ** Lemmas on words *)

Lemma split_words_word w s a : all_chars not_space a = true ->
  split_words_from w (a ++ s) = split_words_from (w ++ a) s.
Proof.
  revert w. induction a as [|c a IH]; intros w Ha; simpl in *.
  - by rewrite app_nil_string.
  - apply andb_true_iff in Ha as [Hc Ha]. unfold not_space in Hc. apply negb_true_iff in Hc.
    rewrite Hc, IH by done. by rewrite app_cons_string.
Qed.

Definition is_word (s : string) : Prop := s <> EmptyString /\ all_chars not_space s = true.

(** Words joined by single spaces are read back. *)
Lemma split_words_join l : Forall is_word l -> split_words (join " " l) = l.
Proof.
  unfold split_words. induction 1 as [|x l [Hx1 Hx2] Hl IH]; [done|].
  destruct l as [|y l]; simpl.
  - rewrite <- (app_nil_string x) at 1. rewrite split_words_word by done. by destruct x.
  - rewrite split_words_word by done. simpl. destruct x; [done|]. simpl. f_equal. apply IH.
Qed.

(** ** Lemmas on lines *)

Definition not_newline (c : ascii) : bool := negb (Ascii.eqb c newline).

Lemma lines_from_line l s a : all_chars not_newline a = true ->
  lines_from l (a ++ s) = lines_from (l ++ a) s.
Proof.
  revert l. induction a as [|c a IH]; intros l Ha; simpl in *.
  - by rewrite app_nil_string.
  - apply andb_true_iff in Ha as [Hc Ha]. unfold not_newline in Hc. apply negb_true_iff in Hc.
    rewrite Hc, IH by done. by rewrite app_cons_string.
Qed.

Definition nl : string := String newline EmptyString.

(** A complete line followed by more text. *)
Lemma lines_cons a s : all_chars not_newline a = true -> lines (a ++ nl ++ s) = a :: lines s.
Proof. intros Ha. unfold lines. rewrite lines_from_line by done. done. Qed.

Lemma lines_last a : all_chars not_newline a = true -> a <> EmptyString -> lines a = [a].
Proof.
  intros Ha Hne. unfold lines. rewrite <- (app_nil_string a) at 1.
  rewrite lines_from_line by done. by destruct a.
Qed.

Lemma lines_join l : Forall (fun a => all_chars not_newline a = true /\ a <> EmptyString) l ->
  lines (join nl l) = l.
Proof.
  induction 1 as [|x l [Hx1 Hx2] Hl IH]; [done|]. destruct l as [|y l].
  - by apply lines_last.
  - change (join nl (x :: y :: l)) with (x ++ nl ++ join nl (y :: l)).
    rewrite lines_cons by done. f_equal. apply IH.
Qed.

(** Text made of complete lines followed by more text. *)
Lemma lines_app l s : Forall (fun a => all_chars not_newline a = true) l ->
  lines (foldr (fun a t => a ++ nl ++ t) s l) = (l ++ lines s)%list.
Proof.
  induction 1 as [|x l Hx Hl IH]; [done|]. cbn [foldr]. by rewrite lines_cons, IH.
Qed.

Lemma all_chars_impl (f g : ascii -> bool) s : (forall c, f c = true -> g c = true) ->
  all_chars f s = true -> all_chars g s = true.
Proof.
  intros H. induction s as [|c s IH]; simpl; [done|]. rewrite !andb_true_iff. naive_solver.
Qed.

(** ** Lemmas on decimal numbers *)

Lemma code_chr z : 0 <= z < 256 -> code (chr z) = z.
Proof. intros. unfold code, chr. rewrite nat_ascii_embedding; lia. Qed.

Lemma digit_char_value d : 0 <= d < 10 -> digit_value (digit_char d) = d.
Proof. intros. unfold digit_value, digit_char. rewrite code_chr; lia. Qed.

Lemma digit_char_digit d : 0 <= d < 10 -> isdigit (digit_char d) = true.
Proof.
  intros. unfold isdigit, digit_char. rewrite code_chr by lia.
  apply andb_true_iff. rewrite !Z.leb_le. lia.
Qed.

Lemma dec_value_from_app v a t :
  dec_value_from v (a ++ t) = dec_value_from (dec_value_from v a) t.
Proof. revert v. induction a as [|x a IH]; intros; simpl; [done|by rewrite IH]. Qed.

Lemma to_string_loop_spec fuel n acc : 0 <= n < 2 ^ (Z.of_nat fuel + 1) ->
  exists d s, to_string_loop fuel n acc = String d s ++ acc /\
    all_chars isdigit (String d s) = true /\
    forall v, dec_value_from v (String d s) = v * 10 ^ slen (String d s) + n.
Proof.
  revert n acc. induction fuel as [|k IH]; intros n acc Hn; cbn [to_string_loop].
  - exists (digit_char (n mod 10)), EmptyString. change (2 ^ (Z.of_nat 0 + 1)) with 2 in Hn.
    rewrite Z.mod_small by lia. split_and!; [done| |].
    + simpl. by rewrite digit_char_digit by lia.
    + intros v. simpl. rewrite digit_char_value by lia. change (slen _) with 1. lia.
  - pose proof (Z.mod_pos_bound n 10 ltac:(lia)) as Hm.
    pose proof (Z.div_mod n 10 ltac:(lia)) as Hdm.
    destruct (Z.ltb_spec n 10).
    + exists (digit_char (n mod 10)), EmptyString. split_and!; [done| |].
      * simpl. by rewrite digit_char_digit.
      * intros v. simpl. rewrite digit_char_value by lia. change (slen _) with 1.
        rewrite Z.mod_small by lia. lia.
    + destruct (IH (n / 10) (String (digit_char (n mod 10)) acc)) as (d & s & E & Hd & Hv).
      { replace (Z.of_nat (S k) + 1) with (Z.of_nat k + 1 + 1) in Hn by lia.
        rewrite Z.pow_add_r in Hn by lia.
        split; [apply Z.div_pos; lia|]. apply Z.div_lt_upper_bound; [lia|].
        pose proof (Z.pow_pos_nonneg 2 (Z.of_nat k + 1)). lia. }
      exists d, (s ++ String (digit_char (n mod 10)) EmptyString). rewrite E.
      split_and!.
      * simpl. by rewrite app_cons_string.
      * change (String d (s ++ ?t)) with (String d s ++ t). rewrite all_chars_app, Hd. simpl.
        by rewrite digit_char_digit.
      * intros v. change (String d (s ++ ?t)) with (String d s ++ t).
        rewrite dec_value_from_app, Hv. simpl. rewrite digit_char_value by lia.
        replace (slen (String d (s ++ String (digit_char (n mod 10)) EmptyString)))
          with (slen (String d s) + 1).
        2: { change (String d (s ++ ?t)) with (String d s ++ t). rewrite slen_app. done. }
        rewrite Z.pow_add_r by (unfold slen; lia). lia.
Qed.

Lemma to_string_nat_spec n : 0 <= n ->
  exists d s, to_string_nat n = String d s /\ all_chars isdigit (String d s) = true /\
    dec_value (String d s) = n.
Proof.
  intros Hn. unfold to_string_nat.
  destruct (to_string_loop_spec (Z.to_nat (Z.log2 n)) n EmptyString) as (d & s & E & Hd & Hv).
  - destruct (decide (n = 0)) as [->|]; [simpl; lia|]. pose proof (Z.log2_spec n ltac:(lia)).
    pose proof (Z.log2_nonneg n). rewrite Z2Nat.id by done.
    replace (Z.log2 n + 1) with (Z.succ (Z.log2 n)) by lia. lia.
  - exists d, s. rewrite E, app_nil_string. split_and!; [done..|]. unfold dec_value. rewrite Hv. lia.
Qed.

Lemma dec_value_to_string n : 0 <= n -> dec_value (to_string n) = n.
Proof.
  intros Hn. unfold to_string. destruct (Z.ltb_spec n 0); [lia|].
  by destruct (to_string_nat_spec n Hn) as (d & s & -> & _ & ?).
Qed.

Lemma to_string_digits n : 0 <= n ->
  all_chars isdigit (to_string n) = true /\ to_string n <> EmptyString.
Proof.
  intros Hn. unfold to_string. destruct (Z.ltb_spec n 0); [lia|].
  by destruct (to_string_nat_spec n Hn) as (d & s & -> & ? & _).
Qed.

Lemma isdigit_not_space c : isdigit c = true -> not_space c = true.
Proof.
  unfold isdigit, not_space, isspace. rewrite andb_true_iff, !Z.leb_le. intros [H1 H2].
  destruct (Z.eqb_spec (code c) 32); [lia|].
  destruct (Z.leb_spec (code c) 13); [lia|]. by rewrite andb_false_r.
Qed.

(** Reading back a printed number in the range of the type. *)
Lemma extract_signed_to_string lo hi n s : lo <= n <= hi ->
  match s with EmptyString => True | String c _ => isdigit c = false end ->
  extract_signed lo hi (to_string n ++ s) = Some (n, s).
Proof.
  intros Hn Hs. unfold extract_signed, to_string.
  assert (forall d t, isdigit d = true -> skip_ws (String d t) = String d t) as Hskip.
  { intros d t Hd. simpl. apply isdigit_not_space, negb_true_iff in Hd. by rewrite Hd. }
  assert (forall d, isdigit d = true -> Ascii.eqb d "-" = false /\ Ascii.eqb d "+" = false) as Hsg.
  { intros d Hd. split; apply Ascii.eqb_neq; by intros ->. }
  destruct (Z.ltb_spec n 0).
  - destruct (to_string_nat_spec (- n)) as (d & t & -> & Hd & Hv); [lia|].
    change ((String "-" (String d t)) ++ s) with (String "-" (String d t ++ s)).
    change (skip_ws (String "-" ?u)) with (String "-" u). cbv iota beta.
    rewrite Ascii.eqb_refl, span_app by done. cbv zeta. rewrite Hv.
    rewrite Z.opp_involutive. by rewrite !(proj2 (Z.leb_le _ _)) by lia.
  - destruct (to_string_nat_spec n) as (d & t & -> & Hd & Hv); [lia|].
    pose proof Hd as Hd'. simpl in Hd'. apply andb_true_iff in Hd' as [Hd0 _].
    change (String d t ++ s) with (String d (t ++ s)). rewrite Hskip by done.
    destruct (Hsg d Hd0) as [-> ->]. change (String d (t ++ s)) with (String d t ++ s).
    rewrite span_app by done. rewrite Hv. by rewrite !(proj2 (Z.leb_le _ _)) by lia.
Qed.

Lemma strtol_extract s v r : extract_i64 s = Some (v, r) -> strtol s = v.
Proof.
  unfold extract_i64, extract_signed, strtol. cbv zeta.
  destruct (match skip_ws s with EmptyString => _ | String c s' => _ end) as [neg s2].
  destruct (span isdigit s2) as [[|d t] rest]; [done|]. cbn [fst].
  destruct (Z.leb_spec (- 2 ^ 63) (if neg then - dec_value (String d t) else dec_value (String d t))); [|done].
  destruct (Z.leb_spec (if neg then - dec_value (String d t) else dec_value (String d t)) (2 ^ 63 - 1)); [|done].
  intros [= <- <-]. lia.
Qed.

Lemma strtol_to_string n : fits_i64 n -> strtol (to_string n) = n.
Proof.
  intros Hn. unfold fits_i64 in Hn. apply (strtol_extract _ _ EmptyString).
  rewrite <- (app_nil_string (to_string n)). apply extract_signed_to_string; [lia|done].
Qed.

Lemma atoi_to_string n : fits_int n -> atoi (to_string n) = n.
Proof.
  intros Hn. unfold atoi, fits_int in *. rewrite strtol_to_string by (unfold fits_i64; lia).
  by apply to_int_id.
Qed.

Lemma digit_value_range c : isdigit c = true -> 0 <= digit_value c <= 9.
Proof.
  unfold isdigit, digit_value. intros [H1%Z.leb_le H2%Z.leb_le]%andb_true_iff. lia.
Qed.

Lemma dec_value_from_ge u t : all_chars isdigit t = true -> 0 <= u -> u <= dec_value_from u t.
Proof.
  revert u. induction t as [|c t IH]; intros u Ht Hu; simpl in *; [lia|].
  apply andb_true_iff in Ht as [Hc%digit_value_range Ht].
  specialize (IH (10 * u + digit_value c) Ht). lia.
Qed.

Lemma to_string_word n : 0 <= n -> is_word (to_string n).
Proof.
  intros Hn. destruct (to_string_digits n Hn) as [Hd Hne]. split; [done|].
  eapply all_chars_impl; [apply isdigit_not_space|done].
Qed.

(** ** Searching and slicing *)

Lemma to_string_word_int n : is_word (to_string n).
Proof.
  destruct (decide (0 <= n)) as [Hn|Hn]; [by apply to_string_word|].
  unfold to_string. rewrite (proj2 (Z.ltb_lt _ _)) by lia.
  destruct (to_string_digits (- n)) as [Hd Hne]; [lia|]. unfold to_string in Hd, Hne.
  rewrite (proj2 (Z.ltb_ge _ _)) in Hd, Hne by lia. split; [done|]. cbn.
  eapply all_chars_impl; [apply isdigit_not_space|done].
Qed.

(** [s.c_str()] as a C function reads it: up to the first zero byte. *)
Definition not_nul (c : ascii) : bool := negb (code c =? 0).
Definition c_str (s : string) : string := fst (span not_nul s).
Definition clean (s : string) : Prop := all_chars not_nul s = true.

Lemma c_str_clean s : clean s -> c_str s = s.
Proof. intros Hs. unfold c_str. by rewrite span_all. Qed.

Lemma digits_clean s : all_chars isdigit s = true -> clean s.
Proof.
  apply all_chars_impl. intros c. unfold isdigit, not_nul. destruct (Z.eqb_spec (code c) 0) as [->|]; done.
Qed.

Lemma to_string_clean n : clean (to_string n).
Proof.
  destruct (Z.le_gt_cases 0 n) as [Hn|Hn].
  - by apply digits_clean, to_string_digits.
  - unfold to_string. rewrite (proj2 (Z.ltb_lt n 0)) by lia. unfold clean. cbn [all_chars].
    apply andb_true_iff. split; [done|]. apply digits_clean.
    destruct (to_string_nat_spec (- n)) as (d & t & -> & Hd & _); [lia|done].
Qed.

(** [s.find_first_not_of(chars)], the characters given as a predicate. *)
Fixpoint find_first_not_from (f : ascii -> bool) (i : Z) (s : string) : option Z :=
  match s with
  | EmptyString => None
  | String c s' => if f c then find_first_not_from f (i + 1) s' else Some i
  end.
Definition find_first_not_of (f : ascii -> bool) (s : string) : option Z :=
  find_first_not_from f 0 s.

(** [s.find_last_not_of(chars)]. *)
Fixpoint find_last_not_from (f : ascii -> bool) (i : Z) (last : option Z) (s : string) : option Z :=
  match s with
  | EmptyString => last
  | String c s' => find_last_not_from f (i + 1) (if f c then last else Some i) s'
  end.
Definition find_last_not_of (f : ascii -> bool) (s : string) : option Z :=
  find_last_not_from f 0 None s.

(** [s.substr(pos, len)] for a position inside the string. *)
Definition substr (s : string) (pos len : Z) : string :=
  String.substring (Z.to_nat pos) (Z.to_nat len) s.

(** A long enough piece of a text is the text. *)
Lemma substring_all s n : (String.length s <= n)%nat -> String.substring 0 n s = s.
Proof.
  revert n. induction s as [|c s IH]; intros [|n] Hn; cbn in *; try done; [lia|]. f_equal. apply IH. lia.
Qed.

Lemma find_last_not_from_ge f i s a : (forall z, a = Some z -> 0 <= z) -> 0 <= i ->
  forall z, find_last_not_from f i a s = Some z -> 0 <= z.
Proof.
  revert i a. induction s as [|c s IH]; intros i a Ha Hi z; simpl; [apply Ha|].
  apply IH; [|lia]. destruct (f c); [done|]. intros ? [= <-]. done.
Qed.

Lemma find_last_not_from_Some f i s x : exists z, find_last_not_from f i (Some x) s = Some z.
Proof.
  revert i x. induction s as [|c s IH]; intros i x; simpl; [eauto|].
  destruct (f c); apply IH.
Qed.
