(* ===== verification/Sha256.v ===== *)
(** * SHA-256 as [server/password_hasher.cpp] implements it

    The anonymous-namespace functions of the password hasher up to [sha256]:
    the compression function on 32-bit words, the streaming context with its
    64-byte buffer, padding and digest.  [Module Fips] is the reference: the
    hash of FIPS 180-4 on a whole message, with its constants computed from the
    first primes.  [sha256_is_fips] says that the two agree on every message. *)

From S2P Require Import Prelude.
Open Scope Z_scope.

(** ** Bytes and words *)

Definition u8_ok (z : Z) : Prop := 0 <= z < 2 ^ 8.
Definition u32_ok (z : Z) : Prop := 0 <= z < 2 ^ 32.

(** [for (i = 0; i < src.size(); ++i) dst[off + i] = src[i];] *)
Fixpoint copy_into (dst : list Z) (off : nat) (src : list Z) : list Z :=
  match src with
  | [] => dst
  | x :: src' => copy_into (<[off := x]> dst) (S off) src'
  end.

(** ** The compression function *)

Record Sha256Context := mkCtx {
  state : list Z;
  bit_count : Z;
  buffer : list Z;
  buffer_size : nat
}.

(** The rows of the table in the source. *)
Definition kSha256Constants : list Z := List.concat [
  [0x428a2f98; 0x71374491; 0xb5c0fbcf; 0xe9b5dba5; 0x3956c25b; 0x59f111f1; 0x923f82a4];
  [0xab1c5ed5; 0xd807aa98; 0x12835b01; 0x243185be; 0x550c7dc3; 0x72be5d74; 0x80deb1fe];
  [0x9bdc06a7; 0xc19bf174; 0xe49b69c1; 0xefbe4786; 0x0fc19dc6; 0x240ca1cc; 0x2de92c6f];
  [0x4a7484aa; 0x5cb0a9dc; 0x76f988da; 0x983e5152; 0xa831c66d; 0xb00327c8; 0xbf597fc7];
  [0xc6e00bf3; 0xd5a79147; 0x06ca6351; 0x14292967; 0x27b70a85; 0x2e1b2138; 0x4d2c6dfc];
  [0x53380d13; 0x650a7354; 0x766a0abb; 0x81c2c92e; 0x92722c85; 0xa2bfe8a1; 0xa81a664b];
  [0xc24b8b70; 0xc76c51a3; 0xd192e819; 0xd6990624; 0xf40e3585; 0x106aa070; 0x19a4c116];
  [0x1e376c08; 0x2748774c; 0x34b0bcb5; 0x391c0cb3; 0x4ed8aa4a; 0x5b9cca4f; 0x682e6ff3];
  [0x748f82ee; 0x78a5636f; 0x84c87814; 0x8cc70208; 0x90befffa; 0xa4506ceb; 0xbef9a3f7];
  [0xc67178f2]].

Definition rotr (value bits : Z) : Z :=
  Z.lor (Z.shiftr value bits) (to_u32 (Z.shiftl value (32 - bits))).

(** The first loop of [sha256_transform]: the words of the block. *)
Definition block_word (block : list Z) (i : nat) : Z :=
  Z.lor (Z.lor (Z.lor (to_u32 (Z.shiftl (nth (i * 4) block 0) 24))
                      (to_u32 (Z.shiftl (nth (i * 4 + 1) block 0) 16)))
               (to_u32 (Z.shiftl (nth (i * 4 + 2) block 0) 8)))
        (nth (i * 4 + 3) block 0).
Definition load_words (block : list Z) : list Z :=
  foldl (fun words i => <[i := block_word block i]> words) (replicate 64 0) (seq 0 16).

(** The second loop: the message schedule. *)
Definition schedule_word (words : list Z) (i : nat) : Z :=
  let s0 := Z.lxor (Z.lxor (rotr (nth (i - 15) words 0) 7) (rotr (nth (i - 15) words 0) 18))
                   (Z.shiftr (nth (i - 15) words 0) 3) in
  let s1 := Z.lxor (Z.lxor (rotr (nth (i - 2) words 0) 17) (rotr (nth (i - 2) words 0) 19))
                   (Z.shiftr (nth (i - 2) words 0) 10) in
  to_u32 (nth (i - 16) words 0 + s0 + nth (i - 7) words 0 + s1).
Definition extend_words (words : list Z) : list Z :=
  foldl (fun words i => <[i := schedule_word words i]> words) words (seq 16 48).

(** The local variables [a] to [h]. *)
Record Work := mkWork { va : Z; vb : Z; vc : Z; vd : Z; ve : Z; vf : Z; vg : Z; vh : Z }.

(** The body of the third loop. *)
Definition sha256_round (words : list Z) (v : Work) (i : nat) : Work :=
  let '(mkWork a b c d e f g h) := v in
  let s1 := Z.lxor (Z.lxor (rotr e 6) (rotr e 11)) (rotr e 25) in
  let ch := Z.lxor (Z.land e f) (Z.land (to_u32 (Z.lnot e)) g) in
  let temp1 := to_u32 (h + s1 + ch + nth i kSha256Constants 0 + nth i words 0) in
  let s0 := Z.lxor (Z.lxor (rotr a 2) (rotr a 13)) (rotr a 22) in
  let maj := Z.lxor (Z.lxor (Z.land a b) (Z.land a c)) (Z.land b c) in
  let temp2 := to_u32 (s0 + maj) in
  mkWork (to_u32 (temp1 + temp2)) a b c (to_u32 (d + temp1)) e f g.

Definition sha256_transform (context : Sha256Context) (block : list Z) : Sha256Context :=
  let words := extend_words (load_words block) in
  let s i := nth i (state context) 0 in
  let v := foldl (sha256_round words) (mkWork (s 0%nat) (s 1%nat) (s 2%nat) (s 3%nat)
                                              (s 4%nat) (s 5%nat) (s 6%nat) (s 7%nat)) (seq 0 64) in
  mkCtx [to_u32 (s 0%nat + va v); to_u32 (s 1%nat + vb v); to_u32 (s 2%nat + vc v);
         to_u32 (s 3%nat + vd v); to_u32 (s 4%nat + ve v); to_u32 (s 5%nat + vf v);
         to_u32 (s 6%nat + vg v); to_u32 (s 7%nat + vh v)]
        (bit_count context) (buffer context) (buffer_size context).

(** ** The streaming context *)

Definition empty_context : Sha256Context := mkCtx (replicate 8 0) 0 (replicate 64 0) 0.

Definition sha256_init (context : Sha256Context) : Sha256Context :=
  mkCtx [0x6a09e667; 0xbb67ae85; 0x3c6ef372; 0xa54ff53a; 0x510e527f; 0x9b05688c; 0x1f83d9ab;
         0x5be0cd19] 0 (buffer context) 0.

(** [context.buffer[context.buffer_size++] = x;] *)
Definition push_byte (context : Sha256Context) (x : Z) : Sha256Context :=
  mkCtx (state context) (bit_count context) (<[buffer_size context := x]> (buffer context))
        (S (buffer_size context)).

Definition set_bit_count (context : Sha256Context) (n : Z) : Sha256Context :=
  mkCtx (state context) n (buffer context) (buffer_size context).
Definition reset_buffer (context : Sha256Context) : Sha256Context :=
  mkCtx (state context) (bit_count context) (buffer context) 0.

Definition update_byte (context : Sha256Context) (x : Z) : Sha256Context :=
  let context := push_byte context x in
  if Nat.eqb (buffer_size context) 64 then
    let context := sha256_transform context (buffer context) in
    reset_buffer (set_bit_count context (to_u64 (bit_count context + 512)))
  else context.
Definition sha256_update (context : Sha256Context) (data : list Z) : Sha256Context :=
  foldl update_byte context data.

(** [while (context.buffer_size < limit) context.buffer[context.buffer_size++] = 0;]
    The buffer has 64 bytes, so 64 iterations are enough. *)
Fixpoint zero_fill (fuel limit : nat) (context : Sha256Context) : Sha256Context :=
  match fuel with
  | O => context
  | S k =>
      if Nat.ltb (buffer_size context) limit then zero_fill k limit (push_byte context 0)
      else context
  end.

Definition length_byte (bits : Z) (i : nat) : Z :=
  Z.land (Z.shiftr bits (Z.of_nat i * 8)) 0xff.
(** [for (int i = 7; i >= 0; --i)]: the bit count, most significant byte first. *)
Definition push_length (context : Sha256Context) : Sha256Context :=
  foldl (fun c i => push_byte c (length_byte (bit_count c) i)) context
        [7; 6; 5; 4; 3; 2; 1; 0]%nat.

Definition word_bytes (w : Z) : list Z :=
  [Z.land (Z.shiftr w 24) 0xff; Z.land (Z.shiftr w 16) 0xff; Z.land (Z.shiftr w 8) 0xff;
   Z.land w 0xff].

Definition sha256_final (context : Sha256Context) : list Z :=
  let context :=
    set_bit_count context (to_u64 (bit_count context + Z.of_nat (buffer_size context) * 8)) in
  let context := push_byte context 0x80 in
  let context :=
    if Nat.ltb 56 (buffer_size context) then
      let context := zero_fill 64 64 context in
      reset_buffer (sha256_transform context (buffer context))
    else context in
  let context := zero_fill 64 56 context in
  let context := push_length context in
  let context := sha256_transform context (buffer context) in
  flat_map (fun i => word_bytes (nth i (state context) 0)) (seq 0 8).

Definition sha256 (data : list Z) : list Z :=
  sha256_final (sha256_update (sha256_init empty_context) data).

(** ** The reference: FIPS 180-4 *)

Module Fips.

Definition is_prime (p : nat) : bool :=
  forallb (fun d => negb (Nat.eqb (p mod d) 0)) (seq 2 (p - 2)).
Definition primes (bound : nat) : list Z := Z.of_nat <$> List.filter is_prime (seq 2 (bound - 2)).

(** The integer cube root of [n], found bit by bit. *)
Fixpoint icbrt (bits : nat) (r n : Z) : Z :=
  match bits with
  | O => r
  | S k => let r' := r + 2 ^ Z.of_nat k in icbrt k (if r' ^ 3 <=? n then r' else r) n
  end.

(** The first 32 bits of the fractional parts of square and cube roots. *)
Definition H0 : list Z := (fun p => Z.sqrt (p * 2 ^ 64) mod 2 ^ 32) <$> take 8 (primes 20).
Definition K : list Z := (fun p => icbrt 36 0 (p * 2 ^ 96) mod 2 ^ 32) <$> primes 312.

Definition ROTR (n x : Z) : Z := x / 2 ^ n + (x mod 2 ^ n) * 2 ^ (32 - n).
Definition Ch (x y z : Z) : Z := Z.lxor (Z.land x y) (Z.ldiff z x).
Definition Maj (x y z : Z) : Z := Z.lxor (Z.lxor (Z.land x y) (Z.land x z)) (Z.land y z).
Definition Sigma0 (x : Z) : Z := Z.lxor (Z.lxor (ROTR 2 x) (ROTR 13 x)) (ROTR 22 x).
Definition Sigma1 (x : Z) : Z := Z.lxor (Z.lxor (ROTR 6 x) (ROTR 11 x)) (ROTR 25 x).
Definition sigma0 (x : Z) : Z := Z.lxor (Z.lxor (ROTR 7 x) (ROTR 18 x)) (x / 2 ^ 3).
Definition sigma1 (x : Z) : Z := Z.lxor (Z.lxor (ROTR 17 x) (ROTR 19 x)) (x / 2 ^ 10).

Fixpoint chunks (fuel n : nat) (l : list Z) : list (list Z) :=
  match fuel, l with
  | S k, _ :: _ => take n l :: chunks k n (drop n l)
  | _, _ => []
  end.

Definition be (bytes : list Z) : Z := foldl (fun v b => 256 * v + b) 0 bytes.
Definition to_be (n : nat) (x : Z) : list Z :=
  (fun i => x / 256 ^ Z.of_nat (n - 1 - i) mod 256) <$> seq 0 n.

(** The next word of the schedule, from the words so far. *)
Definition next_word (w : list Z) : Z :=
  let at_ k := nth (length w - k) w 0 in
  (sigma1 (at_ 2%nat) + at_ 7%nat + sigma0 (at_ 15%nat) + at_ 16%nat) mod 2 ^ 32.
Fixpoint expand (n : nat) (w : list Z) : list Z :=
  match n with O => w | S k => expand k (w ++ [next_word w]) end.
Definition W (block : list Z) : list Z := expand 48 (be <$> chunks 16 4 block).

Definition round (v : Work) (kw : Z * Z) : Work :=
  let '(mkWork a b c d e f g h) := v in
  let T1 := (h + Sigma1 e + Ch e f g + kw.1 + kw.2) mod 2 ^ 32 in
  let T2 := (Sigma0 a + Maj a b c) mod 2 ^ 32 in
  mkWork ((T1 + T2) mod 2 ^ 32) a b c ((d + T1) mod 2 ^ 32) e f g.

Definition to_work (H : list Z) : Work :=
  let s i := nth i H 0 in
  mkWork (s 0%nat) (s 1%nat) (s 2%nat) (s 3%nat) (s 4%nat) (s 5%nat) (s 6%nat) (s 7%nat).
Definition of_work (v : Work) : list Z := [va v; vb v; vc v; vd v; ve v; vf v; vg v; vh v].

Definition compress (H block : list Z) : list Z :=
  zip_with (fun x y => (x + y) mod 2 ^ 32) H
           (of_work (foldl round (to_work H) (zip K (W block)))).

(** Padding: a one bit, zeros up to 448 bits modulo 512, the length in bits. *)
Definition pad (msg : list Z) : list Z :=
  msg ++ [128] ++ replicate (Z.to_nat ((55 - vlen msg) mod 64)) 0 ++ to_be 8 (8 * vlen msg).

Definition hash_blocks (blocks : list (list Z)) : list Z := foldl compress H0 blocks.
Definition SHA256 (msg : list Z) : list Z :=
  hash_blocks (chunks (length (pad msg)) 64 (pad msg)) ≫= to_be 4.

End Fips.

(** ** Words *)

Lemma to_u32_mod x : to_u32 x = x mod 2 ^ 32.
Proof. done. Qed.

Lemma to_u32_ok x : u32_ok (to_u32 x).
Proof. apply wrap_u_range. lia. Qed.

Lemma wrap_u_land w x : 0 <= w -> wrap_u w x = Z.land x (Z.ones w).
Proof. intros. unfold wrap_u. by rewrite Z.land_ones. Qed.

Lemma to_u32_id x : u32_ok x -> to_u32 x = x.
Proof. intros. by apply wrap_u_id. Qed.

Lemma u32_land x : u32_ok x -> Z.land x (Z.ones 32) = x.
Proof. intros. rewrite <- wrap_u_land by lia. by apply wrap_u_id. Qed.

Lemma land_ones_ok x : Z.land x (Z.ones 32) = x -> u32_ok x.
Proof. intros <-. rewrite <- wrap_u_land by lia. apply to_u32_ok. Qed.

Lemma lxor_ok x y : u32_ok x -> u32_ok y -> u32_ok (Z.lxor x y).
Proof.
  intros Hx%u32_land Hy%u32_land. apply land_ones_ok. rewrite <- Hx, <- Hy at 2.
  apply Z.bits_inj'. intros i Hi. rewrite !Z.land_spec, !Z.lxor_spec, !Z.land_spec.
  by destruct (Z.testbit x i), (Z.testbit y i), (Z.testbit (Z.ones 32) i).
Qed.

Lemma land_ok x y : u32_ok x -> u32_ok (Z.land x y).
Proof.
  intros Hx%u32_land. apply land_ones_ok. rewrite <- Hx at 2.
  rewrite <- !Z.land_assoc. f_equal. apply Z.land_comm.
Qed.

Lemma shiftr_ok x n : 0 <= n -> u32_ok x -> u32_ok (Z.shiftr x n).
Proof.
  intros Hn [H1 H2]. rewrite Z.shiftr_div_pow2 by done. pose proof (Z.pow_pos_nonneg 2 n).
  split; [apply Z.div_pos; lia|]. apply Z.div_lt_upper_bound; nia.
Qed.

(** Disjoint bit fields are added. *)
Lemma lor_shiftl_add x y n : 0 <= n -> 0 <= y < 2 ^ n -> Z.lor (Z.shiftl x n) y = x * 2 ^ n + y.
Proof.
  intros Hn Hy. rewrite <- Z.shiftl_mul_pow2 by done. symmetry.
  rewrite Z.add_nocarry_lxor.
  - apply Z.lxor_lor. apply Z.bits_inj'. intros i Hi. rewrite Z.land_spec, Z.bits_0.
    destruct (decide (i < n)); [by rewrite Z.shiftl_spec_low|].
    replace y with (y mod 2 ^ n) by (apply Z.mod_small; lia).
    rewrite Z.mod_pow2_bits_high by lia. apply andb_false_r.
  - apply Z.bits_inj'. intros i Hi. rewrite Z.land_spec, Z.bits_0.
    destruct (decide (i < n)); [by rewrite Z.shiftl_spec_low|].
    replace y with (y mod 2 ^ n) by (apply Z.mod_small; lia).
    rewrite Z.mod_pow2_bits_high by lia. apply andb_false_r.
Qed.

(** The rotation of the code is the rotation of a 32-bit word. *)
Lemma rotr_ROTR x n : 0 < n < 32 -> u32_ok x -> rotr x n = Fips.ROTR n x.
Proof.
  intros Hn Hx. unfold rotr, Fips.ROTR. rewrite Z.lor_comm, to_u32_mod.
  replace (Z.shiftl x (32 - n) mod 2 ^ 32) with (Z.shiftl (x mod 2 ^ n) (32 - n)).
  - rewrite lor_shiftl_add; [|lia|].
    + rewrite Z.shiftr_div_pow2 by lia. lia.
    + rewrite Z.shiftr_div_pow2 by lia. destruct Hx as [Hx0 Hx1].
      split; [apply Z.div_pos; lia|]. apply Z.div_lt_upper_bound; [lia|].
      rewrite <- Z.pow_add_r by lia. by replace (n + (32 - n)) with 32 by lia.
  - rewrite !Z.shiftl_mul_pow2 by lia. replace (2 ^ 32) with (2 ^ n * 2 ^ (32 - n)).
    + rewrite Z.mul_mod_distr_r; [done|..]; apply Z.pow_nonzero; lia.
    + rewrite <- Z.pow_add_r by lia. f_equal. lia.
Qed.

Lemma ROTR_ok x n : 0 < n < 32 -> u32_ok x -> u32_ok (Fips.ROTR n x).
Proof.
  intros Hn [H1 H2]. unfold Fips.ROTR.
  assert (2 ^ 32 = 2 ^ n * 2 ^ (32 - n)) as E by (rewrite <- Z.pow_add_r by lia; f_equal; lia).
  pose proof (Z.mod_pos_bound x (2 ^ n) ltac:(lia)).
  assert (0 <= x / 2 ^ n < 2 ^ (32 - n)).
  { split; [apply Z.div_pos; lia|]. apply Z.div_lt_upper_bound; lia. }
  split; [nia|]. rewrite E. nia.
Qed.

Lemma land_ff x : Z.land x 0xff = x mod 256.
Proof. change 0xff with (Z.ones 8). by rewrite Z.land_ones. Qed.

Lemma ch_Ch e f g : u32_ok g ->
  Z.lxor (Z.land e f) (Z.land (to_u32 (Z.lnot e)) g) = Fips.Ch e f g.
Proof.
  intros Hg%u32_land. unfold Fips.Ch. f_equal. unfold to_u32. rewrite wrap_u_land by lia.
  rewrite <- Z.land_assoc, (Z.land_comm _ g), Hg, Z.ldiff_land. apply Z.land_comm.
Qed.

#[local] Hint Resolve to_u32_ok lxor_ok land_ok ROTR_ok : u32.

(** ** The message schedule *)

Lemma nth_ok {P : Z -> Prop} l i : P 0 -> Forall P l -> P (nth i l 0).
Proof.
  intros H0 Hl. destruct (nth_in_or_default i l 0) as [Hin| ->]; [|done].
  rewrite Forall_forall in Hl. apply Hl. by apply list_elem_of_In.
Qed.

Lemma u8_ok_0 : u8_ok 0.
Proof. unfold u8_ok. lia. Qed.
Lemma u32_ok_0 : u32_ok 0.
Proof. unfold u32_ok. lia. Qed.

Lemma to_u32_byte b n : u8_ok b -> 0 <= n <= 24 -> to_u32 (Z.shiftl b n) = b * 2 ^ n.
Proof.
  intros [H1 H2] Hn. rewrite Z.shiftl_mul_pow2 by lia. apply to_u32_id. split; [lia|].
  assert (2 ^ n <= 2 ^ 24) by (apply Z.pow_le_mono_r; lia). nia.
Qed.

(** Shifting four bytes together reads a big-endian word. *)
Lemma shift_or_be a b c d : u8_ok a -> u8_ok b -> u8_ok c -> u8_ok d ->
  Z.lor (Z.lor (Z.lor (to_u32 (Z.shiftl a 24)) (to_u32 (Z.shiftl b 16)))
               (to_u32 (Z.shiftl c 8))) d = Fips.be [a; b; c; d].
Proof.
  intros Ha Hb Hc Hd. rewrite !to_u32_byte by (done || lia). unfold u8_ok in *.
  rewrite <- (Z.shiftl_mul_pow2 a), lor_shiftl_add by lia.
  replace (a * 2 ^ 24 + b * 2 ^ 16) with ((a * 2 ^ 8 + b) * 2 ^ 16) by lia.
  rewrite <- (Z.shiftl_mul_pow2 (a * 2 ^ 8 + b)), lor_shiftl_add by lia.
  replace ((a * 2 ^ 8 + b) * 2 ^ 16 + c * 2 ^ 8) with (((a * 2 ^ 8 + b) * 2 ^ 8 + c) * 2 ^ 8) by lia.
  rewrite <- (Z.shiftl_mul_pow2 (_ + c)), lor_shiftl_add by lia.
  unfold Fips.be. simpl foldl. lia.
Qed.

Lemma chunks_nil fuel n : Fips.chunks fuel n [] = [].
Proof. by destruct fuel. Qed.

Lemma chunks_length fuel n l q : (0 < n)%nat -> length l = (q * n)%nat -> (q <= fuel)%nat ->
  length (Fips.chunks fuel n l) = q.
Proof.
  revert fuel l. induction q as [|q IH]; intros fuel l Hn Hl Hq.
  - destruct l; [by rewrite chunks_nil|done].
  - destruct fuel as [|k]; [lia|]. destruct l as [|x l]; [simpl in Hl; lia|].
    cbn [Fips.chunks length]. rewrite IH; [done|lia| |lia]. rewrite length_drop. lia.
Qed.

Lemma chunks_nth fuel n l q i : (0 < n)%nat -> length l = (q * n)%nat -> (q <= fuel)%nat ->
  (i < q)%nat -> nth i (Fips.chunks fuel n l) [] = take n (drop (i * n) l).
Proof.
  revert fuel l i. induction q as [|q IH]; intros fuel l i Hn Hl Hq Hi; [lia|].
  destruct fuel as [|k]; [lia|]. destruct l as [|x l]; [simpl in Hl; lia|].
  cbn [Fips.chunks]. destruct i as [|i]; [done|]. cbn [nth].
  rewrite IH by (rewrite ?length_drop; lia). by rewrite drop_drop.
Qed.

Lemma take4_drop l i : (i + 4 <= length l)%nat ->
  take 4 (drop i l) = [nth i l 0; nth (i + 1) l 0; nth (i + 2) l 0; nth (i + 3) l 0].
Proof.
  revert l. induction i as [|i IH]; intros l Hl.
  - destruct l as [|? [|? [|? [|? ?]]]]; simpl in Hl; try lia. done.
  - destruct l as [|x l]; simpl in Hl; [lia|]. simpl drop. rewrite IH by lia. done.
Qed.

(** Writing one entry after the other builds the list. *)
Lemma insert_next {A} (w : list A) x y rest : <[length w := x]> (w ++ y :: rest) = (w ++ [x]) ++ rest.
Proof.
  rewrite insert_app_r_alt, Nat.sub_diag by lia. simpl. by rewrite <- app_assoc.
Qed.

Lemma load_words_spec block : length block = 64%nat -> Forall u8_ok block ->
  load_words block = (Fips.be <$> Fips.chunks 16 4 block) ++ replicate 48 0.
Proof.
  intros Hl Hb.
  assert (Fips.be <$> Fips.chunks 16 4 block = block_word block <$> seq 0 16) as ->; [|done].
  apply nth_ext with (d := Fips.be []) (d' := block_word block 0%nat);
    rewrite !length_fmap, chunks_length with (q := 16%nat) by (rewrite ?Hl; lia).
  { by rewrite length_seq. }
  intros i Hi. change (Fips.be <$> ?l) with (map Fips.be l).
  change (block_word block <$> ?l) with (map (block_word block) l).
  rewrite (map_nth Fips.be), (map_nth (block_word block)), seq_nth by lia.
  rewrite chunks_nth with (q := 16%nat), take4_drop by (rewrite ?Hl; lia).
  unfold block_word. simpl. rewrite shift_or_be; [done|..]; by apply nth_ok; [apply u8_ok_0|].
Qed.

Lemma sigma0_ok x : u32_ok x ->
  Z.lxor (Z.lxor (rotr x 7) (rotr x 18)) (Z.shiftr x 3) = Fips.sigma0 x.
Proof.
  intros. unfold Fips.sigma0. by rewrite !rotr_ROTR, Z.shiftr_div_pow2 by (done || lia).
Qed.

Lemma sigma1_ok x : u32_ok x ->
  Z.lxor (Z.lxor (rotr x 17) (rotr x 19)) (Z.shiftr x 10) = Fips.sigma1 x.
Proof.
  intros. unfold Fips.sigma1. by rewrite !rotr_ROTR, Z.shiftr_div_pow2 by (done || lia).
Qed.

Lemma schedule_word_next w rest : (16 <= length w)%nat -> Forall u32_ok w ->
  schedule_word (w ++ rest) (length w) = Fips.next_word w.
Proof.
  intros Hn Hw. unfold schedule_word, Fips.next_word.
  rewrite !app_nth1 by lia. rewrite sigma0_ok, sigma1_ok by (apply nth_ok; [apply u32_ok_0|done]).
  rewrite to_u32_mod. f_equal. lia.
Qed.

Lemma next_word_ok w : u32_ok (Fips.next_word w).
Proof. apply to_u32_ok. Qed.

Lemma extend_loop k w : (16 <= length w)%nat -> Forall u32_ok w ->
  foldl (fun words i => <[i := schedule_word words i]> words) (w ++ replicate k 0)
        (seq (length w) k) = Fips.expand k w.
Proof.
  revert w. induction k as [|k IH]; intros w Hn Hw; simpl; [by rewrite app_nil_r|].
  rewrite schedule_word_next, insert_next by done.
  replace (S (length w)) with (length (w ++ [Fips.next_word w])) by (rewrite length_app; simpl; lia).
  apply IH; [rewrite length_app; lia|]. apply Forall_app; split; [done|].
  apply Forall_singleton, next_word_ok.
Qed.

Lemma expand_length k w : length (Fips.expand k w) = (length w + k)%nat.
Proof.
  revert w. induction k as [|k IH]; intros w; simpl; [lia|].
  rewrite IH, length_app. simpl. lia.
Qed.

Lemma be_ok a b c d : u8_ok a -> u8_ok b -> u8_ok c -> u8_ok d -> u32_ok (Fips.be [a; b; c; d]).
Proof. unfold u8_ok, u32_ok, Fips.be. simpl foldl. lia. Qed.

Lemma block_words_ok block : length block = 64%nat -> Forall u8_ok block ->
  Forall u32_ok (Fips.be <$> Fips.chunks 16 4 block).
Proof.
  intros Hl Hb. apply Forall_fmap, List.Forall_nth. intros i d.
  rewrite chunks_length with (q := 16%nat) by (rewrite ?Hl; lia). intros Hi. unfold compose.
  rewrite (nth_indep _ _ []) by (by rewrite chunks_length with (q := 16%nat) by (rewrite ?Hl; lia)).
  rewrite chunks_nth with (q := 16%nat), take4_drop by (rewrite ?Hl; lia).
  apply be_ok; (apply nth_ok; [apply u8_ok_0|done]).
Qed.

Lemma block_words_length block : length block = 64%nat ->
  length (Fips.be <$> Fips.chunks 16 4 block) = 16%nat.
Proof. intros Hl. by rewrite length_fmap, chunks_length with (q := 16%nat) by (rewrite ?Hl; lia). Qed.

(** The array of the code holds the message schedule of the block. *)
Lemma words_spec block : length block = 64%nat -> Forall u8_ok block ->
  extend_words (load_words block) = Fips.W block /\ length (Fips.W block) = 64%nat.
Proof.
  intros Hl Hb. unfold Fips.W. rewrite expand_length, block_words_length by done. split; [|done].
  rewrite load_words_spec by done. unfold extend_words.
  rewrite <- extend_loop by (by rewrite ?block_words_length || by apply block_words_ok).
  by rewrite block_words_length.
Qed.

(** ** Rounds *)

Definition work_ok (v : Work) : Prop :=
  u32_ok (va v) /\ u32_ok (ve v) /\ u32_ok (vf v) /\ u32_ok (vg v).

(** The tables of the code are the roots of the primes that FIPS 180-4 names. *)
Lemma constants_spec : kSha256Constants = Fips.K.
Proof. vm_compute. reflexivity. Qed.
Lemma init_spec c : state (sha256_init c) = Fips.H0.
Proof. vm_compute. reflexivity. Qed.
Lemma K_length : length Fips.K = 64%nat.
Proof. vm_compute. reflexivity. Qed.
#[local] Opaque Fips.K Fips.H0.

Lemma round_spec words v i : work_ok v ->
  sha256_round words v i = Fips.round v (nth i Fips.K 0, nth i words 0).
Proof.
  destruct v as [a b c d e f g h]. intros (Ha & He & Hf & Hg). cbn [va ve vf vg] in *.
  unfold sha256_round, Fips.round. rewrite constants_spec, !rotr_ROTR, ch_Ch by (done || lia).
  unfold Fips.Sigma1, Fips.Sigma0, Fips.Maj. by rewrite !to_u32_mod.
Qed.

Lemma round_ok v kw : work_ok v -> work_ok (Fips.round v kw).
Proof.
  destruct v as [a b c d e f g h]. intros (Ha & He & Hf & Hg).
  split_and!; [apply to_u32_ok..|done|done].
Qed.

Lemma rounds_loop l v words ks : work_ok v ->
  (forall i, i ∈ l -> (i < length ks)%nat /\ (i < length words)%nat) -> ks = Fips.K ->
  foldl (sha256_round words) v l =
  foldl Fips.round v ((fun i => (nth i ks 0, nth i words 0)) <$> l).
Proof.
  revert v. induction l as [|i l IH]; intros v Hv Hl ->; simpl; [done|].
  rewrite round_spec by done. apply IH; [by apply round_ok| |done]. intros j Hj. apply Hl. set_solver.
Qed.

Lemma zip_as_seq (a b : list Z) n : length a = n -> length b = n ->
  (fun i => (nth i a 0, nth i b 0)) <$> seq 0 n = zip a b.
Proof.
  revert b n. induction a as [|x a IH]; intros [|y b] [|n] Ha Hb; try (done || simpl in *; lia).
  cbn [seq]. rewrite fmap_cons, <- fmap_S_seq, <- list_fmap_compose.
  cbn [zip_with nth]. f_equal. apply IH; simpl in *; lia.
Qed.

Lemma rounds_spec words v : length words = 64%nat -> work_ok v ->
  foldl (sha256_round words) v (seq 0 64) = foldl Fips.round v (zip Fips.K words).
Proof.
  intros Hw Hv. pose proof K_length as HK.
  rewrite (rounds_loop _ _ _ Fips.K); [by rewrite zip_as_seq|done| |done].
  intros i Hi%elem_of_seq. lia.
Qed.

(** A chaining value: eight 32-bit words. *)
Definition chain_ok (s : list Z) : Prop := length s = 8%nat /\ Forall u32_ok s.

Lemma transform_state c block : chain_ok (state c) -> length block = 64%nat ->
  Forall u8_ok block -> state (sha256_transform c block) = Fips.compress (state c) block.
Proof.
  intros [Hs Hu] Hl Hb. destruct (words_spec block Hl Hb) as [HW HWl].
  unfold sha256_transform, Fips.compress. cbn [state]. rewrite HW, rounds_spec; [|done|].
  - change (mkWork (nth 0 (state c) 0) (nth 1 (state c) 0) (nth 2 (state c) 0) (nth 3 (state c) 0)
      (nth 4 (state c) 0) (nth 5 (state c) 0) (nth 6 (state c) 0) (nth 7 (state c) 0))
      with (Fips.to_work (state c)).
    generalize (foldl Fips.round (Fips.to_work (state c)) (zip Fips.K (Fips.W block))). intros v.
    destruct (state c) as [|? [|? [|? [|? [|? [|? [|? [|? [|]]]]]]]]]; try discriminate Hs. done.
  - unfold work_ok. cbn [va ve vf vg].
    split_and!; (apply (nth_ok (P := u32_ok)); [apply u32_ok_0|exact Hu]).
Qed.

Lemma compress_ok s block : chain_ok s -> chain_ok (Fips.compress s block).
Proof.
  intros [Hs Hu]. unfold Fips.compress. split.
  - rewrite length_zip_with, Hs. done.
  - apply Forall_lookup_2. intros i x (a & b & -> & _)%lookup_zip_with_Some. apply to_u32_ok.
Qed.

(** ** The streaming context *)

(** The context has chaining value [s], bit counter [bits] and buffered bytes [rest]. *)
Definition holds (c : Sha256Context) (s : list Z) (bits : Z) (rest : list Z) : Prop :=
  state c = s /\ bit_count c = bits /\ length (buffer c) = 64%nat /\
  buffer_size c = length rest /\ take (length rest) (buffer c) = rest.

Lemma push_holds c s bits rest x : holds c s bits rest -> (length rest < 64)%nat ->
  holds (push_byte c x) s bits (rest ++ [x]).
Proof.
  intros (Hs & Hb & Hl & Hn & Ht) Hlt. unfold push_byte. split_and!; cbn [state bit_count buffer buffer_size].
  - done.
  - done.
  - by rewrite length_insert.
  - rewrite Hn, length_app. simpl. lia.
  - rewrite length_app, Nat.add_1_r, Hn.
    rewrite take_S_r with (x := x) by (apply list_lookup_insert_eq; lia).
    by rewrite take_insert_ge, Ht by lia.
Qed.

Lemma set_bits_holds c s b rest b' : holds c s b rest -> holds (set_bit_count c b') s b' rest.
Proof. intros (?&?&?&?&?). by split_and!. Qed.

Lemma reset_holds c s b rest : holds c s b rest -> holds (reset_buffer c) s b [].
Proof. intros (?&?&?&?&?). by split_and!. Qed.

Lemma full_buffer c s b rest : holds c s b rest -> length rest = 64%nat -> buffer c = rest.
Proof. intros (_&_&Hl&_&Ht) Hr. rewrite <- Ht, Hr, <- Hl. symmetry. apply firstn_all. Qed.

Lemma transform_holds c s b rest : holds c s b rest -> length rest = 64%nat ->
  chain_ok s -> Forall u8_ok rest ->
  holds (sha256_transform c (buffer c)) (Fips.compress s rest) b rest.
Proof.
  intros Hh Hr Hs Hu. rewrite (full_buffer _ _ _ _ Hh Hr). destruct Hh as (<-&?&?&?&?).
  split_and!; [by apply transform_state|done..].
Qed.

Lemma zero_fill_holds fuel limit c s b rest : holds c s b rest -> (limit <= 64)%nat ->
  (limit - length rest <= fuel)%nat ->
  holds (zero_fill fuel limit c) s b (rest ++ replicate (limit - length rest) 0).
Proof.
  revert c rest. induction fuel as [|k IH]; intros c rest Hh Hlim Hf; simpl.
  - replace (limit - length rest)%nat with 0%nat by lia. by rewrite app_nil_r.
  - pose proof Hh as (_&_&_&Hn&_). destruct (Nat.ltb_spec (buffer_size c) limit).
    + replace (limit - length rest)%nat with (S (limit - length (rest ++ [0])))
        by (rewrite length_app; simpl; lia).
      replace (rest ++ replicate (S (limit - length (rest ++ [0]))) 0)
        with ((rest ++ [0]) ++ replicate (limit - length (rest ++ [0])) 0)
        by (by rewrite <- app_assoc).
      apply IH; [apply push_holds; [done|lia]|done|rewrite length_app; simpl; lia].
    + replace (limit - length rest)%nat with 0%nat by lia. by rewrite app_nil_r.
Qed.

Lemma push_list_holds (f : Z -> nat -> Z) l c s b rest : holds c s b rest ->
  (length rest + length l <= 64)%nat ->
  holds (foldl (fun c i => push_byte c (f (bit_count c) i)) c l) s b (rest ++ (f b <$> l)).
Proof.
  revert c rest. induction l as [|i l IH]; intros c rest Hh Hl; [by rewrite app_nil_r|].
  cbn [foldl length] in *. rewrite fmap_cons, (cons_middle (f b i)), app_assoc.
  assert (bit_count c = b) as -> by apply Hh.
  apply IH; [apply push_holds; [done|lia]|]. rewrite length_app. simpl. lia.
Qed.

(** The context after the bytes [msg] went in: complete blocks [bs] are hashed,
    the others wait in the buffer. *)
Definition absorbed (c : Sha256Context) (msg : list Z) : Prop :=
  exists bs rest, msg = concat bs ++ rest /\ Forall (fun b => length b = 64%nat) bs /\
    (length rest < 64)%nat /\ holds c (Fips.hash_blocks bs) (to_u64 (512 * vlen bs)) rest.

Lemma H0_ok : chain_ok Fips.H0.
Proof.
  rewrite <- (init_spec empty_context). split; [done|].
  rewrite Forall_forall. intros x Hx. unfold u32_ok. unfold sha256_init in Hx. cbn [state] in Hx.
  rewrite !list_elem_of_In in Hx. simpl in Hx. lia.
Qed.

Lemma hash_blocks_ok bs : chain_ok (Fips.hash_blocks bs).
Proof.
  unfold Fips.hash_blocks. generalize H0_ok. generalize Fips.H0.
  induction bs as [|b bs IH]; intros s Hs; simpl; [done|]. by apply IH, compress_ok.
Qed.

Lemma init_absorbed c : length (buffer c) = 64%nat -> absorbed (sha256_init c) [].
Proof. intros Hl. exists [], []. split_and!; [done..|simpl; lia|]. split_and!; [apply init_spec|done..]. Qed.

Lemma to_u64_add a b : to_u64 (to_u64 a + b) = to_u64 (a + b).
Proof. unfold to_u64, wrap_u. by rewrite Zplus_mod_idemp_l. Qed.

Lemma update_byte_absorbed c msg x : absorbed c msg -> Forall u8_ok (msg ++ [x]) ->
  absorbed (update_byte c x) (msg ++ [x]).
Proof.
  intros (bs & rest & -> & Hbs & Hlt & Hh) Hu. rewrite <- app_assoc in Hu.
  apply Forall_app in Hu as [_ Hu].
  pose proof (push_holds _ _ _ _ x Hh Hlt) as Hp. unfold update_byte. cbv zeta.
  assert (buffer_size (push_byte c x) = length (rest ++ [x])) as Hn by apply Hp.
  rewrite length_app in Hn. cbn [length] in Hn.
  destruct (Nat.eqb_spec (buffer_size (push_byte c x)) 64) as [E|E].
  - exists (bs ++ [rest ++ [x]]), [].
    assert (length (rest ++ [x]) = 64%nat) as Hfull by (rewrite length_app; simpl; lia).
    split_and!; [by rewrite concat_app, app_nil_r; simpl; rewrite app_nil_r, app_assoc| |simpl; lia|].
    { apply Forall_app; split; [done|]. by apply Forall_singleton. }
    eapply reset_holds. unfold Fips.hash_blocks. rewrite foldl_app. simpl foldl.
    pose proof (transform_holds _ _ _ _ Hp Hfull (hash_blocks_ok bs) Hu) as Ht.
    assert (bit_count (sha256_transform (push_byte c x) (buffer (push_byte c x))) = _) as ->
      by apply Ht.
    rewrite to_u64_add, vlen_snoc, Z.mul_add_distr_l. eapply set_bits_holds, Ht.
  - exists bs, (rest ++ [x]). rewrite app_assoc.
    split_and!; [done..|rewrite length_app; simpl; lia|done].
Qed.

Lemma update_absorbed data c msg : absorbed c msg -> Forall u8_ok (msg ++ data) ->
  absorbed (sha256_update c data) (msg ++ data).
Proof.
  revert c msg. induction data as [|x data IH]; intros c msg Hc Hu; simpl.
  - by rewrite app_nil_r.
  - replace (msg ++ x :: data) with ((msg ++ [x]) ++ data) in Hu |- * by (by rewrite <- app_assoc).
    apply IH; [|done]. apply update_byte_absorbed; [done|]. by apply Forall_app in Hu as [? _].
Qed.

(** ** Padding and digest *)

Lemma length_byte_spec x i : (i <= 7)%nat ->
  length_byte (to_u64 x) i = x / 256 ^ Z.of_nat i mod 256.
Proof.
  intros Hi. unfold length_byte, to_u64, wrap_u. rewrite land_ff.
  replace (256 ^ Z.of_nat i) with (2 ^ (Z.of_nat i * 8))
    by (change 256 with (2 ^ 8); rewrite <- Z.pow_mul_r by lia; f_equal; lia).
  rewrite <- Z.shiftr_div_pow2 by lia. change 256 with (2 ^ 8).
  apply Z.bits_inj'. intros k Hk. destruct (decide (k < 8)).
  - rewrite !Z.mod_pow2_bits_low, !Z.shiftr_spec, Z.mod_pow2_bits_low by lia. done.
  - by rewrite !Z.mod_pow2_bits_high by lia.
Qed.

Lemma length_field x : length_byte (to_u64 x) <$> [7; 6; 5; 4; 3; 2; 1; 0]%nat = Fips.to_be 8 x.
Proof.
  unfold Fips.to_be. cbn [fmap list_fmap seq]. by rewrite !length_byte_spec by lia.
Qed.

Lemma word_bytes_spec w : word_bytes w = Fips.to_be 4 w.
Proof.
  unfold word_bytes, Fips.to_be. cbn [fmap list_fmap seq Nat.sub]. rewrite !land_ff.
  rewrite !Z.shiftr_div_pow2 by lia. change (256 ^ Z.of_nat 0) with 1. by rewrite Z.div_1_r.
Qed.

Lemma digest_spec s : length s = 8%nat ->
  flat_map (fun i => word_bytes (nth i s 0)) (seq 0 8) = s ≫= Fips.to_be 4.
Proof.
  intros Hs. destruct s as [|? [|? [|? [|? [|? [|? [|? [|? [|]]]]]]]]]; try discriminate Hs.
  cbn [seq flat_map nth mbind list_bind]. by rewrite !word_bytes_spec.
Qed.

Lemma chunks_concat bs fuel : Forall (fun b => length b = 64%nat) bs -> (length bs <= fuel)%nat ->
  Fips.chunks fuel 64 (concat bs) = bs.
Proof.
  intros Hb. revert fuel. induction Hb as [|b bs Hb _ IH]; intros fuel Hf; [apply chunks_nil|].
  simpl in Hf. destruct fuel as [|k]; [lia|]. simpl concat.
  destruct (b ++ concat bs) as [|x l] eqn:E.
  { apply app_eq_nil in E as [-> _]. discriminate Hb. }
  cbn [Fips.chunks]. rewrite <- E, <- Hb, take_app_length, drop_app_length, Hb, IH by lia. done.
Qed.

Lemma concat_length_64 (bs : list (list Z)) : Forall (fun b => length b = 64%nat) bs ->
  length (concat bs) = (64 * length bs)%nat.
Proof. induction 1 as [|b bs Hb _ IH]; [done|]. simpl. rewrite length_app, Hb, IH. lia. Qed.

(** The blocks of a padded message: the complete ones, and one or two made of the rest. *)
Definition tail_blocks (rest len_bytes : list Z) : list (list Z) :=
  let n := length rest in
  if Nat.ltb 56 (S n) then
    [rest ++ [128] ++ replicate (63 - n) 0; replicate 56 0 ++ len_bytes]
  else [rest ++ [128] ++ replicate (55 - n) 0 ++ len_bytes].

Lemma tail_blocks_64 rest f : (length rest < 64)%nat -> length f = 8%nat ->
  Forall (fun b => length b = 64%nat) (tail_blocks rest f).
Proof.
  intros Hr Hf. unfold tail_blocks.
  destruct (Nat.ltb_spec 56 (S (length rest)));
    repeat apply Forall_cons_2; try done;
    rewrite !length_app, ?length_replicate, ?Hf; simpl; rewrite ?length_app, ?length_replicate, ?Hf; lia.
Qed.

Lemma pad_blocks bs rest : Forall (fun b => length b = 64%nat) bs -> (length rest < 64)%nat ->
  Fips.pad (concat bs ++ rest) =
  concat (bs ++ tail_blocks rest (Fips.to_be 8 (8 * vlen (concat bs ++ rest)))).
Proof.
  intros Hb Hr. unfold Fips.pad. generalize (Fips.to_be 8 (8 * vlen (concat bs ++ rest))). intros f.
  assert (Z.to_nat ((55 - vlen (concat bs ++ rest)) mod 64) =
          if Nat.ltb 56 (S (length rest)) then (63 - length rest + 56)%nat
          else (55 - length rest)%nat) as ->.
  { unfold vlen. rewrite length_app, concat_length_64 by done.
    destruct (Nat.ltb_spec 56 (S (length rest))).
    - rewrite <- (Z.mod_unique_pos _ 64 (- Z.of_nat (length bs) - 1) (119 - Z.of_nat (length rest)));
        lia.
    - rewrite <- (Z.mod_unique_pos _ 64 (- Z.of_nat (length bs)) (55 - Z.of_nat (length rest))); lia. }
  rewrite concat_app, <- app_assoc. f_equal. unfold tail_blocks.
  destruct (Nat.ltb 56 (S (length rest))); cbn [concat]; rewrite app_nil_r.
  - rewrite replicate_add, <- !app_assoc. done.
  - done.
Qed.

Lemma SHA256_blocks bs rest : Forall (fun b => length b = 64%nat) bs -> (length rest < 64)%nat ->
  Fips.SHA256 (concat bs ++ rest) =
  Fips.hash_blocks (bs ++ tail_blocks rest (Fips.to_be 8 (8 * vlen (concat bs ++ rest)))) ≫= Fips.to_be 4.
Proof.
  intros Hb Hr. unfold Fips.SHA256. rewrite pad_blocks by done. do 2 f_equal.
  assert (forall x, Forall (fun b => length b = 64%nat) (bs ++ tail_blocks rest (Fips.to_be 8 x))) as Ha.
  { intros x. apply Forall_app. split; [done|]. by apply tail_blocks_64. }
  apply chunks_concat; [apply Ha|]. rewrite concat_length_64 by apply Ha. lia.
Qed.

Lemma to_be_ok n x : Forall u8_ok (Fips.to_be n x).
Proof. apply Forall_fmap, Forall_true. intros i. apply Z.mod_pos_bound. lia. Qed.

Lemma replicate_u8 n : Forall u8_ok (replicate n 0).
Proof. apply Forall_replicate, u8_ok_0. Qed.

Lemma u8_ok_80 : Forall u8_ok [128].
Proof. apply Forall_singleton. unfold u8_ok. lia. Qed.

#[local] Hint Resolve to_be_ok replicate_u8 u8_ok_80 hash_blocks_ok compress_ok : u32.

(** The last step of [sha256_final]: zeros and the length complete the last block. *)
Lemma finish_spec c s x rest : holds c s (to_u64 x) rest -> (length rest <= 56)%nat ->
  Forall u8_ok rest -> chain_ok s ->
  let c := zero_fill 64 56 c in
  let c := push_length c in
  state (sha256_transform c (buffer c)) =
  Fips.compress s (rest ++ replicate (56 - length rest) 0 ++ Fips.to_be 8 x).
Proof.
  intros Hh Hl Hu Hs. apply (zero_fill_holds 64 56) in Hh; [|lia..].
  eapply (push_list_holds length_byte [7; 6; 5; 4; 3; 2; 1; 0]%nat) in Hh.
  2: { rewrite length_app, length_replicate. simpl. lia. }
  rewrite length_field, <- app_assoc in Hh.
  eapply transform_holds in Hh as (Ht & _); [exact Ht| |done|].
  - rewrite !length_app, length_replicate. simpl. lia.
  - repeat (apply Forall_app; split); auto with u32.
Qed.

Lemma final_spec c msg : absorbed c msg -> Forall u8_ok msg -> sha256_final c = Fips.SHA256 msg.
Proof.
  intros (bs & rest & -> & Hbs & Hlt & Hh) Hu. rewrite SHA256_blocks by done.
  apply Forall_app in Hu as [_ Hu]. unfold sha256_final. cbv zeta.
  set (c1 := set_bit_count c _). set (x := 8 * vlen (concat bs ++ rest)).
  assert (holds c1 (Fips.hash_blocks bs) (to_u64 x) rest) as H1.
  { subst c1. pose proof Hh as (_ & -> & _ & -> & _). rewrite to_u64_add.
    replace (512 * vlen bs + Z.of_nat (length rest) * 8) with x; [by eapply set_bits_holds|].
    subst x. unfold vlen. rewrite length_app, concat_length_64 by done. lia. }
  clearbody c1 x. apply push_holds with (x := 0x80) in H1; [|done].
  pose proof (proj1 (proj2 (proj2 (proj2 H1)))) as Hn. rewrite length_app in Hn. cbn [length] in Hn.
  assert (Forall u8_ok (rest ++ [128])) as Hu1 by (apply Forall_app; auto with u32).
  unfold tail_blocks. rewrite Nat.add_1_r in Hn. rewrite <- Hn.
  unfold Fips.hash_blocks. rewrite foldl_app. fold (Fips.hash_blocks bs).
  destruct (Nat.ltb_spec 56 (buffer_size (push_byte c1 128))); cbn [foldl].
  - apply (zero_fill_holds 64 64) in H1; [|lia..].
    rewrite length_app, <- app_assoc in H1. cbn [length] in H1.
    replace (64 - (length rest + 1))%nat with (63 - length rest)%nat in H1 by lia.
    eapply transform_holds in H1; [|by rewrite !length_app, length_replicate; simpl; lia|auto with u32|].
    2: { rewrite app_assoc. apply Forall_app. auto with u32. }
    apply reset_holds, finish_spec in H1; [|simpl; lia|done|auto with u32].
    rewrite digest_spec; cbv zeta in H1; rewrite H1; [done|].
    apply compress_ok, compress_ok, hash_blocks_ok.
  - apply finish_spec in H1; [|rewrite length_app; simpl; lia|done|auto with u32].
    cbv zeta in H1. rewrite digest_spec; rewrite H1; [|apply compress_ok, hash_blocks_ok].
    rewrite length_app. cbn [length]. rewrite <- app_assoc.
    by replace (56 - (length rest + 1))%nat with (55 - length rest)%nat by lia.
Qed.

(** The streaming hash is the hash of the standard, on every message. *)
Lemma sha256_is_fips data : Forall u8_ok data -> sha256 data = Fips.SHA256 data.
Proof.
  intros Hu. apply final_spec; [|done]. apply (update_absorbed data _ []); [|done].
  by apply init_absorbed.
Qed.

Lemma SHA256_ok msg : length (Fips.SHA256 msg) = 32%nat /\ Forall u8_ok (Fips.SHA256 msg).
Proof.
  unfold Fips.SHA256. destruct (hash_blocks_ok (Fips.chunks (length (Fips.pad msg)) 64 (Fips.pad msg))) as [Hl _].
  split.
  - revert Hl. generalize (Fips.hash_blocks (Fips.chunks (length (Fips.pad msg)) 64 (Fips.pad msg))).
    intros s Hl. destruct s as [|? [|? [|? [|? [|? [|? [|? [|? [|]]]]]]]]]; try discriminate Hl. done.
  - apply Forall_bind, Forall_true. intros. apply to_be_ok.
Qed.
