(* ===== verification/PasswordHash.v ===== *)
(** * Password hashes ([server/password_hasher.cpp])

    HMAC and PBKDF2 over the SHA-256 of [Sha256.v], the hexadecimal codec, the
    comparison of digests and the two entry points of [PasswordHasher].  The
    reference is [Module Rfc]: HMAC of RFC 2104 and PBKDF2 of RFC 8018 over the
    SHA-256 of FIPS 180-4.  The salt, which the code draws from
    [std::random_device], is an argument of [hash_password]. *)

From S2P Require Import Prelude CppString Sha256.
From Stdlib Require Import Ascii String.
Open Scope string_scope.
Open Scope list_scope.
Open Scope Z_scope.

(** ** HMAC *)

Definition kSaltBytes : nat := 16.
Definition kHashBytes : nat := 32.

Definition key_block (key : list Z) : list Z :=
  if Nat.ltb 64 (List.length key) then copy_into (replicate 64 0) 0 (take 32 (sha256 key))
  else copy_into (replicate 64 0) 0 key.

Definition hmac_sha256 (key data : list Z) : list Z :=
  let block := key_block key in
  let inner_pad := (fun b => to_u8 (Z.lxor b 0x36)) <$> block in
  let outer_pad := (fun b => to_u8 (Z.lxor b 0x5c)) <$> block in
  let inner_context := sha256_init empty_context in
  let inner_context := sha256_update inner_context inner_pad in
  let inner_context := sha256_update inner_context data in
  let inner_digest := sha256_final inner_context in
  let outer_context := sha256_init empty_context in
  let outer_context := sha256_update outer_context outer_pad in
  let outer_context := sha256_update outer_context inner_digest in
  sha256_final outer_context.

(** ** PBKDF2 *)

Definition block_index (block : Z) : list Z :=
  [Z.land (Z.shiftr block 24) 0xff; Z.land (Z.shiftr block 16) 0xff;
   Z.land (Z.shiftr block 8) 0xff; Z.land block 0xff].

(** The inner loop: [u] and [block_result]. *)
Definition iterate_step (password : list Z) (ur : list Z * list Z) : list Z * list Z :=
  let u := hmac_sha256 password ur.1 in (u, zip_with Z.lxor ur.2 u).

Definition derive_block (password salt : list Z) (iterations block : Z) : list Z :=
  let message := copy_into (replicate (List.length salt + 4) 0) 0 salt in
  let message := copy_into message (List.length salt) (block_index block) in
  let u := hmac_sha256 password message in
  (Nat.iter (Z.to_nat (iterations - 1)) (iterate_step password) (u, u)).2.

(** One iteration of the outer loop on [derived] and [offset]. *)
Definition pbkdf2_block (password salt : list Z) (iterations : Z) (dk_len : nat)
    (st : list Z * nat) (block : Z) : list Z * nat :=
  let '(derived, offset) := st in
  let copy_len := Nat.min 32 (dk_len - offset) in
  (copy_into derived offset (take copy_len (derive_block password salt iterations block)),
   (offset + copy_len)%nat).

Definition pbkdf2_sha256 (password salt : list Z) (iterations : Z) (dk_len : nat) : list Z :=
  let blocks := to_int (to_size (Z.of_nat dk_len + 31) / 32) in
  (foldl (pbkdf2_block password salt iterations dk_len) (replicate dk_len 0, 0%nat)
         (Z.succ <$> zrange blocks)).1.

(** ** Hexadecimal *)

Definition hex_char (d : Z) : ascii := if d <? 10 then chr (48 + d) else chr (87 + d).
Fixpoint to_hex (data : list Z) : string :=
  match data with
  | [] => EmptyString
  | b :: data' => String (hex_char (b / 16)) (String (hex_char (b mod 16)) (to_hex data'))
  end.

Definition isxdigit (c : ascii) : bool :=
  isdigit c || ((97 <=? code c) && (code c <=? 102)) || ((65 <=? code c) && (code c <=? 70)).
Definition xdigit_value (c : ascii) : Z :=
  if isdigit c then code c - 48 else if 97 <=? code c then code c - 87 else code c - 55.
Fixpoint hex_value_from (v : Z) (s : string) : Z :=
  match s with
  | EmptyString => v
  | String c s' => hex_value_from (16 * v + xdigit_value c) s'
  end.

(** The optional prefix of base 16, skipped only before a digit. *)
Definition skip_0x (s : string) : string :=
  match s with
  | String z (String x (String d _ as s')) =>
      if (code z =? 48) && ((code x =? 120) || (code x =? 88)) && isxdigit d then s' else s
  | _ => s
  end.

(** [std::stoi(s, nullptr, 16)]; [None] is an exception. *)
Definition stoi16 (s : string) : option Z :=
  let s1 := skip_ws s in
  let '(neg, s2) :=
    match s1 with
    | String c s' =>
        if Ascii.eqb c "-"%char then (true, s')
        else if Ascii.eqb c "+"%char then (false, s')
        else (false, s1)
    | EmptyString => (false, s1)
    end in
  match span isxdigit (skip_0x s2) with
  | (EmptyString, _) => None
  | (digits, _) =>
      let v := if neg : bool then - hex_value_from 0 digits else hex_value_from 0 digits in
      if bool_decide (- 2 ^ 31 <= v < 2 ^ 31) then Some v else None
  end.

(** [std::stoi(s)]: the same grammar as reading an [int] from a stream. *)
Definition stoi (s : string) : option Z := fst <$> extract_int s.

(** The loop over pairs of characters; the size is even. *)
Fixpoint from_hex_pairs (hex : string) : option (list Z) :=
  match hex with
  | String a (String b rest) =>
      match stoi16 (String a (String b EmptyString)) with
      | Some v => cons (to_u8 v) <$> from_hex_pairs rest
      | None => None
      end
  | _ => Some []
  end.
Definition from_hex (hex : string) : option (list Z) :=
  if slen hex mod 2 =? 0 then from_hex_pairs hex else None.

(** ** Comparison *)

Fixpoint xor_all (result : Z) (left right : string) : Z :=
  match left, right with
  | String a l, String b r => xor_all (Z.lor result (to_u8 (Z.lxor (code a) (code b)))) l r
  | _, _ => result
  end.
Definition constant_time_equals (left right : string) : bool :=
  if negb (slen left =? slen right) then false else xor_all 0 left right =? 0.

(** ** [PasswordHasher] *)

Definition string_bytes (s : string) : list Z := code <$> list_ascii_of_string s.

Definition kDefaultIterations : Z := 10000.

Definition hash_password (salt : list Z) (password : string) (iterations : Z) : string :=
  let derived := pbkdf2_sha256 (string_bytes password) salt iterations kHashBytes in
  ("pbkdf2_sha256$" ++ to_string iterations ++ "$" ++ to_hex salt ++ "$" ++ to_hex derived)%string.

(** [s.find(c, pos)]; [None] is [std::string::npos]. *)
Fixpoint find_from (c : ascii) (pos i : Z) (s : string) : option Z :=
  match s with
  | EmptyString => None
  | String x s' => if (pos <=? i) && Ascii.eqb x c then Some i else find_from c pos (i + 1) s'
  end.
Definition find (c : ascii) (pos : Z) (s : string) : option Z := find_from c pos 0 s.

(** [pos + 1], which wraps to 0 for [npos]. *)
Definition after (pos : option Z) : Z := match pos with Some p => p + 1 | None => 0 end.

(** [s.substr(pos)]. *)
Definition substr_to_end (s : string) (pos : Z) : string := substr s pos (slen s - pos).

Definition verify_password (password stored_hash : string) : bool :=
  let first := find "$" 0 stored_hash in
  let second := find "$" (after first) stored_hash in
  let third := find "$" (after second) stored_hash in
  match first, second, third with
  | Some first, Some second, Some third =>
      if negb (String.eqb (substr stored_hash 0 first) "pbkdf2_sha256") then false
      else
        match stoi (substr stored_hash (first + 1) (second - first - 1)) with
        | None => false
        | Some iterations =>
            match from_hex (substr stored_hash (second + 1) (third - second - 1)) with
            | None => false
            | Some salt =>
                match from_hex (substr_to_end stored_hash (third + 1)) with
                | None => false
                | Some expected_hash =>
                    let derived := pbkdf2_sha256 (string_bytes password) salt iterations
                                                 (List.length expected_hash) in
                    constant_time_equals (to_hex derived) (substr_to_end stored_hash (third + 1))
                end
            end
        end
  | _, _, _ => false
  end.

(** ** The reference *)

Module Rfc.

Definition xor_pad (x : Z) (k : list Z) : list Z := Z.lxor x <$> k.

(** RFC 2104 with block size 64. *)
Definition K0 (key : list Z) : list Z :=
  let k := if Nat.ltb 64 (List.length key) then Fips.SHA256 key else key in
  k ++ replicate (64 - List.length k) 0.
Definition HMAC (key msg : list Z) : list Z :=
  Fips.SHA256 (xor_pad 0x5c (K0 key) ++ Fips.SHA256 (xor_pad 0x36 (K0 key) ++ msg)).

(** RFC 8018: [U_1 = PRF (P, S || INT (i))], [U_(j+1) = PRF (P, U_j)]. *)
Fixpoint U (P S : list Z) (i : Z) (j : nat) : list Z :=
  match j with
  | O => HMAC P (S ++ Fips.to_be 4 i)
  | S j => HMAC P (U P S i j)
  end.
Definition xor (a b : list Z) : list Z := zip_with Z.lxor a b.
Definition F (P S : list Z) (c : nat) (i : Z) : list Z :=
  foldl xor (U P S i 0) (U P S i <$> seq 1 (c - 1)).
Definition PBKDF2 (P S : list Z) (c dk_len : nat) : list Z :=
  take dk_len (List.concat (F P S c <$> (Z.of_nat <$> seq 1 ((dk_len + 31) / 32)%nat))).

End Rfc.

(** ** HMAC is that of RFC 2104 *)

Lemma copy_into_app pre mid post src : List.length mid = List.length src ->
  copy_into (pre ++ mid ++ post) (List.length pre) src = pre ++ src ++ post.
Proof.
  revert pre mid. induction src as [|x src IH]; intros pre mid Hl.
  - by destruct mid.
  - destruct mid as [|y mid]; [done|]. simpl in *. rewrite insert_next.
    replace (S (List.length pre)) with (List.length (pre ++ [x])) by (rewrite length_app; simpl; lia).
    rewrite IH by lia. by rewrite <- app_assoc.
Qed.

Lemma copy_into_zeros n src : (List.length src <= n)%nat ->
  copy_into (replicate n 0) 0 src = src ++ replicate (n - List.length src) 0.
Proof.
  intros Hl. replace n with (List.length src + (n - List.length src))%nat at 1 by lia.
  rewrite replicate_add. apply (copy_into_app [] _ _ src). by rewrite length_replicate.
Qed.

Lemma key_block_spec key : Forall u8_ok key ->
  key_block key = Rfc.K0 key /\ List.length (Rfc.K0 key) = 64%nat /\ Forall u8_ok (Rfc.K0 key).
Proof.
  intros Hk. unfold key_block, Rfc.K0. destruct (SHA256_ok key) as [Hl Hu].
  destruct (Nat.ltb_spec 64 (List.length key)).
  - rewrite sha256_is_fips, take_ge, copy_into_zeros by (done || lia).
    split_and!; [done| |by apply Forall_app; auto using replicate_u8].
    rewrite length_app, length_replicate. lia.
  - rewrite copy_into_zeros by lia.
    split_and!; [done| |by apply Forall_app; auto using replicate_u8].
    rewrite length_app, length_replicate. lia.
Qed.

Lemma lxor_u8 a b : u8_ok a -> u8_ok b -> u8_ok (Z.lxor a b).
Proof.
  unfold u8_ok. intros Ha Hb. assert (Z.lxor a b = to_u8 (Z.lxor a b)) as ->; [|by apply wrap_u_range].
  symmetry. unfold to_u8. rewrite wrap_u_land by lia. apply Z.bits_inj'. intros i Hi.
  rewrite Z.land_spec, Z.lxor_spec, Z.testbit_ones_nonneg by lia.
  destruct (Z.ltb_spec i 8); [apply andb_true_r|]. rewrite andb_false_r.
  replace a with (a mod 2 ^ 8) by (apply Z.mod_small; lia).
  replace b with (b mod 2 ^ 8) by (apply Z.mod_small; lia).
  by rewrite !Z.mod_pow2_bits_high by lia.
Qed.

Lemma pad_spec x k : u8_ok x -> Forall u8_ok k ->
  (fun b => to_u8 (Z.lxor b x)) <$> k = Rfc.xor_pad x k /\ Forall u8_ok (Rfc.xor_pad x k).
Proof.
  intros Hx Hk. unfold Rfc.xor_pad. split.
  - apply list_fmap_ext. intros i b Hb. rewrite Z.lxor_comm.
    apply wrap_u_id, lxor_u8; [done|]. by eapply (Forall_lookup_1 u8_ok).
  - apply Forall_fmap. eapply Forall_impl; [done|]. intros b Hb. by apply lxor_u8.
Qed.

(** Hashing two pieces hashes their concatenation. *)
Lemma two_updates a b : Forall u8_ok a -> Forall u8_ok b ->
  sha256_final (sha256_update (sha256_update (sha256_init empty_context) a) b) =
  Fips.SHA256 (a ++ b).
Proof.
  intros Ha Hb. apply final_spec; [|by apply Forall_app].
  apply update_absorbed; [|by apply Forall_app]. apply (update_absorbed a _ []); [|done].
  by apply init_absorbed.
Qed.

Lemma hmac_spec key data : Forall u8_ok key -> Forall u8_ok data ->
  hmac_sha256 key data = Rfc.HMAC key data.
Proof.
  intros Hk Hd. destruct (key_block_spec key Hk) as (E & _ & Hu).
  unfold hmac_sha256, Rfc.HMAC. rewrite E.
  destruct (pad_spec 0x36 (Rfc.K0 key)) as [-> H1]; [unfold u8_ok; lia|done|].
  destruct (pad_spec 0x5c (Rfc.K0 key)) as [-> H2]; [unfold u8_ok; lia|done|].
  rewrite (two_updates (Rfc.xor_pad 0x36 _) data) by done. apply two_updates; [done|]. apply SHA256_ok.
Qed.

Lemma HMAC_ok key data :
  List.length (Rfc.HMAC key data) = 32%nat /\ Forall u8_ok (Rfc.HMAC key data).
Proof. apply SHA256_ok. Qed.

(** ** PBKDF2 is that of RFC 8018 *)

Section pbkdf2.

Context (password salt : list Z).
Context (Hpassword : Forall u8_ok password) (Hsalt : Forall u8_ok salt).

Lemma U_ok i j :
  List.length (Rfc.U password salt i j) = 32%nat /\ Forall u8_ok (Rfc.U password salt i j).
Proof using Type. destruct j; apply HMAC_ok. Qed.

Lemma block_index_spec i : block_index i = Fips.to_be 4 i.
Proof using Type. apply word_bytes_spec. Qed.

Lemma iterate_spec i n :
  Nat.iter n (iterate_step password) (Rfc.U password salt i 0, Rfc.U password salt i 0) =
  (Rfc.U password salt i n,
   foldl Rfc.xor (Rfc.U password salt i 0) (Rfc.U password salt i <$> seq 1 n)).
Proof using Hpassword.
  induction n as [|n IH]; [done|]. rewrite Nat.iter_succ, IH. unfold iterate_step. cbn [fst snd].
  rewrite hmac_spec by (done || apply U_ok).
  change (Rfc.HMAC password (Rfc.U password salt i n)) with (Rfc.U password salt i (S n)).
  rewrite seq_S, fmap_app, foldl_app. done.
Qed.

Lemma derive_block_spec iterations i :
  derive_block password salt iterations i = Rfc.F password salt (Z.to_nat iterations) i.
Proof using Hpassword Hsalt.
  unfold derive_block, Rfc.F. rewrite copy_into_zeros by lia.
  replace (List.length salt + 4 - List.length salt)%nat with 4%nat by lia.
  rewrite <- (app_nil_r (replicate 4 0)), copy_into_app, app_nil_r by done.
  rewrite block_index_spec, hmac_spec by (done || apply Forall_app; auto using to_be_ok).
  change (Rfc.HMAC password (salt ++ Fips.to_be 4 i)) with (Rfc.U password salt i 0).
  rewrite iterate_spec. cbn [snd]. by replace (Z.to_nat (iterations - 1)) with (Z.to_nat iterations - 1)%nat by lia.
Qed.

Lemma foldl_xor_ok l a : List.length a = 32%nat -> Forall u8_ok a ->
  Forall (fun b => List.length b = 32%nat /\ Forall u8_ok b) l ->
  List.length (foldl Rfc.xor a l) = 32%nat /\ Forall u8_ok (foldl Rfc.xor a l).
Proof using Type.
  intros Ha Hu Hl. revert a Ha Hu. induction Hl as [|b l [Hb1 Hb2] _ IH]; intros a Ha Hu; [done|].
  simpl. apply IH; unfold Rfc.xor; [rewrite length_zip_with; lia|].
  apply Forall_lookup_2. intros k x (y & z & -> & Hy & Hz)%lookup_zip_with_Some.
  apply lxor_u8; [exact (Forall_lookup_1 _ _ _ _ Hu Hy)|exact (Forall_lookup_1 _ _ _ _ Hb2 Hz)].
Qed.

Lemma F_ok c i : List.length (Rfc.F password salt c i) = 32%nat /\ Forall u8_ok (Rfc.F password salt c i).
Proof using Type.
  apply foldl_xor_ok; [apply U_ok..|]. apply Forall_fmap, Forall_true. intros j. apply U_ok.
Qed.

Lemma concat_F_length c m :
  List.length (List.concat (Rfc.F password salt c <$> (Z.of_nat <$> seq 1 m))) = (32 * m)%nat.
Proof using Type.
  induction m as [|m IHm]; [done|].
  rewrite seq_S, !fmap_app, concat_app, length_app, IHm. simpl.
  rewrite app_nil_r, (proj1 (F_ok _ _)). lia.
Qed.

(** The outer loop has copied a prefix of the concatenated blocks. *)
Lemma blocks_loop iterations dk_len n k : (32 * (k + n) <= dk_len + 31)%nat ->
  let T := Rfc.F password salt (Z.to_nat iterations) in
  let pre := take dk_len (List.concat (T <$> (Z.of_nat <$> seq 1 k))) in
  foldl (pbkdf2_block password salt iterations dk_len)
    (pre ++ replicate (dk_len - List.length pre) 0, List.length pre) (Z.of_nat <$> seq (1 + k) n) =
  let all := take dk_len (List.concat (T <$> (Z.of_nat <$> seq 1 (k + n)))) in
  (all ++ replicate (dk_len - List.length all) 0, List.length all).
Proof using Hpassword Hsalt.
  revert k. induction n as [|n IH]; intros k Hk T pre.
  - subst pre. by rewrite Nat.add_0_r.
  - pose proof (concat_F_length (Z.to_nat iterations)) as Hlen. fold T in Hlen.
    assert (List.length pre = (32 * k)%nat) as Hpre.
    { subst pre. rewrite length_take, Hlen. lia. }
    assert (take dk_len (List.concat (T <$> (Z.of_nat <$> seq 1 (S k)))) =
            pre ++ take (dk_len - List.length pre) (T (Z.of_nat (1 + k)))) as Hnext.
    { rewrite seq_S, !fmap_app, concat_app, take_app. simpl List.concat. rewrite app_nil_r, Hlen, Hpre.
      done. }
    cbn [seq]. rewrite fmap_cons. cbn [foldl pbkdf2_block].
    rewrite derive_block_spec. fold T.
    specialize (IH (S k) ltac:(lia)). cbv zeta in IH. fold T in IH.
    replace (k + S n)%nat with (S k + n)%nat by lia. cbv zeta. rewrite <- IH. f_equal. rewrite Hnext.
    assert (List.length (T (Z.of_nat (1 + k))) = 32%nat) as HT by apply F_ok.
    remember (Nat.min 32 (dk_len - List.length pre)) as cl eqn:Ecl.
    assert (take (dk_len - List.length pre) (T (Z.of_nat (1 + k))) = take cl (T (Z.of_nat (1 + k)))) as ->.
    { subst cl. destruct (decide (dk_len - List.length pre <= 32)%nat).
      - by rewrite Nat.min_r by lia.
      - rewrite Nat.min_l, !take_ge by lia. done. }
    assert (List.length (take cl (T (Z.of_nat (1 + k)))) = cl) as Hcl by (rewrite length_take; lia).
    rewrite length_app, Hcl. f_equal.
    replace (dk_len - List.length pre)%nat with (cl + (dk_len - (List.length pre + cl)))%nat by lia.
    rewrite replicate_add, copy_into_app by (by rewrite length_replicate). by rewrite app_assoc.
Qed.

Lemma pbkdf2_spec iterations dk_len : Z.of_nat dk_len < 2 ^ 31 ->
  pbkdf2_sha256 password salt iterations dk_len =
  Rfc.PBKDF2 password salt (Z.to_nat iterations) dk_len.
Proof using Hpassword Hsalt.
  intros Hd. unfold pbkdf2_sha256, Rfc.PBKDF2.
  assert (to_int (to_size (Z.of_nat dk_len + 31) / 32) = Z.of_nat ((dk_len + 31) / 32)) as ->.
  { rewrite to_size_id by lia. rewrite Nat2Z.inj_div, Nat2Z.inj_add. apply to_int_id.
    unfold fits_int. change (Z.of_nat 31) with 31. change (Z.of_nat 32) with 32.
    pose proof (Z.div_pos (Z.of_nat dk_len + 31) 32 ltac:(lia) ltac:(lia)).
    split; [lia|]. apply Z.div_lt_upper_bound; lia. }
  pose proof (Nat.div_mod_eq (dk_len + 31) 32) as Hq.
  pose proof (Nat.mod_upper_bound (dk_len + 31) 32 ltac:(lia)) as Hr.
  generalize dependent ((dk_len + 31) / 32)%nat. intros q Hq.
  unfold zrange. rewrite Nat2Z.id.
  assert (Z.succ <$> (Z.of_nat <$> seq 0 q) = Z.of_nat <$> seq 1 q) as ->.
  { rewrite <- (fmap_S_seq 0), <- !list_fmap_compose. apply list_fmap_ext. intros. simpl. lia. }
  pose proof (blocks_loop iterations dk_len q 0) as Hb. cbv zeta in Hb.
  change (seq 1 0) with (@nil nat) in Hb. cbn [fmap list_fmap List.concat] in Hb.
  rewrite take_nil, Nat.sub_0_r in Hb. simpl (_ ++ _) in Hb. cbn [List.length] in Hb.
  rewrite Nat.add_0_r, Nat.add_0_l in Hb.   rewrite Hb; [|lia]. cbn [fst]. rewrite length_take, concat_F_length.
  replace (dk_len - _)%nat with 0%nat by lia. apply app_nil_r.
Qed.

Lemma PBKDF2_ok c dk_len : List.length (Rfc.PBKDF2 password salt c dk_len) = dk_len /\
  Forall u8_ok (Rfc.PBKDF2 password salt c dk_len).
Proof using Type.
  unfold Rfc.PBKDF2. split.
  - rewrite length_take, concat_F_length. pose proof (Nat.div_mod_eq (dk_len + 31) 32).
    pose proof (Nat.mod_upper_bound (dk_len + 31) 32 ltac:(lia)). lia.
  - apply Forall_take, Forall_concat, Forall_fmap, Forall_true. intros i. apply F_ok.
Qed.

End pbkdf2.

(** ** Hexadecimal text *)

Lemma byte_hex b : u8_ok b ->
  stoi16 (String (hex_char (b / 16)) (String (hex_char (b mod 16)) EmptyString)) = Some b /\
  Ascii.eqb (hex_char (b / 16)) "$" = false /\ Ascii.eqb (hex_char (b mod 16)) "$" = false.
Proof.
  intros Hb. assert (forallb (fun b =>
    bool_decide (stoi16 (String (hex_char (b / 16)) (String (hex_char (b mod 16)) EmptyString)) = Some b)
    && negb (Ascii.eqb (hex_char (b / 16)) "$") && negb (Ascii.eqb (hex_char (b mod 16)) "$"))
    (zrange 256) = true) as H by (vm_compute; reflexivity).
  rewrite forallb_forall in H. specialize (H b). rewrite <- list_elem_of_In, elem_of_zrange in H.
  unfold u8_ok in Hb. specialize (H ltac:(lia)). rewrite !andb_true_iff, !negb_true_iff in H.
  destruct H as [[H%bool_decide_eq_true_1 ?] ?]. done.
Qed.

Lemma from_hex_pairs_to_hex l : Forall u8_ok l -> from_hex_pairs (to_hex l) = Some l.
Proof.
  induction 1 as [|b l Hb _ IH]; [done|]. cbn [to_hex from_hex_pairs].
  rewrite (proj1 (byte_hex b Hb)), IH. simpl. by rewrite (wrap_u_id 8).
Qed.

Lemma slen_to_hex l : slen (to_hex l) = 2 * vlen l.
Proof.
  unfold slen, vlen. induction l as [|b l IH]; [done|]. cbn [to_hex String.length List.length]. lia.
Qed.

Lemma from_to_hex l : Forall u8_ok l -> from_hex (to_hex l) = Some l.
Proof.
  intros Hl. unfold from_hex. rewrite slen_to_hex, Z.mul_comm, Z.mod_mul by lia.
  by apply from_hex_pairs_to_hex.
Qed.

Lemma to_hex_inj l l' : Forall u8_ok l -> Forall u8_ok l' -> to_hex l = to_hex l' -> l = l'.
Proof. intros H%from_to_hex H'%from_to_hex E. rewrite E in H. congruence. Qed.

Definition no_dollar (c : ascii) : bool := negb (Ascii.eqb c "$").

Lemma to_hex_no_dollar l : Forall u8_ok l -> all_chars no_dollar (to_hex l) = true.
Proof.
  induction 1 as [|b l Hb _ IH]; [done|]. simpl. destruct (byte_hex b Hb) as (_ & H1 & H2).
  rewrite IH. unfold no_dollar. by rewrite H1, H2.
Qed.

Lemma digits_no_dollar s : all_chars isdigit s = true -> all_chars no_dollar s = true.
Proof.
  apply all_chars_impl. intros c Hc. apply negb_true_iff, Ascii.eqb_neq. by intros ->.
Qed.

Lemma to_string_no_dollar n : all_chars no_dollar (to_string n) = true.
Proof.
  unfold to_string. destruct (Z.ltb_spec n 0).
  - destruct (to_string_nat_spec (- n)) as (d & s & -> & Hd & _); [lia|].
    apply digits_no_dollar in Hd. simpl in *. done.
  - destruct (to_string_nat_spec n) as (d & s & -> & Hd & _); [lia|]. by apply digits_no_dollar.
Qed.

Lemma to_hex_clean l : Forall u8_ok l -> clean (to_hex l).
Proof.
  induction 1 as [|b l Hb _ IH]; [done|]. unfold clean in *. cbn [to_hex all_chars]. rewrite IH.
  assert (forall d, 0 <= d < 16 -> not_nul (hex_char d) = true) as Hh.
  { intros d Hd. unfold not_nul, hex_char. destruct (Z.ltb_spec d 10); rewrite code_chr by lia.
    - by destruct (Z.eqb_spec (48 + d) 0); [lia|].
    - by destruct (Z.eqb_spec (87 + d) 0); [lia|]. }
  unfold u8_ok in Hb. pose proof (Z.mod_pos_bound b 16 ltac:(lia)).
  pose proof (Z.div_pos b 16 ltac:(lia) ltac:(lia)). pose proof (Z.div_lt_upper_bound b 16 16 ltac:(lia) ltac:(lia)).
  by rewrite !Hh by lia.
Qed.

(** ** The comparison decides equality *)

Lemma code_range c : u8_ok (code c).
Proof. unfold u8_ok, code. pose proof (nat_ascii_bounded c). lia. Qed.

Lemma code_inj a b : code a = code b -> a = b.
Proof.
  unfold code. intros H%Nat2Z.inj. rewrite <- (ascii_nat_embedding a), <- (ascii_nat_embedding b).
  by f_equal.
Qed.

Lemma xor_all_spec r a b : String.length a = String.length b ->
  xor_all r a b = 0 <-> r = 0 /\ a = b.
Proof.
  revert r b. induction a as [|x a IH]; intros r [|y b] Hl; simpl in *; try done; [naive_solver|].
  rewrite IH by lia. rewrite Z.lor_eq_0_iff.
  unfold to_u8. rewrite wrap_u_id by (apply lxor_u8; apply code_range).
  rewrite Z.lxor_eq_0_iff. split.
  - intros [[-> H%code_inj] ->]. by subst.
  - by intros [-> [= -> ->]].
Qed.

Lemma constant_time_equals_spec a b : constant_time_equals a b = String.eqb a b.
Proof.
  unfold constant_time_equals, slen. destruct (Z.eqb_spec (Z.of_nat (String.length a)) (Z.of_nat (String.length b))) as [E|E]; simpl.
  - apply eq_true_iff_eq. rewrite Z.eqb_eq, String.eqb_eq, xor_all_spec by lia. naive_solver.
  - symmetry. apply String.eqb_neq. intros ->. done.
Qed.

(** ** Fields of a stored hash *)

Lemma find_from_skip c pos i p s : i + slen p <= pos ->
  find_from c pos i (p ++ s)%string = find_from c pos (i + slen p) s.
Proof.
  revert i. induction p as [|x p IH]; intros i Hi.
  - simpl. f_equal. unfold slen. simpl. lia.
  - unfold slen in *. simpl in *. destruct (Z.leb_spec pos i); [lia|]. simpl.
    rewrite IH by lia. f_equal. lia.
Qed.

Lemma find_from_here c pos i a s : (forall x, Ascii.eqb x c = negb (no_dollar x)) -> pos <= i ->
  all_chars no_dollar a = true -> find_from c pos i (a ++ String c s)%string = Some (i + slen a).
Proof.
  intros Hc. revert i. induction a as [|x a IH]; intros i Hi Ha; simpl in *.
  - rewrite (proj2 (Z.leb_le _ _)) by lia. rewrite Ascii.eqb_refl. simpl. f_equal. unfold slen. simpl. lia.
  - apply andb_true_iff in Ha as [Hx Ha]. rewrite Hc, Hx, andb_false_r, IH by (done || lia).
    f_equal. unfold slen. simpl. lia.
Qed.

(** The dollar after a field [a] that starts at position [slen p]. *)
Lemma find_field p a s : all_chars no_dollar a = true ->
  find "$" (slen p) (p ++ a ++ String "$" s)%string = Some (slen p + slen a).
Proof.
  intros Ha. unfold find. rewrite find_from_skip by lia.
  apply find_from_here; [|lia|done]. intros x. unfold no_dollar. by rewrite negb_involutive.
Qed.

Lemma substring_app p a s :
  String.substring (String.length p) (String.length a) (p ++ a ++ s)%string = a.
Proof.
  induction p as [|x p IH]; simpl; [|exact IH].
  induction a as [|y a IH]; simpl; [by destruct s|by rewrite IH].
Qed.

Lemma substr_field p a s : substr (p ++ a ++ s)%string (slen p) (slen a) = a.
Proof. unfold substr, slen. rewrite !Nat2Z.id. apply substring_app. Qed.

Lemma substr_to_end_app p a : substr_to_end (p ++ a)%string (slen p) = a.
Proof.
  unfold substr_to_end. rewrite slen_app. replace (slen p + slen a - slen p) with (slen a) by lia.
  pose proof (substr_field p a EmptyString) as H. by rewrite app_nil_string in H.
Qed.

(** ** Verification of a stored hash *)

(** What [verify_password] does with the four fields of a stored hash. *)
Definition verify_fields (password method iterations salt digest : string) : bool :=
  String.eqb method "pbkdf2_sha256" &&
  match stoi iterations, from_hex salt, from_hex digest with
  | Some it, Some sl, Some expected =>
      String.eqb (to_hex (pbkdf2_sha256 (string_bytes password) sl it (List.length expected))) digest
  | _, _, _ => false
  end.

Lemma verify_password_fields password m i s d :
  all_chars no_dollar m = true -> all_chars no_dollar i = true -> all_chars no_dollar s = true ->
  verify_password password (m ++ "$" ++ i ++ "$" ++ s ++ "$" ++ d)%string =
  verify_fields password m i s d.
Proof.
  intros Hm Hi Hs. set (st := (m ++ "$" ++ i ++ "$" ++ s ++ "$" ++ d)%string).
  set (p1 := (m ++ "$")%string). set (p2 := (p1 ++ i ++ "$")%string). set (p3 := (p2 ++ s ++ "$")%string).
  assert (st = p1 ++ i ++ String "$" (s ++ "$" ++ d))%string as E1
    by (unfold st, p1; by rewrite !app_assoc_string).
  assert (st = p2 ++ s ++ String "$" d)%string as E2
    by (unfold st, p2, p1; by rewrite !app_assoc_string).
  assert (st = p3 ++ d)%string as E3 by (unfold st, p3, p2, p1; by rewrite !app_assoc_string).
  assert (slen p1 = slen m + 1) as L1 by (unfold p1; by rewrite slen_app).
  assert (slen p2 = slen p1 + slen i + 1) as L2 by (unfold p2; rewrite !slen_app; change (slen "$") with 1; lia).
  assert (slen p3 = slen p2 + slen s + 1) as L3 by (unfold p3; rewrite !slen_app; change (slen "$") with 1; lia).
  assert (find "$" 0 st = Some (slen m)) as F1
    by exact (find_field EmptyString m (i ++ "$" ++ s ++ "$" ++ d)%string Hm).
  unfold verify_password. rewrite F1. cbn [after]. rewrite <- L1.
  assert (find "$" (slen p1) st = Some (slen p1 + slen i)) as -> by (rewrite E1; by apply find_field).
  cbn [after]. rewrite <- L2.
  assert (find "$" (slen p2) st = Some (slen p2 + slen s)) as -> by (rewrite E2; by apply find_field).
  replace (slen p1 + slen i - slen m - 1) with (slen i) by lia.
  replace (slen p2 + slen s - (slen p1 + slen i) - 1) with (slen s) by lia.
  rewrite <- L3.
  assert (substr st 0 (slen m) = m) as -> by exact (substr_field EmptyString m _).
  assert (substr st (slen p1) (slen i) = i) as -> by (rewrite E1; apply substr_field).
  assert (substr st (slen p2) (slen s) = s) as -> by (rewrite E2; apply substr_field).
  assert (substr_to_end st (slen p3) = d) as -> by (rewrite E3; apply substr_to_end_app).
  unfold verify_fields. destruct (String.eqb m "pbkdf2_sha256"); [|done]. cbn [negb andb].
  destruct (stoi i); [|done]. destruct (from_hex s); [|done]. destruct (from_hex d); [|done].
  apply constant_time_equals_spec.
Qed.

Lemma string_bytes_ok s : Forall u8_ok (string_bytes s).
Proof. apply Forall_fmap, Forall_true. intros c. apply code_range. Qed.

Lemma derived_ok password salt it : Forall u8_ok salt ->
  List.length (pbkdf2_sha256 (string_bytes password) salt it kHashBytes) = kHashBytes /\
  Forall u8_ok (pbkdf2_sha256 (string_bytes password) salt it kHashBytes).
Proof.
  intros Hs. rewrite pbkdf2_spec by (done || apply string_bytes_ok). apply PBKDF2_ok.
Qed.

(** Stored hashes hold no zero byte. *)
Lemma hash_password_clean salt password iterations : Forall u8_ok salt ->
  clean (hash_password salt password iterations).
Proof.
  intros Hs. unfold hash_password, clean. cbv zeta. rewrite !all_chars_app.
  rewrite (to_string_clean iterations), (to_hex_clean salt Hs), to_hex_clean by (by apply derived_ok). done.
Qed.

(** C18: the PBKDF2 of the hasher, built from the streaming SHA-256 and HMAC of the
    same file, computes the key that RFC 8018 (over HMAC of RFC 2104 and SHA-256 of
    FIPS 180-4) defines, for every password, salt, iteration count and key length
    below 2^31 bytes; an iteration count below 1 acts as 1. *)
Theorem pbkdf2_correct (password salt : list Z) (iterations : Z) (dk_len : nat)
    (Hpassword : Forall u8_ok password) (Hsalt : Forall u8_ok salt)
    (Hlen : Z.of_nat dk_len < 2 ^ 31) :
  pbkdf2_sha256 password salt iterations dk_len =
  Rfc.PBKDF2 password salt (Z.to_nat (Z.max 1 iterations)) dk_len /\
  List.length (pbkdf2_sha256 password salt iterations dk_len) = dk_len /\
  Forall u8_ok (pbkdf2_sha256 password salt iterations dk_len).
Proof.
  rewrite pbkdf2_spec by done.
  split; [|apply PBKDF2_ok].
  unfold Rfc.PBKDF2, Rfc.F. by replace (Z.to_nat (Z.max 1 iterations) - 1)%nat with (Z.to_nat iterations - 1)%nat by lia.
Qed.

Lemma pbkdf2_correct_witness :
  pbkdf2_sha256 [112; 119] [1; 2; 3] 2 40 = Rfc.PBKDF2 [112; 119] [1; 2; 3] 2 40 /\
  List.length (pbkdf2_sha256 [112; 119] [1; 2; 3] 2 40) = 40%nat /\
  Forall u8_ok (pbkdf2_sha256 [112; 119] [1; 2; 3] 2 40).
Proof.
  apply (pbkdf2_correct [112; 119] [1; 2; 3] 2 40).
  - repeat constructor; simpl; lia.
  - repeat constructor; simpl; lia.
  - simpl. lia.
Defined.

Definition keys_equal (a b : list Z) : bool := bool_decide (a = b).
Lemma keys_equal_refl a : keys_equal a a = true.
Proof. by apply bool_decide_eq_true_2. Qed.

(** Checking a password against the hash of another one compares derived keys. *)
Lemma verify_hashed password other salt iterations : Forall u8_ok salt -> fits_int iterations ->
  verify_password other (hash_password salt password iterations) =
    keys_equal (pbkdf2_sha256 (string_bytes other) salt iterations kHashBytes)
               (pbkdf2_sha256 (string_bytes password) salt iterations kHashBytes).
Proof.
  intros Hsalt Hit. unfold keys_equal. destruct (derived_ok password salt iterations Hsalt) as [Hl Hu].
  unfold hash_password.
  change ("pbkdf2_sha256$" ++ ?x)%string with ("pbkdf2_sha256" ++ "$" ++ x)%string.
  rewrite verify_password_fields; [|done|apply to_string_no_dollar|by apply to_hex_no_dollar].
  unfold verify_fields, stoi, extract_int. rewrite <- (app_nil_string (to_string iterations)).
  unfold fits_int in Hit. rewrite extract_signed_to_string by (done || lia).
  rewrite !from_to_hex, Hl by done. cbn [fst fmap option_fmap option_map].
  apply eq_true_iff_eq. rewrite andb_true_iff, !String.eqb_eq, bool_decide_eq_true.
  split; [intros [_ E]|intros E; split; [reflexivity|by rewrite E]].
  apply to_hex_inj in E; [done| |done]. by apply derived_ok.
Qed.

(** A hash made by [hash_password] is accepted by [verify_password] for the same
    password, and for another password exactly when it derives the same 256-bit key;
    every salt of bytes and every [int] iteration count is read back. *)
Theorem verify_hash_password (password other : string) (salt : list Z) (iterations : Z)
    (Hsalt : Forall u8_ok salt) (Hit : fits_int iterations) :
  verify_password password (hash_password salt password iterations) = true /\
  verify_password other (hash_password salt password iterations) =
    bool_decide (pbkdf2_sha256 (string_bytes other) salt iterations kHashBytes =
                 pbkdf2_sha256 (string_bytes password) salt iterations kHashBytes).
Proof. rewrite !verify_hashed by done. split; [apply keys_equal_refl|done]. Qed.

Lemma verify_hash_password_witness :
  verify_password "secret" (hash_password (replicate 16 7) "secret" 2) = true /\
  verify_password "Secret" (hash_password (replicate 16 7) "secret" 2) =
    bool_decide (pbkdf2_sha256 (string_bytes "Secret") (replicate 16 7) 2 kHashBytes =
                 pbkdf2_sha256 (string_bytes "secret") (replicate 16 7) 2 kHashBytes).
Proof.
  apply (verify_hash_password "secret" "Secret" (replicate 16 7) 2).
  - apply Forall_replicate. unfold u8_ok. lia.
  - unfold fits_int. lia.
Defined.

(** A stored hash whose digest field is empty accepts every password: the key is then
    derived to length zero. *)
Lemma empty_digest_accepts password :
  verify_password password "pbkdf2_sha256$1$$" = true.
Proof. done. Qed.

(** The known digest of the three-byte message abc. *)
Example sha256_abc : to_hex (sha256 (string_bytes "abc")) =
  "ba7816bf8f01cfea414140de5dae2223b00361a396177a9cb410ff61f20015ad".
Proof. vm_compute. reflexivity. Qed.
