(* ===== verification/BoardIO.v ===== *)
(** * Reading and writing boards

    [src/src/rules/board_validator.h]/[board_validator.cpp] (parsing of board rows),
    [src/src/io/board_writer.cpp] (printing) and [src/src/io/vpl_io.h]/[vpl_io.cpp]
    (the sectioned text format of the command-line program).  Output streams are
    strings; [std::getline] is [lines]. *)

From S2P Require Import Prelude Piece BoardModel CppString.
From Stdlib Require Import Ascii String.
Open Scope string_scope.
Open Scope Z_scope.

(** ** [board_validator.cpp] *)

Inductive BoardError := BoardOk | UnknownToken | RowWidthMismatch.

#[export] Instance BoardError_eq_dec : EqDecision BoardError.
Proof. solve_decision. Defined.

Definition split_row (line : string) : list string := split_words line.

(** The loop over the lines: [Some parsed] when it runs to the end. *)
Fixpoint parse_rows (ls : list string) (expected_width : Z) (parsed : BoardModel)
    (factory : PieceFactory) (row_index : Z) : res (BoardError * option BoardModel) :=
  match ls with
  | [] => Ok (BoardOk, Some parsed)
  | line :: rest =>
      let tokens := split_row line in
      let width := if expected_width =? 0 then vlen tokens else expected_width in
      if (expected_width =? 0) && (width =? 0) then Ok (RowWidthMismatch, None)
      else if negb (expected_width =? 0) && negb (vlen tokens =? expected_width) then
        Ok (RowWidthMismatch, None)
      else if negb (forallb is_valid_token tokens) then Ok (UnknownToken, None)
      else
        r ← append_token_row parsed tokens row_index factory;
        parse_rows rest width r.1 r.2 (row_index + 1)
  end.

(** The error code and the value of the [board] out-parameter. *)
Definition parse_board_rows (ls : list string) (board : BoardModel) : res (BoardError * BoardModel) :=
  match ls with
  | [] => Ok (BoardOk, empty_board)
  | _ =>
      r ← parse_rows ls 0 empty_board default_factory 0;
      Ok (match r with
          | (e, Some parsed) => (e, parsed)
          | (e, None) => (e, board)
          end)
  end.

Definition board_error_message (e : BoardError) : string :=
  match e with
  | UnknownToken => kErrorUnknownToken
  | RowWidthMismatch => kErrorRowWidthMismatch
  | BoardOk => ""
  end.

(** ** [board_writer.cpp] *)

Definition write_board_cell (b : BoardModel) (row : Z) (col : Z) (out : string) : res string :=
  let out := if 0 <? col then out ++ " " else out in
  t ← token_at b row col;
  Ok (out ++ t).

Definition write_board_row (b : BoardModel) (row : Z) (out : string) : res string :=
  out ← foldM (write_board_cell b row) (zrange (cols b)) out;
  Ok (if row + 1 <? rows b then out ++ nl else out).

Definition write_board (out : string) (b : BoardModel) : res string :=
  foldM (write_board_row b) (zrange (rows b)) out.

(** ** [vpl_io.cpp] *)

(** The characters [" \t\r\n"]. *)
Definition is_blank (c : ascii) : bool :=
  (code c =? 32) || (code c =? 9) || (code c =? 13) || (code c =? 10).

Definition trim_line (line : string) : string :=
  match find_first_not_of is_blank line with
  | None => ""
  | Some start =>
      match find_last_not_of is_blank line with
      | None => ""
      | Some last => substr line start (last - start + 1)
      end
  end.

Inductive Section_ := SecNone | SecBoard | SecCommands.

Record VplInput := mkVpl {
  vpl_board : BoardModel;
  vpl_error : BoardError;
  vpl_commands : list string
}.

Definition vpl_step (st : Section_ * list string * list string) (line : string) :
    Section_ * list string * list string :=
  let '(section, board_lines, commands) := st in
  let trimmed := trim_line line in
  if String.eqb trimmed kBoardSectionHeader then (SecBoard, board_lines, commands)
  else if String.eqb trimmed kCommandsSectionHeader then (SecCommands, board_lines, commands)
  else match section with
  | SecBoard => (section, board_lines ++ [line], commands)%list
  | SecCommands =>
      if is_empty_string line then st else (section, board_lines, commands ++ [line])%list
  | SecNone => st
  end.

Definition read_vpl_input (text : string) : res VplInput :=
  let '(_, board_lines, commands) := fold_left vpl_step (lines text) (SecNone, [], []) in
  r ← parse_board_rows board_lines empty_board;
  Ok (mkVpl r.2 r.1 commands).

(** ** Lemmas: parsing *)

(** The rows of a well-formed board file: rectangular, not empty, valid tokens. *)
Definition rows_ok (toks : list (list string)) : Prop :=
  rectangular toks /\ tokens_valid toks /\ forall l, l ∈ toks -> l <> [].

(** The rows read so far have the expected width (0 before the first row). *)
Definition width_ok (w : Z) (toks : list (list string)) : Prop :=
  (w = 0 <-> toks = []) /\ forall l, l ∈ toks -> vlen l = w.

Lemma vlen_0_nil {A} (l : list A) : vlen l = 0 <-> l = [].
Proof. unfold vlen. destruct l; simpl; split; [done..|lia|done]. Qed.

Lemma width_ok_rows w toks : width_ok w toks -> tokens_valid toks -> rows_ok toks.
Proof.
  intros [Hw Hall] Hv. split_and!; [|done|].
  - intros l Hl. rewrite (Hall l Hl). destruct toks as [|front toks]; [set_solver|].
    by rewrite (Hall front) by apply list_elem_of_here.
  - intros l Hl ->. specialize (Hall [] Hl). rewrite vlen_nil in Hall. symmetry in Hall.
    apply Hw in Hall. subst. by apply not_elem_of_nil in Hl.
Qed.

Lemma rows_ok_width toks t rest : rows_ok (toks ++ t :: rest)%list -> forall w, width_ok w toks ->
  vlen t <> 0 /\ (w <> 0 -> vlen t = w) /\ Forall (fun x => is_valid_token x = true) t.
Proof.
  intros (Hr & Hv & Hne) w [Hw Hall]. split_and!.
  - rewrite vlen_0_nil. apply Hne. set_solver.
  - intros Hw0. destruct toks as [|front toks]; [by rewrite Hw in Hw0|].
    rewrite (Hr t) by set_solver. simpl. by rewrite (Hall front) by apply list_elem_of_here.
  - unfold tokens_valid in Hv. rewrite Forall_app in Hv. by destruct Hv as [_ [? _]%Forall_cons].
Qed.

Lemma cell_count_app a b : cell_count (a ++ b)%list = cell_count a + cell_count b.
Proof. unfold cell_count. by rewrite List.concat_app, vlen_app. Qed.

(** One more row of the right width. *)
Lemma width_ok_snoc w toks t : width_ok w toks -> vlen t <> 0 -> (w <> 0 -> vlen t = w) ->
  width_ok (vlen t) (toks ++ [t])%list.
Proof.
  intros [Hw Hall] Ht Htw. split.
  - split; [done|]. by destruct toks.
  - intros l [Hl|Hl]%elem_of_app; [|by apply list_elem_of_singleton in Hl as ->].
    rewrite (Hall l Hl). symmetry. apply Htw. intros ->.
    assert (toks = []) as -> by (by apply Hw). by apply not_elem_of_nil in Hl.
Qed.

Lemma forallb_valid t :
  forallb is_valid_token t = true <-> Forall (fun x => is_valid_token x = true) t.
Proof.
  rewrite forallb_forall, Forall_forall. setoid_rewrite list_elem_of_In. done.
Qed.

Lemma parse_rows_spec ls toks w b f :
  built toks b f -> width_ok w toks -> tokens_valid toks ->
  grid_fits (toks ++ (split_row <$> ls))%list -> vlen (pieces_ b) <= cell_count toks ->
  parse_rows ls w b f (rows b) ⇓ (fun r =>
    match r.2 with
    | Some b' => r.1 = BoardOk /\ rows_ok (toks ++ (split_row <$> ls))%list /\
        (exists f', built (toks ++ (split_row <$> ls))%list b' f') /\ vlen (pieces_ b') < 2 ^ 32
    | None => r.1 <> BoardOk /\ ~ rows_ok (toks ++ (split_row <$> ls))%list
    end).
Proof.
  revert toks w b f. induction ls as [|line ls IH]; intros toks w b f Hb Hw Hv Hfit Hp.
  { cbn. rewrite app_nil_r in *. destruct Hfit as (_ & _ & Hc).
    split_and!; [done|by eapply width_ok_rows|eauto|lia]. }
  cbn [parse_rows]. rewrite fmap_cons, cons_middle, app_assoc in *.
  set (t := split_row line) in *.
  assert (rows_ok ((toks ++ [t]) ++ (split_row <$> ls))%list ->
    vlen t <> 0 /\ (w <> 0 -> vlen t = w) /\ Forall (fun x => is_valid_token x = true) t) as Hneed.
  { rewrite <- app_assoc. intros Hok. by eapply (rows_ok_width toks t). }
  destruct ((w =? 0) && ((if w =? 0 then vlen t else w) =? 0)) eqn:E1.
  { apply returns_ok. split; [done|]. intros Hok. destruct (Hneed Hok) as [Ht _].
    zbool. by rewrite H, Z.eqb_refl in H0. }
  destruct (negb (w =? 0) && negb (vlen t =? w)) eqn:E2.
  { apply returns_ok. split; [done|]. intros Hok. destruct (Hneed Hok) as (_ & Ht & _).
    zbool. auto. }
  assert (vlen t <> 0 /\ (w <> 0 -> vlen t = w) /\ (if w =? 0 then vlen t else w) = vlen t)
    as (Ht & Htw & ->).
  { destruct (Z.eqb_spec w 0), (Z.eqb_spec (vlen t) 0), (Z.eqb_spec (vlen t) w); simpl in *; lia. }
  destruct (forallb is_valid_token t) eqn:Ev; cbn [negb].
  2: { apply returns_ok. split; [done|]. intros Hok. destruct (Hneed Hok) as (_ & _ & Hf).
       apply forallb_valid in Hf. congruence. }
  apply forallb_valid in Ev.
  pose proof Hfit as (Hfr & Hfc & Hfp).
  rewrite !vlen_app in Hfr. rewrite !Forall_app in Hfc. rewrite !cell_count_app in Hfp.
  destruct Hfc as [[_ [Hct _]%Forall_cons] _].
  assert (rows b = vlen toks) as Hrows.
  { rewrite <- (bt_rows _ _ _ Hb). unfold token_rows. by rewrite vlen_fmap. }
  assert (cell_count [t] = vlen t) as Hcc by (unfold cell_count; simpl; by rewrite app_nil_r).
  pose proof (vlen_nonneg (split_row <$> ls)) as Hn1. change (vlen [t]) with 1 in Hfr.
  pose proof (vlen_nonneg (List.concat (split_row <$> ls))) as Hn2.
  fold (cell_count (split_row <$> ls)) in Hn2.
  apply returns_bind. eapply returns_mono.
  { apply (append_token_row_built toks); [done..|lia|done|lia]. }
  intros [b' f'] [Hb' Hp']. simpl in Hb', Hp'. cbn [fst snd].
  assert (rows b' = rows b + 1) as <-.
  { rewrite Hrows. unfold rows. rewrite <- (vlen_fmap (line_tokens (pieces_ b'))).
    change (vlen (token_rows b') = vlen toks + 1). rewrite (bt_rows _ _ _ Hb'). apply vlen_snoc. }
  apply IH; [done|by apply (width_ok_snoc w)| |done|rewrite cell_count_app; lia].
  unfold tokens_valid. apply Forall_app. split; [done|]. by apply Forall_singleton.
Qed.

Lemma parse_rows_idle ls w b f i e b' : all_idle b ->
  parse_rows ls w b f i = Ok (e, Some b') -> all_idle b'.
Proof.
  revert w b f i. induction ls as [|line ls IH]; intros w b f i Hi; simpl.
  { by intros [= _ <-]. }
  do 2 (destruct (_ && _); [done|]). destruct (negb (forallb _ _)); [done|].
  intros (x & Hx & Hp)%bind_Ok_inv. eapply IH; [|exact Hp]. by eapply append_token_row_idle.
Qed.

Lemma parse_board_rows_spec ls board : grid_fits (split_row <$> ls) ->
  parse_board_rows ls board ⇓ (fun r =>
    (r.1 = BoardOk /\ rows_ok (split_row <$> ls) /\ board_wf r.2 /\
     token_rows r.2 = split_row <$> ls /\ all_idle r.2) \/
    (r.1 <> BoardOk /\ ~ rows_ok (split_row <$> ls) /\ r.2 = board)).
Proof.
  intros Hfit. unfold parse_board_rows. destruct ls as [|line ls].
  { apply returns_ok. left. split_and!; try done.
    - split_and!; [|by apply Forall_nil|]; intros l Hl; by apply not_elem_of_nil in Hl.
    - destruct built_init as [_ Hi Ho _]. split; [|done]. split; try done.
      intros l Hl. by apply not_elem_of_nil in Hl.
    - by apply Forall_nil. }
  set (ls' := line :: ls) in *. apply returns_bind.
  pose proof (parse_rows_spec ls' [] 0 empty_board default_factory built_init) as Hspec.
  change (rows empty_board) with 0 in Hspec. change ([] ++ ?l)%list with l in Hspec.
  destruct (parse_rows ls' 0 empty_board default_factory 0) as [[e o]|] eqn:Ep.
  2: { apply Hspec; [split; [done|]; intros l Hl; by apply not_elem_of_nil in Hl|by apply Forall_nil|done|done]. }
  specialize (Hspec ltac:(split; [done|]; intros l Hl; by apply not_elem_of_nil in Hl)
    ltac:(by apply Forall_nil) Hfit ltac:(done)).
  simpl in Hspec. apply returns_ok, returns_ok. destruct o as [b'|]; simpl.
  - destruct Hspec as (He & Hok & [f' Hb] & Hp). left. destruct Hfit as (Hr & Hc & _).
    split_and!; [done|done| |apply (bt_rows _ _ _ Hb)|].
    + eapply built_wf; [done|apply Hok|done..].
    + eapply parse_rows_idle; [|exact Ep]. by apply Forall_nil.
  - destruct Hspec. right. auto.
Qed.

(** ** Lemmas: printing *)

Lemma write_board_cell_eq b row c t out : token_at b row c = Ok t ->
  write_board_cell b row c out = Ok ((if 0 <? c then out ++ " " else out) ++ t).
Proof. intros Ht. unfold write_board_cell. by rewrite Ht. Qed.

Lemma write_board_row_eq b row l out :
  foldM (write_board_cell b row) (zrange (cols b)) out = Ok (out ++ l) ->
  write_board_row b row out = Ok (if row + 1 <? rows b then (out ++ l) ++ nl else out ++ l).
Proof. intros Hl. unfold write_board_row. by rewrite Hl. Qed.

Lemma write_cells_from b row out (toks : list string) k :
  (forall i t, toks !! i = Some t -> token_at b row (Z.of_nat (k + i)) = Ok t) -> (0 < k)%nat ->
  foldM (write_board_cell b row) (Z.of_nat <$> seq k (List.length toks)) out =
  Ok (out ++ foldr (fun t s => " " ++ t ++ s) "" toks).
Proof.
  revert k out. induction toks as [|t toks IH]; intros k out Ht Hk.
  { cbn. by rewrite app_nil_string. }
  cbn [List.length seq fmap list_fmap foldM].
  pose proof (Ht 0%nat t eq_refl) as H0. rewrite Nat.add_0_r in H0.
  rewrite (write_board_cell_eq _ _ _ _ _ H0), bind_ok.
  destruct (Z.ltb_spec 0 (Z.of_nat k)); [|lia]. rewrite IH.
  - cbn [foldr]. by rewrite !app_assoc_string.
  - intros i t' Hi. specialize (Ht (S i) t' Hi). by replace (S k + i)%nat with (k + S i)%nat by lia.
  - lia.
Qed.

Lemma join_cons_foldr sep x l :
  join sep (x :: l) = x ++ foldr (fun t s => sep ++ t ++ s) "" l.
Proof.
  revert x. induction l as [|y l IH]; intros x; [cbn; by rewrite app_nil_string|].
  change (join sep (x :: y :: l)) with (x ++ sep ++ join sep (y :: l)). by rewrite IH.
Qed.

Lemma write_cells_eq b row out (toks : list string) : vlen toks = cols b ->
  (forall c t, vat toks c = Some t -> token_at b row c = Ok t) ->
  foldM (write_board_cell b row) (zrange (cols b)) out = Ok (out ++ join " " toks).
Proof.
  intros Hlen Ht. unfold zrange. rewrite <- Hlen. unfold vlen. rewrite Nat2Z.id.
  assert (forall i t, toks !! i = Some t -> token_at b row (Z.of_nat i) = Ok t) as Ht'.
  { intros i t Hi. apply Ht. unfold vat. destruct (Z.ltb_spec (Z.of_nat i) 0); [lia|].
    by rewrite Nat2Z.id. }
  destruct toks as [|t toks]; [cbn; by rewrite app_nil_string|].
  cbn [List.length seq fmap list_fmap foldM].
  rewrite (write_board_cell_eq _ _ _ _ _ (Ht' 0%nat t eq_refl)), bind_ok.
  cbn [Z.of_nat Z.ltb Z.compare].
  rewrite write_cells_from, join_cons_foldr, app_assoc_string; [done| |lia].
  intros i t' Hi. by apply (Ht' (S i)).
Qed.

Lemma write_rows_from b out (rws : list string) k :
  (forall i l, rws !! i = Some l -> forall out,
     foldM (write_board_cell b (Z.of_nat (k + i))) (zrange (cols b)) out = Ok (out ++ l)) ->
  Z.of_nat (k + List.length rws) = rows b ->
  foldM (write_board_row b) (Z.of_nat <$> seq k (List.length rws)) out = Ok (out ++ join nl rws).
Proof.
  revert k out. induction rws as [|l rws IH]; intros k out Hl Hk.
  { cbn. by rewrite app_nil_string. }
  cbn [List.length seq fmap list_fmap foldM].
  pose proof (Hl 0%nat l eq_refl) as H0. rewrite Nat.add_0_r in H0.
  rewrite (write_board_row_eq _ _ _ _ (H0 out)), bind_ok.
  cbn [List.length] in Hk. destruct rws as [|l' rws].
  - destruct (Z.ltb_spec (Z.of_nat k + 1) (rows b)); [simpl in Hk; lia|done].
  - destruct (Z.ltb_spec (Z.of_nat k + 1) (rows b)); [|simpl in Hk; lia]. rewrite IH.
    + change (join nl (l :: l' :: rws)) with (l ++ nl ++ join nl (l' :: rws)).
      by rewrite !app_assoc_string.
    + intros i x Hi. specialize (Hl (S i) x Hi). by replace (S k + i)%nat with (k + S i)%nat by lia.
    + lia.
Qed.

(** The printed board: rows of tokens separated by blanks, joined by newlines. *)
Lemma write_board_eq b out : board_shape b ->
  write_board out b = Ok (out ++ join nl (join " " <$> token_rows b)).
Proof.
  intros Hs. unfold write_board.
  assert (zrange (rows b) = Z.of_nat <$> seq 0 (List.length (join " " <$> token_rows b))) as ->.
  { unfold zrange, token_rows, rows, vlen. by rewrite Nat2Z.id, !length_fmap. }
  apply write_rows_from.
  - intros i l Hi out'. apply list_lookup_fmap_Some in Hi as (toks & -> & Hi).
    assert (vat (token_rows b) (Z.of_nat i) = Some toks) as Hv.
    { unfold vat. destruct (Z.ltb_spec (Z.of_nat i) 0); [lia|]. by rewrite Nat2Z.id. }
    apply write_cells_eq.
    + unfold token_rows in Hv. rewrite vat_fmap in Hv.
      destruct (vat (cells_ b) (Z.of_nat i)) as [line|] eqn:Hline; [|done].
      injection Hv as <-. unfold line_tokens. rewrite vlen_fmap.
      apply (sh_rect b Hs). by eapply vat_elem_of.
    + intros c t Hc. by eapply token_at_rows.
  - unfold token_rows, rows, vlen. by rewrite !length_fmap.
Qed.

(** ** Lemmas: the tokens of a board *)

Lemma cell_token_valid pieces o : is_valid_token (cell_token pieces o) = true.
Proof.
  destruct o as [id|]; [|done]. simpl. destruct (find_piece_by_id _ _); [|done].
  apply to_token_valid.
Qed.

Lemma token_rows_valid b : tokens_valid (token_rows b).
Proof.
  unfold tokens_valid, token_rows. rewrite Forall_fmap. apply Forall_true. intros line.
  unfold line_tokens. simpl. rewrite Forall_fmap. apply Forall_true. intros o.
  apply cell_token_valid.
Qed.

Lemma valid_token_word t : is_valid_token t = true ->
  is_word t /\ exists c s, t = String c s /\ (c = "."%char \/ c = "w"%char \/ c = "b"%char).
Proof.
  intros [->|(color & kind & _ & ->)]%valid_token_cases.
  - split; [done|]. eauto.
  - split; [by destruct color, kind|]. destruct color; eauto 10.
Qed.

(** A printed row: its first character, and no newline in it. *)
Lemma row_text toks : Forall (fun t => is_valid_token t = true) toks -> toks <> [] ->
  all_chars not_newline (join " " toks) = true /\
  exists c s, join " " toks = String c s /\ (c = "."%char \/ c = "w"%char \/ c = "b"%char).
Proof.
  intros Hv Hne.
  assert (forall t, is_valid_token t = true -> all_chars not_newline t = true) as Hnl.
  { intros t [[_ Hw] _]%valid_token_word. eapply all_chars_impl; [|exact Hw].
    intros c Hc. unfold not_newline, not_space in *. rewrite negb_true_iff in *.
    destruct (Ascii.eqb_spec c newline) as [->|]; [vm_compute in Hc; done|done]. }
  destruct toks as [|t toks]; [done|]. apply Forall_cons in Hv as [Ht Hv].
  rewrite join_cons_foldr. split.
  - rewrite all_chars_app, (Hnl t Ht). simpl. clear Hne Ht.
    induction Hv as [|t' toks Ht' Hv IH]; [done|]. simpl. rewrite all_chars_app, (Hnl t' Ht').
    simpl. apply IH.
  - destruct (valid_token_word t Ht) as (_ & c & s & -> & Hc). eexists c, _. split; [done|done].
Qed.

(** Such a row is never mistaken for a section header. *)
Lemma trim_line_first c s : is_blank c = false ->
  exists s', trim_line (String c s) = String c s'.
Proof.
  intros Hc. unfold trim_line, find_first_not_of, find_last_not_of. simpl. rewrite Hc. cbv iota.
  destruct (find_last_not_from_Some is_blank 1 s 0) as [z Hz]. change (0 + 1) with 1. rewrite Hz.
  pose proof (find_last_not_from_ge is_blank 1 s (Some 0)) as Hge.
  assert (0 <= z) by (eapply Hge; [by intros ? [= <-]|lia|done]).
  unfold substr. change (Z.to_nat 0) with 0%nat.
  replace (Z.to_nat (z - 0 + 1)) with (S (Z.to_nat z)) by lia. simpl. eauto.
Qed.

Lemma row_not_header c s : c = "."%char \/ c = "w"%char \/ c = "b"%char ->
  String.eqb (trim_line (String c s)) kBoardSectionHeader = false /\
  String.eqb (trim_line (String c s)) kCommandsSectionHeader = false.
Proof.
  intros Hc. destruct (trim_line_first c s) as [s' ->].
  { by destruct Hc as [-> | [-> | ->]]. }
  split; apply String.eqb_neq; intros [= Hx ?]; destruct Hc as [-> | [-> | ->]]; done.
Qed.

Definition no_header (line : string) : Prop :=
  String.eqb (trim_line line) kBoardSectionHeader = false /\
  String.eqb (trim_line line) kCommandsSectionHeader = false.

Lemma vpl_board_lines ls acc cmds : Forall no_header ls ->
  fold_left vpl_step ls (SecBoard, acc, cmds) = (SecBoard, (acc ++ ls)%list, cmds).
Proof.
  intros Hl. revert acc. induction Hl as [|l ls [H1 H2] Hl IH]; intros acc; simpl.
  - by rewrite app_nil_r.
  - rewrite H1, H2, IH. by rewrite <- app_assoc.
Qed.

Lemma vpl_command_lines ls acc cmds : Forall (fun l => no_header l /\ l <> "") ls ->
  fold_left vpl_step ls (SecCommands, acc, cmds) = (SecCommands, acc, (cmds ++ ls)%list).
Proof.
  intros Hl. revert cmds. induction Hl as [|l ls [[H1 H2] Hne] Hl IH]; intros cmds; simpl.
  - by rewrite app_nil_r.
  - rewrite H1, H2. destruct l; [done|]. simpl. rewrite IH. by rewrite <- app_assoc.
Qed.

(** The text of a game file: the printed board and a list of commands. *)
Definition vpl_text (board_text : string) (commands : list string) : string :=
  kBoardSectionHeader ++ nl ++ board_text ++ nl ++ kCommandsSectionHeader ++ nl ++ join nl commands.

(** A line that can stand in the commands section. *)
Definition command_line (l : string) : Prop :=
  all_chars not_newline l = true /\ l <> "" /\ no_header l.

(** A board that can be printed and read back: its grid is not empty and its
    size fits the machine types. *)
Definition printable (b : BoardModel) : Prop :=
  board_wf b /\ 0 < rows b /\ 0 < cols b /\ grid_fits (token_rows b).

Lemma printable_rows b : printable b ->
  rectangular (token_rows b) /\ (forall l, l ∈ token_rows b -> l <> []) /\
  split_row <$> (join " " <$> token_rows b) = token_rows b.
Proof.
  intros (Hwf & Hr & Hc & _).
  assert (forall l, l ∈ token_rows b -> vlen l = cols b) as Hlen.
  { intros l (line & -> & Hl)%list_elem_of_fmap. unfold line_tokens. rewrite vlen_fmap.
    by apply (sh_rect b (proj1 Hwf)). }
  split_and!.
  - intros l Hl. rewrite (Hlen l Hl). destruct (token_rows b) as [|front rest]; [set_solver|].
    symmetry. apply Hlen, list_elem_of_here.
  - intros l Hl ->. specialize (Hlen [] Hl). rewrite vlen_nil in Hlen. lia.
  - rewrite <- list_fmap_compose. rewrite <- (list_fmap_id (token_rows b)) at 2.
    apply list_fmap_ext. intros i l Hl. unfold split_row, compose. simpl.
    apply split_words_join. pose proof (token_rows_valid b) as Hv. unfold tokens_valid in Hv.
    rewrite Forall_forall in Hv. specialize (Hv l (list_elem_of_lookup_2 _ _ _ Hl)).
    eapply Forall_impl; [exact Hv|]. intros t Ht. by apply valid_token_word.
Qed.

Lemma printable_lines b : printable b ->
  Forall (fun l => all_chars not_newline l = true /\ l <> "" /\ no_header l)
    (join " " <$> token_rows b).
Proof.
  intros Hp. destruct (printable_rows b Hp) as (_ & Hne & _). rewrite Forall_fmap, Forall_forall.
  intros l Hl. pose proof (token_rows_valid b) as Hv. unfold tokens_valid in Hv.
  rewrite Forall_forall in Hv.
  destruct (row_text l (Hv l Hl) (Hne l Hl)) as (Hnl & c & s & E & Hc). simpl.
  rewrite E in *. split_and!; [done|done|]. by apply row_not_header.
Qed.

(** ** Properties *)



(** C39: Game files round-trip: the text made of a printed board and a list of
    commands is read back to a board that shows the same tokens, without error,
    and to the same commands. *)
Theorem vpl_roundtrip b commands board_text :
  printable b -> Forall command_line commands -> write_board "" b = Ok board_text ->
  read_vpl_input (vpl_text board_text commands) ⇓ (fun v =>
    vpl_error v = BoardOk /\ board_wf (vpl_board v) /\
    token_rows (vpl_board v) = token_rows b /\ vpl_commands v = commands).
Proof.
  intros Hp Hcmd Hw. rewrite write_board_eq in Hw by apply Hp. injection Hw as <-.
  destruct (printable_rows b Hp) as (Hrect & Hne & Hsplit).
  pose proof (printable_lines b Hp) as Hlines. set (ls := join " " <$> token_rows b) in *.
  assert (lines (vpl_text (join nl ls) commands) =
    (kBoardSectionHeader :: ls ++ kCommandsSectionHeader :: commands)%list) as Hl.
  { unfold vpl_text. rewrite lines_cons by done. f_equal.
    assert (ls <> []) as Hls.
    { destruct Hp as (_ & Hr & _). intros E. apply (f_equal List.length) in E.
      unfold ls, token_rows in E. rewrite !length_fmap in E. unfold rows, vlen in Hr. simpl in E. lia. }
    assert (join nl ls ++ nl ++ kCommandsSectionHeader ++ nl ++ join nl commands =
      foldr (fun a t => a ++ nl ++ t) (kCommandsSectionHeader ++ nl ++ join nl commands) ls) as ->.
    { clear - Hls. induction ls as [|x ls IH]; [done|]. destruct ls as [|y ls]; [done|].
      change (join nl (x :: y :: ls)) with (x ++ nl ++ join nl (y :: ls)). cbn [foldr] in *.
      rewrite !app_assoc_string. by rewrite IH. }
    rewrite lines_app by (eapply Forall_impl; [exact Hlines|]; naive_solver).
    rewrite lines_cons by done. f_equal. f_equal. apply lines_join.
    eapply Forall_impl; [exact Hcmd|]. intros l (? & ? & _). done. }
  unfold read_vpl_input. rewrite Hl. cbn [fold_left].
  change (vpl_step (SecNone, [], []) kBoardSectionHeader) with (SecBoard, @nil string, @nil string).
  rewrite fold_left_app, vpl_board_lines by (eapply Forall_impl; [exact Hlines|]; naive_solver).
  cbn [fold_left]. change (vpl_step (SecBoard, ([] ++ ls)%list, []) kCommandsSectionHeader)
    with (SecCommands, ls, @nil string).
  rewrite vpl_command_lines by (eapply Forall_impl; [exact Hcmd|]; unfold command_line; naive_solver).
  apply returns_bind. eapply returns_mono.
  { apply parse_board_rows_spec. rewrite Hsplit. apply Hp. }
  intros [e b'] [(-> & _ & Hwf & Htok & _)|(_ & Hno & _)]; simpl in *.
  - rewrite Hsplit in Htok. done.
  - exfalso. apply Hno. rewrite Hsplit. split_and!; [done|apply token_rows_valid|done].
Qed.

Lemma vpl_roundtrip_witness :
  let b := board_of [["wK"; "."]; ["."; "bP"]] in
  read_vpl_input (vpl_text ("wK ." ++ nl ++ ". bP") ["click 50 50"; "wait 1000"; "print board"])
  ⇓ (fun v => vpl_error v = BoardOk /\ board_wf (vpl_board v) /\
    token_rows (vpl_board v) = token_rows b /\
    vpl_commands v = ["click 50 50"; "wait 1000"; "print board"]).
Proof.
  apply (vpl_roundtrip (board_of [["wK"; "."]; ["."; "bP"]])).
  - split; [by apply board_of_wf|]. split; [vm_compute; reflexivity|]. split; [vm_compute; reflexivity|].
    by apply (grid_okb_sound (token_rows (board_of [["wK"; "."]; ["."; "bP"]]))).
  - repeat constructor; vm_compute; discriminate.
  - vm_compute. reflexivity.
Defined.
