(* ===== verification/GameInput.v ===== *)
(** * Input handling and the command-line program

    [src/src/ui/layout/board_layout.h], [board_layout_calculator.cpp],
    [ui_window_config.h] (pixel geometry), [src/src/io/game_input_handler.h]/
    [game_input_handler.cpp] (click semantics and text commands),
    [src/src/engine/game_engine.cpp] and [src/src/main.cpp] (the command-line
    program from its input text to its output text).

    Quotients of [int] truncate toward zero ([Z.quot]); products and sums that
    overflow [int] are undefined behaviour.  The font sizes of [BoardLayout]
    (drawing only) are not modelled. *)

From S2P Require Import Prelude Piece BoardModel PathUtils PieceRules CollisionResolver MoveScheduler RealTimeArbiter GameState CppString BoardIO.
From Stdlib Require Import Ascii String.
Open Scope string_scope.
Open Scope Z_scope.

(** ** Layout *)

Definition kReferenceCellSizePixels : Z := 100.

Record BoardLayout := mkLayout {
  board_x : Z;
  board_y : Z;
  cell_size : Z;
  board_width_pixels : Z;
  board_height_pixels : Z
}.

Definition empty_layout : BoardLayout := mkLayout 0 0 0 0 0.

Definition cell_origin_x (l : BoardLayout) (col : Z) : res Z :=
  p ← int_mul (to_int col) (cell_size l); int_add (board_x l) p.

Definition cell_origin_y (l : BoardLayout) (row : Z) : res Z :=
  p ← int_mul (to_int row) (cell_size l); int_add (board_y l) p.

(** [try_pixel_to_cell]: [Some (row, col)] when it returns true. *)
Definition try_pixel_to_cell (l : BoardLayout) (x y width_cells height_cells : Z) :
    res (option Cell) :=
  if (cell_size l <=? 0) || (width_cells =? 0) || (height_cells =? 0) then Ok None
  else if (x <? board_x l) || (y <? board_y l) then Ok None
  else
    local_x ← int_sub x (board_x l);
    local_y ← int_sub y (board_y l);
    if (board_width_pixels l <=? local_x) || (board_height_pixels l <=? local_y) then Ok None
    else
      let col := to_size (Z.quot local_x (cell_size l)) in
      let row := to_size (Z.quot local_y (cell_size l)) in
      Ok (if (col <? width_cells) && (row <? height_cells) then Some (row, col) else None).

Definition calculate (window_width window_height board_width_cells board_height_cells : Z) :
    res BoardLayout :=
  if (window_width <=? 0) || (window_height <=? 0) || (board_width_cells <=? 0)
     || (board_height_cells <=? 0)
  then Ok empty_layout
  else
    let size := Z.min (Z.quot window_width board_width_cells)
                      (Z.quot window_height board_height_cells) in
    width_pixels ← int_mul size board_width_cells;
    height_pixels ← int_mul size board_height_cells;
    dx ← int_sub window_width width_pixels;
    dy ← int_sub window_height height_pixels;
    Ok (mkLayout (Z.quot dx 2) (Z.quot dy 2) size width_pixels height_pixels).

(** The width and height of the default window. *)
Definition default_initial_window_size (rows cols : Z) : res (Z * Z) :=
  w ← int_mul (to_int cols) kReferenceCellSizePixels;
  h ← int_mul (to_int rows) kReferenceCellSizePixels;
  Ok (w, h).

(** ** [GameInputHandler]: the handler refers to a game and owns a layout *)

Definition bootstrap_default_layout (g : GameState) : res BoardLayout :=
  if (gs_rows g =? 0) || (gs_cols g =? 0) then Ok empty_layout
  else
    window ← default_initial_window_size (gs_rows g) (gs_cols g);
    calculate window.1 window.2 (to_int (gs_cols g)) (to_int (gs_rows g)).

Definition pixel_to_cell (layout : BoardLayout) (g : GameState) (x y : Z) : res (option Cell) :=
  if (gs_rows g =? 0) || (gs_cols g =? 0) then Ok None
  else try_pixel_to_cell layout x y (gs_cols g) (gs_rows g).

(** [is_piece_moving || is_piece_jumping || is_piece_resting]. *)
Definition is_busy (g : GameState) (row col : Z) : res bool :=
  if is_piece_moving g row col then Ok true
  else if is_piece_jumping g row col then Ok true
  else is_piece_resting g row col.

Definition handle_select (g : GameState) (row col : Z) : res GameState :=
  s ← is_selectable_piece g row col;
  Ok (if s : bool then select g row col else g).

Definition handle_friendly_click (g : GameState) (row col : Z) : res GameState :=
  match selection g with
  | Some (from_row, from_col) =>
      if (from_row =? row) && (from_col =? col) then
        busy ← is_busy g from_row from_col;
        if negb busy then jump_selected g else Ok g
      else Ok (select g row col)
  | None => Ok (select g row col)
  end.

Definition handle_move_attempt (g : GameState) (row col : Z) : res GameState :=
  match selection g with
  | None => Ok g
  | Some (from_row, from_col) =>
      busy ← is_busy g from_row from_col;
      if busy : bool then Ok g else move_selected_to g row col
  end.

Definition handle_click (layout : BoardLayout) (g : GameState) (x y : Z) : res GameState :=
  if is_game_over g then Ok g
  else
    cell ← pixel_to_cell layout g x y;
    match cell with
    | None => Ok g
    | Some (row, col) =>
        if negb (gs_is_in_bounds g row col) then Ok g
        else if negb (has_selection g) then handle_select g row col
        else
          friendly ← is_friendly_to_selection g row col;
          if friendly : bool then handle_friendly_click g row col
          else handle_move_attempt g row col
    end.

Definition handle_jump (layout : BoardLayout) (g : GameState) (x y : Z) : res GameState :=
  if is_game_over g then Ok g
  else
    cell ← pixel_to_cell layout g x y;
    match cell with
    | None => Ok g
    | Some (row, col) =>
        if negb (gs_is_in_bounds g row col) then Ok g
        else
          busy ← is_busy g row col;
          if busy : bool then Ok g
          else g' ← jump_at g row col; Ok (clear_selection g')
    end.

Definition handle_wait (g : GameState) (ms : Z) : res GameState :=
  if is_game_over g then Ok g else add_clock g ms.

Definition handle_print_board (g : GameState) (out : string) : res (GameState * string) :=
  GameState.write_board g out BoardIO.write_board.

(** The commands of [execute], as parsed from the text. *)
Inductive Command :=
| Click (x y : Z)
| Jump (x y : Z)
| Wait (ms : Z)
| PrintBoard
| Ignored.

Definition parse_command (command : string) : Command :=
  match extract_word command with
  | None => Ignored
  | Some (verb, rest) =>
      if String.eqb verb "click" then
        match extract_int rest with
        | Some (x, rest') =>
            match extract_int rest' with Some (y, _) => Click x y | None => Ignored end
        | None => Ignored
        end
      else if String.eqb verb "jump" then
        match extract_int rest with
        | Some (x, rest') =>
            match extract_int rest' with Some (y, _) => Jump x y | None => Ignored end
        | None => Ignored
        end
      else if String.eqb verb "wait" then
        match extract_i64 rest with Some (ms, _) => Wait ms | None => Ignored end
      else if String.eqb verb "print" && String.eqb command kPrintBoardCommand then PrintBoard
      else Ignored
  end.

Definition execute (layout : BoardLayout) (command : string) (st : GameState * string) :
    res (GameState * string) :=
  let '(g, out) := st in
  match parse_command command with
  | Click x y => g' ← handle_click layout g x y; Ok (g', out)
  | Jump x y => g' ← handle_jump layout g x y; Ok (g', out)
  | Wait ms => g' ← handle_wait g ms; Ok (g', out)
  | PrintBoard => r ← handle_print_board g out; Ok (r.1, r.2 ++ nl)
  | Ignored => Ok (g, out)
  end.

(** ** [GameEngine] and [main] *)

Definition execute_all (layout : BoardLayout) (commands : list string) (st : GameState * string) :
    res (GameState * string) :=
  foldM (execute layout) commands st.

(** The standard output of the program on the given standard input. *)
Definition main (input : string) : res string :=
  v ← read_vpl_input input;
  if negb (bool_decide (vpl_error v = BoardOk)) then Ok (board_error_message (vpl_error v) ++ nl)
  else
    let g := new_game (vpl_board v) in
    layout ← bootstrap_default_layout g;
    r ← execute_all layout (vpl_commands v) (g, "");
    Ok r.2.

(** ** Geometry *)

Lemma quot_cell local size cells : 0 < size -> 0 <= local -> local < size * cells ->
  forall k, Z.quot local size = k <-> size * k <= local < size * (k + 1).
Proof.
  intros Hs Hl Hc k. rewrite Z.quot_div_nonneg by lia.
  split; [intros <-|intros Hk].
  - pose proof (Z.div_mod local size ltac:(lia)). pose proof (Z.mod_pos_bound local size Hs). nia.
  - symmetry. apply (Z.div_unique local size k (local - size * k)); lia.
Qed.

(** What the calculator promises: the board fits the window and is centred. *)
Record layout_fits (w h wc hc : Z) (l : BoardLayout) : Prop := {
  lf_width : board_width_pixels l = cell_size l * wc;
  lf_height : board_height_pixels l = cell_size l * hc;
  lf_size : 0 <= cell_size l;
  lf_x : 0 <= board_x l /\ w - 1 <= 2 * board_x l + board_width_pixels l <= w;
  lf_y : 0 <= board_y l /\ h - 1 <= 2 * board_y l + board_height_pixels l <= h
}.

Lemma quot_half d : 0 <= d -> 0 <= Z.quot d 2 /\ d - 1 <= 2 * Z.quot d 2 <= d.
Proof.
  intros Hd. rewrite Z.quot_div_nonneg by lia.
  pose proof (Z.div_mod d 2 ltac:(lia)). pose proof (Z.mod_pos_bound d 2 ltac:(lia)). lia.
Qed.

Lemma calculate_fits w h wc hc : 0 < w < 2 ^ 31 -> 0 < h < 2 ^ 31 -> 0 < wc < 2 ^ 31 ->
  0 < hc < 2 ^ 31 -> calculate w h wc hc ⇓ layout_fits w h wc hc.
Proof.
  intros Hw Hh Hwc Hhc. unfold calculate, int_mul, int_sub.
  destruct (Z.leb_spec w 0), (Z.leb_spec h 0), (Z.leb_spec wc 0), (Z.leb_spec hc 0); try lia.
  cbn [orb]. rewrite !Z.quot_div_nonneg by lia. set (size := Z.min (w / wc) (h / hc)).
  assert (0 <= size /\ size * wc <= w /\ size * hc <= h) as (Hsz0 & Hsz1 & Hsz2).
  { unfold size. pose proof (Z.mul_div_le w wc ltac:(lia)). pose proof (Z.mul_div_le h hc ltac:(lia)).
    pose proof (Z.div_pos w wc ltac:(lia) ltac:(lia)). pose proof (Z.div_pos h hc ltac:(lia) ltac:(lia)).
    nia. }
  rewrite !int_checked_ok, !bind_ok by (unfold fits_int; nia).
  rewrite !int_checked_ok, !bind_ok by (unfold fits_int; nia). apply returns_ok.
  destruct (quot_half (w - size * wc)) as [Ha Hb]; [lia|].
  destruct (quot_half (h - size * hc)) as [Hc Hd]; [lia|].
  split; simpl; lia.
Qed.

(** The cell whose square contains the pixel. *)
Definition contains_pixel (l : BoardLayout) (r c x y : Z) : Prop :=
  board_x l + cell_size l * c <= x < board_x l + cell_size l * (c + 1) /\
  board_y l + cell_size l * r <= y < board_y l + cell_size l * (r + 1).

Lemma try_pixel_to_cell_spec w h wc hc l x y : layout_fits w h wc hc l ->
  0 < w < 2 ^ 31 -> 0 < h < 2 ^ 31 -> 0 < wc -> 0 < hc -> fits_int x -> fits_int y ->
  try_pixel_to_cell l x y wc hc ⇓ (fun o => forall r c, o = Some (r, c) <->
    0 <= r < hc /\ 0 <= c < wc /\ contains_pixel l r c x y).
Proof.
  intros [Hlw Hlh Hls Hlx Hly] Hw Hh Hwc Hhc Hx Hy. unfold try_pixel_to_cell, contains_pixel.
  unfold fits_int in *. set (bx := board_x l) in *. set (by_ := board_y l) in *.
  set (sz := cell_size l) in *. rewrite Hlw, Hlh in *.
  assert (forall r c, 0 <= r < hc -> 0 <= c < wc -> sz * c + sz <= sz * wc /\ sz * r + sz <= sz * hc)
    as Hmono by (intros; nia).
  destruct (_ || _ || _) eqn:E0.
  { apply returns_ok. split; [done|]. intros (_ & _ & Hp & _).
    rewrite !orb_true_iff, Z.leb_le, !Z.eqb_eq in E0. nia. }
  zbool. destruct ((x <? bx) || (y <? by_)) eqn:E1.
  { apply returns_ok. split; [done|]. intros (Hr & Hc & Hp1 & Hp2).
    rewrite orb_true_iff, !Z.ltb_lt in E1. nia. }
  zbool. unfold int_sub. rewrite !int_checked_ok, !bind_ok by (unfold fits_int; lia).
  destruct ((sz * wc <=? x - bx) || (sz * hc <=? y - by_)) eqn:E2.
  { apply returns_ok. split; [done|]. intros (Hr & Hc & Hp1 & Hp2).
    rewrite orb_true_iff, !Z.leb_le in E2. destruct (Hmono r c Hr Hc). lia. }
  zbool. pose proof (quot_cell (x - bx) sz wc ltac:(lia) ltac:(lia) ltac:(lia)) as Hqx.
  pose proof (quot_cell (y - by_) sz hc ltac:(lia) ltac:(lia) ltac:(lia)) as Hqy.
  set (qx := Z.quot (x - bx) sz) in *. set (qy := Z.quot (y - by_) sz) in *.
  pose proof (proj1 (Hqx qx) eq_refl) as Hx'. pose proof (proj1 (Hqy qy) eq_refl) as Hy'.
  assert (0 <= qx < wc /\ qx < 2 ^ 31 /\ 0 <= qy < hc /\ qy < 2 ^ 31) as (Hx1 & Hx2 & Hy1 & Hy2) by nia.
  rewrite !to_size_id by lia.
  rewrite (proj2 (Z.ltb_lt qx wc)), (proj2 (Z.ltb_lt qy hc)) by lia. apply returns_ok.
  intros r c. split.
  - intros [= <- <-]. split_and!; lia.
  - intros (Hr & Hc & Hp1 & Hp2). f_equal. f_equal; [apply Hqy|apply Hqx]; lia.
Qed.

(** ** The handler acts through game actions *)

(** [g'] is reached from [g] by well-typed game actions that take no time. *)
Definition acts (g g' : GameState) : Prop :=
  exists actions, actions_ok (clock_ms g) actions /\ clock_steps actions = 0 /\
    run actions g = Ok g'.

(** A layout that fits the board of the game. *)
Definition layout_ok (g : GameState) (l : BoardLayout) : Prop :=
  gs_rows g = 0 \/ gs_cols g = 0 \/
  exists w h, 0 < w < 2 ^ 31 /\ 0 < h < 2 ^ 31 /\ layout_fits w h (gs_cols g) (gs_rows g) l.

Lemma acts_refl g : acts g g.
Proof. by exists []. Qed.

Section Handler.
Context (g : GameState) `{!RulesOk (rules_ g)} (Hg : game_inv g).

Let Hwf : board_wf (board_ g) := fi_wf _ _ (gi_flights g Hg).

Lemma acts_action action : action_ok g action -> clock_step action = 0 ->
  apply_action g action ⇓ acts g.
Proof.
  intros Hok Hc. destruct (proj1 (returns_eq _ _) (apply_action_inv g Hg action Hok)) as (g' & E & _).
  rewrite E. apply returns_ok. exists [action]. split_and!.
  - simpl. split; [|done]. by destruct action.
  - simpl. lia.
  - unfold run. simpl. by rewrite E.
Qed.

(** Two actions in a row, the second of which needs no coordinates. *)
Lemma acts_then action : action_ok g action -> clock_step action = 0 ->
  (g' ← apply_action g action; Ok (clear_selection g')) ⇓ acts g.
Proof.
  intros Hok Hc.
  destruct (proj1 (returns_eq _ _) (apply_action_inv g Hg action Hok)) as (g' & E & _).
  rewrite E, bind_ok. apply returns_ok. exists [action; ClearSelection]. split_and!.
  - simpl. split; [by destruct action|done].
  - simpl. lia.
  - unfold run. simpl. by rewrite E.
Qed.

Lemma inside_u64 r c : inside (board_ g) r c -> fits_u64 r /\ fits_u64 c.
Proof. intros Hin%(inside_fits _ _ _ (proj1 Hwf)). unfold fits_u64. lia. Qed.

Lemma is_busy_total r c : inside (board_ g) r c -> is_busy g r c ⇓ (fun _ => True).
Proof.
  intros Hin. unfold is_busy. do 2 (case_match; [done|]). destruct Hin.
  by rewrite is_piece_resting_eq by (done || lia).
Qed.

Lemma is_selectable_total r c : inside (board_ g) r c -> is_selectable_piece g r c ⇓ (fun _ => True).
Proof.
  intros Hin. unfold is_selectable_piece, is_piece, gs_is_in_bounds.
  rewrite (inside_bounds _ _ _ Hin). cbn [negb].
  rewrite is_empty_inside, !bind_ok by done. case_match; [|done]. destruct Hin.
  by rewrite is_piece_resting_eq by (done || lia).
Qed.

Lemma is_friendly_total r c : inside (board_ g) r c ->
  is_friendly_to_selection g r c ⇓ (fun _ => True).
Proof.
  intros Hin. unfold is_friendly_to_selection.
  destruct (selected_ g) as [[sr sc]|] eqn:Hs; [|done]. apply returns_bind.
  eapply returns_mono; [by apply is_selectable_total|]. intros [] _; [|done]. cbn [negb].
  pose proof (gi_selected g Hg sr sc Hs) as Hsel.
  by rewrite !piece_at_inside by (done || apply Hwf).
Qed.

Lemma pixel_to_cell_total l x y : layout_ok g l -> fits_int x -> fits_int y ->
  pixel_to_cell l g x y ⇓ (fun o => forall r c, o = Some (r, c) -> inside (board_ g) r c).
Proof.
  intros Hl Hx Hy. unfold pixel_to_cell. destruct (_ || _) eqn:E; [done|]. zbool.
  destruct Hl as [|[|(w & h & Hw & Hh & Hl)]]; [done..|].
  assert (0 < gs_cols g /\ 0 < gs_rows g) as [Hc0 Hr0].
  { unfold gs_rows, gs_cols, rows, cols in *. pose proof (vlen_nonneg (cells_ (board_ g))).
    destruct (cells_ (board_ g)) as [|front rest]; [done|]. pose proof (vlen_nonneg front). lia. }
  eapply returns_mono; [by apply (try_pixel_to_cell_spec w h (gs_cols g) (gs_rows g))|].
  intros o Ho r c (Hr & Hc & _)%Ho. by split.
Qed.

Lemma handle_select_acts r c : inside (board_ g) r c -> handle_select g r c ⇓ acts g.
Proof.
  intros Hin. unfold handle_select. apply returns_bind.
  eapply returns_mono; [by apply is_selectable_total|].
  intros [] _; [|apply returns_ok, acts_refl].
  apply (acts_action (Select r c)); [|done]. by apply inside_u64.
Qed.

Lemma handle_friendly_click_acts r c : inside (board_ g) r c ->
  handle_friendly_click g r c ⇓ acts g.
Proof.
  intros Hin. unfold handle_friendly_click.
  assert (Ok (select g r c) ⇓ acts g) as Hsel.
  { apply (acts_action (Select r c)); [|done]. by apply inside_u64. }
  destruct (selection g) as [[fr fc]|] eqn:Hs; [|done]. destruct (_ && _); [|done].
  apply returns_bind. eapply returns_mono; [by apply is_busy_total, (gi_selected g Hg)|].
  intros [] _; cbn [negb]; [apply returns_ok, acts_refl|]. by apply (acts_action JumpSelected).
Qed.

Lemma handle_move_attempt_acts r c : inside (board_ g) r c -> handle_move_attempt g r c ⇓ acts g.
Proof.
  intros Hin. unfold handle_move_attempt.
  destruct (selection g) as [[fr fc]|] eqn:Hs; [|apply returns_ok, acts_refl].
  apply returns_bind. eapply returns_mono; [by apply is_busy_total, (gi_selected g Hg)|].
  intros [] _; [apply returns_ok, acts_refl|].
  apply (acts_action (MoveSelected r c)); [|done]. by apply inside_u64.
Qed.

Lemma handle_click_acts l x y : layout_ok g l -> fits_int x -> fits_int y ->
  handle_click l g x y ⇓ (fun g' => acts g g' /\ (game_over_ g = true -> g' = g)).
Proof.
  intros Hl Hx Hy. unfold handle_click, is_game_over.
  destruct (game_over_ g); [apply returns_ok; split; [apply acts_refl|done]|].
  assert (forall m : res GameState, m ⇓ acts g ->
    m ⇓ (fun g' => acts g g' /\ (false = true -> g' = g))) as Hweak.
  { intros m Hm. eapply returns_mono; [exact Hm|]. naive_solver. }
  apply Hweak. apply returns_bind. eapply returns_mono; [by apply pixel_to_cell_total|].
  intros [[r c]|] Hin; [|apply returns_ok, acts_refl].
  specialize (Hin r c eq_refl). unfold gs_is_in_bounds. rewrite (inside_bounds _ _ _ Hin).
  cbn [negb]. destruct (negb (has_selection g)); [by apply handle_select_acts|].
  apply returns_bind. eapply returns_mono; [by apply is_friendly_total|].
  intros [] _; [by apply handle_friendly_click_acts|by apply handle_move_attempt_acts].
Qed.

Lemma handle_jump_acts l x y : layout_ok g l -> fits_int x -> fits_int y ->
  handle_jump l g x y ⇓ (fun g' => acts g g' /\ (game_over_ g = true -> g' = g)).
Proof.
  intros Hl Hx Hy. unfold handle_jump, is_game_over.
  destruct (game_over_ g); [apply returns_ok; split; [apply acts_refl|done]|].
  apply returns_bind. eapply returns_mono; [by apply pixel_to_cell_total|].
  intros [[r c]|] Hin; [|apply returns_ok; split; [apply acts_refl|done]].
  specialize (Hin r c eq_refl). unfold gs_is_in_bounds. rewrite (inside_bounds _ _ _ Hin).
  cbn [negb]. apply returns_bind. eapply returns_mono; [by apply is_busy_total|].
  intros [] _; [apply returns_ok; split; [apply acts_refl|done]|].
  eapply returns_mono; [apply (acts_then (JumpAt r c)); [by apply inside_u64|done]|]. naive_solver.
Qed.
End Handler.

(** ** The program as a whole *)

(** The time a list of commands may let pass. *)
Definition wait_total (commands : list string) : Z :=
  foldr (fun c t => match parse_command c with Wait ms => Z.abs ms + t | _ => t end) 0 commands.

Lemma wait_total_nonneg commands : 0 <= wait_total commands.
Proof. induction commands as [|c l IH]; simpl; [done|]. case_match; lia. Qed.

Lemma extract_int_fits s x rest : extract_int s = Some (x, rest) -> fits_int x.
Proof.
  unfold extract_int, extract_signed, fits_int. intros E.
  repeat case_match; simplify_eq; zbool; lia.
Qed.

Lemma parse_command_fits command :
  match parse_command command with
  | Click x y | Jump x y => fits_int x /\ fits_int y
  | _ => True
  end.
Proof.
  unfold parse_command. destruct (extract_word command) as [[verb rest]|]; [|done].
  assert (forall F : Z -> Z -> Command, (forall x y, F x y = Click x y \/ F x y = Jump x y) ->
    match match extract_int rest with
          | Some (x, rest') => match extract_int rest' with Some (y, _) => F x y | None => Ignored end
          | None => Ignored
          end with
    | Click x y | Jump x y => fits_int x /\ fits_int y
    | _ => True
    end) as Hint.
  { intros F HF. destruct (extract_int rest) as [[x rest1]|] eqn:E1; [|done].
    destruct (extract_int rest1) as [[y rest2]|] eqn:E2; [|done].
    apply extract_int_fits in E1, E2. by destruct (HF x y) as [-> | ->]. }
  destruct (String.eqb verb "click"); [apply (Hint Click); auto|].
  destruct (String.eqb verb "jump"); [apply (Hint Jump); auto|].
  destruct (String.eqb verb "wait"); [by destruct (extract_i64 rest) as [[]|]|].
  by destruct (String.eqb verb "print" && _).
Qed.

(** What the command loop maintains. *)
Record session_ok (l : BoardLayout) (budget : Z) (g : GameState) : Prop := {
  so_inv : game_inv g;
  so_rules : RulesOk (rules_ g);
  so_layout : layout_ok g l;
  so_clock : Z.abs (clock_ms g) + budget <= 2 ^ 61
}.

Lemma evolves_layout g g' l : game_evolves g g' -> layout_ok g l -> layout_ok g' l.
Proof.
  intros [_ [[Hr Hc _ _] _ _]]. unfold layout_ok, gs_rows, gs_cols. by rewrite Hr, Hc.
Qed.

Lemma acts_session l budget g g' : session_ok l budget g -> acts g g' -> session_ok l budget g'.
Proof.
  intros [Hi Hr Hl Hc] (actions & Hok & Hstep & Hrun).
  destruct (returns_elim _ _ _ (run_inv actions g Hr Hi Hok) Hrun) as (Hi' & Hev & Hclk).
  split; [done|by rewrite (ge_rules _ _ Hev)|by eapply evolves_layout|lia].
Qed.

(** Printing settles the game at its present clock and prints the settled board. *)
Lemma handle_print_board_spec l budget g out : session_ok l budget g ->
  handle_print_board g out ⇓ (fun r => session_ok l budget r.1 /\ quiescent (arbiter_ r.1) /\
    r.2 = out ++ join nl (join " " <$> token_rows (board_ r.1))).
Proof.
  intros [Hi Hr Hl Hc]. unfold handle_print_board, GameState.write_board, gs_settle_pending_moves.
  apply returns_bind, returns_bind. pose proof (gi_clock g Hi) as Hclk.
  pose proof (settle_inv g Hi (clock_ms g) Hclk) as Hs. unfold clock_ms in Hs.
  destruct (arbiter_ g) as [sch clk] eqn:Ea. cbn [scheduler_ clock_ms_] in Hs.
  eapply returns_mono; [exact Hs|]. intros r (Hi' & Hev & Hq & Hc'). apply returns_ok.
  rewrite write_board_eq by apply (fi_wf _ _ (gi_flights _ Hi')). rewrite bind_ok.
  apply returns_ok. split_and!; [|done|done]. cbn [fst].
  split; [done|by rewrite (ge_rules _ _ Hev)|by eapply evolves_layout|].
  cbn [fst]. unfold clock_ms in *. rewrite Ea in Hc. simpl in *. lia.
Qed.

Lemma execute_session l budget command g out :
  session_ok l (budget + match parse_command command with Wait ms => Z.abs ms | _ => 0 end) g ->
  0 <= budget -> execute l command (g, out) ⇓ (fun r => session_ok l budget r.1).
Proof.
  intros Hs Hb. unfold execute. pose proof (parse_command_fits command) as Hfit.
  destruct (parse_command command) as [x y|x y|ms| |]; rewrite ?Z.add_0_r in Hs;
    pose proof (so_inv _ _ _ Hs) as Hi; pose proof (so_rules _ _ _ Hs) as Hr;
    pose proof (so_layout _ _ _ Hs) as Hl.
  - apply returns_bind. eapply returns_mono; [by apply handle_click_acts; [..|apply Hfit|apply Hfit]|].
    intros g' [Ha _]. by eapply acts_session.
  - apply returns_bind. eapply returns_mono; [by apply handle_jump_acts; [..|apply Hfit|apply Hfit]|].
    intros g' [Ha _]. by eapply acts_session.
  - apply returns_bind. pose proof (so_clock _ _ _ Hs) as Hc. unfold handle_wait.
    destruct (is_game_over g); [split; [done..|]; cbn [fst]; lia|].
    eapply returns_mono; [apply (add_clock_inv g Hi ms); lia|]. intros g' (Hi' & Hev & _ & Hc').
    apply returns_ok. cbn [fst]. split; [done|by rewrite (ge_rules _ _ Hev)|by eapply evolves_layout|]. cbn [fst]. lia.
  - apply returns_bind. eapply returns_mono; [by apply handle_print_board_spec|]. naive_solver.
  - done.
Qed.

Lemma execute_all_session l commands g out : session_ok l (wait_total commands) g ->
  execute_all l commands (g, out) ⇓ (fun r => session_ok l 0 r.1).
Proof.
  unfold execute_all. revert g out. induction commands as [|c commands IH]; intros g out Hs.
  { done. }
  cbn [foldM]. apply returns_bind. eapply returns_mono.
  - apply (execute_session l (wait_total commands)); [|apply wait_total_nonneg].
    cbn [wait_total foldr] in Hs. fold (wait_total commands) in Hs.
    destruct (parse_command c); by rewrite ?Z.add_0_r, 1?Z.add_comm.
  - intros [g' out'] Hs'. by apply IH.
Qed.

(** The two sections of an input text. *)
Definition vpl_sections (text : string) : list string * list string :=
  let '(_, board_lines, commands) := fold_left vpl_step (lines text) (SecNone, [], []) in
  (board_lines, commands).

(** The input fits the machine types: board dimensions and default window fit
    [int], and the waits add up to less than 2^61 ms. *)
Definition input_fits (text : string) : Prop :=
  let grid := split_row <$> (vpl_sections text).1 in
  grid_fits grid /\ vlen grid * 100 < 2 ^ 31 /\ Forall (fun l => vlen l * 100 < 2 ^ 31) grid /\
  wait_total (vpl_sections text).2 <= 2 ^ 61.

Lemma bootstrap_layout_ok b : board_wf b -> rows b * 100 < 2 ^ 31 -> cols b * 100 < 2 ^ 31 ->
  bootstrap_default_layout (new_game b) ⇓ layout_ok (new_game b).
Proof.
  intros Hwf Hr Hc. unfold bootstrap_default_layout, layout_ok.
  change (gs_rows (new_game b)) with (rows b). change (gs_cols (new_game b)) with (cols b).
  destruct (Z.eqb_spec (rows b) 0); [apply returns_ok; auto|].
  destruct (Z.eqb_spec (cols b) 0); [apply returns_ok; auto|]. cbn [orb].
  assert (0 < rows b /\ 0 < cols b) as [Hr0 Hc0].
  { unfold rows, cols in *. pose proof (vlen_nonneg (cells_ b)).
    destruct (cells_ b) as [|front rest]; [done|]. pose proof (vlen_nonneg front). lia. }
  unfold default_initial_window_size, int_mul, kReferenceCellSizePixels.
  rewrite !to_int_id by (unfold fits_int; lia).
  rewrite !int_checked_ok, !bind_ok by (unfold fits_int; lia). cbn [fst snd].
  eapply returns_mono; [apply calculate_fits; lia|]. intros l Hl. right; right.
  eexists _, _. split_and!; [| | | |exact Hl]; lia.
Qed.

(** C38: The command-line program is total: on every input text that fits the
    machine types it terminates normally with some output, whatever the commands
    are (unknown commands, clicks anywhere, negative waits, a malformed board). *)
Theorem main_total input : input_fits input -> main input ⇓ (fun _ => True).
Proof.
  intros Hfit. unfold main, read_vpl_input. unfold input_fits, vpl_sections in Hfit.
  destruct (fold_left vpl_step (lines input) (SecNone, [], [])) as [[sec bl] cmds].
  cbn [fst snd] in Hfit. destruct Hfit as (Hg & Hr & Hc & Hw).
  apply returns_bind, returns_bind. eapply returns_mono; [by apply parse_board_rows_spec|].
  intros [e b] [(He & _ & Hwf & Htok & Hidle)|(He & _)]; cbn [fst snd] in *;
    apply returns_ok; cbn [vpl_error vpl_board vpl_commands].
  2: by rewrite bool_decide_false by done.
  rewrite bool_decide_true by done. cbn [negb]. apply returns_bind.
  assert (rows b = vlen (split_row <$> bl)) as Hrows.
  { rewrite <- Htok. unfold token_rows. by rewrite vlen_fmap. }
  assert (cols b * 100 < 2 ^ 31) as Hcols.
  { rewrite <- Htok in Hc. unfold cols, token_rows in *. destruct (cells_ b) as [|front rest]; [lia|].
    rewrite fmap_cons in Hc. apply Forall_cons in Hc as [Hc _]. unfold line_tokens in Hc.
    by rewrite vlen_fmap in Hc. }
  eapply returns_mono; [apply bootstrap_layout_ok; [done|lia|lia]|]. intros l Hl.
  apply returns_bind. eapply returns_mono; [apply execute_all_session|done].
  split; [by apply game_with_rules_inv|apply standard_ok|done|]. unfold clock_ms. simpl. lia.
Qed.

Lemma main_total_witness :
  main (vpl_text ("wK . ." ++ nl ++ ". bP .") ["click 50 50"; "click 150 50"; "wait 1000"; "print board"])
  ⇓ (fun _ => True).
Proof.
  apply main_total.
  set (text := vpl_text _ _).
  assert (grid_okb (split_row <$> (vpl_sections text).1) = true) as Hok by (vm_compute; reflexivity).
  split; [by apply (grid_okb_sound _ Hok)|]. split; [vm_compute; reflexivity|].
  split; [|vm_compute; discriminate].
  change (split_row <$> (vpl_sections text).1) with [["wK"; "."; "."]; ["."; "bP"; "."]].
  apply Forall_cons. split; [reflexivity|]. apply Forall_cons. split; [reflexivity|].
  by apply Forall_nil.
Defined.

(** Input is mediated by game actions: a click or a jump at any pixel has the
    effect of a (possibly empty) sequence of well-typed game actions that takes
    no time, and has no effect at all once the game is over. *)
Lemma pixel_input_correct g l x y :
  RulesOk (rules_ g) -> game_inv g -> layout_ok g l -> fits_int x -> fits_int y ->
  (handle_click l g x y ⇓ fun g' => acts g g' /\ (game_over_ g = true -> g' = g)) /\
  (handle_jump l g x y ⇓ fun g' => acts g g' /\ (game_over_ g = true -> g' = g)).
Proof. intros Hr Hg Hl Hx Hy. split; [by apply handle_click_acts|by apply handle_jump_acts]. Qed.

Lemma pixel_input_correct_witness :
  let l := mkLayout 0 0 100 400 400 in
  (handle_click l sample_game 350 350 ⇓ fun g' => acts sample_game g' /\
    (game_over_ sample_game = true -> g' = sample_game)) /\
  (handle_jump l sample_game 350 350 ⇓ fun g' => acts sample_game g' /\
    (game_over_ sample_game = true -> g' = sample_game)).
Proof.
  apply pixel_input_correct; [apply standard_ok|apply sample_game_inv| |unfold fits_int; lia..].
  right; right. exists 400, 400. split; [lia|]. split; [lia|].
  split; simpl; vm_compute; intuition discriminate.
Defined.
