(* ===== verification/GameMessages.v ===== *)
(** * The wire commands of the game

    [src/src/server/game_message_parser.h]/[game_message_parser.cpp] (parsing and
    authorisation of client messages) and [src/src/network/network_input_handler.cpp]
    (the messages the client sends).  The transport ([WebSocketClient::try_send])
    is not modelled: a [send_*] function is the text it hands to the transport.
    Diagnostics on [std::cerr] are omitted. *)

From S2P Require Import Prelude Piece BoardModel PathUtils PieceRules CollisionResolver MoveScheduler RealTimeArbiter GameState CppString BoardIO.
From Stdlib Require Import Ascii String.
Open Scope string_scope.
Open Scope Z_scope.

(** ** Tokens *)

(** [next_token]: the token and the remaining view.  A token ends at one of
    [" \t\r\n"], whereas leading white space is skipped by [std::isspace]. *)
Definition not_blank (c : ascii) : bool := negb (is_blank c).

Definition next_token (message : string) : option (string * string) :=
  let message := skip_ws message in
  if is_empty_string message then None else Some (span not_blank message).

(** The loop of [parse_non_negative_int] on a 64-bit [size_t]. *)
Fixpoint parse_digits (value : Z) (token : string) : option Z :=
  match token with
  | EmptyString => Some value
  | String ch rest =>
      if negb (isdigit ch) then None
      else parse_digits (to_size (value * 10 + digit_value ch)) rest
  end.

Definition parse_non_negative_int (token : string) : option Z :=
  if is_empty_string token then None else parse_digits 0 token.

(** Removal of trailing white space. *)
Fixpoint trim_back (s : string) : string :=
  match s with
  | EmptyString => EmptyString
  | String c s' =>
      let t := trim_back s' in
      if isspace c && is_empty_string t then EmptyString else String c t
  end.

Definition trim (message : string) : string := trim_back (skip_ws message).

(** ** Lobby messages *)

(** A message that is the single word [word]. *)
Definition parse_keyword (word message : string) : bool :=
  let message := trim message in
  if is_empty_string message then false
  else match next_token message with
  | None => false
  | Some (command, message) =>
      if negb (String.eqb command word) then false
      else match next_token message with Some _ => false | None => true end
  end.

Definition parse_play_message (message : string) : bool := parse_keyword "play" message.
Definition parse_resign_message (message : string) : bool := parse_keyword "resign" message.

Definition parse_join_game_message (message : string) : option Z :=
  let message := trim message in
  if is_empty_string message then None
  else
    '(command, message) ← next_token message;
    if negb (String.eqb command "join_game") then None
    else
      '(room_id_token, message) ← next_token message;
      parsed_room_id ← parse_non_negative_int room_id_token;
      match next_token message with
      | Some _ => None
      | None => Some (to_u64 parsed_room_id)
      end.

Record LoginRequest := mkLogin { username : string; password : string }.

Definition parse_login_message (message : string) : option LoginRequest :=
  let message := trim message in
  if is_empty_string message then None
  else
    '(command, message) ← next_token message;
    if negb (String.eqb command "login") then None
    else
      '(user, message) ← next_token message;
      if is_empty_string user then None
      else match next_token message with
      | None => Some (mkLogin user "")
      | Some (pass, message) =>
          match next_token message with
          | Some _ => None
          | None => Some (mkLogin user pass)
          end
      end.

(** ** Game messages *)

Definition parse_message (message : string) : res (option GameAction) :=
  let message := trim message in
  if is_empty_string message then Ok None
  else
    r ← deref (next_token message);
    let '(command, message) := r : string * string in
    if String.eqb command "clear" then
      Ok (match next_token message with Some _ => None | None => Some ClearSelection end)
    else if String.eqb command "select" || String.eqb command "move" || String.eqb command "jump"
    then
      Ok (match next_token message with
          | None => None
          | Some (row, message) =>
              match next_token message with
              | None => None
              | Some (col, message) =>
                  match next_token message with
                  | Some _ => None
                  | None =>
                      match parse_non_negative_int row, parse_non_negative_int col with
                      | Some parsed_row, Some parsed_col =>
                          if String.eqb command "select" then Some (Select parsed_row parsed_col)
                          else if String.eqb command "move" then
                            Some (MoveSelected parsed_row parsed_col)
                          else Some (JumpAt parsed_row parsed_col)
                      | _, _ => None
                      end
                  end
              end
          end)
    else Ok None.

(** ** Authorisation *)

Definition piece_color_at (g : GameState) (row col : Z) : res (option PieceColor) :=
  p ← is_piece g row col;
  if negb p then Ok None
  else
    token ← gs_token_at g row col;
    Ok (match descriptor_from_token token with
        | None => None
        | Some d => Some (d_color d)
        end).

Definition is_action_allowed (player_side : PieceColor) (g : GameState) (action : GameAction) :
    res bool :=
  let owns row col :=
    piece_color ← piece_color_at g row col;
    Ok (match piece_color with Some c => color_eqb c player_side | None => false end) in
  match action with
  | ClearSelection => Ok true
  | AdvanceClock _ => Ok false
  | Select row col | JumpAt row col => owns row col
  | MoveSelected _ _ | JumpSelected =>
      match selection g with
      | None => Ok false
      | Some (row, col) => owns row col
      end
  end.

(** ** The client's messages ([network_input_handler.cpp]) *)

Definition send_login (username password : string) : string :=
  if is_empty_string password then "login " ++ username
  else "login " ++ username ++ " " ++ password.
Definition send_play : string := "play".
Definition send_join_game (room_id : Z) : string := "join_game " ++ to_string room_id.
Definition send_select (row col : Z) : string :=
  "select " ++ to_string row ++ " " ++ to_string col.
Definition send_move (row col : Z) : string := "move " ++ to_string row ++ " " ++ to_string col.
Definition send_jump (row col : Z) : string := "jump " ++ to_string row ++ " " ++ to_string col.
Definition send_clear : string := "clear".
Definition send_resign : string := "resign".

(** ** Lemmas: tokens *)

Lemma word_cons s : is_word s -> exists c t, s = String c t /\ isspace c = false.
Proof.
  intros [Hne Hw]. destruct s as [|c t]; [done|]. simpl in Hw.
  apply andb_true_iff in Hw as [Hc _]. unfold not_space in Hc. apply negb_true_iff in Hc. eauto.
Qed.

Lemma not_space_not_blank c : not_space c = true -> not_blank c = true.
Proof.
  unfold not_space, not_blank, isspace, is_blank. rewrite !negb_true_iff, !orb_false_iff.
  intros [H1 H2]. rewrite andb_false_iff, !Z.leb_gt in H2. rewrite !Z.eqb_neq in *. lia.
Qed.

Lemma skip_ws_word w s : is_word w -> skip_ws (w ++ s) = w ++ s.
Proof. intros (c & t & -> & Hc)%word_cons. simpl. by rewrite Hc. Qed.

(** The next token of a text that starts with a word, possibly after a blank. *)
Lemma next_token_word w rest : is_word w ->
  match rest with EmptyString => True | String c _ => is_blank c = true end ->
  next_token (w ++ rest) = Some (w, rest).
Proof.
  intros Hw Hr. unfold next_token. rewrite skip_ws_word by done.
  destruct (word_cons w Hw) as (c & t & -> & Hc). cbn [String.append is_empty_string].
  change (String c (t ++ rest)) with (String c t ++ rest). f_equal. apply span_app.
  - eapply all_chars_impl; [|apply Hw]. apply not_space_not_blank.
  - destruct rest; [done|]. unfold not_blank. by rewrite Hr.
Qed.

Lemma next_token_space s : next_token (" " ++ s) = next_token s.
Proof. done. Qed.

Lemma next_token_end : next_token "" = None.
Proof. done. Qed.

Lemma trim_back_word a w : is_word w -> trim_back (a ++ w) = a ++ w.
Proof.
  intros Hw. induction a as [|c a IH]; simpl.
  - destruct Hw as [_ Hw]. induction w as [|c w IHw]; [done|]. simpl in *.
    apply andb_true_iff in Hw as [Hc Hw]. unfold not_space in Hc. apply negb_true_iff in Hc.
    rewrite Hc. simpl. by rewrite IHw.
  - rewrite IH. destruct (word_cons w Hw) as (d & t & -> & _).
    assert (is_empty_string (a ++ String d t) = false) as -> by (by destruct a).
    by rewrite andb_false_r.
Qed.

(** A text that starts and ends with a word is left alone. *)
Lemma trim_words w s w' : is_word w -> is_word w' -> trim (w ++ s ++ w') = w ++ s ++ w'.
Proof.
  intros Hw Hw'. unfold trim. rewrite skip_ws_word by done.
  rewrite <- app_assoc_string. by apply trim_back_word.
Qed.

Lemma trim_word w : is_word w -> trim w = w.
Proof.
  intros Hw. unfold trim. pose proof (skip_ws_word w "" Hw) as E. rewrite app_nil_string in E.
  rewrite E. by apply (trim_back_word "").
Qed.

(** ** Lemmas: numbers *)

Lemma parse_digits_value v s : all_chars isdigit s = true -> 0 <= v ->
  dec_value_from v s < 2 ^ 64 -> parse_digits v s = Some (dec_value_from v s).
Proof.
  revert v. induction s as [|c s IH]; intros v Hd Hv Hlt; [done|].
  simpl in *. apply andb_true_iff in Hd as [Hc Hd]. rewrite Hc. cbn [negb].
  pose proof (digit_value_range c Hc) as Hdv.
  pose proof (dec_value_from_ge (10 * v + digit_value c) s Hd ltac:(lia)).
  rewrite to_size_id by lia. replace (v * 10 + digit_value c) with (10 * v + digit_value c) by lia.
  apply IH; [done|lia|done].
Qed.

Lemma parse_to_string n : 0 <= n < 2 ^ 64 -> parse_non_negative_int (to_string n) = Some n.
Proof.
  intros Hn. destruct (to_string_digits n) as [Hd Hne]; [lia|].
  unfold parse_non_negative_int. destruct (to_string n) as [|c s] eqn:E; [done|].
  cbn [is_empty_string]. rewrite parse_digits_value; [|done|lia|].
  - f_equal. change (dec_value (String c s) = n). rewrite <- E. apply dec_value_to_string. lia.
  - change (dec_value (String c s) < 2 ^ 64). rewrite <- E, dec_value_to_string; lia.
Qed.

(** ** Lemmas: messages *)

(** A command word followed by two numbers. *)
Lemma parse_two_numbers (cmd : string) r c : is_word cmd -> 0 <= r < 2 ^ 64 -> 0 <= c < 2 ^ 64 ->
  let message := cmd ++ " " ++ to_string r ++ " " ++ to_string c in
  trim message = message /\
  next_token message = Some (cmd, " " ++ to_string r ++ " " ++ to_string c) /\
  next_token (" " ++ to_string r ++ " " ++ to_string c) = Some (to_string r, " " ++ to_string c) /\
  next_token (" " ++ to_string c) = Some (to_string c, "").
Proof.
  intros Hw Hr Hc. cbv zeta.
  assert (is_word (to_string r) /\ is_word (to_string c)) as [Hwr Hwc]
    by (split; apply to_string_word; lia).
  split_and!.
  - rewrite <- !app_assoc_string. rewrite !app_assoc_string.
    pose proof (trim_words cmd (" " ++ to_string r ++ " ") (to_string c) Hw Hwc) as E.
    by rewrite !app_assoc_string in E.
  - by apply next_token_word.
  - rewrite next_token_space. by apply next_token_word.
  - rewrite next_token_space. rewrite <- (app_nil_string (to_string c)) at 1. by apply next_token_word.
Qed.

Lemma not_empty_word_app w s : is_word w -> is_empty_string (w ++ s) = false.
Proof. by intros (c & t & -> & _)%word_cons. Qed.

Lemma word_lit (s : string) : s <> "" -> all_chars not_space s = true -> is_word s.
Proof. done. Qed.

Lemma parse_message_two cmd r c : is_word cmd -> cmd <> "clear" -> fits_u64 r -> fits_u64 c ->
  parse_message (cmd ++ " " ++ to_string r ++ " " ++ to_string c) =
  Ok (if String.eqb cmd "select" then Some (Select r c)
      else if String.eqb cmd "move" then Some (MoveSelected r c)
      else if String.eqb cmd "jump" then Some (JumpAt r c) else None).
Proof.
  intros Hw Hne Hr Hc. destruct (parse_two_numbers cmd r c Hw Hr Hc) as (E1 & E2 & E3 & E4).
  unfold parse_message. rewrite E1, not_empty_word_app, E2 by done. cbn [deref]. rewrite bind_ok.
  rewrite (proj2 (String.eqb_neq _ _) Hne). rewrite E3, E4, next_token_end.
  rewrite !parse_to_string by done.
  by destruct (String.eqb cmd "select"), (String.eqb cmd "move"), (String.eqb cmd "jump").
Qed.

(** The server reads the room of a join request. *)
Lemma parse_send_join_game id : fits_u64 id -> parse_join_game_message (send_join_game id) = Some id.
Proof.
  intros Hid. assert (is_word (to_string id)) as Hw by (apply to_string_word; apply Hid).
  unfold parse_join_game_message, send_join_game.
  change ("join_game " ++ to_string id) with ("join_game" ++ " " ++ to_string id).
  rewrite trim_words, not_empty_word_app, next_token_word by done. simpl.
  change (next_token (String " " (to_string id))) with (next_token (to_string id)).
  pose proof (next_token_word (to_string id) "" Hw I) as E. rewrite app_nil_string in E.
  rewrite E. simpl. rewrite parse_to_string by done. simpl. f_equal. by apply wrap_u_id.
Qed.

(** ** Lemmas: arbitrary client texts *)

Lemma skip_ws_head s c t : skip_ws s = String c t -> isspace c = false.
Proof.
  induction s as [|d s IH]; simpl; [done|]. destruct (isspace d) eqn:E; [done|]. by intros [= -> _].
Qed.

Lemma trim_head s : trim s <> "" -> exists c t, trim s = String c t /\ isspace c = false.
Proof.
  unfold trim. destruct (skip_ws s) as [|c t] eqn:E; [done|]. pose proof (skip_ws_head _ _ _ E) as Hc.
  simpl. rewrite Hc. simpl. eauto.
Qed.

Lemma next_token_head c t : isspace c = false ->
  next_token (String c t) = Some (span not_blank (String c t)).
Proof. intros Hc. unfold next_token. cbn [skip_ws]. by rewrite Hc. Qed.

Lemma parse_digits_range v s n : fits_u64 v -> parse_digits v s = Some n -> fits_u64 n.
Proof.
  revert v. induction s as [|c s IH]; intros v Hv; simpl; [by intros [= <-]|].
  destruct (negb (isdigit c)); [done|]. apply IH. apply wrap_u_range. lia.
Qed.

Lemma parse_non_negative_int_range s n : parse_non_negative_int s = Some n -> fits_u64 n.
Proof.
  unfold parse_non_negative_int. destruct (is_empty_string s); [done|].
  apply parse_digits_range. unfold fits_u64. lia.
Qed.

(** Whatever a client sends is handled without a fault, and yields at most an
    action with 64-bit coordinates that does not touch the clock. *)
Lemma parse_message_total message : parse_message message ⇓ (fun o => forall a, o = Some a ->
  (forall g, action_ok g a) /\ clock_step a = 0).
Proof.
  unfold parse_message. destruct (is_empty_string (trim message)) eqn:E; [done|].
  destruct (trim_head message) as (c & t & Et & Hc); [by intros Hx; rewrite Hx in E|].
  rewrite Et, next_token_head by done. cbn [deref]. rewrite bind_ok. destruct (span not_blank (String c t)) as [command rest].
  destruct (String.eqb command "clear").
  { apply returns_ok. intros a. destruct (next_token rest); [done|]. by intros [= <-]. }
  destruct (_ || _); [|done]. apply returns_ok. intros a.
  destruct (next_token rest) as [[row rest1]|]; [|done].
  destruct (next_token rest1) as [[col rest2]|]; [|done].
  destruct (next_token rest2); [done|].
  destruct (parse_non_negative_int row) as [r|] eqn:Er; [|done].
  destruct (parse_non_negative_int col) as [c'|] eqn:Ec; [|done].
  apply parse_non_negative_int_range in Er, Ec.
  destruct (String.eqb command "select"); [by intros [= <-]|].
  by destruct (String.eqb command "move"); intros [= <-].
Qed.

(** ** Lemmas: authorisation *)

Lemma token_color color kind : exists d,
  descriptor_from_token (to_token color kind) = Some d /\ d_color d = color.
Proof. destruct color, kind; eexists; (split; [reflexivity|done]). Qed.

Lemma piece_color_at_eq g r c : game_inv g -> 0 <= r -> 0 <= c ->
  piece_color_at g r c = Ok (p_color <$> occupant (board_ g) r c).
Proof.
  intros Hg Hr Hc. pose proof (fi_wf _ _ (gi_flights g Hg)) as Hwf.
  unfold piece_color_at, is_piece, gs_is_in_bounds.
  destruct (is_in_bounds (board_ g) r c) eqn:Hb; cbn [negb].
  - apply is_in_bounds_spec in Hb; [|done..]. rewrite is_empty_inside, !bind_ok by done.
    destruct (occupant (board_ g) r c) as [p|] eqn:Ho; [|by rewrite bool_decide_true].
    rewrite bool_decide_false by done. cbn [negb]. unfold gs_token_at, token_at.
    rewrite piece_at_inside, Ho, !bind_ok by (done || apply Hwf).
    destruct (token_color (p_color p) (p_kind p)) as (d & -> & Hd). simpl. by rewrite Hd.
  - apply is_in_bounds_false in Hb; [|done..]. rewrite bind_ok. cbn [negb].
    by rewrite occupant_outside by (done || apply Hwf).
Qed.

(** The cell an action acts on. *)
Definition actor_cell (g : GameState) (action : GameAction) : option Cell :=
  match action with
  | Select r c | JumpAt r c => Some (r, c)
  | MoveSelected _ _ | JumpSelected => selected_ g
  | ClearSelection | AdvanceClock _ => None
  end.

(** What authorisation means: the action takes no time, and the cell it acts on
    holds a piece of the player. *)
Definition authorised (side : PieceColor) (g : GameState) (action : GameAction) : Prop :=
  action = ClearSelection \/
  exists r c p, actor_cell g action = Some (r, c) /\ occupant (board_ g) r c = Some p /\
    p_color p = side.

Lemma is_action_allowed_spec side g action : game_inv g -> action_ok g action ->
  is_action_allowed side g action ⇓ (fun ok => ok = true <-> authorised side g action).
Proof.
  intros Hg Hok. unfold is_action_allowed, authorised.
  assert (forall r c, 0 <= r -> 0 <= c ->
    (piece_color ← piece_color_at g r c;
     Ok (match piece_color with Some x => color_eqb x side | None => false end)) ⇓
    (fun ok => ok = true <-> exists p, occupant (board_ g) r c = Some p /\ p_color p = side)) as Hown.
  { intros r c Hr Hc. rewrite piece_color_at_eq, bind_ok by done. apply returns_ok.
    destruct (occupant (board_ g) r c) as [p|]; simpl; [rewrite color_eqb_true|]; naive_solver. }
  assert (forall r c, selected_ g = Some (r, c) -> 0 <= r /\ 0 <= c) as Hsel.
  { intros r c [? ?]%(gi_selected g Hg). lia. }
  destruct action as [r c| |r c| |r c|ms]; simpl in *.
  - eapply returns_mono; [apply Hown; apply Hok|]. intros ok ->. naive_solver.
  - naive_solver.
  - unfold selection. destruct (selected_ g) as [[sr sc]|]; [|naive_solver].
    destruct (Hsel sr sc eq_refl). eapply returns_mono; [by apply Hown|]. intros ok ->. naive_solver.
  - unfold selection. destruct (selected_ g) as [[sr sc]|]; [|naive_solver].
    destruct (Hsel sr sc eq_refl). eapply returns_mono; [by apply Hown|]. intros ok ->. naive_solver.
  - eapply returns_mono; [apply Hown; apply Hok|]. intros ok ->. naive_solver.
  - naive_solver.
Qed.

(** A take-off touches only the piece that takes off. *)
Lemma take_off_other b r c p st id : board_wf b -> occupant b r c = Some p -> id <> p_id p ->
  find_piece_by_id (take_off b r c p st) id = find_piece_by_id b id.
Proof.
  intros Hwf Ho Hne. destruct (occupant_Some _ _ _ _ Hwf Ho) as (_ & Hf & _).
  by apply (ch_other _ _ _ _ (take_off_changes b r c p st Hf)).
Qed.

(** An authorised action leaves the pieces of the other side alone. *)
Lemma authorised_frame side g action g' id p : RulesOk (rules_ g) -> game_inv g ->
  action_ok g action -> authorised side g action -> apply_action g action = Ok g' ->
  find_piece_by_id (board_ g) id = Some p -> p_color p <> side ->
  find_piece_by_id (board_ g') id = Some p.
Proof.
  intros Hr Hg Hok Hau Happ Hp Hcol. pose proof (fi_wf _ _ (gi_flights g Hg)) as Hwf.
  assert (forall r c q, occupant (board_ g) r c = Some q -> p_color q = side ->
    find_piece_by_id (take_off (board_ g) r c q Moving) id = Some p) as Htake.
  { intros r c q Hq Hqc. destruct (occupant_Some _ _ _ _ Hwf Hq) as (_ & Hf & _).
    rewrite take_off_other; [done..|]. intros ->. congruence. }
  assert (forall r c g', 0 <= r -> 0 <= c -> jump_at g r c = Ok g' ->
    (exists q, occupant (board_ g) r c = Some q /\ p_color q = side) ->
    find_piece_by_id (board_ g') id = Some p) as Hjump.
  { intros r c g1 Hr0 Hc0 E (q & Hq & Hqc).
    destruct (returns_elim _ _ _ (jump_at_spec g Hg r c Hr0 Hc0) E) as [(x & Hx & ->)|[_ ->]]; [|done].
    pose proof (rd_occupant _ _ _ _ Hx) as Hx'. assert (x = q) as -> by congruence. by apply Htake. }
  destruct Hau as [->|(r & c & q & Hcell & Hq & Hqc)]; [by injection Happ as <-|].
  destruct action as [ar ac| |tr tc| |ar ac|ms]; simpl in *; try done.
  - injection Happ as <-. unfold select. by case_match.
  - destruct (selected_ g) as [[sr sc]|] eqn:Hs; [|done]. injection Hcell as -> ->.
    destruct Hok as [[? _] [? _]].
    destruct (returns_elim _ _ _ (move_selected_to_spec g Hg (r, c) tr tc Hs ltac:(done) ltac:(done)) Happ)
      as [(x & Hx & ->)|[_ ->]]; [|done].
    pose proof (rd_occupant _ _ _ _ (proj1 Hx)) as Hx'. simpl in Hx'.
    assert (x = q) as -> by congruence. by apply Htake.
  - unfold jump_selected in Happ. destruct (selected_ g) as [[sr sc]|] eqn:Hs; [|done].
    injection Hcell as -> ->. destruct (gi_selected g Hg r c Hs).
    apply bind_Ok_inv in Happ as (g1 & Hj & [= <-]). simpl. eapply Hjump; [..|exact Hj|eauto]; lia.
  - injection Hcell as -> ->. destruct Hok as [[? _] [? _]]. by eapply Hjump; [..|eauto].
Qed.

(** ** Properties *)

(** The client and the server agree on the wire format: every message the
    client can send is parsed by the server to what the client meant, for all
    64-bit coordinates and room ids and all user names and passwords without
    white space. *)
Theorem messages_roundtrip :
  (forall r c, fits_u64 r -> fits_u64 c ->
     parse_message (send_select r c) = Ok (Some (Select r c)) /\
     parse_message (send_move r c) = Ok (Some (MoveSelected r c)) /\
     parse_message (send_jump r c) = Ok (Some (JumpAt r c))) /\
  parse_message send_clear = Ok (Some ClearSelection) /\
  parse_play_message send_play = true /\ parse_resign_message send_resign = true /\
  (forall id, fits_u64 id -> parse_join_game_message (send_join_game id) = Some id) /\
  (forall user pass, is_word user -> pass = "" \/ is_word pass ->
     parse_login_message (send_login user pass) = Some (mkLogin user pass)).
Proof.
  split_and!; try reflexivity.
  - intros r c Hr Hc.
    change (send_select r c) with ("select" ++ " " ++ to_string r ++ " " ++ to_string c).
    change (send_move r c) with ("move" ++ " " ++ to_string r ++ " " ++ to_string c).
    change (send_jump r c) with ("jump" ++ " " ++ to_string r ++ " " ++ to_string c).
    by rewrite !parse_message_two.
  - apply parse_send_join_game.
  - intros user pass Hu Hp. unfold parse_login_message, send_login.
    pose proof (next_token_word user "" Hu I) as Eu. rewrite app_nil_string in Eu.
    destruct Hp as [->|Hp].
    + change (is_empty_string "") with true. cbv iota.
      change ("login " ++ user) with ("login" ++ " " ++ user).
      rewrite trim_words, not_empty_word_app, next_token_word by done. simpl.
      change (next_token (String " " user)) with (next_token user). rewrite Eu. simpl.
      by destruct (word_cons user Hu) as (c & t & -> & _).
    + pose proof (next_token_word pass "" Hp I) as Ep. rewrite app_nil_string in Ep.
      destruct (word_cons pass Hp) as (c & t & Hpc & _).
      assert (is_empty_string pass = false) as -> by (by rewrite Hpc). cbv zeta iota.
      change ("login " ++ user ++ " " ++ pass) with ("login" ++ " " ++ user ++ " " ++ pass).
      pose proof (trim_words "login" (" " ++ user ++ " ") pass ltac:(done) Hp) as Et.
      rewrite !app_assoc_string in Et. rewrite Et.
      rewrite not_empty_word_app, next_token_word by done. cbn [mbind option_bind].
      change (negb (String.eqb "login" "login")) with false. cbv iota.
      rewrite next_token_space, next_token_word by done. cbn [mbind option_bind].
      rewrite next_token_space, Ep. by destruct (word_cons user Hu) as (c' & t' & -> & _).
Qed.

(** C24: Players can only touch their own pieces: the server's authorisation
    check never faults and accepts an action exactly when the cell it acts on
    holds a piece of the player (or it only clears the selection); an accepted
    action, once applied, leaves every piece of the other colour unchanged. *)
Theorem authorisation_sound side g action :
  RulesOk (rules_ g) -> game_inv g -> action_ok g action ->
  is_action_allowed side g action ⇓ (fun ok => (ok = true <-> authorised side g action) /\
    (ok = true -> apply_action g action ⇓ (fun g' =>
      forall id p, find_piece_by_id (board_ g) id = Some p -> p_color p <> side ->
        find_piece_by_id (board_ g') id = Some p))).
Proof.
  intros Hr Hg Hok. eapply returns_mono; [by apply is_action_allowed_spec|].
  intros ok Hau. split; [done|]. intros Ht. apply Hau in Ht.
  destruct (proj1 (returns_eq _ _) (apply_action_inv g Hg action Hok)) as (g' & E & _).
  rewrite E. apply returns_ok. intros id p Hp Hcol. by eapply authorised_frame.
Qed.

Lemma authorisation_sound_witness :
  is_action_allowed White sample_game (JumpAt 3 3) ⇓ (fun ok =>
    (ok = true <-> authorised White sample_game (JumpAt 3 3)) /\
    (ok = true -> apply_action sample_game (JumpAt 3 3) ⇓ (fun g' =>
      forall id p, find_piece_by_id (board_ sample_game) id = Some p -> p_color p <> White ->
        find_piece_by_id (board_ g') id = Some p))).
Proof.
  apply authorisation_sound; [apply standard_ok|apply sample_game_inv|].
  simpl. unfold fits_u64. lia.
Defined.

(** Coordinates of 20 digits and more wrap around instead of being refused. *)
Example coordinates_wrap_around :
  parse_message "select 18446744073709551617 0" = Ok (Some (Select 1 0)).
Proof. vm_compute. reflexivity. Qed.
