(* ===== verification/BoardView.v ===== *)
(** * The board view

    [src/src/ui/view/board_view_model.h]/[board_view_model.cpp] and
    [board_view_builder.cpp]: the read-only picture of a game that is rendered
    and sent over the network. *)

From S2P Require Import Prelude Piece BoardModel PathUtils PieceRules CollisionResolver MoveScheduler RealTimeArbiter GameState.
From Stdlib Require Import Floats.SpecFloat.

Record PieceView := mkPieceView { pv_kind : PieceKind; pv_color : PieceColor }.

(** [CellView]: an optional piece. *)
Definition CellView : Type := option PieceView.

Record BoardViewModel := mkView {
  v_height : Z;
  v_width : Z;
  v_clock_ms : Z;
  v_game_over : bool;
  v_selection : option Cell;
  v_cells : list CellView;
  v_animations : AnimationSnapshot
}.

Definition empty_view : BoardViewModel := mkView 0 0 0 false None [] (mkAnimation [] [] []).

(** ** Queries *)

Definition board_view_cell_index (row col width : Z) : Z := to_size (row * width + col).

Definition board_view_cell_at (view : BoardViewModel) (row col : Z) : CellView :=
  if (v_height view <=? row) || (v_width view <=? col) then None
  else
    let index := board_view_cell_index row col (v_width view) in
    match vat (v_cells view) index with Some cell => cell | None => None end.

Definition board_view_piece_at (view : BoardViewModel) (row col : Z) : option PieceView :=
  board_view_cell_at view row col.

Definition board_view_is_move_origin (view : BoardViewModel) (row col : Z) : bool :=
  existsb (fun m => (ams_from_row m =? row) && (ams_from_col m =? col))
    (snap_moves (v_animations view)).

Definition find_jump_at (view : BoardViewModel) (row col : Z) : option ActiveJumpSnapshot :=
  find_if (fun j => (ajs_row j =? row) && (ajs_col j =? col)) (snap_jumps (v_animations view)).

Definition board_view_is_jump_origin (view : BoardViewModel) (row col : Z) : bool :=
  match find_jump_at view row col with Some _ => true | None => false end.

Definition board_view_jump_progress_at (view : BoardViewModel) (row col : Z) : spec_float :=
  match find_jump_at view row col with Some j => ajs_progress j | None => float32_of_int 0 end.

Definition find_rest_at (view : BoardViewModel) (row col : Z) : option ActiveRestSnapshot :=
  find_if (fun r => (ars_row r =? row) && (ars_col r =? col)) (snap_rests (v_animations view)).

Definition board_view_is_resting_cell (view : BoardViewModel) (row col : Z) : bool :=
  match find_rest_at view row col with Some _ => true | None => false end.

Definition board_view_rest_progress_at (view : BoardViewModel) (row col : Z) : spec_float :=
  match find_rest_at view row col with Some r => ars_progress r | None => float32_of_int 0 end.

Definition board_view_rest_kind_at (view : BoardViewModel) (row col : Z) : RestKind :=
  match find_rest_at view row col with Some r => ars_kind r | None => Short end.

(** ** [BoardViewBuilder::build] *)

Definition build_cell (g : GameState) (row col : Z) : res CellView :=
  token ← gs_token_at g row col;
  Ok (match descriptor_from_token token with
      | Some d => Some (mkPieceView (d_kind d) (d_color d))
      | None => None
      end).

Definition build (g : GameState) : res BoardViewModel :=
  cells ← mapM_res (fun row => mapM_res (build_cell g row) (zrange (gs_cols g)))
            (zrange (gs_rows g));
  Ok (mkView (gs_rows g) (gs_cols g) (clock_ms g) (is_game_over g)
        (if has_selection g then selection g else None)
        (List.concat cells) (gs_animations_for_render g)).

(** ** Lemmas *)

(** The picture of a piece (a piece of the sentinel kind shows as a pawn). *)
Definition picture (p : Piece) : PieceView :=
  mkPieceView (match p_kind p with Count => Pawn | k => k end) (p_color p).

Lemma build_cell_eq g r c : board_wf (board_ g) -> inside (board_ g) r c ->
  build_cell g r c = Ok (picture <$> occupant (board_ g) r c).
Proof.
  intros Hwf Hin. unfold build_cell, gs_token_at, token_at.
  rewrite piece_at_inside, bind_ok by (done || apply Hwf).
  destruct (occupant (board_ g) r c) as [p|]; [|done]. rewrite bind_ok.
  destruct p as [id color kind cell st]. by destruct color, kind.
Qed.

(** A row-major grid is read at index [r * w + c]. *)
Lemma vat_concat {A} (ls : list (list A)) w r c x : 0 <= c < w ->
  (forall l, l ∈ ls -> vlen l = w) -> vat (List.concat ls) (r * w + c) = Some x <->
  exists l, vat ls r = Some l /\ vat l c = Some x.
Proof.
  intros Hc. revert r. induction ls as [|l ls IH]; intros r Hall.
  { cbn. split.
    - intros H%vat_Some_lt. unfold vlen in H. simpl in H. lia.
    - intros (l & H%vat_Some_lt & _). unfold vlen in H. simpl in H. lia. }
  assert (vlen l = w) as Hl by (apply Hall, list_elem_of_here).
  assert (forall l', l' ∈ ls -> vlen l' = w) as Hall' by (intros; by apply Hall, list_elem_of_further).
  cbn [List.concat]. destruct (decide (r < 0)) as [Hr|Hr].
  { split.
    - intros H%vat_Some_lt. nia.
    - intros (l' & H%vat_Some_lt & _). lia. }
  destruct (decide (r = 0)) as [->|Hr0].
  - rewrite Z.mul_0_l, Z.add_0_l, vat_app_l, vat_cons_0 by lia. naive_solver.
  - replace r with (1 + (r - 1)) by lia. rewrite vat_cons_succ by lia. rewrite <- IH by done.
    replace ((1 + (r - 1)) * w + c) with (vlen l + ((r - 1) * w + c)) by lia.
    unfold vat, vlen. destruct (Z.ltb_spec ((r - 1) * w + c) 0); [nia|].
    destruct (Z.ltb_spec (Z.of_nat (length l) + ((r - 1) * w + c)) 0); [lia|].
    rewrite lookup_app_r by lia.
    by replace (Z.to_nat (Z.of_nat (length l) + ((r - 1) * w + c)) - length l)%nat
      with (Z.to_nat ((r - 1) * w + c)) by lia.
Qed.

Lemma vat_zrange n i : 0 <= i < n -> vat (zrange n) i = Some i.
Proof.
  intros Hi. unfold vat, zrange. destruct (Z.ltb_spec i 0); [lia|].
  rewrite list_lookup_fmap, lookup_seq_lt by lia. simpl. f_equal. lia.
Qed.

Lemma build_eq g : board_wf (board_ g) ->
  build g = Ok (mkView (gs_rows g) (gs_cols g) (clock_ms g) (is_game_over g) (selected_ g)
    (List.concat ((fun r => (fun c => picture <$> occupant (board_ g) r c) <$> zrange (gs_cols g))
       <$> zrange (gs_rows g))) (gs_animations_for_render g)).
Proof.
  intros Hwf. unfold build.
  rewrite (mapM_res_ok _ (fun r => (fun c => picture <$> occupant (board_ g) r c) <$> zrange (gs_cols g))).
  - rewrite bind_ok. unfold has_selection, selection. by destruct (selected_ g).
  - intros r Hr%elem_of_zrange. apply mapM_res_ok. intros c Hc%elem_of_zrange.
    by apply build_cell_eq.
Qed.

(** What the built view shows at a cell. *)
Lemma build_pieces g v : game_inv g -> rows (board_ g) * cols (board_ g) < 2 ^ 64 ->
  build g = Ok v -> forall r c, 0 <= r -> 0 <= c ->
  board_view_piece_at v r c = picture <$> occupant (board_ g) r c.
Proof.
  intros Hg Hsz Hb r c Hr Hc. pose proof (fi_wf _ _ (gi_flights g Hg)) as Hwf.
  rewrite build_eq in Hb by done. injection Hb as <-.
  unfold board_view_piece_at, board_view_cell_at. cbn [v_height v_width v_cells].
  unfold gs_rows, gs_cols. destruct (_ || _) eqn:E.
  { rewrite orb_true_iff, !Z.leb_le in E. rewrite occupant_outside; [done|apply Hwf|].
    unfold inside. lia. }
  zbool. unfold board_view_cell_index. rewrite to_size_id by nia.
  erewrite (proj2 (vat_concat _ (cols (board_ g)) r c _ ltac:(lia) _)); [done|].
  eexists. rewrite vat_fmap, vat_zrange by lia. split; [done|].
  by rewrite vat_fmap, vat_zrange by lia.
  Unshelve. intros l (r0 & -> & _)%list_elem_of_fmap. rewrite vlen_fmap. apply vlen_zrange. lia.
Qed.

(** ** Properties *)

(** The view shows the board: building the view of a game never faults, and
    the picture found at any cell index is that of the piece standing on that
    cell of the board, nothing on empty cells and outside the board; dimensions,
    clock, game-over flag, selection and animations are the game's. *)
Theorem view_correct g : game_inv g -> rows (board_ g) * cols (board_ g) < 2 ^ 64 ->
  build g ⇓ (fun v =>
    v_height v = rows (board_ g) /\ v_width v = cols (board_ g) /\
    v_clock_ms v = clock_ms g /\ v_game_over v = game_over_ g /\
    v_selection v = selected_ g /\ v_animations v = gs_animations_for_render g /\
    forall r c, 0 <= r -> 0 <= c ->
      board_view_piece_at v r c = picture <$> occupant (board_ g) r c).
Proof.
  intros Hg Hsz. pose proof (build_pieces g) as Hp. pose proof (fi_wf _ _ (gi_flights g Hg)) as Hwf.
  rewrite build_eq in * by done. apply returns_ok. split_and!; try done. intros r c Hr Hc. by apply Hp.
Qed.

Lemma view_correct_witness :
  build sample_game ⇓ (fun v =>
    v_height v = rows (board_ sample_game) /\ v_width v = cols (board_ sample_game) /\
    v_clock_ms v = clock_ms sample_game /\ v_game_over v = game_over_ sample_game /\
    v_selection v = selected_ sample_game /\
    v_animations v = gs_animations_for_render sample_game /\
    forall r c, 0 <= r -> 0 <= c ->
      board_view_piece_at v r c = picture <$> occupant (board_ sample_game) r c).
Proof. apply view_correct; [apply sample_game_inv|]. vm_compute. reflexivity. Defined.
