(* ===== verification/Snapshot.v ===== *)
(** * Board snapshots on the wire

    [src/src/server/snapshot_writer.cpp] and [src/src/network/snapshot_reader.h]/
    [snapshot_reader.cpp]: the text format in which the server sends the state of
    a game and in which the client reads it.

    A [float] is a [spec_float] of single precision.  [std::fixed] output with
    precision 6 is the decimal rounding of the exact value, half to even;
    [strtof] accepts decimal and hexadecimal literals, infinities and NaNs and
    rounds to nearest even. *)

From S2P Require Import Prelude Piece BoardModel PathUtils PieceRules CollisionResolver MoveScheduler RealTimeArbiter GameState CppString BoardView.
From Stdlib Require Import Ascii String Floats.SpecFloat.
Open Scope string_scope.
Open Scope Z_scope.

(** ** Floating-point text *)

(** Division rounded to nearest, ties to even. *)
Definition div_half_even (a b : Z) : Z :=
  let q := a / b in
  let r := a mod b in
  if 2 * r <? b then q else if b <? 2 * r then q + 1 else if Z.even q then q else q + 1.

(** The value in millionths. *)
Definition millionths (m : positive) (e : Z) : Z :=
  if 0 <=? e then Z.pos m * 2 ^ e * 10 ^ 6 else div_half_even (Z.pos m * 10 ^ 6) (2 ^ (- e)).

(** Exactly [k] decimal digits of [n], most significant first. *)
Fixpoint pad_digits (k : nat) (n : Z) : string :=
  match k with
  | O => ""
  | S j => String (digit_char (n / 10 ^ Z.of_nat j mod 10)) (pad_digits j n)
  end.

Definition fixed6_nat (n : Z) : string :=
  to_string (n / 10 ^ 6) ++ "." ++ pad_digits 6 (n mod 10 ^ 6).

Definition sign_text (s : bool) : string := if s then "-" else "".

(** [out << std::fixed << std::setprecision(6) << x]. *)
Definition fixed6 (x : spec_float) : string :=
  match x with
  | S754_zero s => sign_text s ++ fixed6_nat 0
  | S754_infinity s => sign_text s ++ "inf"
  | S754_nan => "nan"
  | S754_finite s m e => sign_text s ++ fixed6_nat (millionths m e)
  end.

(** The float nearest to [+-m * 10^e] and to [+-m * 2^e]. *)
Definition float_of_decimal (neg : bool) (m e : Z) : spec_float :=
  match m with
  | Z.pos p =>
      if 0 <=? e then binary_normalize 24 128 (if neg then - (m * 10 ^ e) else m * 10 ^ e) 0 neg
      else match 10 ^ (- e) with
      | Z.pos d =>
          let '(mz, ez, lz) := SFdiv_core_binary 24 128 m 0 (Z.pos d) 0 in
          binary_round_aux 24 128 neg mz ez lz
      | _ => S754_zero neg
      end
  | _ => S754_zero neg
  end.
Definition float_of_binary (neg : bool) (m e : Z) : spec_float :=
  binary_normalize 24 128 (if neg then - m else m) e neg.

Definition to_lower (c : ascii) : ascii :=
  if (65 <=? code c) && (code c <=? 90) then chr (code c + 32) else c.
Fixpoint lower (s : string) : string :=
  match s with EmptyString => EmptyString | String c s' => String (to_lower c) (lower s') end.

Definition isxdigit (c : ascii) : bool :=
  isdigit c || ((97 <=? code (to_lower c)) && (code (to_lower c) <=? 102)).
Definition xdigit_value (c : ascii) : Z :=
  if isdigit c then digit_value c else code (to_lower c) - 87.
Fixpoint hex_value_from (v : Z) (s : string) : Z :=
  match s with EmptyString => v | String c s' => hex_value_from (16 * v + xdigit_value c) s' end.

(** A sign and the rest. *)
Definition take_sign (s : string) : bool * string :=
  match s with
  | String c s' =>
      if Ascii.eqb c "-" then (true, s') else if Ascii.eqb c "+" then (false, s') else (false, s)
  | EmptyString => (false, s)
  end.

(** The optional exponent part that ends a literal, introduced by [mark]. *)
Definition exponent (mark : ascii) (s : string) : option Z :=
  match s with
  | EmptyString => Some 0
  | String c s' =>
      if Ascii.eqb (to_lower c) mark then
        let '(neg, digits) := take_sign s' in
        if is_empty_string digits || negb (all_chars isdigit digits) then None
        else Some (if neg : bool then - dec_value digits else dec_value digits)
      else None
  end.

(** Mantissa digits before and after an optional point, and the rest. *)
Definition mantissa (f : ascii -> bool) (s : string) : string * string * string :=
  let '(ip, r) := span f s in
  match r with
  | String c r' => if Ascii.eqb c "." then let '(fp, r2) := span f r' in (ip, fp, r2) else (ip, "", r)
  | EmptyString => (ip, "", r)
  end.

Definition is_nan_literal (s : string) : bool :=
  String.eqb s "nan" ||
  match s with
  | String a (String b (String c (String d r))) =>
      String.eqb (String a (String b (String c (String d "")))) "nan("
      && (let '(chars, e) := span (fun c => isxdigit c || ((97 <=? code c) && (code c <=? 122))
             || Ascii.eqb c "_") r in String.eqb e ")")
  | _ => false
  end.

Definition unsigned_literal (neg : bool) (s : string) : option spec_float :=
  let l := lower s in
  if String.eqb l "inf" || String.eqb l "infinity" then Some (S754_infinity neg)
  else if is_nan_literal l then Some S754_nan
  else match l with
  | String a (String b r) =>
      if Ascii.eqb a "0" && Ascii.eqb b "x" then
        let '(ip, fp, rest) := mantissa isxdigit r in
        if is_empty_string (ip ++ fp) then None
        else match exponent "p" rest with
        | Some e => Some (float_of_binary neg (hex_value_from 0 (ip ++ fp)) (e - 4 * slen fp))
        | None => None
        end
      else
        let '(ip, fp, rest) := mantissa isdigit s in
        if is_empty_string (ip ++ fp) then None
        else match exponent "e" rest with
        | Some e => Some (float_of_decimal neg (dec_value (ip ++ fp)) (e - slen fp))
        | None => None
        end
  | _ =>
      let '(ip, fp, rest) := mantissa isdigit s in
      if is_empty_string (ip ++ fp) then None
      else match exponent "e" rest with
      | Some e => Some (float_of_decimal neg (dec_value (ip ++ fp)) (e - slen fp))
      | None => None
      end
  end.

(** [strtof] applied to a token without white space and required to consume it. *)
Definition parse_float (token : string) : option spec_float :=
  if is_empty_string token then None
  else let '(neg, s) := take_sign token in unsigned_literal neg s.

(** ** The writer *)

Definition write_cell_token (cell : CellView) : string :=
  match cell with Some p => to_token (pv_color p) (pv_kind p) | None => "." end.

Definition rest_kind_token (kind : RestKind) : string :=
  match kind with Short => "short" | Long => "long" end.

Definition write_move_snapshot (m : ActiveMoveSnapshot) : string :=
  "move piece_id " ++ to_string (ams_piece_id m) ++ " piece " ++ to_token (ams_color m) (ams_kind m)
  ++ " from " ++ to_string (ams_from_row m) ++ " " ++ to_string (ams_from_col m)
  ++ " to " ++ to_string (ams_to_row m) ++ " " ++ to_string (ams_to_col m)
  ++ " progress " ++ fixed6 (ams_progress m) ++ nl.

Definition write_jump_snapshot (j : ActiveJumpSnapshot) : string :=
  "jump piece_id " ++ to_string (ajs_piece_id j) ++ " piece " ++ to_token (ajs_color j) (ajs_kind j)
  ++ " row " ++ to_string (ajs_row j) ++ " " ++ to_string (ajs_col j)
  ++ " progress " ++ fixed6 (ajs_progress j) ++ nl.

Definition write_rest_snapshot (r : ActiveRestSnapshot) : string :=
  "rest piece_id " ++ to_string (ars_piece_id r) ++ " row " ++ to_string (ars_row r) ++ " "
  ++ to_string (ars_col r) ++ " kind " ++ rest_kind_token (ars_kind r)
  ++ " progress " ++ fixed6 (ars_progress r) ++ nl.

(** The loop over the columns of a row, and over the rows. *)
Definition write_snapshot_row (view : BoardViewModel) (row : Z) (out : string) : string :=
  fold_left (fun out col =>
    (if 0 <? col then out ++ " " else out) ++ write_cell_token (board_view_cell_at view row col))
    (zrange (v_width view)) out.

Definition write_snapshot_rows (view : BoardViewModel) (out : string) : string :=
  fold_left (fun out row =>
    let out := write_snapshot_row view row out in
    if row + 1 <? v_height view then out ++ nl else out)
    (zrange (v_height view)) out.

Definition write_snapshot (view : BoardViewModel) : string :=
  let out := "snapshot" ++ nl in
  let out := out ++ "clock_ms " ++ to_string (v_clock_ms view) ++ nl in
  let out := out ++ "game_over " ++ (if v_game_over view then "true" else "false") ++ nl in
  let out := out ++ "height " ++ to_string (v_height view) ++ nl in
  let out := out ++ "width " ++ to_string (v_width view) ++ nl in
  let out := match v_selection view with
    | Some (r, c) => out ++ "selection " ++ to_string r ++ " " ++ to_string c ++ nl
    | None => out
    end in
  let out := out ++ "cells" ++ nl in
  let out := write_snapshot_rows view out in
  let out := out ++ nl ++ "animations" ++ nl ++ "moves" ++ nl in
  let out := fold_left (fun out m => out ++ write_move_snapshot m) (snap_moves (v_animations view)) out in
  let out := out ++ "jumps" ++ nl in
  let out := fold_left (fun out j => out ++ write_jump_snapshot j) (snap_jumps (v_animations view)) out in
  let out := out ++ "rests" ++ nl in
  fold_left (fun out r => out ++ write_rest_snapshot r) (snap_rests (v_animations view)) out.

(** ** The reader *)

(** The lines of the text, carriage returns dropped. *)
Fixpoint split_lines_from (current : string) (text : string) : list string :=
  match text with
  | EmptyString => match current with EmptyString => [] | _ => [current] end
  | String ch rest =>
      if code ch =? 13 then split_lines_from current rest
      else if code ch =? 10 then current :: split_lines_from EmptyString rest
      else split_lines_from (current ++ String ch EmptyString) rest
  end.
Definition split_lines (text : string) : list string := split_lines_from EmptyString text.

Definition split_tokens (line : string) : list string := split_words line.

(** Decimal digits into a signed 64-bit integer, whose overflow is undefined. *)
Fixpoint parse_int64_loop (value : Z) (token : string) : res (option Z) :=
  match token with
  | EmptyString => Ok (Some value)
  | String ch rest =>
      if negb (isdigit ch) then Ok None
      else
        v ← i64_mul value 10;
        v' ← i64_add v (digit_value ch);
        parse_int64_loop v' rest
  end.
Definition parse_int64 (token : string) : res (option Z) :=
  if is_empty_string token then Ok None else parse_int64_loop 0 token.

Definition parse_non_negative_size (token : string) : res (option Z) :=
  parsed ← parse_int64 token;
  Ok (match parsed with
      | Some v => if v <? 0 then None else Some (to_size v)
      | None => None
      end).

Definition parse_piece_id (token : string) : res (option Z) :=
  parsed ← parse_int64 token;
  Ok (match parsed with
      | Some v => if v <? 0 then None else Some (to_u32 v)
      | None => None
      end).

Definition parse_bool (token : string) : option bool :=
  if String.eqb token "true" then Some true
  else if String.eqb token "false" then Some false
  else None.

Definition parse_cell_token (token : string) : option CellView :=
  if negb (is_valid_token token) then None
  else Some (match descriptor_from_token token with
             | Some d => Some (mkPieceView (d_kind d) (d_color d))
             | None => None
             end).

Definition parse_rest_kind (token : string) : option RestKind :=
  if String.eqb token "short" then Some Short
  else if String.eqb token "long" then Some Long
  else None.

Definition is_section_marker (tokens : list string) (marker : string) : bool :=
  match tokens with [t] => String.eqb t marker | _ => false end.

Definition parse_move_line (tokens : list string) : res (option ActiveMoveSnapshot) :=
  match tokens with
  | [t0; t1; t2; t3; t4; t5; t6; t7; t8; t9; t10; t11; t12] =>
      if String.eqb t0 "move" && String.eqb t1 "piece_id" && String.eqb t3 "piece"
         && String.eqb t5 "from" && String.eqb t8 "to" && String.eqb t11 "progress" then
        piece_id ← parse_piece_id t2;
        from_row ← parse_non_negative_size t6;
        from_col ← parse_non_negative_size t7;
        to_row ← parse_non_negative_size t9;
        to_col ← parse_non_negative_size t10;
        Ok (match piece_id, descriptor_from_token t4, from_row, from_col, to_row, to_col,
                  parse_float t12 with
            | Some id, Some d, Some r0, Some c0, Some r1, Some c1, Some p =>
                Some (mkMoveSnapshot id (d_kind d) (d_color d) r0 c0 r1 c1 p)
            | _, _, _, _, _, _, _ => None
            end)
      else Ok None
  | _ => Ok None
  end.

Definition parse_jump_line (tokens : list string) : res (option ActiveJumpSnapshot) :=
  match tokens with
  | [t0; t1; t2; t3; t4; t5; t6; t7; t8; t9] =>
      if String.eqb t0 "jump" && String.eqb t1 "piece_id" && String.eqb t3 "piece"
         && String.eqb t5 "row" && String.eqb t8 "progress" then
        piece_id ← parse_piece_id t2;
        row ← parse_non_negative_size t6;
        col ← parse_non_negative_size t7;
        Ok (match piece_id, descriptor_from_token t4, row, col, parse_float t9 with
            | Some id, Some d, Some r, Some c, Some p =>
                Some (mkJumpSnapshot id (d_kind d) (d_color d) r c p)
            | _, _, _, _, _ => None
            end)
      else Ok None
  | _ => Ok None
  end.

Definition parse_rest_line (tokens : list string) : res (option ActiveRestSnapshot) :=
  match tokens with
  | [t0; t1; t2; t3; t4; t5; t6; t7; t8; t9] =>
      if String.eqb t0 "rest" && String.eqb t1 "piece_id" && String.eqb t3 "row"
         && String.eqb t6 "kind" && String.eqb t8 "progress" then
        piece_id ← parse_piece_id t2;
        row ← parse_non_negative_size t4;
        col ← parse_non_negative_size t5;
        Ok (match piece_id, row, col, parse_rest_kind t7, parse_float t9 with
            | Some id, Some r, Some c, Some k, Some p => Some (mkRestSnapshot id r c k p)
            | _, _, _, _, _ => None
            end)
      else Ok None
  | _ => Ok None
  end.

(** A section of the animations.  The reading position is the list of the lines
    that remain; [None] is the result [false]. *)
Section AnimationSection.
Context {A : Type} (parse_line : list string -> res (option A)).

Fixpoint animation_lines (next_section_name : string) (ls : list string) (destination : list A) :
    res (option (list string * list A)) :=
  match ls with
  | [] => Ok (if is_empty_string next_section_name then Some ([], destination) else None)
  | line :: rest =>
      let tokens := split_tokens line in
      match tokens with
      | [] => animation_lines next_section_name rest destination
      | _ =>
          if negb (is_empty_string next_section_name) && is_section_marker tokens next_section_name
          then Ok (Some (ls, destination))
          else
            parsed ← parse_line tokens;
            match parsed with
            | None => Ok None
            | Some x => animation_lines next_section_name rest (destination ++ [x])%list
            end
      end
  end.

Definition parse_animation_section (section_name next_section_name : string) (ls : list string) :
    res (option (list string * list A)) :=
  match ls with
  | [] => Ok None
  | line :: rest =>
      if negb (is_section_marker (split_tokens line) section_name) then Ok None
      else animation_lines next_section_name rest []
  end.
End AnimationSection.

(** A failed step ends the parse. *)
Definition and_then {A B} (m : res (option A)) (k : A -> res (option B)) : res (option B) :=
  o ← m; match o with Some a => k a | None => Ok None end.

Definition parse_animations (ls : list string) : res (option AnimationSnapshot) :=
  match ls with
  | [] => Ok None
  | line :: rest =>
      if negb (is_section_marker (split_tokens line) "animations") then Ok None
      else
        and_then (parse_animation_section parse_move_line "moves" "jumps" rest) (fun r1 =>
        and_then (parse_animation_section parse_jump_line "jumps" "rests" r1.1) (fun r2 =>
        and_then (parse_animation_section parse_rest_line "rests" "" r2.1) (fun r3 =>
          Ok (match r3.1 with [] => Some (mkAnimation r1.2 r2.2 r3.2) | _ => None end))))
  end.

(** Assignments to the members of the view. *)
Definition set_clock_ms (v : BoardViewModel) (x : Z) : BoardViewModel :=
  mkView (v_height v) (v_width v) x (v_game_over v) (v_selection v) (v_cells v) (v_animations v).
Definition set_game_over (v : BoardViewModel) (x : bool) : BoardViewModel :=
  mkView (v_height v) (v_width v) (v_clock_ms v) x (v_selection v) (v_cells v) (v_animations v).
Definition set_height (v : BoardViewModel) (x : Z) : BoardViewModel :=
  mkView x (v_width v) (v_clock_ms v) (v_game_over v) (v_selection v) (v_cells v) (v_animations v).
Definition set_width (v : BoardViewModel) (x : Z) : BoardViewModel :=
  mkView (v_height v) x (v_clock_ms v) (v_game_over v) (v_selection v) (v_cells v) (v_animations v).
Definition set_selection (v : BoardViewModel) (x : Cell) : BoardViewModel :=
  mkView (v_height v) (v_width v) (v_clock_ms v) (v_game_over v) (Some x) (v_cells v)
    (v_animations v).
Definition set_cells (v : BoardViewModel) (x : list CellView) : BoardViewModel :=
  mkView (v_height v) (v_width v) (v_clock_ms v) (v_game_over v) (v_selection v) x
    (v_animations v).
Definition set_animations (v : BoardViewModel) (x : AnimationSnapshot) : BoardViewModel :=
  mkView (v_height v) (v_width v) (v_clock_ms v) (v_game_over v) (v_selection v) (v_cells v) x.

(** One line of the header: [None] fails, [Some None] is the [cells] marker and
    [Some (Some v)] goes on with the view [v]. *)
Definition header_line (tokens : list string) (view : BoardViewModel) :
    res (option (option BoardViewModel)) :=
  match tokens with
  | [] => Ok (Some (Some view))
  | key :: args =>
      if String.eqb key "cells" then
        Ok (match args with [] => Some None | _ => None end)
      else if String.eqb key "clock_ms" then
        match args with
        | [a] => and_then (parse_int64 a) (fun x => Ok (Some (Some (set_clock_ms view x))))
        | _ => Ok None
        end
      else if String.eqb key "game_over" then
        match args with
        | [a] => and_then (Ok (parse_bool a)) (fun x => Ok (Some (Some (set_game_over view x))))
        | _ => Ok None
        end
      else if String.eqb key "height" then
        match args with
        | [a] => and_then (parse_non_negative_size a) (fun x => Ok (Some (Some (set_height view x))))
        | _ => Ok None
        end
      else if String.eqb key "width" then
        match args with
        | [a] => and_then (parse_non_negative_size a) (fun x => Ok (Some (Some (set_width view x))))
        | _ => Ok None
        end
      else if String.eqb key "selection" then
        match args with
        | [a; b] =>
            row ← parse_non_negative_size a;
            col ← parse_non_negative_size b;
            Ok (match row, col with
                | Some r, Some c => Some (Some (set_selection view (r, c)))
                | _, _ => None
                end)
        | _ => Ok None
        end
      else Ok None
  end.

(** The header loop: the lines after the [cells] marker, and the view. *)
Fixpoint read_header (ls : list string) (view : BoardViewModel) :
    res (option (list string * BoardViewModel)) :=
  match ls with
  | [] => Ok None
  | line :: rest =>
      and_then (header_line (split_tokens line) view) (fun o =>
        match o with
        | None => Ok (Some (rest, view))
        | Some view' => read_header rest view'
        end)
  end.

(** The cells of one row, then of the remaining rows. *)
Fixpoint parse_cell_tokens (tokens : list string) : option (list CellView) :=
  match tokens with
  | [] => Some []
  | t :: rest =>
      match parse_cell_token t with
      | None => None
      | Some cell => match parse_cell_tokens rest with Some cs => Some (cell :: cs) | None => None end
      end
  end.

Fixpoint read_cells (ls : list string) (width row height : Z) (cells : list CellView) :
    option (list string * list CellView) :=
  if height <=? row then Some (ls, cells)
  else match ls with
  | [] => None
  | line :: rest =>
      let tokens := split_tokens line in
      if negb (vlen tokens =? width) then None
      else match parse_cell_tokens tokens with
      | None => None
      | Some cs => read_cells rest width (row + 1) height (cells ++ cs)%list
      end
  end.

(** [max_size] is [std::vector<CellView>::max_size()], beyond which [reserve]
    throws. *)
Definition reserve (max_size n : Z) : res unit :=
  if n <=? max_size then Ok tt else Err LengthError.

Definition read_snapshot (max_size : Z) (text : string) : res (option BoardViewModel) :=
  match split_lines text with
  | [] => Ok None
  | front :: ls =>
      if negb (String.eqb front "snapshot") then Ok None
      else
        and_then (read_header ls empty_view) (fun r =>
          let '(ls', view) := r in
          _ ← reserve max_size (to_size (v_height view * v_width view));
          match read_cells ls' (v_width view) 0 (v_height view) [] with
          | None => Ok None
          | Some (ls'', cells) =>
              let view := set_cells view cells in
              match ls'' with
              | [] => Ok (Some view)
              | _ => and_then (parse_animations ls'') (fun a => Ok (Some (set_animations view a)))
              end
          end)
  end.

(** ** Lemmas: numbers *)

Lemma parse_int64_loop_value v s : all_chars isdigit s = true -> 0 <= v ->
  dec_value_from v s < 2 ^ 63 -> parse_int64_loop v s = Ok (Some (dec_value_from v s)).
Proof.
  revert v. induction s as [|c s IH]; intros v Hd Hv Hlt; [done|].
  simpl in *. apply andb_true_iff in Hd as [Hc Hd]. rewrite Hc. cbn [negb].
  pose proof (digit_value_range c Hc) as Hdv.
  pose proof (dec_value_from_ge (10 * v + digit_value c) s Hd ltac:(lia)).
  unfold i64_mul, i64_add. rewrite i64_checked_ok, bind_ok by (unfold fits_i64; lia).
  rewrite i64_checked_ok, bind_ok by (unfold fits_i64; lia).
  replace (v * 10 + digit_value c) with (10 * v + digit_value c) by lia.
  apply IH; [done|lia|done].
Qed.

Lemma parse_int64_to_string n : 0 <= n < 2 ^ 63 -> parse_int64 (to_string n) = Ok (Some n).
Proof.
  intros Hn. destruct (to_string_digits n) as [Hd Hne]; [lia|]. unfold parse_int64.
  destruct (to_string n) as [|c s] eqn:E; [done|]. cbn [is_empty_string]. rewrite <- E in *.
  pose proof (dec_value_to_string n ltac:(lia)) as Hv. unfold dec_value in Hv.
  rewrite parse_int64_loop_value; rewrite ?Hv; done || lia.
Qed.

Lemma parse_size_to_string n : 0 <= n < 2 ^ 63 ->
  parse_non_negative_size (to_string n) = Ok (Some n).
Proof.
  intros Hn. unfold parse_non_negative_size. rewrite parse_int64_to_string, bind_ok by done.
  destruct (Z.ltb_spec n 0); [lia|]. by rewrite to_size_id by lia.
Qed.

Lemma parse_id_to_string n : 0 <= n < 2 ^ 32 -> parse_piece_id (to_string n) = Ok (Some n).
Proof.
  intros Hn. unfold parse_piece_id. rewrite parse_int64_to_string, bind_ok by lia.
  destruct (Z.ltb_spec n 0); [lia|]. unfold to_u32. by rewrite wrap_u_id.
Qed.

(** ** Lemmas: floating-point text *)

Lemma pad_digits_spec k n : 0 <= n ->
  all_chars isdigit (pad_digits k n) = true /\ slen (pad_digits k n) = Z.of_nat k /\
  forall v, dec_value_from v (pad_digits k n) = v * 10 ^ Z.of_nat k + n mod 10 ^ Z.of_nat k.
Proof.
  intros Hn. induction k as [|k (IH1 & IH2 & IH3)].
  { split_and!; [done|done|]. intros v. simpl. rewrite Z.mod_1_r. lia. }
  pose proof (Z.mod_pos_bound (n / 10 ^ Z.of_nat k) 10 ltac:(lia)) as Hd.
  cbn [pad_digits]. split_and!.
  - simpl. by rewrite digit_char_digit, IH1 by lia.
  - change (String ?c ?s) with (String c "" ++ s). rewrite slen_app, IH2.
    change (slen _) with 1. lia.
  - intros v. cbn [dec_value_from]. rewrite IH3, digit_char_value by lia.
    replace (Z.of_nat (S k)) with (Z.of_nat k + 1) by lia.
    rewrite Z.pow_add_r by lia. change (10 ^ 1) with 10.
    rewrite (Z.rem_mul_r n (10 ^ Z.of_nat k) 10) by lia. lia.
Qed.

(** What survives the trip: the value in millionths. *)
Definition quantize (x : spec_float) : spec_float :=
  match x with
  | S754_finite s m e => float_of_decimal s (millionths m e) (- 6)
  | _ => x
  end.

Lemma div_half_even_nonneg a b : 0 <= a -> 0 < b -> 0 <= div_half_even a b.
Proof.
  intros Ha Hb. unfold div_half_even. pose proof (Z.div_pos a b Ha Hb).
  repeat case_match; lia.
Qed.

Lemma millionths_nonneg m e : 0 <= millionths m e.
Proof.
  unfold millionths. destruct (Z.leb_spec 0 e).
  - pose proof (Z.pow_nonneg 2 e). lia.
  - apply div_half_even_nonneg; [lia|]. apply Z.pow_pos_nonneg; lia.
Qed.

Lemma digit_lower c : isdigit c = true -> to_lower c = c.
Proof.
  intros [H1%Z.leb_le H2%Z.leb_le]%andb_true_iff. unfold to_lower.
  by destruct (Z.leb_spec 65 (code c)); [lia|].
Qed.

Lemma digit_head_plain c s : isdigit c = true ->
  String.eqb (lower (String c s)) "inf" || String.eqb (lower (String c s)) "infinity" = false /\
  is_nan_literal (lower (String c s)) = false.
Proof.
  intros Hc. cbn [lower]. rewrite digit_lower by done.
  assert (c <> "i"%char /\ c <> "n"%char) as [Hi Hn] by (split; intros ->; done).
  split.
  - apply orb_false_iff. split; apply String.eqb_neq; by intros [= ?].
  - unfold is_nan_literal. apply orb_false_iff. split; [apply String.eqb_neq; by intros [= ?]|].
    destruct (lower s) as [|c1 [|c2 [|c3 r]]]; try done.
    apply andb_false_iff. left. apply String.eqb_neq. by intros [= ?].
Qed.

Lemma unsigned_fixed6 neg n : 0 <= n ->
  unsigned_literal neg (fixed6_nat n) = Some (float_of_decimal neg n (- 6)) /\
  exists c s, fixed6_nat n = String c s /\ isdigit c = true.
Proof.
  intros Hn. unfold fixed6_nat.
  pose proof (Z.div_pos n (10 ^ 6) Hn ltac:(lia)) as Hq.
  destruct (to_string_digits (n / 10 ^ 6) Hq) as [Hd Hne].
  pose proof (dec_value_to_string (n / 10 ^ 6) Hq) as Hv.
  destruct (pad_digits_spec 6 (n mod 10 ^ 6)) as (Hp1 & Hp2 & Hp3);
    [apply Z.mod_pos_bound; lia|].
  set (frac := pad_digits 6 (n mod 10 ^ 6)) in *. clearbody frac.
  assert (mantissa isdigit (to_string (n / 10 ^ 6) ++ "." ++ frac)
    = (to_string (n / 10 ^ 6), frac, "")) as Hm.
  { unfold mantissa. rewrite span_app by done. cbn [append]. rewrite Ascii.eqb_refl.
    by rewrite span_all. }
  assert (dec_value (to_string (n / 10 ^ 6) ++ frac) = n) as Hdec.
  { unfold dec_value in *. rewrite dec_value_from_app, Hv, Hp3. change (Z.of_nat 6) with 6.
    rewrite Z.mod_mod by lia. pose proof (Z.div_mod n (10 ^ 6) ltac:(lia)). lia. }
  destruct (to_string (n / 10 ^ 6)) as [|c s] eqn:E; [done|]. clear E Hne.
  pose proof Hd as [Hc Hs]%andb_true_iff. split; [|by eexists c, _].
  unfold unsigned_literal. destruct (digit_head_plain c (s ++ "." ++ frac) Hc) as [H1 H2].
  change (String c s ++ "." ++ frac) with (String c (s ++ "." ++ frac)) in *.
  rewrite H1, H2, Hm, Hp2. cbn [is_empty_string append]. cbn [exponent].
  change (String c (s ++ frac)) with (String c s ++ frac). rewrite Hdec.
  cbn [lower]. destruct (lower (s ++ String "." frac)) as [|c1 r] eqn:El; [done|].
  rewrite digit_lower by done.
  assert (c1 <> "x"%char) as Hx.
  { intros ->. destruct s as [|c2 s]; [by inversion El|].
    cbn in Hs. apply andb_true_iff in Hs as [Hc2 _]. cbn in El. injection El as El _.
    rewrite digit_lower in El by done. by subst. }
  rewrite (proj2 (Ascii.eqb_neq c1 "x") Hx), andb_false_r. done.
Qed.

Lemma parse_fixed6 x : parse_float (fixed6 x) = Some (quantize x) /\ is_word (fixed6 x).
Proof.
  assert (forall neg n, 0 <= n -> parse_float (sign_text neg ++ fixed6_nat n)
    = Some (float_of_decimal neg n (- 6))) as Hp.
  { intros neg n Hn. destruct (unsigned_fixed6 neg n Hn) as (E & c & s & Es & Hc).
    unfold parse_float, take_sign. rewrite Es in *. destruct neg; cbn; [done|].
    destruct (Ascii.eqb_spec c "-") as [->|]; [done|].
    by destruct (Ascii.eqb_spec c "+") as [->|]. }
  assert (forall neg n, 0 <= n -> is_word (sign_text neg ++ fixed6_nat n)) as Hw.
  { intros neg n Hn. split.
    - destruct (unsigned_fixed6 neg n Hn) as (_ & c & s & -> & _). by destruct neg.
    - rewrite all_chars_app. unfold fixed6_nat. rewrite !all_chars_app.
      rewrite (proj2 (to_string_word (n / 10 ^ 6) ltac:(apply Z.div_pos; lia))).
      destruct (pad_digits_spec 6 (n mod 10 ^ 6)) as (Hd & _); [apply Z.mod_pos_bound; lia|].
      rewrite (all_chars_impl _ _ _ isdigit_not_space Hd). by destruct neg. }
  destruct x as [s|s| |s m e]; cbn [fixed6 quantize].
  - rewrite Hp by done. split; [done|]. by apply Hw.
  - by destruct s.
  - done.
  - pose proof (millionths_nonneg m e). rewrite Hp by done. auto.
Qed.

(** ** Lemmas: lines and words *)

Definition plain_char (c : ascii) : bool := negb (code c =? 13) && negb (code c =? 10).

Lemma split_lines_line l a s : all_chars plain_char a = true ->
  split_lines_from l (a ++ s) = split_lines_from (l ++ a) s.
Proof.
  revert l. induction a as [|c a IH]; intros l Ha; simpl in *.
  - by rewrite app_nil_string.
  - apply andb_true_iff in Ha as [[H1 H2]%andb_true_iff Ha].
    apply negb_true_iff in H1 as ->. apply negb_true_iff in H2 as ->.
    rewrite IH by done. by rewrite app_cons_string.
Qed.

(** Text made of complete lines, each a sequence of words. *)
Definition text_of (ls : list (list string)) : string :=
  foldr (fun ws t => join " " ws ++ nl ++ t) "" ls.

Lemma words_plain ws : Forall is_word ws -> all_chars plain_char (join " " ws) = true.
Proof.
  assert (forall w, is_word w -> all_chars plain_char w = true) as Hw.
  { intros w [_ Hw]. eapply all_chars_impl; [|exact Hw]. intros c.
    unfold plain_char, not_space, isspace. rewrite negb_true_iff. intros [H1 H2]%orb_false_iff.
    destruct (Z.eqb_spec (code c) 13) as [E|]; [by rewrite E in H2|].
    destruct (Z.eqb_spec (code c) 10) as [E|]; [by rewrite E in H2|done]. }
  induction 1 as [|w ws H1 H2 IH]; [done|]. destruct ws as [|w' ws]; [by apply Hw|].
  change (join " " (w :: w' :: ws)) with (w ++ " " ++ join " " (w' :: ws)).
  by rewrite !all_chars_app, Hw, IH.
Qed.

Lemma split_lines_text ls : Forall (Forall is_word) ls ->
  split_lines (text_of ls) = join " " <$> ls.
Proof.
  unfold split_lines. induction 1 as [|ws ls H1 H2 IH]; [done|]. cbn [text_of foldr fmap].
  rewrite split_lines_line by (by apply words_plain). cbn. f_equal. exact IH.
Qed.

Lemma split_tokens_words ws : Forall is_word ws -> split_tokens (join " " ws) = ws.
Proof. apply split_words_join. Qed.

Lemma text_of_app a b : text_of (a ++ b)%list = text_of a ++ text_of b.
Proof.
  induction a as [|ws a IH]; [done|]. cbn [text_of foldr app]. fold (text_of (a ++ b)).
  fold (text_of a). rewrite IH. by rewrite !app_assoc_string.
Qed.

(** ** Lemmas: what the writer writes, as lines of words *)

Definition move_words (m : ActiveMoveSnapshot) : list string :=
  ["move"; "piece_id"; to_string (ams_piece_id m); "piece"; to_token (ams_color m) (ams_kind m);
   "from"; to_string (ams_from_row m); to_string (ams_from_col m);
   "to"; to_string (ams_to_row m); to_string (ams_to_col m);
   "progress"; fixed6 (ams_progress m)].
Definition jump_words (j : ActiveJumpSnapshot) : list string :=
  ["jump"; "piece_id"; to_string (ajs_piece_id j); "piece"; to_token (ajs_color j) (ajs_kind j);
   "row"; to_string (ajs_row j); to_string (ajs_col j); "progress"; fixed6 (ajs_progress j)].
Definition rest_words (r : ActiveRestSnapshot) : list string :=
  ["rest"; "piece_id"; to_string (ars_piece_id r); "row"; to_string (ars_row r);
   to_string (ars_col r); "kind"; rest_kind_token (ars_kind r);
   "progress"; fixed6 (ars_progress r)].
Definition row_words (v : BoardViewModel) (row : Z) : list string :=
  (fun col => write_cell_token (board_view_cell_at v row col)) <$> zrange (v_width v).
Definition header_words (v : BoardViewModel) : list (list string) :=
  ([["clock_ms"; to_string (v_clock_ms v)]; ["game_over"; if v_game_over v then "true" else "false"];
    ["height"; to_string (v_height v)]; ["width"; to_string (v_width v)]]
   ++ match v_selection v with Some (r, c) => [["selection"; to_string r; to_string c]] | None => [] end)
  %list.
Definition animation_words (a : AnimationSnapshot) : list (list string) :=
  (["animations"] :: ["moves"] :: (move_words <$> snap_moves a)
   ++ ["jumps"] :: (jump_words <$> snap_jumps a)
   ++ ["rests"] :: (rest_words <$> snap_rests a))%list.
Definition snapshot_words (v : BoardViewModel) : list (list string) :=
  (["snapshot"] :: header_words v ++ ["cells"] :: (row_words v <$> zrange (v_height v))
   ++ animation_words (v_animations v))%list.

Lemma join_snoc sep l x : join sep (l ++ [x])%list =
  match l with [] => x | _ => join sep l ++ sep ++ x end.
Proof.
  induction l as [|y l IH]; [done|]. cbn [app]. destruct l as [|z l]; [done|].
  change (join sep (y :: z :: l)) with (y ++ sep ++ join sep (z :: l)).
  change (join sep (y :: ((z :: l) ++ [x])%list)) with (y ++ sep ++ join sep ((z :: l) ++ [x])%list).
  rewrite IH. by rewrite !app_assoc_string.
Qed.

Lemma fold_words (f : Z -> string) n out : 0 <= n ->
  fold_left (fun out col => (if 0 <? col then out ++ " " else out) ++ f col) (zrange n) out
  = out ++ join " " (f <$> zrange n).
Proof.
  revert n. apply natlike_ind; [simpl; by rewrite app_nil_string|]. intros n Hn IH.
  change (Z.succ n) with (n + 1). rewrite zrange_succ, fold_left_app, IH, fmap_app by done.
  cbn [fold_left]. cbn [fmap list_fmap]. rewrite join_snoc.
  destruct (Z.ltb_spec 0 n).
  - replace n with (n - 1 + 1) by lia. rewrite zrange_succ, fmap_app by lia.
    destruct (f <$> zrange (n - 1)) eqn:E; cbn [fmap list_fmap app];
      by rewrite !app_assoc_string.
  - replace n with 0 by lia. simpl. by rewrite app_nil_string.
Qed.

Lemma write_rows_eq v out : 0 <= v_width v -> 0 < v_height v ->
  write_snapshot_rows v out ++ nl = out ++ text_of (row_words v <$> zrange (v_height v)).
Proof.
  intros Hw Hh. unfold write_snapshot_rows.
  assert (forall row o, write_snapshot_row v row o = o ++ join " " (row_words v row)) as Hrow.
  { intros row o. unfold write_snapshot_row. by rewrite fold_words. }
  assert (forall k, 0 <= k -> k < v_height v ->
    fold_left (fun out row =>
      let out := write_snapshot_row v row out in
      if row + 1 <? v_height v then out ++ nl else out) (zrange k) out
    = out ++ text_of (row_words v <$> zrange k)) as Hk.
  { apply (natlike_ind (fun k => k < v_height v -> _)).
    - intros _. simpl. by rewrite app_nil_string.
    - intros k Hk IH Hlt. change (Z.succ k) with (k + 1) in *.
      rewrite zrange_succ, fold_left_app, IH, fmap_app, text_of_app by lia. cbn [fold_left].
      cbv zeta. rewrite Hrow. destruct (Z.ltb_spec (k + 1) (v_height v)); [|lia].
      cbn [fmap list_fmap text_of foldr]. by rewrite !app_assoc_string, app_nil_string. }
  assert (zrange (v_height v) = (zrange (v_height v - 1) ++ [v_height v - 1])%list) as ->.
  { rewrite <- zrange_succ by lia. f_equal. lia. }
  rewrite fold_left_app, Hk, fmap_app, text_of_app by lia.
  cbn [fold_left]. cbv zeta. rewrite Hrow.
  destruct (Z.ltb_spec (v_height v - 1 + 1) (v_height v)); [lia|].
  cbn [fmap list_fmap text_of foldr]. by rewrite !app_assoc_string, app_nil_string.
Qed.

Lemma fold_lines {A} (f : A -> string) (w : A -> list string) l out :
  (forall x, f x = join " " (w x) ++ nl) ->
  fold_left (fun out x => out ++ f x) l out = out ++ text_of (w <$> l).
Proof.
  intros Hf. revert out. induction l as [|x l IH]; intros out; cbn [fold_left].
  - simpl. by rewrite app_nil_string.
  - rewrite IH, Hf. cbn [fmap list_fmap text_of foldr]. by rewrite !app_assoc_string.
Qed.

Lemma write_snapshot_eq v : 0 <= v_width v -> 0 < v_height v ->
  write_snapshot v = text_of (snapshot_words v).
Proof.
  intros Hw Hh. unfold write_snapshot, snapshot_words, animation_words. cbv zeta.
  rewrite (fold_lines write_rest_snapshot rest_words)
    by (intros; unfold write_rest_snapshot; cbn [join rest_words]; by rewrite !app_assoc_string).
  rewrite (fold_lines write_jump_snapshot jump_words)
    by (intros; unfold write_jump_snapshot; cbn [join jump_words]; by rewrite !app_assoc_string).
  rewrite (fold_lines write_move_snapshot move_words)
    by (intros; unfold write_move_snapshot; cbn [join move_words]; by rewrite !app_assoc_string).
  rewrite <- (app_assoc_string (write_snapshot_rows _ _) nl), write_rows_eq by done.
  assert (forall ws l, text_of (ws :: l) = join " " ws ++ nl ++ text_of l) as Hcons by done.
  unfold header_words. cbn [app]. destruct (v_selection v) as [[r c]|]; cbn [app];
    repeat (rewrite Hcons || rewrite text_of_app); cbn [join]; by rewrite !app_assoc_string.
Qed.

(** ** Lemmas: reading back *)

(** A value of the wire's unsigned range. *)
Definition wire (z : Z) : Prop := 0 <= z < 2 ^ 63.

Definition move_wf (m : ActiveMoveSnapshot) : Prop :=
  0 <= ams_piece_id m < 2 ^ 32 /\ ams_kind m <> Count /\ wire (ams_from_row m) /\
  wire (ams_from_col m) /\ wire (ams_to_row m) /\ wire (ams_to_col m).
Definition jump_wf (j : ActiveJumpSnapshot) : Prop :=
  0 <= ajs_piece_id j < 2 ^ 32 /\ ajs_kind j <> Count /\ wire (ajs_row j) /\ wire (ajs_col j).
Definition rest_wf (r : ActiveRestSnapshot) : Prop :=
  0 <= ars_piece_id r < 2 ^ 32 /\ wire (ars_row r) /\ wire (ars_col r).

(** A view that fits the wire format. *)
Record view_wf (max_size : Z) (v : BoardViewModel) : Prop := {
  vw_height : 0 < v_height v;
  vw_width : 0 <= v_width v < 2 ^ 63;
  vw_height_fits : v_height v < 2 ^ 63;
  vw_size : v_height v * v_width v < 2 ^ 64 /\ v_height v * v_width v <= max_size;
  vw_cells : vlen (v_cells v) = v_height v * v_width v;
  vw_kinds : Forall (fun cell => forall p, cell = Some p -> pv_kind p <> Count) (v_cells v);
  vw_clock : wire (v_clock_ms v);
  vw_selection : forall r c, v_selection v = Some (r, c) -> wire r /\ wire c;
  vw_moves : Forall move_wf (snap_moves (v_animations v));
  vw_jumps : Forall jump_wf (snap_jumps (v_animations v));
  vw_rests : Forall rest_wf (snap_rests (v_animations v))
}.

(** The view as it arrives: progress values are rounded to millionths. *)
Definition quantize_move (m : ActiveMoveSnapshot) : ActiveMoveSnapshot :=
  mkMoveSnapshot (ams_piece_id m) (ams_kind m) (ams_color m) (ams_from_row m) (ams_from_col m)
    (ams_to_row m) (ams_to_col m) (quantize (ams_progress m)).
Definition quantize_jump (j : ActiveJumpSnapshot) : ActiveJumpSnapshot :=
  mkJumpSnapshot (ajs_piece_id j) (ajs_kind j) (ajs_color j) (ajs_row j) (ajs_col j)
    (quantize (ajs_progress j)).
Definition quantize_rest (r : ActiveRestSnapshot) : ActiveRestSnapshot :=
  mkRestSnapshot (ars_piece_id r) (ars_row r) (ars_col r) (ars_kind r) (quantize (ars_progress r)).
Definition quantize_animations (a : AnimationSnapshot) : AnimationSnapshot :=
  mkAnimation (quantize_move <$> snap_moves a) (quantize_jump <$> snap_jumps a)
    (quantize_rest <$> snap_rests a).
Definition received (v : BoardViewModel) : BoardViewModel :=
  set_animations v (quantize_animations (v_animations v)).

Lemma token_word color kind : is_word (to_token color kind).
Proof. by destruct color, kind. Qed.

Lemma fixed6_word x : is_word (fixed6 x).
Proof. apply parse_fixed6. Qed.

(** Forall [is_word] of an explicit list of words. *)
Ltac words :=
  repeat first
    [ apply Forall_nil_2 | apply Forall_cons_2 | apply token_word | apply fixed6_word
    | apply to_string_word; unfold wire in *; lia | done ].

(** Evaluate the parse of explicit fields. *)
Ltac fields :=
  repeat first
    [ rewrite parse_id_to_string by lia | rewrite parse_size_to_string by done
    | rewrite parse_int64_to_string by done | rewrite bind_ok
    | rewrite descriptor_to_token by done | rewrite (proj1 (parse_fixed6 _)) ].

Lemma parse_move_words m : move_wf m ->
  Forall is_word (move_words m) /\ parse_move_line (move_words m) = Ok (Some (quantize_move m)).
Proof.
  intros (Hid & Hk & H1 & H2 & H3 & H4). split; [unfold move_words; words|].
  unfold parse_move_line, move_words. cbn [String.eqb Ascii.eqb eqb andb]. by fields.
Qed.

Lemma parse_jump_words j : jump_wf j ->
  Forall is_word (jump_words j) /\ parse_jump_line (jump_words j) = Ok (Some (quantize_jump j)).
Proof.
  intros (Hid & Hk & H1 & H2). split; [unfold jump_words; words|].
  unfold parse_jump_line, jump_words. cbn [String.eqb Ascii.eqb eqb andb]. by fields.
Qed.

Lemma parse_rest_words r : rest_wf r ->
  Forall is_word (rest_words r) /\ parse_rest_line (rest_words r) = Ok (Some (quantize_rest r)).
Proof.
  intros (Hid & H1 & H2). split.
  - unfold rest_words. destruct (ars_kind r); words.
  - unfold parse_rest_line, rest_words. cbn [String.eqb Ascii.eqb eqb andb]. fields.
    by destruct r as [? ? ? [] ?].
Qed.

Lemma animation_lines_read {A} (parse_line : list string -> res (option A))
    (w : A -> list string) (q : A -> A) next l rest dest :
  Forall (fun x => Forall is_word (w x) /\ parse_line (w x) = Ok (Some (q x))) l ->
  (forall x, exists a b s, w x = a :: b :: s) ->
  animation_lines parse_line next ((join " " <$> (w <$> l)) ++ rest)%list dest =
  animation_lines parse_line next rest (dest ++ (q <$> l))%list.
Proof.
  intros Hl Hw. revert dest. induction Hl as [|x l [H1 H2] Hl IH]; intros dest.
  { by rewrite app_nil_r. }
  cbn [fmap list_fmap app animation_lines]. rewrite split_tokens_words by done.
  destruct (Hw x) as (a & b & s & E). rewrite E in *. cbn [is_section_marker].
  rewrite andb_false_r, H2, bind_ok. rewrite IH. by rewrite <- app_assoc.
Qed.

Lemma parse_animations_words a :
  Forall move_wf (snap_moves a) -> Forall jump_wf (snap_jumps a) -> Forall rest_wf (snap_rests a) ->
  parse_animations (join " " <$> animation_words a) = Ok (Some (quantize_animations a)).
Proof.
  intros Hm Hj Hr. unfold animation_words, parse_animations. cbn [fmap list_fmap join].
  change (is_section_marker (split_tokens "animations") "animations") with true. cbn [negb].
  unfold parse_animation_section. change (is_section_marker (split_tokens "moves") "moves") with true.
  cbn [negb]. rewrite fmap_app, (animation_lines_read _ _ quantize_move).
  2: { eapply Forall_impl; [exact Hm|]. apply parse_move_words. }
  2: { intros x. by eexists _, _, _. }
  cbn [fmap list_fmap join app animation_lines].
  change (split_tokens "jumps") with ["jumps"]. cbn [is_empty_string negb andb is_section_marker].
  rewrite String.eqb_refl. unfold and_then at 1. rewrite bind_ok. cbn [fst snd negb].
  change (split_tokens "jumps") with ["jumps"]. cbn [is_section_marker].
  rewrite String.eqb_refl. cbn [negb]. rewrite fmap_app, (animation_lines_read _ _ quantize_jump).
  2: { eapply Forall_impl; [exact Hj|]. apply parse_jump_words. }
  2: { intros x. by eexists _, _, _. }
  cbn [fmap list_fmap join app animation_lines].
  change (split_tokens "rests") with ["rests"]. cbn [is_empty_string negb andb is_section_marker].
  rewrite String.eqb_refl. unfold and_then at 1. rewrite bind_ok. cbn [fst snd negb].
  change (split_tokens "rests") with ["rests"]. cbn [is_section_marker].
  rewrite String.eqb_refl. cbn [negb].
  rewrite <- (app_nil_r (join " " <$> (rest_words <$> snap_rests a))).
  rewrite (animation_lines_read _ _ quantize_rest).
  2: { eapply Forall_impl; [exact Hr|]. apply parse_rest_words. }
  2: { intros x. by eexists _, _, _. }
  done.
Qed.

Lemma read_header_step ws rest v v' : Forall is_word ws ->
  header_line ws v = Ok (Some (Some v')) ->
  read_header (join " " <$> (ws :: rest)) v = read_header (join " " <$> rest) v'.
Proof.
  intros Hws E. cbn [fmap list_fmap read_header]. by rewrite split_tokens_words, E.
Qed.

(** One header line of the writer. *)
Ltac header_step :=
  erewrite read_header_step;
  [ | words
    | unfold header_line, and_then; cbn [String.eqb Ascii.eqb eqb andb]; fields; reflexivity ].

Lemma read_header_words v rest max_size : view_wf max_size v ->
  Forall (Forall is_word) (header_words v) /\
  read_header (join " " <$> (header_words v ++ ["cells"] :: rest)%list) empty_view =
  Ok (Some (join " " <$> rest, mkView (v_height v) (v_width v) (v_clock_ms v) (v_game_over v)
              (v_selection v) [] (mkAnimation [] [] []))).
Proof.
  intros [Hh Hw Hhf _ _ _ Hc Hs _ _ _]. assert (wire (v_height v)) by (split; lia).
  assert (is_word (if v_game_over v then "true" else "false")) by (by destruct (v_game_over v)).
  assert (parse_bool (if v_game_over v then "true" else "false") = Some (v_game_over v)) as Hb
    by (by destruct (v_game_over v)).
  unfold header_words. rewrite <- app_assoc. cbn [app]. split.
  - destruct (v_selection v) as [[r c]|]; [destruct (Hs r c eq_refl)|]; cbn [app]; repeat words.
  - header_step. erewrite read_header_step;
      [|words|unfold header_line, and_then; cbn [String.eqb Ascii.eqb eqb andb];
              rewrite Hb; reflexivity].
    do 2 header_step.
    destruct (v_selection v) as [[r c]|]; cbn [app]; [|done].
    destruct (Hs r c eq_refl). by header_step.
Qed.

Lemma parse_cell_tokens_write cs :
  Forall (fun cell => forall p, cell = Some p -> pv_kind p <> Count) cs ->
  parse_cell_tokens (write_cell_token <$> cs) = Some cs /\
  Forall is_word (write_cell_token <$> cs).
Proof.
  induction 1 as [|cell cs Hc Hcs [IH1 IH2]]; [done|]. cbn [fmap list_fmap parse_cell_tokens].
  rewrite IH1. destruct cell as [[kind color]|]; cbn [write_cell_token pv_kind pv_color].
  - unfold parse_cell_token. rewrite to_token_valid. cbn [negb].
    rewrite descriptor_to_token by (by apply (Hc _ eq_refl)). split; [done|].
    apply Forall_cons_2; [apply token_word|done].
  - split; [done|]. by apply Forall_cons_2.
Qed.

Lemma read_cells_rows (rws : list (list CellView)) rest w k cells :
  Forall (fun cs => vlen cs = w /\
    Forall (fun cell => forall p, cell = Some p -> pv_kind p <> Count) cs) rws ->
  read_cells ((join " " <$> ((fmap write_cell_token) <$> rws)) ++ rest)%list w k (k + vlen rws) cells
  = Some (rest, (cells ++ List.concat rws)%list).
Proof.
  revert k cells. induction rws as [|cs rws IH]; intros k cells Hr.
  { rewrite vlen_nil, Z.add_0_r, app_nil_r. cbn [fmap list_fmap app].
    by destruct rest; cbn; rewrite Z.leb_refl. }
  apply Forall_cons in Hr as [[H1 H2] Hr].
  destruct (parse_cell_tokens_write cs H2) as [H3 H4]. pose proof (vlen_nonneg rws).
  cbn [fmap list_fmap app read_cells List.concat]. rewrite vlen_cons.
  destruct (Z.leb_spec (k + (1 + vlen rws)) k); [lia|].
  rewrite split_tokens_words by done.
  assert (vlen (write_cell_token <$> cs) = w) as -> by (rewrite <- H1; apply vlen_fmap).
  rewrite Z.eqb_refl. cbn [negb].
  rewrite H3. replace (k + (1 + vlen rws)) with (k + 1 + vlen rws) by lia.
  rewrite IH by done. by rewrite <- app_assoc.
Qed.

Lemma vlen_concat {A} (ls : list (list A)) w : (forall l, l ∈ ls -> vlen l = w) ->
  vlen (List.concat ls) = vlen ls * w.
Proof.
  induction ls as [|l ls IH]; intros Hall; [done|]. cbn [List.concat].
  rewrite vlen_app, vlen_cons, IH, (Hall l) by set_solver. lia.
Qed.

Lemma list_eq_vat {A} (l k : list A) : vlen l = vlen k ->
  (forall i x, 0 <= i < vlen l -> vat k i = Some x -> vat l i = Some x) -> l = k.
Proof.
  intros Hlen H. apply list_eq_same_length with (List.length k); [done|unfold vlen in Hlen; lia|].
  intros i x y Hi Hx Hy. unfold vlen in *. specialize (H (Z.of_nat i) y ltac:(lia)).
  unfold vat in H. destruct (Z.ltb_spec (Z.of_nat i) 0); [lia|]. rewrite Nat2Z.id in H.
  specialize (H Hy). congruence.
Qed.

(** The cells row by row. *)
Definition view_rows (v : BoardViewModel) : list (list CellView) :=
  (fun r => board_view_cell_at v r <$> zrange (v_width v)) <$> zrange (v_height v).

Lemma view_rows_length v l : 0 <= v_width v -> l ∈ view_rows v -> vlen l = v_width v.
Proof.
  intros Hw (r & -> & _)%list_elem_of_fmap. rewrite vlen_fmap. by apply vlen_zrange.
Qed.

Lemma view_rows_cells v max_size : view_wf max_size v -> List.concat (view_rows v) = v_cells v.
Proof.
  intros [Hh [Hw _] _ [Hsz _] Hlen _ _ _ _ _ _].
  assert (vlen (List.concat (view_rows v)) = v_height v * v_width v) as Hl.
  { rewrite (vlen_concat _ (v_width v)) by (intros; by apply view_rows_length).
    unfold view_rows. rewrite vlen_fmap, vlen_zrange by lia. done. }
  apply list_eq_vat; [congruence|]. rewrite Hl. intros i x Hi Hx.
  assert (0 < v_width v) by nia.
  pose proof (Z.div_mod i (v_width v) ltac:(lia)) as Hdm.
  pose proof (Z.mod_pos_bound i (v_width v) ltac:(lia)) as Hm.
  assert (0 <= i / v_width v < v_height v) as Hq.
  { split; [apply Z.div_pos; lia|]. apply Z.div_lt_upper_bound; nia. }
  set (r := i / v_width v) in *. set (c := i mod v_width v) in *.
  replace i with (r * v_width v + c) in * by lia.
  apply (vat_concat _ (v_width v)); [done|intros; by apply view_rows_length|].
  exists (board_view_cell_at v r <$> zrange (v_width v)). unfold view_rows.
  rewrite vat_fmap, vat_zrange by done. split; [done|].
  rewrite vat_fmap, vat_zrange by done. cbn [fmap option_fmap option_map]. f_equal.
  unfold board_view_cell_at, board_view_cell_index.
  destruct (Z.leb_spec (v_height v) r); [lia|]. destruct (Z.leb_spec (v_width v) c); [lia|].
  cbn [orb]. rewrite to_size_id by nia. by rewrite Hx.
Qed.

Lemma row_words_eq v :
  row_words v <$> zrange (v_height v) = (fmap write_cell_token) <$> view_rows v.
Proof.
  unfold view_rows, row_words. rewrite <- list_fmap_compose. apply list_fmap_ext.
  intros i r _. unfold compose. by rewrite <- list_fmap_compose.
Qed.

Lemma animation_words_words a :
  Forall move_wf (snap_moves a) -> Forall jump_wf (snap_jumps a) -> Forall rest_wf (snap_rests a) ->
  Forall (Forall is_word) (animation_words a).
Proof.
  intros Hm Hj Hr. unfold animation_words.
  do 2 (apply Forall_cons_2; [words|]).
  apply Forall_app; split; [|apply Forall_cons_2; [words|]; apply Forall_app; split;
    [|apply Forall_cons_2; [words|]]]; rewrite Forall_fmap; eapply Forall_impl; try eassumption.
  - apply parse_move_words.
  - apply parse_jump_words.
  - apply parse_rest_words.
Qed.

Lemma view_rows_wf v max_size : view_wf max_size v ->
  Forall (fun cs => vlen cs = v_width v /\
    Forall (fun cell => forall p, cell = Some p -> pv_kind p <> Count) cs) (view_rows v).
Proof.
  intros Hv. apply Forall_forall. intros cs Hcs.
  split; [apply view_rows_length; [apply (vw_width _ _ Hv)|done]|].
  apply Forall_forall. intros cell Hc. pose proof (vw_kinds _ _ Hv) as Hk.
  rewrite Forall_forall in Hk. apply Hk. rewrite <- (view_rows_cells v _ Hv).
  apply list_elem_of_In, in_concat. exists cs. by rewrite <- !list_elem_of_In.
Qed.

(** Reading back what was written. *)
Lemma read_write_snapshot max_size v : view_wf max_size v ->
  read_snapshot max_size (write_snapshot v) = Ok (Some (received v)).
Proof.
  intros Hv. pose proof Hv as [Hh [Hw _] _ [Hsz Hmax] Hlen _ _ _ Hm Hj Hr].
  rewrite write_snapshot_eq by done. unfold read_snapshot.
  destruct (read_header_words v ((row_words v <$> zrange (v_height v))
    ++ animation_words (v_animations v)) _ Hv) as [Hwords Hhead].
  assert (Forall (Forall is_word) (row_words v <$> zrange (v_height v))) as Hrows.
  { rewrite row_words_eq, Forall_fmap. eapply Forall_impl; [by eapply view_rows_wf|].
    intros cs [_ Hcs]. by apply parse_cell_tokens_write. }
  rewrite split_lines_text.
  2: { unfold snapshot_words. apply Forall_cons_2; [words|]. apply Forall_app; split; [done|].
       apply Forall_cons_2; [words|]. apply Forall_app; split; [done|].
       by apply animation_words_words. }
  unfold snapshot_words. rewrite fmap_cons. change (join " " ["snapshot"]) with "snapshot".
  rewrite String.eqb_refl. cbn [negb]. rewrite Hhead. unfold and_then at 1. rewrite bind_ok.
  cbv beta iota. cbn [v_height v_width]. unfold reserve. rewrite to_size_id by nia.
  rewrite (proj2 (Z.leb_le _ _) Hmax), bind_ok. rewrite row_words_eq, fmap_app.
  replace (v_height v) with (0 + vlen (view_rows v)) at 1
    by (unfold view_rows; rewrite vlen_fmap, vlen_zrange; lia).
  rewrite read_cells_rows by (by eapply view_rows_wf). cbn [app]. rewrite (view_rows_cells v _ Hv).
  rewrite parse_animations_words by done. by destruct v.
Qed.

(** ** Properties *)

(** C26: Snapshots survive the wire: reading back the text the server writes for
    a view that fits the format (at least one row, cells of real piece kinds,
    coordinates and clock in range) gives that view, with the progress values of
    the animations rounded to millionths. *)
Theorem snapshot_roundtrip max_size v : view_wf max_size v ->
  read_snapshot max_size (write_snapshot v) = Ok (Some (received v)).
Proof. apply read_write_snapshot. Qed.

(** A view with a piece on the board, a move, a jump and a rest. *)
Definition sample_view : BoardViewModel :=
  mkView 1 2 1500 false (Some (0, 1)) [Some (mkPieceView King White); None]
    (mkAnimation
      [mkMoveSnapshot 7 Rook Black 0 1 0 0 (S754_finite false 8388608 (- 24))]
      [mkJumpSnapshot 8 Knight White 0 0 (S754_finite false 11184811 (- 25))]
      [mkRestSnapshot 9 0 1 Long (float32_of_int 1)]).

Lemma sample_snapshot_wf : view_wf 1000 sample_view.
Proof.
  split; simpl; unfold wire, move_wf, jump_wf, rest_wf, wire; simpl; try lia; try done.
  - repeat constructor; [by intros ? [= <-]|done].
  - intros r c [= <- <-]. lia.
  - repeat constructor; simpl; (lia || done).
  - repeat constructor; simpl; (lia || done).
  - repeat constructor; simpl; (lia || done).
Qed.

Lemma snapshot_roundtrip_witness :
  view_wf 1000 sample_view /\
  read_snapshot 1000 (write_snapshot sample_view) = Ok (Some (received sample_view)).
Proof.
  split; [apply sample_snapshot_wf|]. apply (snapshot_roundtrip 1000 sample_view), sample_snapshot_wf.
Defined.

(** The snapshot of a board without rows is written with an empty line that the
    reader does not accept. *)
Example snapshot_of_empty_board_unreadable :
  read_snapshot 1000 (write_snapshot empty_view) = Ok None.
Proof. vm_compute. reflexivity. Qed.

(** A number of twenty digits in a snapshot overflows [std::int64_t]. *)
Example snapshot_number_overflow :
  read_snapshot 1000 ("snapshot" ++ nl ++ "clock_ms 99999999999999999999" ++ nl) = Err Undefined.
Proof. vm_compute. reflexivity. Qed.

(** A snapshot announcing a huge board makes [reserve] throw. *)
Example snapshot_reserve_throws :
  read_snapshot (2 ^ 63 / 12) ("snapshot" ++ nl ++ "height 4000000000" ++ nl
    ++ "width 4000000000" ++ nl ++ "cells" ++ nl) = Err LengthError.
Proof. vm_compute. reflexivity. Qed.
