(* ===== verification/Codecs.v ===== *)
(** * Codecs between the servers

    [src/src/matchmaking/protocol/matchmaking_codec.cpp] and
    [src/src/server/game/protocol/game_creation_codec.cpp] with the message types of
    the headers beside them: bar-separated text exchanged by gateway, matchmaker
    and game server.  [std::stoi] and [std::stoull] are modelled with what they
    accept; the value [None] stands for their exceptions. *)

From S2P Require Import Prelude CppString.
From Stdlib Require Import Ascii String.
Open Scope string_scope.
Open Scope Z_scope.

(** ** Fields *)

Definition bar : string := "|".
Definition not_bar (c : ascii) : bool := negb (Ascii.eqb c "|").

(** The field at an index: the scan of [value.find('|', start)], with the text
    from [start] on as the argument. *)
Fixpoint field_at (value : string) (index : nat) : option string :=
  let '(field, rest) := span not_bar value in
  match index with
  | O => Some field
  | S k => match rest with EmptyString => None | String _ rest' => field_at rest' k end
  end.

(** Decimal digits into an unsigned 64-bit integer, modulo its size. *)
Fixpoint parse_integral_loop (value : Z) (token : string) : option Z :=
  match token with
  | EmptyString => Some value
  | String ch rest =>
      if negb (isdigit ch) then None
      else parse_integral_loop (to_u64 (value * 10 + digit_value ch)) rest
  end.
Definition parse_integral (token : string) : option Z :=
  if is_empty_string token then None else parse_integral_loop 0 token.

Definition parse_user_id (token : string) : option Z := parse_integral token.

Definition stoi (s : string) : option Z :=
  match extract_int s with Some (v, _) => Some v | None => None end.

(** [std::stoull]: a minus sign negates the value modulo 2^64. *)
Definition stoull (s : string) : option Z :=
  match extract_signed (- (2 ^ 64 - 1)) (2 ^ 64 - 1) s with
  | Some (v, _) => Some (to_u64 v)
  | None => None
  end.

(** ** Matchmaking messages *)

Record MatchRequest := mkMatchRequest {
  mr_player_id : Z; mr_user_id : Z; mr_elo : Z; mr_region : string
}.
Inductive MatchJoinStatus := Queued | JoinError.
Record MatchResponse := mkMatchResponse { resp_status : MatchJoinStatus; resp_message : string }.
Record MatchCompletedEvent := mkMatchCompleted {
  mc_white_player_id : Z; mc_white_user_id : Z; mc_black_player_id : Z; mc_black_user_id : Z;
  mc_room_id : Z; mc_server_id : string; mc_endpoint : string
}.
Definition MatchNotification : Type := MatchCompletedEvent.

Definition encode_match_request (request : MatchRequest) : string :=
  to_string (mr_player_id request) ++ bar ++ to_string (mr_user_id request) ++ bar
  ++ to_string (mr_elo request) ++ bar ++ mr_region request.

Definition decode_match_request (body : string) : option MatchRequest :=
  match field_at body 0, field_at body 1, field_at body 2, field_at body 3 with
  | Some player_id, Some user_id, Some elo, Some region =>
      match parse_integral player_id, parse_integral user_id with
      | Some p, Some u =>
          match stoi elo with Some e => Some (mkMatchRequest p u e region) | None => None end
      | _, _ => None
      end
  | _, _, _, _ => None
  end.

Definition encode_match_response (response : MatchResponse) : string :=
  (match resp_status response with Queued => "queued" | JoinError => "error" end) ++ bar
  ++ resp_message response.

Definition decode_match_response (body : string) : option MatchResponse :=
  match field_at body 0 with
  | None => None
  | Some status =>
      match (if String.eqb status "queued" then Some Queued
             else if String.eqb status "error" then Some JoinError else None) with
      | None => None
      | Some st =>
          Some (mkMatchResponse st (match field_at body 1 with Some m => m | None => "" end))
      end
  end.

Definition encode_match_notification (n : MatchNotification) : string :=
  to_string (mc_white_player_id n) ++ bar ++ to_string (mc_white_user_id n) ++ bar
  ++ to_string (mc_black_player_id n) ++ bar ++ to_string (mc_black_user_id n) ++ bar
  ++ to_string (mc_room_id n) ++ bar ++ mc_server_id n ++ bar ++ mc_endpoint n.

Definition decode_match_notification (body : string) : option MatchNotification :=
  match field_at body 0, field_at body 1, field_at body 2, field_at body 3, field_at body 4,
        field_at body 5, field_at body 6 with
  | Some wp, Some wu, Some bp, Some bu, Some room, Some server_id, Some endpoint =>
      match stoull wp, stoull wu, stoull bp, stoull bu, stoull room with
      | Some wp, Some wu, Some bp, Some bu, Some room =>
          Some (mkMatchCompleted wp wu bp bu room server_id endpoint)
      | _, _, _, _, _ => None
      end
  | _, _, _, _, _, _, _ => None
  end.

Definition encode_timeout_notification (player_id : Z) : string :=
  "timeout|" ++ to_string player_id.

Definition decode_timeout_notification (body : string) : option Z :=
  match field_at body 0, field_at body 1 with
  | Some kind, Some player_id =>
      if String.eqb kind "timeout" then parse_integral player_id else None
  | _, _ => None
  end.

(** ** Game creation messages *)

Record GameCreationRequest := mkCreationRequest {
  cr_white_user_id : Z; cr_black_user_id : Z; cr_db_game_id : option Z
}.
Record GameCreationResponse := mkCreationResponse {
  cp_room_id : Z; cp_game_server_id : string; cp_endpoint : option string
}.

Definition encode_game_creation_request (request : GameCreationRequest) : string :=
  to_string (cr_white_user_id request) ++ bar ++ to_string (cr_black_user_id request) ++ bar
  ++ match cr_db_game_id request with Some id => to_string id | None => "" end.

Definition decode_game_creation_request (body : string) : option GameCreationRequest :=
  match field_at body 0, field_at body 1 with
  | Some white, Some black =>
      match parse_user_id white, parse_user_id black with
      | Some w, Some b =>
          match field_at body 2 with
          | None => Some (mkCreationRequest w b None)
          | Some id =>
              if is_empty_string id then Some (mkCreationRequest w b None)
              else match stoi id with
              | Some i => Some (mkCreationRequest w b (Some i))
              | None => None
              end
          end
      | _, _ => None
      end
  | _, _ => None
  end.

Definition encode_game_creation_response (response : GameCreationResponse) : string :=
  to_string (cp_room_id response) ++ bar ++ cp_game_server_id response ++ bar
  ++ match cp_endpoint response with Some e => e | None => "" end.

Definition decode_game_creation_response (body : string) : option GameCreationResponse :=
  match field_at body 0, field_at body 1 with
  | Some room_id_token, Some server_id =>
      match stoull room_id_token with
      | None => None
      | Some room_id =>
          Some (mkCreationResponse room_id server_id
            (match field_at body 2 with
             | Some e => if is_empty_string e then None else Some e
             | None => None
             end))
      end
  | _, _ => None
  end.

(** ** Lemmas *)

(** A text that can stand in a field. *)
Definition no_bar (s : string) : Prop := all_chars not_bar s = true.

Lemma field_at_join fs i : Forall no_bar fs -> fs <> [] -> field_at (join bar fs) i = fs !! i.
Proof.
  intros Hfs. revert i. induction Hfs as [|f fs Hf Hfs IH]; intros i Hne; [done|].
  destruct fs as [|f' fs].
  - cbn [join]. destruct i; cbn [field_at]; by rewrite (span_all not_bar f Hf).
  - change (join bar (f :: f' :: fs)) with (f ++ bar ++ join bar (f' :: fs)).
    assert (span not_bar (f ++ bar ++ join bar (f' :: fs)) = (f, bar ++ join bar (f' :: fs))) as Hs
      by (by apply span_app).
    destruct i as [|i]; cbn [field_at]; rewrite Hs; [done|].
    cbn [bar append]. by apply IH.
Qed.

Lemma parse_integral_loop_value v s : all_chars isdigit s = true -> 0 <= v ->
  dec_value_from v s < 2 ^ 64 -> parse_integral_loop v s = Some (dec_value_from v s).
Proof.
  revert v. induction s as [|c s IH]; intros v Hd Hv Hlt; [done|].
  simpl in *. apply andb_true_iff in Hd as [Hc Hd]. rewrite Hc. cbn [negb].
  pose proof (digit_value_range c Hc) as Hdv.
  pose proof (dec_value_from_ge (10 * v + digit_value c) s Hd ltac:(lia)).
  unfold to_u64. rewrite wrap_u_id by lia.
  replace (v * 10 + digit_value c) with (10 * v + digit_value c) by lia.
  apply IH; [done|lia|done].
Qed.

Lemma parse_integral_to_string n : fits_u64 n -> parse_integral (to_string n) = Some n.
Proof.
  intros Hn. unfold fits_u64 in Hn. destruct (to_string_digits n) as [Hd Hne]; [lia|].
  pose proof (dec_value_to_string n ltac:(lia)) as Hv. unfold dec_value in Hv.
  unfold parse_integral. destruct (to_string n) as [|c s] eqn:E; [done|]. cbn [is_empty_string].
  rewrite parse_integral_loop_value; rewrite ?Hv; done || lia.
Qed.

Lemma stoull_to_string n : fits_u64 n -> stoull (to_string n) = Some n.
Proof.
  intros Hn. unfold fits_u64, stoull in *. rewrite <- (app_nil_string (to_string n)).
  rewrite extract_signed_to_string by (lia || done). unfold to_u64. by rewrite wrap_u_id.
Qed.

Lemma stoi_to_string n : fits_int n -> stoi (to_string n) = Some n.
Proof.
  intros Hn. unfold fits_int, stoi, extract_int in *. rewrite <- (app_nil_string (to_string n)).
  by rewrite extract_signed_to_string by (lia || done).
Qed.

Lemma to_string_no_bar n : no_bar (to_string n).
Proof.
  assert (forall k, 0 <= k -> no_bar (to_string k)) as Hpos.
  { intros k Hk. destruct (to_string_digits k Hk) as [Hd _]. eapply all_chars_impl; [|exact Hd].
    intros c Hc. unfold not_bar. by destruct (Ascii.eqb_spec c "|") as [->|]. }
  destruct (Z.leb_spec 0 n) as [Hn|Hn]; [by apply Hpos|].
  specialize (Hpos (- n) ltac:(lia)). unfold to_string, no_bar in *.
  destruct (Z.ltb_spec (- n) 0); [lia|]. destruct (Z.ltb_spec n 0); [|lia].
  cbn [all_chars]. by rewrite Hpos.
Qed.

Lemma to_string_not_empty n : is_empty_string (to_string n) = false.
Proof.
  unfold to_string. destruct (Z.ltb_spec n 0); [done|].
  by destruct (to_string_nat_spec n) as (d & s & -> & _).
Qed.

(** Read the fields of an explicit list and decode the numbers. *)
Ltac bars :=
  repeat first [ done | apply Forall_nil_2 | apply Forall_cons_2 | apply to_string_no_bar ].
Ltac fields_of fs :=
  rewrite !(field_at_join fs) by bars;
  cbn [lookup list_lookup];
  rewrite ?parse_integral_to_string, ?stoi_to_string, ?stoull_to_string by done.

(** ** Round trips *)

(** Whatever gateway and matchmaker encode is decoded into the same message. *)
Lemma matchmaking_roundtrip :
  (forall r, fits_u64 (mr_player_id r) -> fits_u64 (mr_user_id r) -> fits_int (mr_elo r) ->
     no_bar (mr_region r) -> decode_match_request (encode_match_request r) = Some r) /\
  (forall r, no_bar (resp_message r) -> decode_match_response (encode_match_response r) = Some r) /\
  (forall n, fits_u64 (mc_white_player_id n) -> fits_u64 (mc_white_user_id n) ->
     fits_u64 (mc_black_player_id n) -> fits_u64 (mc_black_user_id n) ->
     fits_u64 (mc_room_id n) -> no_bar (mc_server_id n) -> no_bar (mc_endpoint n) ->
     decode_match_notification (encode_match_notification n) = Some n) /\
  (forall id, fits_u64 id -> decode_timeout_notification (encode_timeout_notification id) = Some id).
Proof.
  split_and!.
  - intros [p u e region]; cbn [mr_player_id mr_user_id mr_elo mr_region]; intros Hp Hu He Hr.
    unfold encode_match_request, decode_match_request. cbn [mr_player_id mr_user_id mr_elo mr_region].
    change (?a ++ bar ++ ?b ++ bar ++ ?c ++ bar ++ ?d) with (join bar [a; b; c; d]).
    fields_of ([to_string p; to_string u; to_string e; region]). done.
  - intros [st msg]; cbn [resp_message]; intros Hm.
    unfold encode_match_response, decode_match_response. cbn [resp_status resp_message].
    change (?a ++ bar ++ ?b) with (join bar [a; b]).
    destruct st; [fields_of (["queued"; msg])|fields_of (["error"; msg])]; done.
  - intros [wp wu bp bu room sid ep]; cbn; intros H1 H2 H3 H4 H5 H6 H7.
    unfold encode_match_notification, decode_match_notification. cbn [mc_white_player_id
      mc_white_user_id mc_black_player_id mc_black_user_id mc_room_id mc_server_id mc_endpoint].
    change (?a ++ bar ++ ?b ++ bar ++ ?c ++ bar ++ ?d ++ bar ++ ?e ++ bar ++ ?f ++ bar ++ ?g)
      with (join bar [a; b; c; d; e; f; g]).
    fields_of ([to_string wp; to_string wu; to_string bp; to_string bu; to_string room; sid; ep]).
    done.
  - intros id Hid. unfold encode_timeout_notification, decode_timeout_notification.
    change ("timeout|" ++ to_string id) with (join bar ["timeout"; to_string id]).
    fields_of (["timeout"; to_string id]). done.
Qed.

(** The same for the creation of games. *)
Lemma game_creation_roundtrip :
  (forall r, fits_u64 (cr_white_user_id r) -> fits_u64 (cr_black_user_id r) ->
     (forall id, cr_db_game_id r = Some id -> fits_int id) ->
     decode_game_creation_request (encode_game_creation_request r) = Some r) /\
  (forall r, fits_u64 (cp_room_id r) -> no_bar (cp_game_server_id r) ->
     (forall e, cp_endpoint r = Some e -> no_bar e /\ e <> "") ->
     decode_game_creation_response (encode_game_creation_response r) = Some r).
Proof.
  split.
  - intros [w b id]; cbn; intros Hw Hb Hid.
    unfold encode_game_creation_request, decode_game_creation_request, parse_user_id.
    cbn [cr_white_user_id cr_black_user_id cr_db_game_id].
    change (?a ++ bar ++ ?b ++ bar ++ ?c) with (join bar [a; b; c]).
    destruct id as [i|].
    + specialize (Hid i eq_refl). fields_of ([to_string w; to_string b; to_string i]).
      by rewrite to_string_not_empty.
    + fields_of ([to_string w; to_string b; ""]). done.
  - intros [room sid e]; cbn; intros Hr Hs He.
    unfold encode_game_creation_response, decode_game_creation_response.
    cbn [cp_room_id cp_game_server_id cp_endpoint].
    change (?a ++ bar ++ ?b ++ bar ++ ?c) with (join bar [a; b; c]).
    destruct e as [e|].
    + destruct (He e eq_refl) as [He1 He2]. fields_of ([to_string room; sid; e]).
      by destruct e.
    + fields_of ([to_string room; sid; ""]). done.
Qed.

(** The codecs between the servers are lossless: matchmaking requests, answers,
    match and timeout notifications, and requests and answers about the creation of a
    game (with or without a database id or an endpoint) with 64-bit ids, numbers of type
    int and texts without the separator are decoded by the other side into the message
    that was encoded. *)
Theorem codec_roundtrips :
  ((forall r, fits_u64 (mr_player_id r) -> fits_u64 (mr_user_id r) -> fits_int (mr_elo r) ->
      no_bar (mr_region r) -> decode_match_request (encode_match_request r) = Some r) /\
   (forall r, no_bar (resp_message r) -> decode_match_response (encode_match_response r) = Some r) /\
   (forall n, fits_u64 (mc_white_player_id n) -> fits_u64 (mc_white_user_id n) ->
      fits_u64 (mc_black_player_id n) -> fits_u64 (mc_black_user_id n) ->
      fits_u64 (mc_room_id n) -> no_bar (mc_server_id n) -> no_bar (mc_endpoint n) ->
      decode_match_notification (encode_match_notification n) = Some n) /\
   (forall id, fits_u64 id -> decode_timeout_notification (encode_timeout_notification id) = Some id)) /\
  (forall r, fits_u64 (cr_white_user_id r) -> fits_u64 (cr_black_user_id r) ->
     (forall id, cr_db_game_id r = Some id -> fits_int id) ->
     decode_game_creation_request (encode_game_creation_request r) = Some r) /\
  (forall r, fits_u64 (cp_room_id r) -> no_bar (cp_game_server_id r) ->
     (forall e, cp_endpoint r = Some e -> no_bar e /\ e <> "") ->
     decode_game_creation_response (encode_game_creation_response r) = Some r).
Proof. split; [apply matchmaking_roundtrip|apply game_creation_roundtrip]. Qed.

(** A number of more than 64 bits in a request is not rejected but wraps around. *)
Example ids_wrap_around :
  decode_match_request "18446744073709551617|2|1000|eu" = Some (mkMatchRequest 1 2 1000 "eu").
Proof. vm_compute. reflexivity. Qed.

(** A region that contains the separator is cut. *)
Example region_is_cut :
  decode_match_request (encode_match_request (mkMatchRequest 1 2 1000 "eu|west"))
  = Some (mkMatchRequest 1 2 1000 "eu").
Proof. vm_compute. reflexivity. Qed.
