(* ===== verification/Rooms.v ===== *)
(** * Rooms of the game server

    [src/src/server/match.cpp], [src/src/server/room/game_player.h], [room.h]/[room.cpp]
    and [room_manager.h]/[room_manager.cpp]: a match, the room it is played in and
    the table of rooms.

    [std::unordered_map] fixes no order of iteration: an operation that iterates
    takes the order as an argument, and its theorem holds for every order in
    which each key occurs once. *)

From S2P Require Import Prelude Piece BoardModel PathUtils PieceRules CollisionResolver MoveScheduler RealTimeArbiter GameState CppString BoardView Snapshot.
From Stdlib Require Import String.
Open Scope Z_scope.

(** ** [Match] *)

Record Match := mkMatch { state_ : GameState }.

Definition new_match (board : BoardModel) : Match := mkMatch (new_game board).
Definition new_match_with_rules (board : BoardModel) (rules : GameRules) : Match :=
  mkMatch (game_with_rules board rules).
Definition match_submit_action (m : Match) (action : GameAction) : res Match :=
  g ← apply_action (state_ m) action; Ok (mkMatch g).
Definition match_tick (m : Match) (delta_ms : Z) : res Match :=
  g ← add_clock (state_ m) delta_ms; Ok (mkMatch g).
Definition match_is_game_over (m : Match) : bool := is_game_over (state_ m).

(** ** [Room] *)

Record GamePlayer := mkGamePlayer { gp_user_id : Z; gp_side : PieceColor; gp_player_id : Z }.

Record Room := mkRoom {
  id_ : Z;
  default_board_ : BoardModel;
  match_ : Match;
  active_ : bool;
  white_player_ : option GamePlayer;
  black_player_ : option GamePlayer;
  db_game_id_ : option Z
}.

Definition new_room (id : Z) (board : BoardModel) : Room :=
  mkRoom id board (new_match board) false None None None.

Definition activate (r : Room) (white black : GamePlayer) : Room :=
  mkRoom (id_ r) (default_board_ r) (match_ r) true (Some white) (Some black) (db_game_id_ r).

Definition rebind (user_id new_player_id : Z) (o : option GamePlayer) : option GamePlayer :=
  match o with
  | Some p =>
      if gp_user_id p =? user_id then Some (mkGamePlayer (gp_user_id p) (gp_side p) new_player_id)
      else Some p
  | None => None
  end.
Definition rebind_player (r : Room) (user_id new_player_id : Z) : Room :=
  mkRoom (id_ r) (default_board_ r) (match_ r) (active_ r)
    (rebind user_id new_player_id (white_player_ r))
    (rebind user_id new_player_id (black_player_ r)) (db_game_id_ r).

Definition set_db_game_id (r : Room) (id : Z) : Room :=
  mkRoom (id_ r) (default_board_ r) (match_ r) (active_ r) (white_player_ r) (black_player_ r)
    (Some id).

Definition reset (r : Room) : Room :=
  mkRoom (id_ r) (default_board_ r) (new_match (default_board_ r)) false None None None.

Definition set_match (r : Room) (m : Match) : Room :=
  mkRoom (id_ r) (default_board_ r) m (active_ r) (white_player_ r) (black_player_ r)
    (db_game_id_ r).

Definition room_tick (r : Room) (delta_ms : Z) : res Room :=
  m ← match_tick (match_ r) delta_ms; Ok (set_match r m).
Definition room_submit_action (r : Room) (action : GameAction) : res Room :=
  m ← match_submit_action (match_ r) action; Ok (set_match r m).
Definition generate_snapshot (r : Room) : res string :=
  view ← build (state_ (match_ r)); Ok (write_snapshot view).
Definition room_is_game_over (r : Room) : bool := match_is_game_over (match_ r).

Definition is_user (user_id : Z) (o : option GamePlayer) : bool :=
  match o with Some p => gp_user_id p =? user_id | None => false end.
Definition contains_player (r : Room) (user_id : Z) : bool :=
  is_user user_id (white_player_ r) || is_user user_id (black_player_ r).

(** ** [RoomManager] *)

Record RoomManager := mkManager {
  rm_default_board_ : BoardModel;
  next_id_ : Z;
  rooms_ : gmap Z Room
}.

Definition new_manager (board : BoardModel) : RoomManager := mkManager board 1 ∅.

Definition set_rooms (m : RoomManager) (rs : gmap Z Room) : RoomManager :=
  mkManager (rm_default_board_ m) (next_id_ m) rs.

(** [emplace] keeps an existing entry. *)
Definition emplace (rs : gmap Z Room) (id : Z) (r : Room) : gmap Z Room :=
  match rs !! id with Some _ => rs | None => <[id := r]> rs end.

Definition create_room (m : RoomManager) : Z * RoomManager :=
  let id := next_id_ m in
  (id, mkManager (rm_default_board_ m) (to_u64 (id + 1))
         (emplace (rooms_ m) id (new_room id (rm_default_board_ m)))).

Definition remove_room (m : RoomManager) (id : Z) : RoomManager :=
  set_rooms m (delete id (rooms_ m)).

Definition find_room (m : RoomManager) (id : Z) : option Room := rooms_ m !! id.

(** A change of the room a pointer refers to. *)
Definition write_room (m : RoomManager) (id : Z) (r : Room) : RoomManager :=
  set_rooms m (<[id := r]> (rooms_ m)).

Definition tick_room (delta_ms : Z) (id : Z) (m : RoomManager) : res RoomManager :=
  match find_room m id with
  | Some room =>
      if active_ room && negb (room_is_game_over room) then
        r ← room_tick room delta_ms; Ok (write_room m id r)
      else Ok m
  | None => Ok m
  end.
Definition tick_all (order : list Z) (m : RoomManager) (delta_ms : Z) : res RoomManager :=
  foldM (tick_room delta_ms) order m.

Definition remove_inactive_rooms (m : RoomManager) : RoomManager :=
  set_rooms m (filter (fun e => active_ e.2 = true) (rooms_ m)).

(** The ids of the active rooms, in the order of iteration. *)
Definition active_rooms (order : list Z) (m : RoomManager) : list Z :=
  List.filter (fun id => match find_room m id with Some r => active_ r | None => false end) order.
Definition active_room_count (order : list Z) (m : RoomManager) : Z :=
  vlen (active_rooms order m).

(** An order of iteration over the table. *)
Definition enumerates (order : list Z) (m : RoomManager) : Prop :=
  NoDup order /\ forall id, id ∈ order <-> is_Some (rooms_ m !! id).

(** ** Invariants *)

(** A board a match can start on. *)
Definition start_board (b : BoardModel) : Prop := board_wf b /\ all_idle b.

Record room_ok (r : Room) : Prop := {
  ro_board : start_board (default_board_ r);
  ro_rules : rules_ (state_ (match_ r)) = standard;
  ro_game : game_inv (state_ (match_ r));
  ro_players : active_ r = true -> is_Some (white_player_ r) /\ is_Some (black_player_ r)
}.

Record manager_ok (m : RoomManager) : Prop := {
  mo_board : start_board (rm_default_board_ m);
  mo_next : 1 <= next_id_ m < 2 ^ 64;
  mo_rooms : forall id r, rooms_ m !! id = Some r -> id_ r = id /\ room_ok r /\ 1 <= id < next_id_ m
}.

(** The clock of a room can be advanced. *)
Definition tick_fits (delta_ms : Z) (r : Room) : Prop :=
  - 2 ^ 61 <= clock_ms (state_ (match_ r)) + delta_ms <= 2 ^ 61.

(** ** Lemmas *)

Lemma new_room_ok id b : start_board b -> room_ok (new_room id b).
Proof.
  intros Hb. split; [done|done| |done]. destruct Hb. by apply game_with_rules_inv.
Qed.

Lemma new_manager_ok b : start_board b -> manager_ok (new_manager b).
Proof. intros Hb. split; [done|done|]. intros id r. unfold new_manager. simpl. by rewrite lookup_empty. Qed.

Lemma reset_ok r : room_ok r -> room_ok (reset r).
Proof.
  intros [Hb _ _ _]. split; [done|done| |done]. destruct Hb. by apply game_with_rules_inv.
Qed.

Lemma set_match_ok r m : room_ok r -> game_inv (state_ m) ->
  rules_ (state_ m) = rules_ (state_ (match_ r)) -> room_ok (set_match r m).
Proof. intros [H1 H2 H3 H4] Hg Hr. split; [done|simpl; congruence|done|done]. Qed.

Lemma room_tick_ok r delta_ms : room_ok r -> tick_fits delta_ms r ->
  room_tick r delta_ms ⇓ (fun r' => room_ok r' /\ exists g,
    add_clock (state_ (match_ r)) delta_ms = Ok g /\ r' = set_match r (mkMatch g)).
Proof.
  intros Hr Hf. unfold room_tick, match_tick. pose proof (ro_rules _ Hr) as Hrules.
  assert (RulesOk (rules_ (state_ (match_ r)))) as Hok by (rewrite Hrules; apply standard_ok).
  pose proof (add_clock_inv _ (ro_game _ Hr) delta_ms Hf) as Hc.
  destruct (add_clock _ _) as [g|f]; [|done]. destruct Hc as (Hg & Hev & _).
  apply returns_ok. split; [|by eauto]. apply set_match_ok; [done..|apply Hev].
Qed.

Lemma room_submit_ok r action : room_ok r -> action_ok (state_ (match_ r)) action ->
  room_submit_action r action ⇓ (fun r' => room_ok r' /\ exists g,
    apply_action (state_ (match_ r)) action = Ok g /\ r' = set_match r (mkMatch g)).
Proof.
  intros Hr Hf. unfold room_submit_action, match_submit_action. pose proof (ro_rules _ Hr) as Hrules.
  assert (RulesOk (rules_ (state_ (match_ r)))) as Hok by (rewrite Hrules; apply standard_ok).
  pose proof (apply_action_inv _ (ro_game _ Hr) action Hf) as Hc.
  destruct (apply_action _ _) as [g|f]; [|done]. destruct Hc as (Hg & Hev & _).
  apply returns_ok. split; [|by eauto]. apply set_match_ok; [done..|apply Hev].
Qed.

Lemma write_room_ok m id r r' : manager_ok m -> rooms_ m !! id = Some r -> room_ok r' ->
  id_ r' = id_ r -> manager_ok (write_room m id r').
Proof.
  intros [Hb Hn Hr] Hid Hok Hid'. split; [done|done|]. intros id0 r0. simpl.
  rewrite lookup_insert_Some. intros [[<- <-]|[_ Hx]]; [|by apply Hr].
  destruct (Hr id r Hid) as (? & _ & ?). split_and!; [congruence|done|lia..].
Qed.

(** What one tick does to each room. *)
Definition ticked (delta_ms : Z) (r r' : Room) : Prop :=
  if active_ r && negb (room_is_game_over r) then room_tick r delta_ms = Ok r' else r' = r.

Lemma tick_room_ok delta_ms id m : manager_ok m ->
  (forall r, rooms_ m !! id = Some r -> tick_fits delta_ms r) ->
  tick_room delta_ms id m ⇓ (fun m' => manager_ok m' /\
    (forall r, rooms_ m !! id = Some r -> exists r', rooms_ m' !! id = Some r' /\ ticked delta_ms r r') /\
    (forall id', id' <> id -> rooms_ m' !! id' = rooms_ m !! id') /\
    (rooms_ m !! id = None -> rooms_ m' = rooms_ m)).
Proof.
  intros Hm Hf. unfold tick_room, find_room, ticked.
  destruct (rooms_ m !! id) as [r|] eqn:E; [|by naive_solver].
  destruct (active_ r && negb (room_is_game_over r)) eqn:Ea.
  - destruct (mo_rooms m Hm id r E) as (_ & Hr & _).
    pose proof (room_tick_ok r delta_ms Hr (Hf r eq_refl)) as Ht.
    destruct (room_tick r delta_ms) as [r'|f] eqn:Et; [|done]. destruct Ht as (Hr' & g & _ & ->).
    rewrite bind_ok. apply returns_ok. split_and!.
    + by eapply write_room_ok.
    + intros ? [= <-]. rewrite Ea. eexists. split; [apply lookup_insert_eq|done].
    + intros id' Hne. by apply lookup_insert_ne.
    + done.
  - apply returns_ok. split_and!; [done| |done|done]. intros ? [= <-]. rewrite Ea. eauto.
Qed.

Lemma tick_rooms_ok delta_ms order m : manager_ok m -> NoDup order ->
  (forall id r, id ∈ order -> rooms_ m !! id = Some r -> tick_fits delta_ms r) ->
  tick_all order m delta_ms ⇓ (fun m' => manager_ok m' /\
    (forall id r, id ∈ order -> rooms_ m !! id = Some r ->
       exists r', rooms_ m' !! id = Some r' /\ ticked delta_ms r r') /\
    (forall id, id ∉ order \/ rooms_ m !! id = None -> rooms_ m' !! id = rooms_ m !! id)).
Proof.
  intros Hm Hnd. unfold tick_all. revert m Hm.
  induction Hnd as [|id order Hnin Hnd IH]; intros m Hm Hf; cbn [foldM].
  { apply returns_ok. split_and!; [done|set_solver|done]. }
  apply returns_bind. eapply returns_mono; [apply tick_room_ok; [done|]|].
  { intros r Hr. apply (Hf id r); [apply list_elem_of_here|done]. }
  intros m1 (Hm1 & Hid & Hother & Hnone). eapply returns_mono; [apply IH; [done|]|].
  { intros id' r Hin Hr. rewrite Hother in Hr by set_solver. apply (Hf id' r); set_solver. }
  intros m2 (Hm2 & Hin2 & Hout2). split_and!; [done| |].
  - intros id' r Hin Hr. apply elem_of_cons in Hin as [->|Hin].
    + rewrite Hout2 by (by left). by apply Hid.
    + apply Hin2; [done|]. by rewrite Hother by set_solver.
  - intros id' Hid'. rewrite Hout2.
    + destruct (decide (id' = id)) as [->|]; [|by apply Hother].
      destruct Hid' as [Hx|Hx]; [set_solver|]. by rewrite Hnone.
    + destruct (decide (id' = id)) as [->|]; [by left|]. rewrite Hother by done. set_solver.
Qed.

(** A table with one active room, for the witnesses. *)
Lemma sample_start : start_board sample_board.
Proof. split; [by apply board_of_wf|apply board_of_idle]. Qed.

Definition sample_room : Room :=
  activate (new_room 1 sample_board) (mkGamePlayer 10 White 0) (mkGamePlayer 20 Black 1).
Definition sample_manager : RoomManager := mkManager sample_board 2 {[1 := sample_room]}.

Lemma sample_room_ok : room_ok sample_room.
Proof.
  destruct (new_room_ok 1 sample_board sample_start) as [H1 H2 H3 _]. split; [done..|].
  intros _. simpl. split; by eexists.
Qed.

Lemma sample_manager_ok : manager_ok sample_manager.
Proof.
  split; [apply sample_start|done|]. intros id r. unfold sample_manager. cbn [rooms_].
  rewrite lookup_singleton_Some. intros [<- <-]. split_and!; [done|apply sample_room_ok|done|done].
Qed.

(** ** Properties *)

(** Rooms are isolated: creating a room yields an id that was not in use
    and a fresh match on the default board, keeps the invariant of the table
    (each room is stored under its own id, holds a game satisfying the game
    invariant under the standard rules, and is only active with both players)
    and leaves every other room as it was.  The bound excludes the wrap-around of
    the 64-bit id counter. *)
Lemma create_room_spec m : manager_ok m -> next_id_ m < 2 ^ 64 - 1 ->
  let '(id, m') := create_room m in
  rooms_ m !! id = None /\ rooms_ m' !! id = Some (new_room id (rm_default_board_ m)) /\
  manager_ok m' /\ next_id_ m' = id + 1 /\
  forall id', id' <> id -> rooms_ m' !! id' = rooms_ m !! id'.
Proof.
  intros Hm Hn. unfold create_room. simpl. pose proof (mo_next m Hm) as Hnext.
  assert (rooms_ m !! next_id_ m = None) as Hnone.
  { destruct (rooms_ m !! next_id_ m) as [r|] eqn:E; [|done].
    destruct (mo_rooms m Hm _ _ E) as (_ & _ & ?). lia. }
  unfold emplace. rewrite Hnone. unfold to_u64. rewrite wrap_u_id by lia. split_and!.
  - done.
  - apply lookup_insert_eq.
  - split; [apply Hm|simpl; lia|]. intros id r. simpl. rewrite lookup_insert_Some.
    intros [[<- <-]|[_ Hr]].
    + split_and!; [done|apply new_room_ok, Hm|lia|lia].
    + destruct (mo_rooms m Hm id r Hr) as (? & ? & ?). split_and!; [done|done|lia|lia].
  - done.
  - intros id' Hne. by apply lookup_insert_ne.
Qed.


(** A tick of the table advances every active room whose game is not over by
    exactly the elapsed time, leaves all other rooms alone, keeps the invariant
    and never faults, whatever the order in which the hash table is traversed. *)
Lemma tick_all_correct order m delta_ms : manager_ok m -> enumerates order m ->
  (forall id r, rooms_ m !! id = Some r -> tick_fits delta_ms r) ->
  tick_all order m delta_ms ⇓ (fun m' => manager_ok m' /\
    forall id, match rooms_ m !! id with
      | Some r => exists r', rooms_ m' !! id = Some r' /\ ticked delta_ms r r'
      | None => rooms_ m' !! id = None
      end).
Proof.
  intros Hm [Hnd Hen] Hf. eapply returns_mono; [apply tick_rooms_ok; eauto|].
  intros m' (Hm' & H1 & H2). split; [done|]. intros id.
  destruct (rooms_ m !! id) as [r|] eqn:E.
  - apply H1; [|done]. apply Hen. by rewrite E.
  - rewrite <- E. apply H2. by right.
Qed.

Lemma tick_all_correct_witness :
  tick_all [1] sample_manager 16 ⇓ (fun m' => manager_ok m' /\
    forall id, match rooms_ sample_manager !! id with
      | Some r => exists r', rooms_ m' !! id = Some r' /\ ticked 16 r r'
      | None => rooms_ m' !! id = None
      end).
Proof.
  apply (tick_all_correct [1] sample_manager 16); [apply sample_manager_ok| |].
  - split; [apply NoDup_singleton|]. intros id. unfold sample_manager. cbn [rooms_].
    rewrite list_elem_of_singleton, lookup_singleton_is_Some. naive_solver.
  - intros id r. unfold sample_manager. cbn [rooms_]. rewrite lookup_singleton_Some.
    intros [<- <-]. unfold tick_fits. change (clock_ms _) with 0. lia.
Defined.
