(* ===== verification/Sessions.v ===== *)
(** * Client sessions

    [src/src/server/player.h], [player_session.h]/[player_session.cpp],
    [session_registry.cpp], [session/client_session_manager.cpp], the client list of
    [websocket_server.cpp], [network/session_message_sink.cpp] and
    [network/game_input_dispatcher.cpp].

    A connection is an object of the WebSocket server's list; sessions hold its
    address.  Reading through an address that is no longer in the list is
    undefined.  What happens on a socket is the environment's affair: the class
    [Connection] names the operations of [ClientConnection] the program uses, and
    the theorems hold for every implementation of them. *)

From S2P Require Import Prelude Piece BoardModel PathUtils PieceRules CollisionResolver MoveScheduler RealTimeArbiter GameState CppString BoardIO GameMessages Rooms.
From Stdlib Require Import Ascii String.
Open Scope Z_scope.

(** ** Players and sessions *)

Record Player := mkPlayer { pl_id : Z; pl_username : string; pl_rating : Z }.

Inductive PlayerSessionState := Connected | Searching | Playing.

#[export] Instance PlayerSessionState_eq_dec : EqDecision PlayerSessionState.
Proof. solve_decision. Defined.

(** [ps_connection] is an address, [None] the null pointer. *)
Record PlayerSession := mkSession {
  ps_id : Z;
  ps_state : PlayerSessionState;
  ps_user_id : option Z;
  ps_profile : option Player;
  ps_side : option PieceColor;
  ps_room_id : option Z;
  ps_connection : option Z
}.

Definition new_session (id : Z) (connection : option Z) : PlayerSession :=
  mkSession id Connected None None None None connection.

Definition has_user (s : PlayerSession) : bool :=
  match ps_user_id s with Some _ => true | None => false end.
Definition has_player (s : PlayerSession) : bool := has_user s.
Definition user_id (s : PlayerSession) : res Z := deref (ps_user_id s).
Definition session_player (s : PlayerSession) : res Player := deref (ps_profile s).
Definition rating (s : PlayerSession) : res Z := p ← session_player s; Ok (pl_rating p).
Definition has_side (s : PlayerSession) : bool :=
  match ps_side s with Some _ => true | None => false end.
Definition side (s : PlayerSession) : res PieceColor := deref (ps_side s).
Definition has_room (s : PlayerSession) : bool :=
  match ps_room_id s with Some _ => true | None => false end.
Definition room_id (s : PlayerSession) : res Z := deref (ps_room_id s).

Definition set_session_state (s : PlayerSession) (st : PlayerSessionState) : PlayerSession :=
  mkSession (ps_id s) st (ps_user_id s) (ps_profile s) (ps_side s) (ps_room_id s) (ps_connection s).
Definition request_play (s : PlayerSession) : PlayerSession :=
  if bool_decide (ps_state s = Connected) && has_user s then set_session_state s Searching else s.
Definition cancel_search (s : PlayerSession) : PlayerSession :=
  if bool_decide (ps_state s = Searching) then set_session_state s Connected else s.
Definition set_playing (s : PlayerSession) : PlayerSession := set_session_state s Playing.

Definition assign_user (s : PlayerSession) (uid : Z) (username : string) (rating : Z) : PlayerSession :=
  mkSession (ps_id s) (ps_state s) (Some uid) (Some (mkPlayer (to_int uid) username rating))
    (ps_side s) (ps_room_id s) (ps_connection s).
Definition bind_player (s : PlayerSession) (p : Player) : PlayerSession :=
  assign_user s (to_u64 (pl_id p)) (pl_username p) (pl_rating p).
Definition clear_user (s : PlayerSession) : PlayerSession :=
  mkSession (ps_id s) (ps_state s) None None (ps_side s) (ps_room_id s) (ps_connection s).
Definition set_side_opt (s : PlayerSession) (o : option PieceColor) : PlayerSession :=
  mkSession (ps_id s) (ps_state s) (ps_user_id s) (ps_profile s) o (ps_room_id s) (ps_connection s).
Definition set_side (s : PlayerSession) (c : PieceColor) : PlayerSession := set_side_opt s (Some c).
Definition clear_side (s : PlayerSession) : PlayerSession := set_side_opt s None.
Definition set_room_opt (s : PlayerSession) (o : option Z) : PlayerSession :=
  mkSession (ps_id s) (ps_state s) (ps_user_id s) (ps_profile s) (ps_side s) o (ps_connection s).
Definition assign_room (s : PlayerSession) (id : Z) : PlayerSession := set_room_opt s (Some id).
Definition clear_room (s : PlayerSession) : PlayerSession := set_room_opt s None.

(** [is_action_allowed] for a session. *)
Definition session_action_allowed (s : PlayerSession) (m : Match) (action : GameAction) : res bool :=
  if negb (has_side s) then Ok false
  else color ← side s; is_action_allowed color (state_ m) action.

(** ** The registry of logged-in names *)

Definition SessionRegistry : Type := gset string.

Definition is_online (r : SessionRegistry) (username : string) : bool :=
  bool_decide (username ∈ r).
Definition register_session (r : SessionRegistry) (username : string) : bool * SessionRegistry :=
  if is_empty_string username || is_online r username then (false, r)
  else (true, {[username]} ∪ r).
Definition unregister_session (r : SessionRegistry) (username : string) : SessionRegistry :=
  r ∖ {[username]}.

(** ** Connections *)

Class Connection (C : Type) := {
  is_open : C -> bool;
  try_read : C -> option string * C;
  try_send : C -> string -> bool * C;
  send_message : C -> string -> bool * C;
  probe_disconnect : C -> C
}.

Section Sessions.
Context {C : Type} `{Connection C}.

(** The client list of the WebSocket server (with the addresses of its
    elements), the sessions and the registry. *)
Record Plane := mkPlane {
  clients_ : list (Z * C);
  max_clients_ : Z;
  sessions_ : list PlayerSession;
  next_session_id_ : Z;
  registry_ : SessionRegistry
}.

Definition set_clients (p : Plane) (cs : list (Z * C)) : Plane :=
  mkPlane cs (max_clients_ p) (sessions_ p) (next_session_id_ p) (registry_ p).
Definition set_sessions (p : Plane) (ss : list PlayerSession) : Plane :=
  mkPlane (clients_ p) (max_clients_ p) ss (next_session_id_ p) (registry_ p).
Definition set_registry (p : Plane) (r : SessionRegistry) : Plane :=
  mkPlane (clients_ p) (max_clients_ p) (sessions_ p) (next_session_id_ p) r.

(** Reading and writing the object at an address. *)
Definition load (p : Plane) (addr : Z) : res C :=
  match find_if (fun e => e.1 =? addr) (clients_ p) with
  | Some e => Ok e.2
  | None => Err Undefined
  end.
Definition store (p : Plane) (addr : Z) (c : C) : Plane :=
  set_clients p ((fun e => if e.1 =? addr then (addr, c) else e) <$> clients_ p).

(** *** [WebSocketServer] *)

(** [try_accept]: [incoming] is what the acceptor delivers, an exception, no
    connection, or a connection at a new address. *)
Definition try_accept (incoming : res (option (Z * C))) (p : Plane) : res Plane :=
  if max_clients_ p <=? vlen (clients_ p) then Ok p
  else
    o ← incoming;
    Ok (match o with Some e => set_clients p (clients_ p ++ [e]) | None => p end).

Definition prune_disconnected (p : Plane) : Plane :=
  set_clients p (List.filter (fun e => is_open e.2)
    ((fun e => (e.1, probe_disconnect e.2)) <$> clients_ p)).

(** *** [ClientSessionManager] *)

Definition find_session (p : Plane) (player_id : Z) : option PlayerSession :=
  find_if (fun s => ps_id s =? player_id) (sessions_ p).

Definition accept_new_clients (incoming : res (option (Z * C))) (p : Plane) : res Plane :=
  if max_clients_ p <=? vlen (clients_ p) then Ok p
  else
    p' ← try_accept incoming p;
    if vlen (clients_ p') <=? vlen (clients_ p) then Ok p'
    else
      connection ← deref (last (clients_ p'));
      Ok (mkPlane (clients_ p') (max_clients_ p')
            (sessions_ p' ++ [new_session (next_session_id_ p') (Some connection.1)])
            (to_size (next_session_id_ p' + 1)) (registry_ p')).

(** The loop of [prune_sessions]; [on_disconnected] is the disconnect handler. *)
Fixpoint prune_loop {S} (on_disconnected : PlayerSession -> S -> S) (p : Plane)
    (ss kept : list PlayerSession) (s : S) : res (list PlayerSession * Plane * S) :=
  match ss with
  | [] => Ok (kept, p, s)
  | session :: rest =>
      addr ← deref (ps_connection session);
      c ← load p addr;
      if negb (is_open c) then
        p' ← (if has_user session then
                player ← session_player session;
                Ok (set_registry p (unregister_session (registry_ p) (pl_username player)))
              else Ok p);
        prune_loop on_disconnected p' rest kept (on_disconnected session s)
      else prune_loop on_disconnected p rest (kept ++ [session]) s
  end.
Definition prune_sessions {S} (on_disconnected : PlayerSession -> S -> S) (p : Plane) (s : S) :
    res (Plane * S) :=
  let p := prune_disconnected p in
  r ← prune_loop on_disconnected p (sessions_ p) [] s;
  let '(kept, p', s') := r in
  Ok (set_sessions p' kept, s').

(** *** [SessionMessageSink] *)

Definition sink_with (op : C -> string -> bool * C) (p : Plane) (player : Z) (message : string) :
    res (bool * Plane) :=
  match find_session p player with
  | None => Ok (false, p)
  | Some session =>
      match ps_connection session with
      | None => Ok (false, p)
      | Some addr =>
          c ← load p addr;
          let '(ok, c') := op c message in
          Ok (ok, store p addr c')
      end
  end.
Definition sink_send : Plane -> Z -> string -> res (bool * Plane) := sink_with try_send.
Definition sink_send_message : Plane -> Z -> string -> res (bool * Plane) := sink_with send_message.

(** *** [GameInputDispatcher] *)

Definition probe_player (p : Plane) (player_id : Z) : res Plane :=
  match find_session p player_id with
  | None => Ok p
  | Some session =>
      match ps_connection session with
      | None => Ok p
      | Some addr => c ← load p addr; Ok (store p addr (probe_disconnect c))
      end
  end.

Definition with_player {A} (o : option GamePlayer) (f : GamePlayer -> A -> res A) (a : A) : res A :=
  match o with Some player => f player a | None => Ok a end.

Definition probe_room (p : Plane) (room : Room) : res Plane :=
  p ← with_player (white_player_ room) (fun w p => probe_player p (gp_player_id w)) p;
  with_player (black_player_ room) (fun b p => probe_player p (gp_player_id b)) p.

Definition is_player_connected (p : Plane) (player_id : Z) : res bool :=
  match find_session p player_id with
  | None => Ok false
  | Some session =>
      match ps_connection session with
      | None => Ok false
      | Some addr => c ← load p addr; Ok (is_open c)
      end
  end.

Definition disconnected_player_color (p : Plane) (room : Room) : res (option PieceColor) :=
  match white_player_ room, black_player_ room with
  | Some white, Some black =>
      white_connected ← is_player_connected p (gp_player_id white);
      black_connected ← is_player_connected p (gp_player_id black);
      Ok (match white_connected, black_connected with
          | true, true => None
          | false, true => Some White
          | true, false => Some Black
          | false, false => None
          end)
  | _, _ => Ok None
  end.

Definition both_room_players_disconnected (p : Plane) (room : Room) : res bool :=
  match white_player_ room, black_player_ room with
  | Some white, Some black =>
      white_connected ← is_player_connected p (gp_player_id white);
      if white_connected : bool then Ok false
      else black_connected ← is_player_connected p (gp_player_id black); Ok (negb black_connected)
  | _, _ => Ok true
  end.

(** [RoomPlayerInput]: a resignation carries no action of its own. *)
Inductive RoomPlayerInput :=
| InputAction (player_side : PieceColor) (action : GameAction)
| InputResign (player_side : PieceColor).

Definition poll_player_input (room : Room) (player : GamePlayer)
    (st : Plane * list RoomPlayerInput) : res (Plane * list RoomPlayerInput) :=
  let '(p, inputs) := st in
  match find_session p (gp_player_id player) with
  | None => Ok (p, inputs)
  | Some session =>
      match ps_connection session with
      | None => Ok (p, inputs)
      | Some addr =>
          if negb (bool_decide (ps_state session = Playing)) || negb (has_room session) then
            Ok (p, inputs)
          else
            c ← load p addr;
            let '(raw_message, c') := try_read c in
            let p := store p addr c' in
            match raw_message with
            | None => Ok (p, inputs)
            | Some message =>
                if parse_resign_message message then
                  Ok (p, if contains_player room (gp_user_id player)
                         then (inputs ++ [InputResign (gp_side player)])%list else inputs)
                else
                  action ← parse_message message;
                  Ok (p, match action with
                         | Some a => (inputs ++ [InputAction (gp_side player) a])%list
                         | None => inputs
                         end)
            end
      end
  end.

Definition poll_room_inputs (p : Plane) (room : Room) : res (Plane * list RoomPlayerInput) :=
  st ← with_player (white_player_ room) (poll_player_input room) (p, []);
  with_player (black_player_ room) (poll_player_input room) st.

(** ** Invariant *)

(** The address of a live connection. *)
Definition live (p : Plane) (addr : Z) : Prop := addr ∈ fst <$> clients_ p.

(** Every session is bound to a live connection; session ids are distinct numbers of 64
    bits and were handed out. *)
Record plane_ok (p : Plane) : Prop := {
  po_live : forall s, s ∈ sessions_ p -> exists addr, ps_connection s = Some addr /\ live p addr;
  po_ids : NoDup (ps_id <$> sessions_ p);
  po_next : forall s, s ∈ sessions_ p -> 0 <= ps_id s < 2 ^ 64 /\ ps_id s < next_session_id_ p
}.

(** What the traffic of a session may change: the connections only. *)
Record traffic (p p' : Plane) : Prop := {
  tr_addrs : fst <$> clients_ p' = fst <$> clients_ p;
  tr_max : max_clients_ p' = max_clients_ p;
  tr_sessions : sessions_ p' = sessions_ p;
  tr_next : next_session_id_ p' = next_session_id_ p;
  tr_registry : registry_ p' = registry_ p
}.

#[export] Instance traffic_preorder : PreOrder traffic.
Proof.
  split; [by intros p|]. intros p1 p2 p3 [] []. split; congruence.
Qed.

(** ** Lemmas *)

Lemma find_if_Some {A} (f : A -> bool) l : existsb f l = true <-> is_Some (find_if f l).
Proof.
  induction l as [|y l IH]; simpl; [by split; [|intros [? ?]]|].
  destruct (f y); simpl; [by split|done].
Qed.

Lemma load_live p addr : live p addr -> exists c, load p addr = Ok c.
Proof.
  unfold live, load. intros ((a & c) & -> & Hin)%list_elem_of_fmap. simpl.
  destruct (find_if (fun e => e.1 =? a) (clients_ p)) as [e|] eqn:E; [eauto|].
  assert (is_Some (find_if (fun e => e.1 =? a) (clients_ p))) as [e He].
  { apply find_if_Some, existsb_exists. exists (a, c). split; [by apply list_elem_of_In|].
    apply Z.eqb_refl. }
  congruence.
Qed.

Lemma store_traffic p addr c : traffic p (store p addr c).
Proof.
  split; try done. unfold store. simpl. rewrite <- list_fmap_compose. apply list_fmap_ext.
  intros i [a x] _. simpl. destruct (Z.eqb_spec a addr); by subst.
Qed.

Lemma traffic_ok p p' : traffic p p' -> plane_ok p -> plane_ok p'.
Proof.
  intros [H1 _ H3 H4 _] [Hl Hn Hx]. split; rewrite H3.
  - unfold live in *. by rewrite H1.
  - done.
  - by rewrite H4.
Qed.

Lemma session_live p id session : plane_ok p -> find_session p id = Some session ->
  exists addr c, ps_connection session = Some addr /\ load p addr = Ok c.
Proof.
  intros Hp [Hin _]%find_if_elem. destruct (po_live p Hp _ Hin) as (addr & Ha & Hl).
  destruct (load_live p addr Hl) as [c Hc]. eauto.
Qed.

(** Every operation on a player's connection returns, and is mere traffic. *)
Lemma sink_with_ok op p player message : plane_ok p ->
  sink_with op p player message ⇓ (fun r => traffic p r.2).
Proof.
  intros Hp. unfold sink_with. destruct (find_session p player) as [s|] eqn:E; [|by apply returns_ok].
  destruct (session_live p player s Hp E) as (addr & c & -> & ->). rewrite bind_ok.
  destruct (op c message). apply returns_ok, store_traffic.
Qed.

Lemma probe_player_ok p player : plane_ok p -> probe_player p player ⇓ traffic p.
Proof.
  intros Hp. unfold probe_player. destruct (find_session p player) as [s|] eqn:E; [|by apply returns_ok].
  destruct (session_live p player s Hp E) as (addr & c & -> & ->). rewrite bind_ok.
  apply returns_ok, store_traffic.
Qed.

Lemma is_player_connected_ok p player : plane_ok p -> exists b, is_player_connected p player = Ok b.
Proof.
  intros Hp. unfold is_player_connected. destruct (find_session p player) as [s|] eqn:E; [|eauto].
  destruct (session_live p player s Hp E) as (addr & c & -> & ->). rewrite bind_ok. eauto.
Qed.

Lemma probe_room_ok p room : plane_ok p -> probe_room p room ⇓ traffic p.
Proof.
  intros Hp. unfold probe_room, with_player. apply returns_bind.
  assert (match white_player_ room with Some w => probe_player p (gp_player_id w) | None => Ok p end
    ⇓ traffic p) as Hw by (destruct (white_player_ room); [by apply probe_player_ok|by apply returns_ok]).
  eapply returns_mono; [exact Hw|]. intros p1 H1.
  destruct (black_player_ room); [|by apply returns_ok].
  eapply returns_mono; [apply probe_player_ok; by eapply traffic_ok|]. intros p2 H2. by etrans.
Qed.

Lemma disconnected_color_ok p room : plane_ok p -> exists o, disconnected_player_color p room = Ok o.
Proof.
  intros Hp. unfold disconnected_player_color.
  destruct (white_player_ room) as [w|], (black_player_ room) as [b|]; eauto.
  destruct (is_player_connected_ok p (gp_player_id w) Hp) as [? ->].
  destruct (is_player_connected_ok p (gp_player_id b) Hp) as [? ->]. rewrite !bind_ok. eauto.
Qed.

Lemma both_disconnected_ok p room : plane_ok p -> exists b, both_room_players_disconnected p room = Ok b.
Proof.
  intros Hp. unfold both_room_players_disconnected.
  destruct (white_player_ room) as [w|], (black_player_ room) as [b|]; eauto.
  destruct (is_player_connected_ok p (gp_player_id w) Hp) as [[] ->]; rewrite bind_ok; eauto.
  destruct (is_player_connected_ok p (gp_player_id b) Hp) as [? ->]. rewrite bind_ok. eauto.
Qed.

(** A request that can reach a game: on behalf of one of the room's players,
    with 64-bit coordinates and without touching the clock. *)
Definition input_ok (room : Room) (input : RoomPlayerInput) : Prop :=
  match input with
  | InputAction s a =>
      (forall g, action_ok g a) /\ clock_step a = 0 /\
      exists player, gp_side player = s /\
        (white_player_ room = Some player \/ black_player_ room = Some player)
  | InputResign s => exists player, gp_side player = s /\
      (white_player_ room = Some player \/ black_player_ room = Some player)
  end.

Lemma poll_player_ok room player p inputs : plane_ok p -> Forall (input_ok room) inputs ->
  (white_player_ room = Some player \/ black_player_ room = Some player) ->
  poll_player_input room player (p, inputs) ⇓ (fun r =>
    traffic p r.1 /\ Forall (input_ok room) r.2).
Proof.
  intros Hp Hin Hpl. unfold poll_player_input.
  assert (traffic p p /\ Forall (input_ok room) inputs) as Hsame by done.
  destruct (find_session p (gp_player_id player)) as [s|] eqn:E; [|by apply returns_ok].
  destruct (session_live p _ s Hp E) as (addr & c & -> & Hl).
  destruct (_ || _); [by apply returns_ok|]. rewrite Hl, bind_ok.
  destruct (try_read c) as [raw c']. pose proof (store_traffic p addr c') as Ht.
  destruct raw as [message|]; [|by apply returns_ok].
  destruct (parse_resign_message message).
  - apply returns_ok. split; [done|]. destruct (contains_player room (gp_user_id player)); [|done].
    apply Forall_app; split; [done|]. apply Forall_singleton. simpl. eauto.
  - apply returns_bind. eapply returns_mono; [apply parse_message_total|]. intros o Ho.
    apply returns_ok. split; [done|]. destruct o as [a|]; [|done].
    apply Forall_app; split; [done|]. apply Forall_singleton. simpl.
    destruct (Ho a eq_refl). eauto.
Qed.

Lemma poll_room_ok room p : plane_ok p ->
  poll_room_inputs p room ⇓ (fun r => traffic p r.1 /\ Forall (input_ok room) r.2).
Proof.
  intros Hp. unfold poll_room_inputs, with_player. apply returns_bind.
  assert (match white_player_ room with
    | Some w => poll_player_input room w (p, []) | None => Ok (p, []) end ⇓
    (fun r => traffic p r.1 /\ Forall (input_ok room) r.2)) as Hw.
  { destruct (white_player_ room) as [w|] eqn:Ew; [|by apply returns_ok].
    apply poll_player_ok; [done|done|by left]. }
  eapply returns_mono; [exact Hw|]. intros [p1 i1] [H1 H2]. simpl in *.
  destruct (black_player_ room) as [b|] eqn:Eb; [|by apply returns_ok].
  eapply returns_mono; [apply poll_player_ok; [by eapply traffic_ok|done|by right]|].
  intros [p2 i2] [H3 H4]. split; [by etrans|done].
Qed.

(** The connection of a session is still open after probing. *)
Definition alive (p : Plane) (s : PlayerSession) : bool :=
  match ps_connection s with
  | Some addr => existsb (fun e => (e.1 =? addr) && is_open (probe_disconnect e.2)) (clients_ p)
  | None => false
  end.

Lemma load_pruned p addr :
  (if existsb (fun e => (e.1 =? addr) && is_open (probe_disconnect e.2)) (clients_ p)
   then exists c, load (prune_disconnected p) addr = Ok c /\ is_open c = true
   else load (prune_disconnected p) addr = Err Undefined).
Proof.
  unfold load, prune_disconnected. cbn [clients_ set_clients].
  induction (clients_ p) as [|[a c] cs IH]; simpl; [done|].
  destruct (is_open (probe_disconnect c)) eqn:Eo; [|by rewrite andb_false_r]. cbn [find_if fst].
  rewrite andb_true_r. destruct (Z.eqb_spec a addr); [|done]. simpl. eauto.
Qed.

Lemma prune_loop_exact {S} (on_disconnected : PlayerSession -> S -> S) p ss kept (s : S) :
  prune_loop on_disconnected (prune_disconnected p) ss kept s =
  if forallb (alive p) ss then Ok ((kept ++ ss)%list, prune_disconnected p, s) else Err Undefined.
Proof.
  revert kept. induction ss as [|x ss IH]; intros kept; cbn [prune_loop forallb].
  { by rewrite app_nil_r. }
  unfold alive at 1. destruct (ps_connection x) as [addr|]; [|done]. cbn [deref]. rewrite bind_ok.
  pose proof (load_pruned p addr) as Hl. destruct (existsb _ (clients_ p)).
  - destruct Hl as (c & -> & Hc). rewrite bind_ok, Hc. cbn [negb andb]. rewrite IH.
    by rewrite <- app_assoc.
  - by rewrite Hl.
Qed.

(** Pruning sessions reads freed connections: [prune_sessions] returns
    exactly when the connection of every session is still open, and then it
    removes no session; as soon as one client is gone, its connection object has
    been erased from the server's list before the loop asks it whether it is
    open, and the behaviour is undefined.  No session is ever removed (nor its
    name unregistered) by defined behaviour. *)
Lemma prune_sessions_exact {S} (on_disconnected : PlayerSession -> S -> S) p (s : S) :
  prune_sessions on_disconnected p s =
  if forallb (alive p) (sessions_ p) then Ok (prune_disconnected p, s) else Err Undefined.
Proof.
  unfold prune_sessions. cbv zeta. rewrite prune_loop_exact.
  change (sessions_ (prune_disconnected p)) with (sessions_ p).
  by destruct (forallb (alive p) (sessions_ p)).
Qed.

(** ** Properties *)

(** Accepting clients keeps the books: unless the server is full or no client
    is waiting, exactly one session is added, in the lobby state, under a new id
    and bound to the new connection; every session stays bound to a live
    connection and the session ids stay distinct. *)
Theorem accept_new_clients_correct p incoming : plane_ok p ->
  next_session_id_ p < 2 ^ 64 - 1 -> 0 <= next_session_id_ p ->
  accept_new_clients (Ok incoming) p ⇓ (fun p' => plane_ok p' /\
    match incoming with
    | Some (addr, c) =>
        if max_clients_ p <=? vlen (clients_ p) then p' = p
        else clients_ p' = (clients_ p ++ [(addr, c)])%list /\
          sessions_ p' = (sessions_ p ++ [new_session (next_session_id_ p) (Some addr)])%list /\
          find_session p (next_session_id_ p) = None
    | None => p' = p
    end).
Proof.
  intros Hp Hmax H0. unfold accept_new_clients, try_accept.
  destruct (max_clients_ p <=? vlen (clients_ p)).
  { apply returns_ok. split; [done|]. by destruct incoming as [[]|]. }
  rewrite bind_ok. destruct incoming as [[addr c]|]; rewrite bind_ok.
  2: { destruct (Z.leb_spec (vlen (clients_ p)) (vlen (clients_ p))); [|lia]. by apply returns_ok. }
  cbn [clients_ set_clients max_clients_ sessions_ next_session_id_ registry_].
  rewrite vlen_snoc. destruct (Z.leb_spec (vlen (clients_ p) + 1) (vlen (clients_ p))); [lia|].
  rewrite last_snoc. cbn [deref]. rewrite bind_ok. apply returns_ok.
  rewrite to_size_id by lia. destruct Hp as [Hl Hn Hx]. split.
  - split; cbn [sessions_ clients_ next_session_id_].
    + intros s [Hs | ->%list_elem_of_singleton]%elem_of_app; unfold live in *; cbn [clients_].
      * destruct (Hl s Hs) as (a & Ha & Hin). exists a. split; [done|]. rewrite fmap_app. set_solver.
      * exists addr. split; [done|]. rewrite fmap_app. set_solver.
    + rewrite fmap_app. apply NoDup_app. split_and!; [done| |apply NoDup_singleton].
      intros x (s & -> & Hs)%list_elem_of_fmap E%list_elem_of_singleton.
      specialize (Hx s Hs). simpl in E. lia.
    + intros s [Hs | ->%list_elem_of_singleton]%elem_of_app; simpl; [|lia].
      specialize (Hx s Hs). lia.
  - split_and!; [done|done|]. unfold find_session.
    destruct (find_if _ (sessions_ p)) as [s|] eqn:E; [|done].
    apply find_if_elem in E as [Hs He%Z.eqb_eq]. specialize (Hx s Hs). lia.
Qed.
End Sessions.

(** A network on which nothing happens: a connection is its open flag. *)
#[local] Instance idle_connection : Connection bool := {|
  is_open c := c;
  try_read c := (None, c);
  try_send c _ := (c, c);
  send_message c _ := (c, c);
  probe_disconnect c := c
|}.

Definition empty_plane : Plane := mkPlane (C := bool) [] 2 [] 0 ∅.

Lemma accept_new_clients_correct_witness :
  accept_new_clients (Ok (Some (4096, true))) empty_plane ⇓ (fun p' => plane_ok p' /\
    clients_ p' = [(4096, true)] /\ sessions_ p' = [new_session 0 (Some 4096)] /\
    find_session empty_plane 0 = None).
Proof.
  refine (accept_new_clients_correct empty_plane (Some (4096, true)) _ _ _); [|done|done].
  split; [set_solver|apply NoDup_nil_2|set_solver].
Defined.

(** The client of the only session disconnects: the next pruning is undefined. *)
Example prune_sessions_use_after_free :
  prune_sessions (fun _ (n : Z) => n + 1)
    (mkPlane (C := bool) [(4096, false)] 2 [new_session 0 (Some 4096)] 1 ∅) 0 = Err Undefined.
Proof. reflexivity. Qed.
