(* ===== verification/Users.v ===== *)
(** * Users and authentication

    [src/src/server/user/user.cpp], [database/i_user_repository.h] with
    [user_credentials.h], [database/in_memory_user_repository.cpp] and
    [authentication_service.cpp].

    [UserRepository] is the abstract class [IUserRepository]; [UserRepositoryLaws]
    is what the services that use it rely on, and the in-memory repository is an
    instance.  [authenticate] is proved against the laws, with the password hasher
    of [PasswordHash.v].  The random salt of a new hash is an argument. *)

From S2P Require Import Prelude CppString Sha256 PasswordHash Sessions.
From Stdlib Require Import Ascii String.
Open Scope string_scope.
Open Scope Z_scope.

(** ** Records *)

Record User := mkUser { u_id : Z; u_username : string }.

Record UserCredentials := mkCredentials {
  uc_id : Z; uc_username : string; uc_rating : Z; uc_password_hash : string
}.

(** The profile of stored credentials: ids are [uint64_t], players have an [int]. *)
Definition profile (c : UserCredentials) : Player :=
  mkPlayer (to_int (uc_id c)) (uc_username c) (uc_rating c).

(** ** The interface *)

Class UserRepository (S : Type) := {
  create_user : S -> string -> S * Z;
  create_user_with_id : S -> Z -> string -> S * Z;
  find_by_id : S -> Z -> option User;
  find_by_username : S -> string -> option User;
  find_credentials_by_username : S -> string -> res (option UserCredentials);
  find_profile_by_id : S -> Z -> option Player;
  create_user_with_password : S -> string -> Z -> string -> S * option Player;
  update_rating : S -> Z -> Z -> S * bool
}.

(** What the services rely on, for the states [repo_ok] in which names and ids agree.
    [ids_left n] says that [n] more users can be created; [text_ok] are the names and
    hashes, and [id_ok] the ids, that the repository can keep apart.  [credentials s] is
    the abstract content: the account of each name. *)
Class UserRepositoryLaws (S : Type) `{UserRepository S} := {
  repo_ok : S -> Prop;
  ids_left : nat -> S -> Prop;
  ids_left_mono n s : ids_left (1 + n) s -> ids_left n s;
  text_ok : string -> Prop;
  text_ok_clean t : clean t -> text_ok t;
  id_ok : Z -> Prop;
  credentials : S -> string -> option UserCredentials;
  find_credentials_spec s name : repo_ok s -> text_ok name ->
    find_credentials_by_username s name = Ok (credentials s name);
  credentials_name s name c : repo_ok s -> credentials s name = Some c -> uc_username c = name;
  (** Two names never share an account. *)
  credentials_id s name name' c c' : repo_ok s ->
    credentials s name = Some c -> credentials s name' = Some c' -> uc_id c = uc_id c' -> name = name';
  credentials_id_ok s name c : repo_ok s -> credentials s name = Some c -> id_ok (uc_id c);
  find_profile_spec s id p : repo_ok s -> id_ok id ->
    find_profile_by_id s id = Some p <->
    exists name c, credentials s name = Some c /\ uc_id c = id /\ p = profile c;
  (** A name can be taken once; taking it leaves the other accounts alone. *)
  create_with_password_some n s name rating hash s' p : repo_ok s -> ids_left (1 + n) s ->
    text_ok name -> text_ok hash -> fits_int rating ->
    create_user_with_password s name rating hash = (s', Some p) ->
    repo_ok s' /\ ids_left n s' /\ credentials s name = None /\
    exists id, p = mkPlayer (to_int id) name rating /\
      forall n, credentials s' n =
        if decide (n = name) then Some (mkCredentials id name rating hash) else credentials s n;
  create_with_password_none n s name rating hash s' : repo_ok s -> ids_left (1 + n) s ->
    fits_int rating ->
    create_user_with_password s name rating hash = (s', None) ->
    repo_ok s' /\ ids_left n s' /\ forall n, credentials s' n = credentials s n;
  (** A rating is written to the account of the id, if there is one, or nothing is. *)
  update_rating_spec s id rating : repo_ok s -> id_ok id -> fits_int rating ->
    let r := update_rating s id rating in
    repo_ok r.1 /\
    (r.2 = true -> forall n, credentials r.1 n =
      (fun c => if decide (uc_id c = id) then mkCredentials id (uc_username c) rating (uc_password_hash c)
                else c) <$> credentials s n) /\
    (r.2 = false -> forall n, credentials r.1 n = credentials s n)
}.

(** ** [InMemoryUserRepository] *)

Record StoredUser := mkStored { su_user : User; su_rating : Z; su_password_hash : string }.

Record InMemoryUserRepository := mkRepo {
  next_id_ : Z;
  users_ : gmap Z StoredUser;
  by_username_ : gmap string Z
}.
Definition new_repository : InMemoryUserRepository := mkRepo 1 ∅ ∅.

Definition mem_create_user_with_id (s : InMemoryUserRepository) (id : Z) (username : string) :
    InMemoryUserRepository * Z :=
  (mkRepo (next_id_ s) (<[id := mkStored (mkUser id username) 1000 ""]> (users_ s))
     (<[username := id]> (by_username_ s)), id).

Definition mem_create_user (s : InMemoryUserRepository) (username : string) :
    InMemoryUserRepository * Z :=
  let id := next_id_ s in
  mem_create_user_with_id (mkRepo (to_u64 (next_id_ s + 1)) (users_ s) (by_username_ s)) id username.

Definition mem_find_by_id (s : InMemoryUserRepository) (id : Z) : option User :=
  match users_ s !! id with Some stored => Some (su_user stored) | None => None end.

Definition mem_find_by_username (s : InMemoryUserRepository) (username : string) : option User :=
  match by_username_ s !! username with None => None | Some id => mem_find_by_id s id end.

(** [users_.at] throws when the id is unknown. *)
Definition mem_find_credentials (s : InMemoryUserRepository) (username : string) :
    res (option UserCredentials) :=
  match mem_find_by_username s username with
  | None => Ok None
  | Some user =>
      match users_ s !! u_id user with
      | None => Err OutOfRange
      | Some stored =>
          Ok (Some (mkCredentials (u_id user) (u_username user) (su_rating stored)
                      (su_password_hash stored)))
      end
  end.

Definition mem_find_profile (s : InMemoryUserRepository) (id : Z) : option Player :=
  match users_ s !! id with
  | None => None
  | Some stored =>
      Some (mkPlayer (to_int (u_id (su_user stored))) (u_username (su_user stored)) (su_rating stored))
  end.

Definition mem_create_with_password (s : InMemoryUserRepository) (username : string) (rating : Z)
    (password_hash : string) : InMemoryUserRepository * option Player :=
  match mem_find_by_username s username with
  | Some _ => (s, None)
  | None =>
      let id := next_id_ s in
      (mkRepo (to_u64 (next_id_ s + 1))
         (<[id := mkStored (mkUser id username) rating password_hash]> (users_ s))
         (<[username := id]> (by_username_ s)),
       Some (mkPlayer (to_int id) username rating))
  end.

Definition mem_update_rating (s : InMemoryUserRepository) (id rating : Z) :
    InMemoryUserRepository * bool :=
  match users_ s !! id with
  | None => (s, false)
  | Some stored =>
      (mkRepo (next_id_ s)
         (<[id := mkStored (su_user stored) rating (su_password_hash stored)]> (users_ s))
         (by_username_ s), true)
  end.

#[export] Instance memory_repository : UserRepository InMemoryUserRepository := {
  create_user := mem_create_user;
  create_user_with_id := mem_create_user_with_id;
  find_by_id := mem_find_by_id;
  find_by_username := mem_find_by_username;
  find_credentials_by_username := mem_find_credentials;
  find_profile_by_id := mem_find_profile;
  create_user_with_password := mem_create_with_password;
  update_rating := mem_update_rating
}.

(** ** [AuthenticationService] *)

Record AuthenticationResult := mkAuth {
  ar_success : bool; ar_player : option Player; ar_failure_reason : string
}.
Definition auth_failure (reason : string) : AuthenticationResult := mkAuth false None reason.
Definition auth_success (p : Player) : AuthenticationResult := mkAuth true (Some p) "".

Section authentication.

Context {S : Type} `{UserRepository S}.

Definition authenticate (salt : list Z) (s : S) (username password : string) :
    res (S * AuthenticationResult) :=
  if is_empty_string username then Ok (s, auth_failure "invalid_username")
  else if is_empty_string password then Ok (s, auth_failure "missing_password")
  else
    existing ← find_credentials_by_username s username;
    match existing with
    | Some existing =>
        if is_empty_string (uc_password_hash existing) then
          Ok (s, auth_failure "invalid_password")
        else if negb (verify_password password (uc_password_hash existing)) then
          Ok (s, auth_failure "invalid_password")
        else Ok (s, auth_success (mkPlayer (to_int (uc_id existing)) (uc_username existing)
                                    (uc_rating existing)))
    | None =>
        let password_hash := hash_password salt password kDefaultIterations in
        let '(s, created) := create_user_with_password s username 1000 password_hash in
        match created with
        | Some p => Ok (s, auth_success p)
        | None =>
            again ← find_credentials_by_username s username;
            match again with
            | Some _ => Ok (s, auth_failure "username_taken")
            | None => Ok (s, auth_failure "create_failed")
            end
        end
    end.

End authentication.

(** ** The in-memory repository obeys the laws *)

(** Names and ids agree, and the next id is new. *)
Record mem_ok (s : InMemoryUserRepository) : Prop := {
  mem_name name id : by_username_ s !! name = Some id ->
    exists st, users_ s !! id = Some st /\ su_user st = mkUser id name;
  mem_id id st : users_ s !! id = Some st ->
    u_id (su_user st) = id /\ by_username_ s !! u_username (su_user st) = Some id /\
    0 <= id < next_id_ s
}.

Definition mem_credentials (s : InMemoryUserRepository) (name : string) : option UserCredentials :=
  id ← by_username_ s !! name;
  (fun st => mkCredentials id name (su_rating st) (su_password_hash st)) <$> users_ s !! id.

Lemma mem_credentials_Some s name c : mem_ok s ->
  mem_credentials s name = Some c <->
  exists st, users_ s !! uc_id c = Some st /\ su_user st = mkUser (uc_id c) name /\
    c = mkCredentials (uc_id c) name (su_rating st) (su_password_hash st).
Proof.
  intros Hs. unfold mem_credentials. split.
  - destruct (by_username_ s !! name) as [id|] eqn:En; [|done]. simpl.
    destruct (mem_name s Hs _ _ En) as (st & Est & Hu). rewrite Est. intros [= <-]. eauto.
  - intros (st & Est & Hu & ->). simpl in *. destruct (mem_id s Hs _ _ Est) as (_ & Hn & _).
    rewrite Hu in Hn. simpl in Hn. rewrite Hn. simpl. by rewrite Est.
Qed.

Lemma mem_find_by_username_ok s name : mem_ok s ->
  mem_find_by_username s name = (fun c => mkUser (uc_id c) name) <$> mem_credentials s name.
Proof.
  intros Hs. unfold mem_find_by_username, mem_find_by_id, mem_credentials.
  destruct (by_username_ s !! name) as [id|] eqn:En; [|done]. simpl.
  destruct (mem_name s Hs _ _ En) as (st & -> & Hu). simpl. by rewrite Hu.
Qed.

Lemma mem_find_credentials_ok s name : mem_ok s ->
  mem_find_credentials s name = Ok (mem_credentials s name).
Proof.
  intros Hs. unfold mem_find_credentials. rewrite mem_find_by_username_ok by done.
  destruct (mem_credentials s name) as [c|] eqn:Ec; [|done].
  apply mem_credentials_Some in Ec as (st & Est & _ & ->); [|done]. simpl in *. by rewrite Est.
Qed.

Lemma mem_create_ok s name rating hash s' p : mem_ok s -> next_id_ s + 1 < 2 ^ 64 -> 0 <= next_id_ s ->
  mem_create_with_password s name rating hash = (s', Some p) ->
  mem_ok s' /\ mem_credentials s name = None /\
  p = mkPlayer (to_int (next_id_ s)) name rating /\
  forall n, mem_credentials s' n =
    if decide (n = name) then Some (mkCredentials (next_id_ s) name rating hash)
    else mem_credentials s n.
Proof.
  intros Hs Hlt Hge. unfold mem_create_with_password. rewrite mem_find_by_username_ok by done.
  destruct (mem_credentials s name) as [c|] eqn:Ec; [done|]. intros [= <- <-].
  assert (users_ s !! next_id_ s = None) as Hnew.
  { destruct (users_ s !! next_id_ s) as [st|] eqn:E; [|done]. apply (mem_id s Hs) in E. lia. }
  assert (by_username_ s !! name = None) as Hname.
  { unfold mem_credentials in Ec. destruct (by_username_ s !! name) as [id|] eqn:En; [|done].
    destruct (mem_name s Hs _ _ En) as (st & Est & _). simpl in Ec. by rewrite Est in Ec. }
  assert (to_u64 (next_id_ s + 1) = next_id_ s + 1) as Hw by (apply wrap_u_id; lia).
  split_and!; [|done|done|].
  - split; simpl; rewrite ?Hw.
    + intros n id. rewrite lookup_insert_Some. intros [[<- <-] | [Hn En]].
      * eexists. by rewrite lookup_insert_eq.
      * destruct (mem_name s Hs _ _ En) as (st & Est & Hu). exists st. split; [|done].
        rewrite lookup_insert_ne; [done|]. intros <-. congruence.
    + intros id st. rewrite lookup_insert_Some. intros [[<- <-] | [Hn Est]]; simpl.
      * rewrite lookup_insert_eq. split_and!; [done..|lia].
      * destruct (mem_id s Hs _ _ Est) as (Hi & Hb & Hr). split_and!; [done| |lia|lia].
        rewrite lookup_insert_ne; [done|]. intros E. by rewrite <- E, Hname in Hb.
  - intros n. unfold mem_credentials. simpl. case_decide as Hn.
    + subst n. rewrite lookup_insert_eq. simpl. by rewrite lookup_insert_eq.
    + rewrite lookup_insert_ne by done. destruct (by_username_ s !! n) as [id|] eqn:En; [|done]. simpl.
      rewrite lookup_insert_ne; [done|]. intros <-. destruct (mem_name s Hs _ _ En) as (st & ? & _).
      congruence.
Qed.

Lemma mem_update_ok s id rating : mem_ok s -> mem_ok (mem_update_rating s id rating).1.
Proof.
  intros Hs. unfold mem_update_rating. destruct (users_ s !! id) as [st|] eqn:E; [|done].
  split; simpl.
  - intros n i En. destruct (mem_name s Hs _ _ En) as (st' & Est & Hu).
    destruct (decide (i = id)) as [->|Hne].
    + simplify_eq. rewrite lookup_insert_eq. eauto.
    + rewrite lookup_insert_ne by done. eauto.
  - intros i st'. rewrite lookup_insert_Some. intros [[<- <-] | [Hn Est]]; [exact (mem_id s Hs _ _ E)|exact (mem_id s Hs _ _ Est)].
Qed.

Lemma mem_update_credentials s id rating n : mem_ok s -> is_Some (users_ s !! id) ->
  mem_credentials (mem_update_rating s id rating).1 n =
  (fun c => if decide (uc_id c = id) then mkCredentials id (uc_username c) rating (uc_password_hash c)
            else c) <$> mem_credentials s n.
Proof.
  intros Hs [st Est]. unfold mem_update_rating, mem_credentials. rewrite Est. simpl.
  destruct (by_username_ s !! n) as [i|] eqn:En; [|done]. simpl.
  destruct (decide (i = id)) as [->|Hne].
  - rewrite lookup_insert_eq, Est. simpl. by rewrite decide_True.
  - rewrite lookup_insert_ne by done. destruct (users_ s !! i); [|done]. simpl. by rewrite decide_False.
Qed.

#[export] Program Instance memory_repository_laws : UserRepositoryLaws InMemoryUserRepository := {
  repo_ok s := mem_ok s /\ 0 <= next_id_ s;
  ids_left n s := next_id_ s + Z.of_nat n < 2 ^ 64;
  text_ok _ := True;
  id_ok _ := True;
  credentials := mem_credentials
}.
Next Obligation. intros n s Hn. cbv beta in *. lia. Qed.
Next Obligation. done. Qed.
Next Obligation. intros s name [Hs _] _. by apply mem_find_credentials_ok. Qed.
Next Obligation. intros s name c [Hs _] (st & _ & _ & ->)%mem_credentials_Some; done. Qed.
Next Obligation.
  intros s n n' c c' [Hs _] (st & E1 & H1 & _)%mem_credentials_Some
    (st' & E2 & H2 & _)%mem_credentials_Some Hid; [|done..].
  rewrite Hid in E1, H1. rewrite E1 in E2. congruence.
Qed.
Next Obligation. done. Qed.
Next Obligation.
  intros s id p [Hs _] _. simpl. unfold mem_find_profile. split.
  - destruct (users_ s !! id) as [st|] eqn:E; [|done]. intros [= <-].
    destruct (mem_id s Hs _ _ E) as (Hi & Hb & _).
    exists (u_username (su_user st)),
      (mkCredentials id (u_username (su_user st)) (su_rating st) (su_password_hash st)).
    split; [|by rewrite <- Hi]. unfold mem_credentials. rewrite Hb. simpl. by rewrite E.
  - intros (name & c & (st & E & Hu & Ec)%mem_credentials_Some & <- & ->); [|done].
    rewrite E, Hu. unfold profile. by rewrite Ec.
Qed.
Next Obligation.
  intros n s name rating hash s' p [Hs Hge] Hlt _ _ _ E. simpl in E.
  pose proof E as (Hs' & Hn & -> & Hc)%mem_create_ok; [|done|lia|done].
  assert (next_id_ s' = next_id_ s + 1) as Hnext.
  { unfold mem_create_with_password in E. destruct (mem_find_by_username s name); [done|].
    injection E as <-. simpl. unfold to_u64. rewrite wrap_u_id; lia. }
  split_and!; [done|lia|lia|done|eauto].
Qed.
Next Obligation.
  intros n s name rating hash s' Hs Hn _. simpl. unfold mem_create_with_password.
  destruct (mem_find_by_username s name); [|done]. intros [= <-].
  cbv beta in *. split_and!; [apply Hs..|lia|done].
Qed.
Next Obligation.
  intros s id rating [Hs Hge] _ _. cbn [update_rating memory_repository].
  pose proof (mem_update_ok s id rating Hs) as Hok.
  pose proof (fun n => mem_update_credentials s id rating n Hs) as Hc.
  unfold mem_update_rating in *. destruct (users_ s !! id) as [st|] eqn:E; simpl in *.
  - split_and!; [done|lia|eauto|done].
  - by split_and!.
Qed.

(** ** Authentication, against the laws *)

#[local] Opaque pbkdf2_sha256 hash_password verify_password.

Section authentication_correct.

Context {S : Type} `{UserRepositoryLaws S}.

(** Two passwords that a hash of the given salt cannot tell apart. *)
Definition same_key (salt : list Z) (p q : string) : bool :=
  keys_equal (pbkdf2_sha256 (string_bytes p) salt kDefaultIterations kHashBytes)
             (pbkdf2_sha256 (string_bytes q) salt kDefaultIterations kHashBytes).

(** The verdict on a known account. *)
Definition login_verdict (c : UserCredentials) (password : string) : AuthenticationResult :=
  if negb (is_empty_string (uc_password_hash c)) && verify_password password (uc_password_hash c)
  then auth_success (profile c) else auth_failure "invalid_password".

Lemma authenticate_known salt s name password c : repo_ok s -> text_ok name ->
  name <> "" -> password <> "" -> credentials s name = Some c ->
  authenticate salt s name password = Ok (s, login_verdict c password).
Proof.
  intros Hs Ht Hn Hp Hc. unfold authenticate. destruct name as [|x name]; [done|].
  destruct password as [|y password]; [done|]. cbn [is_empty_string].
  rewrite find_credentials_spec, bind_ok, Hc by done. unfold login_verdict.
  destruct (is_empty_string (uc_password_hash c)); [done|].
  by destruct (verify_password (String y password) (uc_password_hash c)).
Qed.

Lemma authenticate_new salt s name password : repo_ok s -> ids_left 1 s -> text_ok name ->
  name <> "" -> password <> "" -> credentials s name = None ->
  authenticate salt s name password =
  match create_user_with_password s name 1000 (hash_password salt password kDefaultIterations) with
  | (s', Some p) => Ok (s', auth_success p)
  | (s', None) => Ok (s', auth_failure "create_failed")
  end.
Proof.
  intros Hs Hids Ht Hn Hp Hc. unfold authenticate. destruct name as [|x name]; [done|].
  destruct password as [|y password]; [done|]. cbn [is_empty_string].
  rewrite find_credentials_spec, bind_ok, Hc by done.
  destruct (create_user_with_password _ _ _ _) as [s' [p|]] eqn:E; [done|].
  apply (create_with_password_none 0) in E as (Hs' & _ & Hc'); [|done..].
  by rewrite find_credentials_spec, bind_ok, Hc', Hc by done.
Qed.

Lemma login_new_account salt id name password other : Forall u8_ok salt ->
  login_verdict (mkCredentials id name 1000 (hash_password salt password kDefaultIterations)) other =
  if same_key salt other password then auth_success (mkPlayer (to_int id) name 1000)
  else auth_failure "invalid_password".
Proof.
  intros Hsalt. unfold login_verdict, same_key. cbn [uc_password_hash].
  rewrite verify_hashed by done. done.
Qed.

(** What a call of [authenticate] in state [s] may answer and leave behind. *)
Definition authenticated (salt : list Z) (s : S) (name password : string)
    (s' : S) (r : AuthenticationResult) : Prop :=
  repo_ok s' /\
  (forall n, ids_left (1 + n) s -> ids_left n s') /\
  (forall n, n <> name -> credentials s' n = credentials s n) /\
  (ar_success r = false -> ar_player r = None /\ forall n, credentials s' n = credentials s n) /\
  (ar_success r = true -> name <> "" /\ password <> "" /\
    exists c, credentials s' name = Some c /\ ar_player r = Some (profile c) /\
      verify_password password (uc_password_hash c) = true) /\
  (forall c, credentials s name = Some c -> s' = s /\
    (name <> "" -> password <> "" -> r = login_verdict c password)) /\
  (credentials s name = None -> forall c, credentials s' name = Some c -> uc_rating c = 1000) /\
  (credentials s name = None -> ar_success r = true ->
    forall salt' other, other <> "" ->
      authenticate salt' s' name other =
      Ok (s', if same_key salt other password then r else auth_failure "invalid_password")).

Lemma authenticated_refused salt s s' name password reason : repo_ok s' ->
  (forall n, ids_left (1 + n) s -> ids_left n s') -> (forall n, credentials s' n = credentials s n) ->
  (name = "" \/ password = "" \/ credentials s name = None) ->
  (credentials s name = None \/ s' = s) ->
  authenticated salt s name password s' (auth_failure reason).
Proof.
  intros Hs Hids Hsame Hc Hs'. split_and!; try done.
  - intros c Ec. split; [destruct Hs' as [Hs'|Hs']; [congruence|done]|]. intros Hn Hp. naive_solver.
  - intros E c. by rewrite Hsame, E.
Qed.

Lemma authenticate_spec (salt : list Z) (s : S)
    (name password : string) : Forall u8_ok salt -> repo_ok s -> ids_left 1 s -> text_ok name ->
  exists s' r, authenticate salt s name password = Ok (s', r) /\
    authenticated salt s name password s' r.
Proof.
  intros Hsalt Hs Hids Ht.
  assert (forall reason, (name = "" \/ password = "") ->
    authenticated salt s name password s (auth_failure reason)) as Hrefused.
  { intros reason Hc. apply authenticated_refused; [done|intros n; apply ids_left_mono|done|tauto|by right]. }
  destruct (decide (name = "")) as [Hn|Hn].
  { exists s, (auth_failure "invalid_username"). split; [by rewrite Hn|auto]. }
  destruct (decide (password = "")) as [Hp|Hp].
  { exists s, (auth_failure "missing_password"). split; [rewrite Hp; by destruct name|auto]. }
  clear Hrefused. destruct (credentials s name) as [c|] eqn:Ec.
  - exists s, (login_verdict c password). split; [by apply authenticate_known|].
    unfold authenticated. rewrite Ec. unfold login_verdict.
    destruct (negb _ && _) eqn:E; split_and!; try done; try (by intros n; apply ids_left_mono); try (by intros ? [= ->]).
    + intros _. split_and!; [done..|]. apply andb_true_iff in E as [_ E]. eauto.
    + intros ? [= <-]. split; [done|]. by rewrite E.
    + intros ? [= <-]. split; [done|]. by rewrite E.
  - rewrite authenticate_new by done.
    assert (text_ok (hash_password salt password kDefaultIterations)) as Hh
      by (by apply text_ok_clean, hash_password_clean).
    assert (fits_int 1000) as Hr by done.
    destruct (create_user_with_password _ _ _ _) as [s' [p|]] eqn:E.
    + pose proof (fun n Hn => create_with_password_some n _ _ _ _ _ _ Hs Hn Ht Hh Hr E) as Hleft.
      pose proof E as (Hs' & _ & _ & id & -> & Hc)%(create_with_password_some 0); [|done..].
      exists s', (auth_success (mkPlayer (to_int id) name 1000)). split; [done|].
      pose proof (Hc name) as Hname. rewrite decide_True in Hname by done.
      unfold authenticated. rewrite Ec. split_and!; try done.
      * intros n Hn'. by apply Hleft in Hn' as (_ & ? & _).
      * intros n Hne. rewrite Hc. by rewrite decide_False.
      * intros _. split_and!; [done..|]. eexists. split_and!; [done|done|].
        cbn [uc_password_hash]. rewrite verify_hashed by done. apply keys_equal_refl.
      * intros _ c. rewrite Hname. by intros [= <-].
      * intros _ _ salt' other Ho. erewrite authenticate_known by done. by rewrite login_new_account.
    + exists s', (auth_failure "create_failed"). split; [done|].
      pose proof (fun n Hn => create_with_password_none n _ _ _ _ _ Hs Hn Hr E) as Hnone.
      apply authenticated_refused; [by eapply (Hnone 0%nat)|intros n Hn'; by apply Hnone|by eapply (Hnone 0%nat)|auto..].
Qed.

End authentication_correct.



(** [create_user] with an explicit id does not advance the id counter: the next
    registration reuses the id, and the first name leads to the second account. *)
Lemma explicit_id_collides : exists s1 s2 p,
  create_user_with_id new_repository 1 "ann" = (s1, 1) /\
  create_user_with_password s1 "bob" 1000 "h" = (s2, Some p) /\
  find_by_username s2 "ann" = Some (mkUser 1 "bob").
Proof. do 3 eexists. split_and!; reflexivity. Qed.
