(* ===== verification/GameLoop.v ===== *)
(** * The loop over the active rooms

    [src/src/server/room/active_room_processor.h]/[active_room_processor.cpp]: what the
    game server does for every active room in one iteration.  Counters of the
    observability layer are not modelled.

    How a finished game is settled is another component's task; [FinishHandler]
    is its operation, [FinishInvariant] what it needs to be true and [FinishOk] what
    the loop relies on.  [GameResult.v] implements them. *)

From S2P Require Import Prelude Piece BoardModel PathUtils PieceRules CollisionResolver MoveScheduler RealTimeArbiter GameState CppString BoardIO GameMessages BoardView Snapshot Rooms Sessions.
From Stdlib Require Import String.
Open Scope Z_scope.

Inductive FinishReason := KingCapture | Resign | Disconnect.

(** The state the loop works on: rooms, connections, the time of the last tick,
    and the state [X] of whatever settles finished games. *)
Record LoopState {C X : Type} := mkLoop {
  ls_rooms : RoomManager;
  ls_plane : Plane (C := C);
  ls_last_tick : Z;
  ls_ext : X
}.
Arguments LoopState : clear implicits.
Arguments mkLoop {C X} _ _ _ _.

Definition kTargetFrameMs : Z := 16.

(** The other side. *)
Definition other_color (c : PieceColor) : PieceColor :=
  match c with White => Black | Black => White end.

(** [FinishCallback]. *)
Class FinishHandler (C X : Type) := {
  finish : Z -> option PieceColor -> FinishReason -> LoopState C X -> res (LoopState C X)
}.

(** The same handler state, and the same players in every room that is left. *)
Definition same_seats {C X} (st st' : LoopState C X) : Prop :=
  ls_ext st' = ls_ext st /\
  forall id r', rooms_ (ls_rooms st') !! id = Some r' ->
    exists r, rooms_ (ls_rooms st) !! id = Some r /\
      white_player_ r' = white_player_ r /\ black_player_ r' = black_player_ r.

(** What a handler needs for settling [n] more games: nothing the loop itself does
    may destroy it. *)
Class FinishInvariant (C X : Type) := {
  finish_inv : nat -> LoopState C X -> Prop;
  finish_inv_mono n n' st : (n' <= n)%nat -> finish_inv n st -> finish_inv n' st;
  finish_inv_stable n st st' : finish_inv n st -> same_seats st st' -> finish_inv n st'
}.

Section GameLoop.
Context {C X : Type} `{Connection C} `{FinishHandler C X} `{FinishInvariant C X}.

Implicit Type st : LoopState C X.

Definition set_ls_rooms st (m : RoomManager) : LoopState C X :=
  mkLoop m (ls_plane st) (ls_last_tick st) (ls_ext st).
Definition set_ls_plane st (p : Plane) : LoopState C X :=
  mkLoop (ls_rooms st) p (ls_last_tick st) (ls_ext st).
Definition set_last_tick st (now : Z) : LoopState C X :=
  mkLoop (ls_rooms st) (ls_plane st) now (ls_ext st).

(** [apply_room_inputs]: a resignation ends the loop. *)
Fixpoint apply_room_inputs (id : Z) (inputs : list RoomPlayerInput) st : res (LoopState C X) :=
  match inputs with
  | [] => Ok st
  | InputResign player_side :: _ =>
      room ← deref (find_room (ls_rooms st) id);
      finish (id_ room) (Some (other_color player_side)) Resign st
  | InputAction player_side action :: rest =>
      room ← deref (find_room (ls_rooms st) id);
      allowed ← is_action_allowed player_side (state_ (match_ room)) action;
      if allowed : bool then
        room' ← room_submit_action room action;
        apply_room_inputs id rest (set_ls_rooms st (write_room (ls_rooms st) id room'))
      else apply_room_inputs id rest st
  end.

(** A snapshot is sent to a player who is connected. *)
Definition send_snapshot (player : GamePlayer) (snapshot : string) st : res (LoopState C X) :=
  connected ← is_player_connected (ls_plane st) (gp_player_id player);
  if connected : bool then
    r ← sink_send (ls_plane st) (gp_player_id player) snapshot;
    Ok (set_ls_plane st r.2)
  else Ok st.

(** The tick of a room whose frame is due; [now] is the clock's reading. *)
Definition tick_and_send (elapsed now id : Z) (white black : GamePlayer) st : res (LoopState C X) :=
  room ← deref (find_room (ls_rooms st) id);
  if (kTargetFrameMs <=? elapsed) && negb (room_is_game_over room) then
    room' ← room_tick room elapsed;
    snapshot ← generate_snapshot room';
    st ← send_snapshot white snapshot (set_ls_rooms st (write_room (ls_rooms st) id room'));
    st ← send_snapshot black snapshot st;
    Ok (set_last_tick st now)
  else Ok st.

(** The inputs of a room that is still being played. *)
Definition poll_and_apply (id : Z) st : res (LoopState C X) :=
  room ← deref (find_room (ls_rooms st) id);
  if active_ room && negb (room_is_game_over room) then
    r ← poll_room_inputs (ls_plane st) room;
    apply_room_inputs id r.2 (set_ls_plane st r.1)
  else Ok st.

(** The verdict of a game that is over. *)
Definition conclude (id : Z) st : res (LoopState C X) :=
  room ← deref (find_room (ls_rooms st) id);
  if room_is_game_over room then
    winner ← winning_color (state_ (match_ room));
    finish (id_ room) winner KingCapture st
  else Ok st.

(** The body of the loop of [process]; [room] is the room the pointer refers to. *)
Definition process_room (elapsed now : Z) (id : Z) st : res (LoopState C X) :=
  room ← deref (find_room (ls_rooms st) id);
  match white_player_ room, black_player_ room with
  | Some white, Some black =>
      plane ← probe_room (ls_plane st) room;
      let st := set_ls_plane st plane in
      both ← both_room_players_disconnected (ls_plane st) room;
      if both : bool then finish (id_ room) None Disconnect st
      else
        disconnected ← disconnected_player_color (ls_plane st) room;
        match disconnected with
        | Some color => finish (id_ room) (Some (other_color color)) Disconnect st
        | None =>
            st ← tick_and_send elapsed now id white black st;
            st ← poll_and_apply id st;
            conclude id st
        end
  | _, _ => Ok st
  end.

(** [process]: [order] is the order in which the table of rooms is traversed. *)
Definition process (order : list Z) (elapsed now : Z) st : res (LoopState C X) :=
  foldM (process_room elapsed now) (active_rooms order (ls_rooms st)) st.

(** ** What the loop promises *)

(** The state is well-formed and [n] more games can be settled. *)
Definition loop_ok (n : nat) st : Prop :=
  manager_ok (ls_rooms st) /\ plane_ok (ls_plane st) /\ finish_inv n st.

(** Settling a game may reset its room, and touches no other room. *)
Definition settled_as (r r' : Room) : Prop := r' = r \/ r' = reset r.
Definition others (id : Z) st st' : Prop :=
  forall id', id' <> id -> rooms_ (ls_rooms st') !! id' = rooms_ (ls_rooms st) !! id'.

Class FinishOk : Prop := {
  finish_ok : forall n id winner reason st room, loop_ok (S n) st ->
    rooms_ (ls_rooms st) !! id = Some room ->
    finish id winner reason st ⇓ (fun st' => loop_ok n st' /\ others id st st' /\
      exists room', rooms_ (ls_rooms st') !! id = Some room' /\ settled_as room room')
}.

(** A side taken by one of the players of a room. *)
Definition plays_side (r : Room) (c : PieceColor) : Prop :=
  exists player, gp_side player = c /\
    (white_player_ r = Some player \/ black_player_ r = Some player).

(** The games reachable by authorised actions of the players. *)
Inductive plays (r : Room) (g : GameState) : GameState -> Prop :=
| plays_none : plays r g g
| plays_action g1 g2 c a :
    plays r g g1 -> plays_side r c -> authorised c g1 a -> apply_action g1 a = Ok g2 -> plays r g g2.

(** One round of a room: at most one tick by the elapsed time, then authorised
    actions; nothing but the game changes. *)
Definition room_round (elapsed : Z) (r r' : Room) : Prop :=
  r' = set_match r (match_ r') /\
  exists g, (g = state_ (match_ r) \/
             kTargetFrameMs <= elapsed /\ room_is_game_over r = false /\
             add_clock (state_ (match_ r)) elapsed = Ok g) /\
            plays r g (state_ (match_ r')).

(** The outcome for one room. *)
Definition round_of (n : nat) (elapsed id : Z) (r : Room) st st' : Prop :=
  loop_ok n st' /\ others id st st' /\
  exists r1 r2, room_round elapsed r r1 /\ rooms_ (ls_rooms st') !! id = Some r2 /\ settled_as r1 r2.

(** ** Lemmas *)

Lemma others_trans id st1 st2 st3 : others id st1 st2 -> others id st2 st3 -> others id st1 st3.
Proof. intros E1 E2 id' Hne. by rewrite E2, E1. Qed.

Lemma settled_trans r1 r2 r3 : settled_as r1 r2 -> settled_as r2 r3 -> settled_as r1 r3.
Proof. intros [-> | ->] [-> | ->]; [by left|by right|by right|by right]. Qed.

Lemma reset_not_over r : room_is_game_over (reset r) = false.
Proof. done. Qed.

Lemma set_match_match r : set_match r (match_ r) = r.
Proof. by destruct r. Qed.

Lemma loop_ok_mono n n' st : loop_ok n st -> (n' <= n)%nat -> loop_ok n' st.
Proof. intros (? & ? & Hi) Hle. split_and!; [done|done|by eapply finish_inv_mono]. Qed.

Lemma write_room_loop n id st r r' : loop_ok n st -> rooms_ (ls_rooms st) !! id = Some r ->
  room_ok r' -> id_ r' = id_ r ->
  white_player_ r' = white_player_ r -> black_player_ r' = black_player_ r ->
  loop_ok n (set_ls_rooms st (write_room (ls_rooms st) id r')) /\
  others id st (set_ls_rooms st (write_room (ls_rooms st) id r')) /\
  rooms_ (ls_rooms (set_ls_rooms st (write_room (ls_rooms st) id r'))) !! id = Some r'.
Proof.
  intros (Hm & Hp & Hi) Hr Hok Hid Hw Hb. split_and!.
  - split_and!; [by eapply write_room_ok|done|]. eapply finish_inv_stable; [exact Hi|].
    split; [done|]. intros id' r1. cbn [set_ls_rooms ls_rooms write_room set_rooms rooms_].
    rewrite lookup_insert_Some. intros [[<- <-] | [? ?]]; eauto.
  - intros id' Hne. by apply lookup_insert_ne.
  - apply lookup_insert_eq.
Qed.

Lemma loop_room n st id r : loop_ok n st -> rooms_ (ls_rooms st) !! id = Some r ->
  id_ r = id /\ room_ok r.
Proof. intros [Hm _] Hr. by destruct (mo_rooms _ Hm _ _ Hr) as (? & ? & _). Qed.

Lemma same_rooms_ok n st st' : loop_ok n st -> ls_rooms st' = ls_rooms st -> ls_ext st' = ls_ext st ->
  plane_ok (ls_plane st') -> loop_ok n st'.
Proof.
  intros (Hm & _ & Hi) Er Ee Hp. split_and!; [by rewrite Er|done|].
  eapply finish_inv_stable; [exact Hi|]. split; [done|]. rewrite Er. eauto.
Qed.

Lemma set_plane_ok n st p : loop_ok n st -> traffic (ls_plane st) p -> loop_ok n (set_ls_plane st p).
Proof. intros Hst Ht. eapply same_rooms_ok; [done..|]. destruct Hst as (_ & Hp & _). by eapply traffic_ok. Qed.

Lemma send_snapshot_ok n player snapshot st : loop_ok n st ->
  send_snapshot player snapshot st ⇓ (fun st' => loop_ok n st' /\ ls_rooms st' = ls_rooms st).
Proof.
  intros Hst. unfold send_snapshot.
  destruct (is_player_connected_ok (ls_plane st) (gp_player_id player) (proj1 (proj2 Hst))) as [[] ->];
    rewrite bind_ok; [|by apply returns_ok].
  apply returns_bind. eapply returns_mono; [apply sink_with_ok, Hst|].
  intros [b p] Ht. apply returns_ok. split; [by apply set_plane_ok|done].
Qed.

Lemma tick_and_send_ok n elapsed now id white black st r : loop_ok n st ->
  rooms_ (ls_rooms st) !! id = Some r -> tick_fits elapsed r ->
  tick_and_send elapsed now id white black st ⇓ (fun st' => loop_ok n st' /\ others id st st' /\
    exists g, rooms_ (ls_rooms st') !! id = Some (set_match r (mkMatch g)) /\
      (g = state_ (match_ r) \/ kTargetFrameMs <= elapsed /\ room_is_game_over r = false /\
         add_clock (state_ (match_ r)) elapsed = Ok g)).
Proof.
  intros Hst Hr Hf. unfold tick_and_send, find_room. rewrite Hr. cbn [deref]. rewrite bind_ok.
  destruct (_ && _) eqn:E.
  2: { apply returns_ok. split_and!; [done|done|]. exists (state_ (match_ r)).
       split; [|by left]. rewrite Hr. f_equal. by destruct r as [? ? []]. }
  apply andb_true_iff in E as [E1%Z.leb_le E2%negb_true_iff].
  destruct (loop_room _ st id r Hst Hr) as [Hid Hok].
  apply returns_bind. eapply returns_mono; [by apply room_tick_ok|].
  intros r1 (Hok1 & g & Hg & ->). destruct (write_room_loop n id st r _ Hst Hr Hok1 eq_refl eq_refl eq_refl)
    as (Hst1 & Ho1 & Hr1). set (st1 := set_ls_rooms _ _) in *. clearbody st1.
  unfold generate_snapshot. rewrite build_eq by apply (fi_wf _ _ (gi_flights _ (ro_game _ Hok1))).
  rewrite !bind_ok. apply returns_bind. eapply returns_mono; [by apply send_snapshot_ok|].
  intros st2 [Hst2 E3]. apply returns_bind. eapply returns_mono; [by apply send_snapshot_ok|].
  intros st3 [Hst3 E4]. apply returns_ok. split_and!.
  - eapply same_rooms_ok; [exact Hst3|done|done|apply Hst3].
  - intros id' Hne. cbn [set_last_tick ls_rooms]. rewrite E4, E3. by apply Ho1.
  - exists g. split; [|by right]. cbn [set_last_tick ls_rooms]. by rewrite E4, E3.
Qed.

Lemma plays_side_input r0 r input : input_ok r0 input -> white_player_ r = white_player_ r0 ->
  black_player_ r = black_player_ r0 ->
  match input with InputAction c _ | InputResign c => plays_side r c end.
Proof.
  unfold plays_side. intros Hin Hw Hb. rewrite Hw, Hb. destruct input; simpl in Hin; [apply Hin|done].
Qed.

Lemma apply_inputs_ok `{!FinishOk} n id inputs r0 g0 g st : loop_ok (S n) st ->
  rooms_ (ls_rooms st) !! id = Some (set_match r0 (mkMatch g)) -> plays r0 g0 g ->
  Forall (input_ok r0) inputs ->
  apply_room_inputs id inputs st ⇓ (fun st' => loop_ok n st' /\ others id st st' /\
    exists g' r2, plays r0 g0 g' /\ rooms_ (ls_rooms st') !! id = Some r2 /\
      settled_as (set_match r0 (mkMatch g')) r2).
Proof.
  intros Hst Hr Hpl Hin. revert g st Hst Hr Hpl.
  induction Hin as [|input inputs Hi Hin IH]; intros g st Hst Hr Hpl; cbn [apply_room_inputs].
  { apply returns_ok. split_and!; [apply (loop_ok_mono _ n _ Hst); lia|done|].
    exists g, (set_match r0 (mkMatch g)). split_and!; [done|done|by left]. }
  pose proof (plays_side_input r0 r0 input Hi eq_refl eq_refl) as Hs.
  destruct (loop_room _ st id _ Hst Hr) as [Hid Hok].
  unfold find_room. rewrite Hr. cbn [deref]. destruct input as [c a|c]; rewrite bind_ok.
  - destruct Hi as (Hact & _ & _). cbn [match_ set_match state_].
    pose proof (is_action_allowed_spec c g a (ro_game _ Hok) (Hact g)) as Hal.
    destruct (is_action_allowed c g a) as [[]|]; [..|done]; rewrite bind_ok; [|by apply (IH g)].
    apply returns_bind. eapply returns_mono; [apply room_submit_ok; [done|apply Hact]|].
    intros r1 (Hok1 & g1 & Hg1 & ->).
    destruct (write_room_loop _ id st _ _ Hst Hr Hok1 eq_refl eq_refl eq_refl) as (Hst1 & Ho1 & Hr1).
    eapply returns_mono; [apply (IH g1 _ Hst1 Hr1)|].
    { eapply plays_action; [done|done|by apply Hal|done]. }
    intros st2 (Hst2 & Ho2 & Hex). split_and!; [done|by eapply others_trans|done].
  - rewrite Hid. eapply returns_mono; [by eapply finish_ok|].
    intros st' (Hst' & Ho & r2 & Hr2 & Hs2). split_and!; [done|done|]. by exists g, r2.
Qed.

Lemma poll_and_apply_ok `{!FinishOk} n id r0 g0 g st : loop_ok (S n) st ->
  rooms_ (ls_rooms st) !! id = Some (set_match r0 (mkMatch g)) -> plays r0 g0 g ->
  poll_and_apply id st ⇓ (fun st' => loop_ok n st' /\ others id st st' /\
    exists g' r2, plays r0 g0 g' /\ rooms_ (ls_rooms st') !! id = Some r2 /\
      settled_as (set_match r0 (mkMatch g')) r2).
Proof.
  intros Hst Hr Hpl. unfold poll_and_apply, find_room. rewrite Hr. cbn [deref]. rewrite bind_ok.
  destruct (_ && _).
  - apply returns_bind. eapply returns_mono; [apply poll_room_ok, Hst|]. intros [p inputs] [Ht Hin].
    eapply returns_mono; [by apply (apply_inputs_ok n id inputs r0 g0 g); [apply set_plane_ok|..]|].
    intros st' (Hst' & Ho & Hex). split_and!; [done|done|done].
  - apply returns_ok. split_and!; [apply (loop_ok_mono _ n _ Hst); lia|done|].
    exists g, (set_match r0 (mkMatch g)). split_and!; [done|done|by left].
Qed.

Lemma conclude_ok `{!FinishOk} n id r st : loop_ok (S n) st -> rooms_ (ls_rooms st) !! id = Some r ->
  conclude id st ⇓ (fun st' => loop_ok n st' /\ others id st st' /\
    exists r', rooms_ (ls_rooms st') !! id = Some r' /\ settled_as r r').
Proof.
  intros Hst Hr. unfold conclude, find_room. rewrite Hr. cbn [deref]. rewrite bind_ok.
  destruct (loop_room _ st id _ Hst Hr) as [Hid Hok].
  destruct (room_is_game_over r).
  - apply returns_bind.
    eapply returns_mono; [apply winning_color_spec, (fi_wf _ _ (gi_flights _ (ro_game _ Hok)))|].
    intros o _. rewrite Hid. by eapply finish_ok.
  - apply returns_ok. split_and!; [apply (loop_ok_mono _ n _ Hst); lia|done|]. exists r.
    split; [done|by left].
Qed.

Lemma process_room_ok `{!FinishOk} n elapsed now id r st : loop_ok (2 + n) st ->
  rooms_ (ls_rooms st) !! id = Some r -> tick_fits elapsed r ->
  process_room elapsed now id st ⇓ round_of n elapsed id r st.
Proof.
  intros Hst Hr Hf. unfold process_room, find_room. rewrite Hr. cbn [deref]. rewrite bind_ok.
  destruct (loop_room _ st id _ Hst Hr) as [Hid Hok].
  assert (room_round elapsed r r) as Hnone.
  { split; [by rewrite set_match_match|]. exists (state_ (match_ r)). split; [by left|apply plays_none]. }
  assert (forall m st', loop_ok m st' -> (n <= m)%nat -> others id st st' ->
    (exists r', rooms_ (ls_rooms st') !! id = Some r' /\ settled_as r r') ->
    round_of n elapsed id r st st') as Hfin.
  { intros m st' ? ? ? (r' & ? & ?). split_and!; [by eapply loop_ok_mono|done|]. by exists r, r'. }
  destruct (white_player_ r) as [w|] eqn:Ew; [destruct (black_player_ r) as [b|] eqn:Eb|];
    [|apply returns_ok, (Hfin (2 + n)%nat); [done|lia|done|exists r; split; [done|by left]]..].
  apply returns_bind. eapply returns_mono; [apply probe_room_ok, Hst|]. intros p Ht.
  pose proof (set_plane_ok _ st p Hst Ht) as Hst1.
  assert (forall st', others id (set_ls_plane st p) st' -> others id st st') as Hsame by done.
  cbv zeta. destruct (both_disconnected_ok _ r (proj1 (proj2 Hst1))) as [[] ->]; rewrite bind_ok.
  { rewrite Hid. eapply returns_mono; [by eapply finish_ok|]. intros st' (? & ? & ?).
    apply (Hfin (1 + n)%nat); auto. }
  destruct (disconnected_color_ok _ r (proj1 (proj2 Hst1))) as [[c|] ->]; rewrite bind_ok.
  { rewrite Hid. eapply returns_mono; [by eapply finish_ok|]. intros st' (? & ? & ?).
    apply (Hfin (1 + n)%nat); auto. }
  apply returns_bind. eapply returns_mono; [by eapply tick_and_send_ok|].
  intros st2 (Hst2 & Ho2 & g & Hr2 & Hg).
  apply returns_bind. eapply returns_mono; [apply (poll_and_apply_ok (S n) id r g g st2 Hst2 Hr2), plays_none|].
  intros st3 (Hst3 & Ho3 & g' & r3 & Hpl & Hr3 & Hs3).
  eapply returns_mono; [by eapply conclude_ok|]. intros st4 (Hst4 & Ho4 & r4 & Hr4 & Hs4).
  split_and!; [done|eapply others_trans; [|done]; eapply others_trans; [|done]; by apply Hsame|].
  exists (set_match r (mkMatch g')), r4. split_and!; [|done|by eapply settled_trans].
  split; [done|]. exists g. split; [done|done].
Qed.

Lemma process_rooms_ok `{!FinishOk} n elapsed now ids st :
  loop_ok (2 * List.length ids + n) st -> NoDup ids ->
  (forall id, id ∈ ids -> exists r, rooms_ (ls_rooms st) !! id = Some r /\ tick_fits elapsed r) ->
  foldM (process_room elapsed now) ids st ⇓ (fun st' => loop_ok n st' /\
    (forall id, id ∉ ids -> rooms_ (ls_rooms st') !! id = rooms_ (ls_rooms st) !! id) /\
    (forall id r, id ∈ ids -> rooms_ (ls_rooms st) !! id = Some r ->
       exists r1 r2, room_round elapsed r r1 /\ rooms_ (ls_rooms st') !! id = Some r2 /\
         settled_as r1 r2)).
Proof.
  intros Hst Hnd. revert st Hst. induction Hnd as [|id ids Hnin Hnd IH]; intros st Hst Hall; cbn [foldM].
  { apply returns_ok. split_and!; [done|done|set_solver]. }
  destruct (Hall id ltac:(apply list_elem_of_here)) as (r & Hr & Hf).
  apply returns_bind. eapply returns_mono; [apply (process_room_ok (2 * List.length ids + n)); [eapply loop_ok_mono; [done|simpl; lia]|done|done]|].
  intros st1 (Hst1 & Ho1 & r1 & r2 & Hrd & Hr2 & Hs2).
  eapply returns_mono; [apply (IH st1 Hst1)|].
  { intros id' Hin. rewrite Ho1 by set_solver. apply Hall. set_solver. }
  intros st2 (Hst2 & Hout & Hin2). split_and!; [done| |].
  - intros id' Hid'. rewrite Hout by set_solver. apply Ho1. set_solver.
  - intros id' r' [->|Hin]%elem_of_cons Hr'.
    + exists r1, r2. rewrite Hout by done. by simplify_eq.
    + apply Hin2; [done|]. rewrite Ho1; [done|]. set_solver.
Qed.

Lemma elem_of_active order m id : id ∈ active_rooms order m <->
  id ∈ order /\ exists r, rooms_ m !! id = Some r /\ active_ r = true.
Proof.
  unfold active_rooms, find_room. rewrite list_elem_of_In, filter_In, <- list_elem_of_In.
  destruct (rooms_ m !! id) as [r|]; naive_solver.
Qed.

(** The iteration over all rooms. *)
Lemma process_spec `{!FinishOk} n order elapsed now st :
  loop_ok (2 * List.length order + n) st -> enumerates order (ls_rooms st) ->
  (forall id r, rooms_ (ls_rooms st) !! id = Some r -> tick_fits elapsed r) ->
  process order elapsed now st ⇓ (fun st' => loop_ok n st' /\
    forall id, match rooms_ (ls_rooms st) !! id with
      | None => rooms_ (ls_rooms st') !! id = None
      | Some r =>
          if active_ r then exists r1 r2, room_round elapsed r r1 /\
            rooms_ (ls_rooms st') !! id = Some r2 /\ settled_as r1 r2
          else rooms_ (ls_rooms st') !! id = Some r
      end).
Proof.
  intros Hst [Hnd Hen] Hf. unfold process. eapply returns_mono; [apply (process_rooms_ok n)|].
  - eapply loop_ok_mono; [done|]. unfold active_rooms.
    pose proof (filter_length_le (fun id => match find_room (ls_rooms st) id with
      Some r => active_ r | None => false end) order). lia.
  - unfold active_rooms. apply NoDup_ListNoDup, List.NoDup_filter. by apply NoDup_ListNoDup.
  - intros id (_ & r & Hr & _)%elem_of_active. eauto.
  - intros st' (Hst' & Hout & Hin). split; [done|]. intros id.
    pose proof (elem_of_active order (ls_rooms st) id) as Ha.
    destruct (rooms_ (ls_rooms st) !! id) as [r|] eqn:E.
    + destruct (active_ r) eqn:Er.
      * apply Hin; [|done]. apply Ha. split; [apply Hen; by rewrite E|eauto].
      * rewrite Hout, E; [done|]. intros (_ & r' & ? & ?)%Ha. congruence.
    + rewrite Hout, E; [done|]. intros (_ & r' & ? & ?)%Ha. congruence.
Qed.

(** ** Properties *)

End GameLoop.

(** A handler that only resets the room, on an idle network. *)
#[local] Existing Instance idle_connection.
#[local] Instance reset_finish : FinishHandler bool unit := {|
  finish id _ _ st :=
    match rooms_ (ls_rooms st) !! id with
    | Some r => Ok (mkLoop (write_room (ls_rooms st) id (reset r)) (ls_plane st)
                      (ls_last_tick st) (ls_ext st))
    | None => Ok st
    end
|}.

#[local] Instance reset_finish_inv : FinishInvariant bool unit.
Proof. by refine {| finish_inv _ _ := True |}. Defined.

#[local] Instance reset_finish_ok : FinishOk (C := bool) (X := unit).
Proof.
  split. intros n id w reason st r Hst Hr. unfold finish, reset_finish. rewrite Hr. apply returns_ok.
  destruct (loop_room _ st id r Hst Hr) as [_ Hok].
  destruct Hst as (Hm & Hp & _). split_and!.
  - split_and!; [|done|done]. by apply (write_room_ok _ _ r); [..|by apply reset_ok|].
  - intros id' Hne. by apply lookup_insert_ne.
  - exists (reset r). split; [apply lookup_insert_eq|by right].
Qed.

(** The sample room with both players connected. *)
Definition sample_plane : Plane (C := bool) :=
  mkPlane [(4096, true); (8192, true)] 2 [new_session 0 (Some 4096); new_session 1 (Some 8192)] 2 ∅.
Definition sample_loop : LoopState bool unit := mkLoop sample_manager sample_plane 0 tt.

Lemma sample_plane_ok : plane_ok sample_plane.
Proof.
  split; cbn [sample_plane sessions_ next_session_id_].
  - intros s [->|[->|Hs]%elem_of_cons]%elem_of_cons; [eexists..|set_solver];
      (split; [done|]); unfold live; simpl; set_solver.
  - apply NoDup_cons. split; [set_solver|apply NoDup_singleton].
  - intros s [->|[->|Hs]%elem_of_cons]%elem_of_cons; simpl; [lia..|set_solver].
Qed.

