(* ===== verification/Ratings.v ===== *)
(** * Ratings ([server/rating_service.cpp])

    The Elo update after a game.  The code computes in [double]
    [E = 1 / (1 + pow(10, (opponent - player) / 400))] and rounds [k * (1 - E)] and
    [k * (0 - E)] with [std::lround].  Both are, up to sign, the integer nearest to
    [k / (1 + 10^(d/400))] where [d] is the winner's rating minus the loser's, ties
    away from zero.  [nearest_share] defines that integer exactly, by comparing
    integer powers.  The idealisation is the exact evaluation of the power and the
    quotients: the only tie is at [d = 0] ([share_no_tie]), where the floating-point
    values are exact too, and the mark closest to any other integer difference lies at
    477.9906, so that the results agree as soon as [std::pow] is accurate to a
    relative error of 1/20000. *)

From S2P Require Import Prelude.
Open Scope Z_scope.

Definition kDefaultKFactor : Z := 25.
Definition kMinRating : Z := 0.

Record RatingChange := mkChange { winner_new_rating : Z; loser_new_rating : Z }.

Definition clamp_rating (rating : Z) : Z := if rating <? kMinRating then kMinRating else rating.

(** [k / (1 + 10^(d/400)) >= n - 1/2], that is
    [10^(d/400) <= (2k - 2n + 1) / (2n - 1)], raised to the power 400. *)
Definition reaches (k d n : Z) : bool :=
  if 0 <=? d then 10 ^ d * (2 * n - 1) ^ 400 <=? (2 * k - 2 * n + 1) ^ 400
  else (2 * n - 1) ^ 400 <=? (2 * k - 2 * n + 1) ^ 400 * 10 ^ (- d).

(** The points that change hands: the nearest integer is the number of half-integer
    marks passed. *)
Definition nearest_share (k d : Z) : Z := vlen (List.filter (reaches k d) (Z.succ <$> zrange k)).

(** [k * (1 - expected_score(winner, loser))] and [k * (0 - expected_score(loser, winner))]
    after [std::lround]. *)
Definition winner_points (k winner_rating loser_rating : Z) : Z :=
  nearest_share k (winner_rating - loser_rating).
Definition loser_points (k winner_rating loser_rating : Z) : Z :=
  - nearest_share k (winner_rating - loser_rating).

(** The differences of the ratings are taken in [int]. *)
Definition calculate (k_factor winner_rating loser_rating : Z) : res RatingChange :=
  _ ← int_sub loser_rating winner_rating;
  _ ← int_sub winner_rating loser_rating;
  winner_new ← int_add winner_rating (winner_points k_factor winner_rating loser_rating);
  loser_new ← int_add loser_rating (loser_points k_factor winner_rating loser_rating);
  Ok (mkChange (clamp_rating winner_new) (clamp_rating loser_new)).

(** ** The share *)

Lemma filter_mono {A} (f g : A -> bool) l : (forall x, x ∈ l -> f x = true -> g x = true) ->
  (List.length (List.filter f l) <= List.length (List.filter g l))%nat.
Proof.
  induction l as [|x l IH]; intros H; simpl; [lia|].
  assert (List.length (List.filter f l) <= List.length (List.filter g l))%nat.
  { apply IH. intros y Hy. apply H. by apply list_elem_of_further. }
  specialize (H x (list_elem_of_here _ _)). destruct (f x); [rewrite H by done; simpl; lia|].
  destruct (g x); simpl; lia.
Qed.

Lemma share_range k d : 0 <= k -> 0 <= nearest_share k d <= k.
Proof.
  intros Hk. unfold nearest_share, vlen.
  pose proof (filter_length_le (reaches k d) (Z.succ <$> zrange k)) as H.
  rewrite length_fmap in H. pose proof (vlen_zrange k Hk) as H2. unfold vlen in H2. lia.
Qed.

Lemma pow400_pos x : 0 < x -> 0 < x ^ 400.
Proof. intros Hx. by apply Z.pow_pos_nonneg. Qed.

(** A larger lead reaches fewer marks. *)
Lemma reaches_antitone k d d' n : 1 <= n <= k -> d <= d' -> reaches k d' n = true -> reaches k d n = true.
Proof.
  unfold reaches. intros Hn Hd.
  assert (0 < 2 * n - 1) as Ha by lia. assert (0 < 2 * k - 2 * n + 1) as Hb by lia.
  apply pow400_pos in Ha, Hb. revert Ha Hb.
  generalize ((2 * n - 1) ^ 400), ((2 * k - 2 * n + 1) ^ 400).
  clear Hn. intros a b Ha Hb.
  assert (forall e, 0 <= e -> 1 <= 10 ^ e) as Hten.
  { intros e He. pose proof (Z.pow_pos_nonneg 10 e ltac:(lia) He). lia. }
  destruct (Z.leb_spec 0 d'), (Z.leb_spec 0 d); rewrite !Z.leb_le; try lia.
  - intros H3. assert (10 ^ d <= 10 ^ d') by (apply Z.pow_le_mono_r; lia). nia.
  - intros H3. pose proof (Hten d' ltac:(lia)). pose proof (Hten (- d) ltac:(lia)). nia.
  - intros H3. assert (10 ^ (- d') <= 10 ^ (- d)) by (apply Z.pow_le_mono_r; lia). nia.
Qed.

(** The favourite wins fewer points. *)
Lemma share_antitone k d d' : d <= d' -> nearest_share k d' <= nearest_share k d.
Proof.
  intros Hd. unfold nearest_share, vlen. apply Nat2Z.inj_le, filter_mono.
  intros n (i & -> & Hi%elem_of_zrange)%list_elem_of_fmap. apply reaches_antitone; lia.
Qed.

(** Marks are passed in order. *)
Lemma reaches_down k d n n' : 1 <= n' <= n -> n <= k -> reaches k d n = true -> reaches k d n' = true.
Proof.
  unfold reaches. intros Hn Hk.
  assert ((2 * n' - 1) ^ 400 <= (2 * n - 1) ^ 400) as Ha by (apply Z.pow_le_mono_l; lia).
  assert ((2 * k - 2 * n + 1) ^ 400 <= (2 * k - 2 * n' + 1) ^ 400) as Hb
    by (clear Ha; apply Z.pow_le_mono_l; lia).
  revert Ha Hb. generalize ((2 * n' - 1) ^ 400), ((2 * n - 1) ^ 400), ((2 * k - 2 * n + 1) ^ 400),
    ((2 * k - 2 * n' + 1) ^ 400). clear. intros a' a b b' Ha Hb.
  destruct (Z.leb_spec 0 d) as [Hd|Hd]; rewrite !Z.leb_le.
  - pose proof (Z.pow_pos_nonneg 10 d ltac:(lia) Hd). nia.
  - pose proof (Z.pow_pos_nonneg 10 (- d) ltac:(lia) ltac:(lia)). nia.
Qed.

(** Between equal players the comparison is one of the bases. *)
Lemma reaches_even k n : 1 <= n <= k -> reaches k 0 n = (2 * n - 1 <=? 2 * k - 2 * n + 1).
Proof.
  intros Hn. unfold reaches. cbn [Z.leb Z.compare]. change (10 ^ 0) with 1. rewrite Z.mul_1_l.
  apply eq_true_iff_eq. rewrite !Z.leb_le. symmetry. apply Z.pow_le_mono_l_iff; lia.
Qed.

Lemma share_even : nearest_share kDefaultKFactor 0 = 13.
Proof.
  unfold nearest_share. rewrite (filter_ext_in _ (fun n => 2 * n - 1 <=? 2 * kDefaultKFactor - 2 * n + 1)).
  - vm_compute. reflexivity.
  - intros n (i & -> & Hi%elem_of_zrange)%list_elem_of_In%list_elem_of_fmap. apply reaches_even. lia.
Qed.

(** No other difference falls on a mark: a power of ten is even, the bases are odd. *)
Lemma share_no_tie k d n : 0 < d -> 10 ^ d * (2 * n - 1) ^ 400 <> (2 * k - 2 * n + 1) ^ 400.
Proof.
  intros Hd E. apply (f_equal Z.even) in E. rewrite Z.even_mul, !Z.even_pow in E by (clear -Hd; lia).
  replace (2 * k - 2 * n + 1) with (1 + 2 * (k - n)) in E by (clear; lia).
  rewrite Z.even_add_mul_2 in E. done.
Qed.

(** From a lead of 677 points on the favourite wins nothing. *)
Lemma share_far d : 677 <= d -> nearest_share kDefaultKFactor d = 0.
Proof.
  intros Hd. assert (reaches kDefaultKFactor 677 1 = false) as H1 by (vm_compute; reflexivity).
  unfold nearest_share. rewrite (filter_ext_in _ (fun _ => false)).
  - vm_compute. reflexivity.
  - intros n (i & -> & Hi%elem_of_zrange)%list_elem_of_In%list_elem_of_fmap.
    apply not_true_is_false. intros H2. apply reaches_antitone with (d := 677) in H2; [|lia..].
    apply reaches_down with (n' := 1) in H2; [congruence|lia..].
Qed.

(** ** The update *)

(** A rating in the range of the service: [n] more wins keep it in an [int]. *)
Definition rating_ok (n : nat) (r : Z) : Prop := 0 <= r <= 2 ^ 31 - 1 - 25 * Z.of_nat n.

Lemma calculate_spec n w l : rating_ok (S n) w -> rating_ok (S n) l ->
  calculate kDefaultKFactor w l =
  Ok (mkChange (w + nearest_share kDefaultKFactor (w - l))
               (Z.max 0 (l - nearest_share kDefaultKFactor (w - l)))).
Proof.
  unfold rating_ok, calculate, int_sub, int_add, winner_points, loser_points. intros Hw Hl.
  pose proof (share_range kDefaultKFactor (w - l) ltac:(unfold kDefaultKFactor; lia)) as Hs.
  unfold kDefaultKFactor in Hs at 3.
  rewrite !int_checked_ok, !bind_ok by (unfold fits_int; lia). unfold clamp_rating, kMinRating.
  destruct (Z.ltb_spec (w + nearest_share kDefaultKFactor (w - l)) 0); [lia|].
  destruct (Z.ltb_spec (l + - nearest_share kDefaultKFactor (w - l)) 0); do 2 f_equal; lia.
Qed.
