(* ===== verification/RuntimeStore.v ===== *)
(** * The runtime store

    [src/src/app/i_runtime_store.h] with the records it exchanges, and its in-memory
    implementation [in_memory_runtime_store.h]/[in_memory_runtime_store.cpp]: where
    players are, which game servers are alive and who waits for an opponent.

    [RuntimeStore] is the interface (the abstract class [IRuntimeStore]) and
    [RuntimeStoreLaws] what its clients rely on.  The wall clock is an argument. *)

From S2P Require Import Prelude.
From Stdlib Require Import String.
Open Scope Z_scope.

Record QueuedPlayer := mkQueued {
  qp_player_id : Z; qp_user_id : Z; qp_elo : Z; qp_enqueue_epoch_seconds : Z
}.

Record GameServerLocation := mkLocation {
  loc_server_id : string; loc_endpoint : string; loc_room_id : Z
}.

Record GameServerRecord := mkServerRecord {
  gsr_server_id : string; gsr_endpoint : string; gsr_allocation_endpoint : string;
  gsr_region : string; gsr_active_rooms : Z; gsr_status : string; gsr_last_heartbeat : Z
}.

Record ServerMetrics := mkMetrics {
  sm_active_rooms : Z; sm_connected_sessions : Z; sm_matchmaking_queue : Z;
  sm_server_uptime_seconds : Z; sm_last_tick_duration_ms : Z; sm_server_id : string;
  sm_region : string; sm_endpoint : string; sm_allocation_endpoint : string;
  sm_redis_enabled : bool; sm_redis_connected : bool
}.

(** ** The interface *)

Class RuntimeStore (S : Type) := {
  is_available : S -> bool;
  register_room : S -> Z -> Z -> Z -> string -> string -> S;
  unregister_room : S -> Z -> Z -> Z -> S;
  publish_server_heartbeat : S -> string -> string -> ServerMetrics -> Z -> S;
  deregister_server : S -> string -> S;
  find_player_location : S -> Z -> option GameServerLocation;
  list_game_servers : S -> list GameServerRecord;
  get_game_server : S -> string -> option GameServerRecord;
  set_matchmaking_queue : S -> string -> list QueuedPlayer -> S;
  list_matchmaking_queue : S -> string -> list QueuedPlayer
}.

Class RuntimeStoreLaws (S : Type) `{RuntimeStore S} : Prop := {
  (** A registered room is found by both players, and nobody else's place changes. *)
  find_registered s room white black server endpoint u :
    find_player_location (register_room s room white black server endpoint) u =
    if decide (u = white \/ u = black) then Some (mkLocation server endpoint room)
    else find_player_location s u;
  find_unregistered s room white black u :
    find_player_location (unregister_room s room white black) u =
    if decide (u = white \/ u = black) then None else find_player_location s u;
  (** A heartbeat publishes its server and no other. *)
  get_published s server region metrics now id :
    get_game_server (publish_server_heartbeat s server region metrics now) id =
    if decide (id = server) then
      Some (mkServerRecord server (sm_endpoint metrics) (sm_allocation_endpoint metrics) region
              (sm_active_rooms metrics) "healthy" now)
    else get_game_server s id;
  get_deregistered s server id :
    get_game_server (deregister_server s server) id =
    if decide (id = server) then None else get_game_server s id;
  (** The listing holds exactly the known servers. *)
  listed s r : r ∈ list_game_servers s <-> get_game_server s (gsr_server_id r) = Some r;
  (** The queues of the regions are independent variables. *)
  list_set s region q region' :
    list_matchmaking_queue (set_matchmaking_queue s region q) region' =
    if decide (region' = region) then q else list_matchmaking_queue s region';
  (** Places and queues do not interfere. *)
  find_set_queue s region q u :
    find_player_location (set_matchmaking_queue s region q) u = find_player_location s u;
  list_registered s room white black server endpoint region :
    list_matchmaking_queue (register_room s room white black server endpoint) region =
    list_matchmaking_queue s region;
  (** Heartbeats change neither. *)
  find_published s server region metrics now u :
    find_player_location (publish_server_heartbeat s server region metrics now) u =
    find_player_location s u;
  list_published s server region metrics now region' :
    list_matchmaking_queue (publish_server_heartbeat s server region metrics now) region' =
    list_matchmaking_queue s region';
  (** Rooms and queues do not touch the servers. *)
  get_registered s room white black server endpoint id :
    get_game_server (register_room s room white black server endpoint) id = get_game_server s id;
  get_set_queue s region q id :
    get_game_server (set_matchmaking_queue s region q) id = get_game_server s id
}.

(** ** [InMemoryRuntimeStore] *)

Record PlayerLocationEntry := mkLocationEntry {
  ple_room_id : Z; ple_server_id : string; ple_endpoint : string
}.
Record GameServerEntry := mkServerEntry {
  gse_endpoint : string; gse_allocation_endpoint : string; gse_region : string;
  gse_active_rooms : Z; gse_status : string; gse_last_heartbeat : Z
}.

Record InMemoryRuntimeStore := mkMemoryStore {
  player_locations_ : gmap Z PlayerLocationEntry;
  game_servers_ : gmap string GameServerEntry;
  matchmaking_queues_ : gmap string (list QueuedPlayer)
}.

Definition new_memory_store : InMemoryRuntimeStore := mkMemoryStore ∅ ∅ ∅.

Definition mem_register_room (s : InMemoryRuntimeStore) (room_id white black : Z)
    (server_id endpoint : string) : InMemoryRuntimeStore :=
  let entry := mkLocationEntry room_id server_id endpoint in
  mkMemoryStore (<[black := entry]> (<[white := entry]> (player_locations_ s)))
    (game_servers_ s) (matchmaking_queues_ s).

Definition mem_unregister_room (s : InMemoryRuntimeStore) (room_id white black : Z) :
    InMemoryRuntimeStore :=
  mkMemoryStore (delete black (delete white (player_locations_ s)))
    (game_servers_ s) (matchmaking_queues_ s).

Definition mem_publish (s : InMemoryRuntimeStore) (server_id region : string)
    (metrics : ServerMetrics) (now : Z) : InMemoryRuntimeStore :=
  mkMemoryStore (player_locations_ s)
    (<[server_id := mkServerEntry (sm_endpoint metrics) (sm_allocation_endpoint metrics) region
         (sm_active_rooms metrics) "healthy" now]> (game_servers_ s))
    (matchmaking_queues_ s).

Definition mem_deregister (s : InMemoryRuntimeStore) (server_id : string) : InMemoryRuntimeStore :=
  mkMemoryStore (player_locations_ s) (delete server_id (game_servers_ s)) (matchmaking_queues_ s).

Definition mem_find_location (s : InMemoryRuntimeStore) (user_id : Z) : option GameServerLocation :=
  match player_locations_ s !! user_id with
  | None => None
  | Some e => Some (mkLocation (ple_server_id e) (ple_endpoint e) (ple_room_id e))
  end.

Definition record_of (id : string) (e : GameServerEntry) : GameServerRecord :=
  mkServerRecord id (gse_endpoint e) (gse_allocation_endpoint e) (gse_region e)
    (gse_active_rooms e) (gse_status e) (gse_last_heartbeat e).

Definition mem_list_servers (s : InMemoryRuntimeStore) : list GameServerRecord :=
  (fun e => record_of e.1 e.2) <$> map_to_list (game_servers_ s).

Definition mem_get_server (s : InMemoryRuntimeStore) (id : string) : option GameServerRecord :=
  match game_servers_ s !! id with None => None | Some e => Some (record_of id e) end.

Definition mem_set_queue (s : InMemoryRuntimeStore) (region : string) (q : list QueuedPlayer) :
    InMemoryRuntimeStore :=
  mkMemoryStore (player_locations_ s) (game_servers_ s) (<[region := q]> (matchmaking_queues_ s)).

Definition mem_list_queue (s : InMemoryRuntimeStore) (region : string) : list QueuedPlayer :=
  match matchmaking_queues_ s !! region with None => [] | Some q => q end.

#[export] Instance memory_store : RuntimeStore InMemoryRuntimeStore := {|
  is_available _ := false;
  register_room := mem_register_room;
  unregister_room := mem_unregister_room;
  publish_server_heartbeat := mem_publish;
  deregister_server := mem_deregister;
  find_player_location := mem_find_location;
  list_game_servers := mem_list_servers;
  get_game_server := mem_get_server;
  set_matchmaking_queue := mem_set_queue;
  list_matchmaking_queue := mem_list_queue
|}.

(** ** Lemmas *)

Lemma insert2_lookup {V} (m : gmap Z V) a b u x :
  <[b := x]> (<[a := x]> m) !! u = if decide (u = a \/ u = b) then Some x else m !! u.
Proof.
  destruct (decide (u = b)) as [->|Hb].
  { rewrite lookup_insert_eq. by destruct (decide _) as [|[]]; [|right]. }
  rewrite lookup_insert_ne by done. destruct (decide (u = a)) as [->|Ha].
  - rewrite lookup_insert_eq. by destruct (decide _) as [|[]]; [|left].
  - rewrite lookup_insert_ne by done. by destruct (decide _) as [[]|].
Qed.

Lemma delete2_lookup {V} (m : gmap Z V) a b u :
  delete b (delete a m) !! u = if decide (u = a \/ u = b) then None else m !! u.
Proof.
  destruct (decide (u = a \/ u = b)) as [Hu|Hu].
  - destruct (decide (u = b)) as [->|]; [apply lookup_delete_eq|].
    rewrite lookup_delete_ne by done. destruct Hu as [->|]; [apply lookup_delete_eq|done].
  - by rewrite !lookup_delete_ne by naive_solver.
Qed.

#[export] Instance memory_laws : RuntimeStoreLaws InMemoryRuntimeStore.
Proof.
  split; simpl.
  - intros. unfold mem_find_location, mem_register_room. simpl. rewrite insert2_lookup.
    by case_decide.
  - intros. unfold mem_find_location, mem_unregister_room. simpl. rewrite delete2_lookup.
    by case_decide.
  - intros. unfold mem_get_server, mem_publish. simpl. case_decide.
    + subst. by rewrite lookup_insert_eq.
    + by rewrite lookup_insert_ne.
  - intros. unfold mem_get_server, mem_deregister. simpl. case_decide.
    + subst. by rewrite lookup_delete_eq.
    + by rewrite lookup_delete_ne.
  - intros s r. unfold mem_list_servers, mem_get_server. rewrite list_elem_of_fmap. split.
    + intros ([id e] & -> & He%elem_of_map_to_list). simpl. by rewrite He.
    + destruct (game_servers_ s !! gsr_server_id r) as [e|] eqn:E; [|done]. intros [= Hr].
      exists (gsr_server_id r, e). split; [done|]. by apply elem_of_map_to_list.
  - intros. unfold mem_list_queue, mem_set_queue. simpl. case_decide.
    + subst. by rewrite lookup_insert_eq.
    + by rewrite lookup_insert_ne.
  - done.
  - done.
  - done.
  - done.
  - done.
  - done.
Qed.
