(* ===== verification/Matchmaking.v ===== *)
(** * The matchmaking queue

    [src/src/matchmaking/player_matchmaking_queue.h]/[player_matchmaking_queue.cpp]:
    the players of a region who wait for an opponent.  The queue is written back to
    the runtime store after every change, so that a restarted matchmaker finds it
    again.  The wall clock is an argument. *)

From S2P Require Import Prelude RuntimeStore.
From Stdlib Require Import String.
Open Scope Z_scope.

(** [std::abs] on [int]: undefined for the least value. *)
Definition int_abs (z : Z) : res Z := int_checked (Z.abs z).

(** [std::chrono] arithmetic on 64-bit counts. *)
Definition i64_sub (a b : Z) : res Z := i64_checked (a - b).

Section Queue.
Context {S : Type} `{RuntimeStore S}.

(** [MatchmakingConfig], the timeout in seconds. *)
Record MatchmakingConfig := mkConfig { max_rating_difference : Z; queue_timeout : Z }.

Record PlayerMatchmakingQueue := mkQueue {
  runtime_store_ : S;
  region_ : string;
  max_rating_difference_ : Z;
  queue_timeout_ : Z;                          (* milliseconds *)
  waiting_ : list QueuedPlayer
}.

Definition new_queue (store : S) (region : string) (config : MatchmakingConfig) :
    res PlayerMatchmakingQueue :=
  timeout ← i64_mul (queue_timeout config) 1000;
  Ok (mkQueue store region (max_rating_difference config) timeout
        (list_matchmaking_queue store region)).

Definition set_waiting (q : PlayerMatchmakingQueue) (w : list QueuedPlayer) : PlayerMatchmakingQueue :=
  mkQueue (runtime_store_ q) (region_ q) (max_rating_difference_ q) (queue_timeout_ q) w.

Definition persist_queue (q : PlayerMatchmakingQueue) : PlayerMatchmakingQueue :=
  mkQueue (set_matchmaking_queue (runtime_store_ q) (region_ q) (waiting_ q)) (region_ q)
    (max_rating_difference_ q) (queue_timeout_ q) (waiting_ q).

Definition remove (q : PlayerMatchmakingQueue) (player_id : Z) : PlayerMatchmakingQueue :=
  persist_queue (set_waiting q
    (List.filter (fun e => negb (qp_player_id e =? player_id)) (waiting_ q))).

Definition are_compatible (q : PlayerMatchmakingQueue) (a b : QueuedPlayer) : res bool :=
  d ← int_sub (qp_elo a) (qp_elo b);
  m ← int_abs d;
  Ok (m <=? max_rating_difference_ q).

(** The loop of [try_pair]: the first compatible entry and the queue without it. *)
Fixpoint find_compatible (q : PlayerMatchmakingQueue) (incoming : QueuedPlayer)
    (passed rest : list QueuedPlayer) : res (option (QueuedPlayer * list QueuedPlayer)) :=
  match rest with
  | [] => Ok None
  | e :: rest' =>
      c ← are_compatible q incoming e;
      if c : bool then Ok (Some (e, (passed ++ rest')%list))
      else find_compatible q incoming (passed ++ [e])%list rest'
  end.

Definition try_pair (q : PlayerMatchmakingQueue) (incoming : QueuedPlayer) :
    res (option (QueuedPlayer * QueuedPlayer) * PlayerMatchmakingQueue) :=
  r ← find_compatible q incoming [] (waiting_ q);
  Ok (match r with
      | Some (white, w) => (Some (white, incoming), persist_queue (set_waiting q w))
      | None => (None, q)
      end).

Definition enqueue (q : PlayerMatchmakingQueue) (player : QueuedPlayer) : PlayerMatchmakingQueue :=
  persist_queue (set_waiting q (waiting_ q ++ [player])%list).

Definition timed_out_at (q : PlayerMatchmakingQueue) (now : Z) (e : QueuedPlayer) : res bool :=
  waited ← i64_sub now (qp_enqueue_epoch_seconds e);
  Ok (Z.quot (queue_timeout_ q) 1000 <=? waited).

(** The loop of [check_timeouts]: the ids taken out and the entries kept. *)
Definition check_entry (q : PlayerMatchmakingQueue) (now : Z) (e : QueuedPlayer)
    (acc : list Z * list QueuedPlayer) : res (list Z * list QueuedPlayer) :=
  t ← timed_out_at q now e;
  Ok (if t : bool then ((acc.1 ++ [qp_player_id e])%list, acc.2) else (acc.1, (acc.2 ++ [e])%list)).

Definition check_timeouts (q : PlayerMatchmakingQueue) (now : Z) :
    res (list Z * PlayerMatchmakingQueue) :=
  r ← foldM (check_entry q now) (waiting_ q) ([], []);
  let q' := set_waiting q r.2 in
  Ok (r.1, match r.1 with [] => q' | _ => persist_queue q' end).

Definition waiting_count (q : PlayerMatchmakingQueue) : Z := vlen (waiting_ q).

(** ** Invariant *)

(** The store holds the queue. *)
Definition persisted (q : PlayerMatchmakingQueue) : Prop :=
  list_matchmaking_queue (runtime_store_ q) (region_ q) = waiting_ q.

(** Ratings whose differences are [int]s, times whose differences are 64-bit. *)
Definition entry_ok (e : QueuedPlayer) : Prop :=
  0 <= qp_elo e < 2 ^ 31 /\ 0 <= qp_enqueue_epoch_seconds e < 2 ^ 62.
Definition queue_ok (q : PlayerMatchmakingQueue) : Prop :=
  persisted q /\ Forall entry_ok (waiting_ q).

(** Two players whose ratings are close enough. *)
Definition compatible (q : PlayerMatchmakingQueue) (a b : QueuedPlayer) : Prop :=
  Z.abs (qp_elo a - qp_elo b) <= max_rating_difference_ q.

(** The player has waited for at least the timeout (in whole seconds). *)
Definition expired (q : PlayerMatchmakingQueue) (now : Z) (e : QueuedPlayer) : Prop :=
  Z.quot (queue_timeout_ q) 1000 <= now - qp_enqueue_epoch_seconds e.
#[export] Instance expired_dec q now e : Decision (expired q now e).
Proof. unfold expired. apply _. Defined.

(** ** Lemmas *)

Lemma are_compatible_spec q a b : entry_ok a -> entry_ok b ->
  exists c, are_compatible q a b = Ok c /\ (c = true <-> compatible q a b).
Proof.
  intros [Ha _] [Hb _]. unfold are_compatible, int_sub, int_abs.
  rewrite int_checked_ok, bind_ok by (unfold fits_int; lia).
  rewrite int_checked_ok, bind_ok by (unfold fits_int; lia).
  eexists. split; [done|]. apply Z.leb_le.
Qed.

Lemma find_compatible_spec q incoming passed rest : entry_ok incoming -> Forall entry_ok rest ->
  find_compatible q incoming passed rest ⇓ (fun r => match r with
    | Some (e, w) => exists l1 l2, rest = (l1 ++ e :: l2)%list /\ w = (passed ++ l1 ++ l2)%list /\
        compatible q incoming e /\ Forall (fun x => ~ compatible q incoming x) l1
    | None => Forall (fun x => ~ compatible q incoming x) rest
    end).
Proof.
  intros Hin Hr. revert passed. induction Hr as [|e rest He Hr IH]; intros passed; cbn [find_compatible].
  { apply returns_ok. by constructor. }
  destruct (are_compatible_spec q incoming e Hin He) as ([] & -> & Hc); rewrite bind_ok.
  - apply returns_ok. exists [], rest. split_and!; [done|done|by apply Hc|constructor].
  - assert (~ compatible q incoming e) as Hn by (intros Hx; by apply Hc in Hx).
    eapply returns_mono; [apply IH|]. intros [[e' w]|].
    + intros (l1 & l2 & -> & -> & H1 & H2). exists (e :: l1), l2.
      split_and!; [done| |done|by constructor]. by rewrite <- app_assoc.
    + intros Hx. by constructor.
Qed.

Lemma check_entry_eq q now e acc : 0 <= now < 2 ^ 62 -> entry_ok e ->
  check_entry q now e acc =
  Ok (if decide (expired q now e) then ((acc.1 ++ [qp_player_id e])%list, acc.2)
      else (acc.1, (acc.2 ++ [e])%list)).
Proof.
  intros Hnow [_ He]. unfold check_entry, timed_out_at, i64_sub.
  rewrite i64_checked_ok, !bind_ok by (unfold fits_i64; lia). f_equal. unfold expired.
  by destruct (Z.leb_spec (Z.quot (queue_timeout_ q) 1000) (now - qp_enqueue_epoch_seconds e)),
    (decide _); try lia.
Qed.

Lemma check_entries_eq q now l acc : 0 <= now < 2 ^ 62 -> Forall entry_ok l ->
  foldM (check_entry q now) l acc =
  Ok ((acc.1 ++ (qp_player_id <$> filter (expired q now) l))%list,
      (acc.2 ++ filter (fun e => ~ expired q now e) l)%list).
Proof.
  intros Hnow Hl. revert acc. induction Hl as [|e l He Hl IH]; intros acc; cbn [foldM].
  { rewrite !filter_nil. simpl. rewrite !app_nil_r. by destruct acc. }
  rewrite check_entry_eq, bind_ok by done. rewrite IH. destruct (decide (expired q now e)) as [Hx|Hx].
  - rewrite filter_cons_True, filter_cons_False by tauto. simpl. by rewrite <- app_assoc.
  - rewrite filter_cons_False, filter_cons_True by done. simpl. by rewrite <- app_assoc.
Qed.

Section Laws.
Context `{!RuntimeStoreLaws S}.

Lemma persist_persisted q : persisted (persist_queue q).
Proof. unfold persisted, persist_queue. simpl. rewrite list_set. by rewrite decide_True. Qed.

(** What an operation on the queue of a region leaves alone in the store. *)
Definition only_region (region : string) (s s' : S) : Prop :=
  (forall region', region' <> region ->
     list_matchmaking_queue s' region' = list_matchmaking_queue s region') /\
  (forall u, find_player_location s' u = find_player_location s u) /\
  (forall id, get_game_server s' id = get_game_server s id).

#[export] Instance only_region_preorder region : PreOrder (only_region region).
Proof.
  split; [done|]. intros s1 s2 s3 (H1 & H2 & H3) (H4 & H5 & H6). split_and!; intros.
  - rewrite H4 by done. by apply H1.
  - by rewrite H5.
  - by rewrite H6.
Qed.

Lemma persist_only q : only_region (region_ q) (runtime_store_ q) (runtime_store_ (persist_queue q)).
Proof.
  split_and!; intros; simpl; [|apply find_set_queue|apply get_set_queue].
  rewrite list_set. by rewrite decide_False.
Qed.

Lemma remove_ok q player : queue_ok q -> queue_ok (remove q player).
Proof.
  intros [_ Hq]. split; [apply persist_persisted|]. simpl. apply Forall_forall.
  intros e [He _]%list_elem_of_In%filter_In. rewrite Forall_forall in Hq. by apply Hq, list_elem_of_In.
Qed.

Lemma enqueue_ok q e : queue_ok q -> entry_ok e -> queue_ok (enqueue q e).
Proof.
  intros [_ Hq] He. split; [apply persist_persisted|]. simpl. apply Forall_app. split; [done|by constructor].
Qed.

(** ** The loops *)

(** Pairing is first come, first served: [try_pair] never faults; it pairs the
    newcomer (as Black) with the first waiting player (as White) whose rating is
    close enough and takes exactly that player out of the queue; it pairs nobody
    only when nobody fits, and then the queue is unchanged.  The stored queue is
    always the current one. *)
Lemma try_pair_spec q incoming : queue_ok q -> entry_ok incoming ->
  try_pair q incoming ⇓ (fun r =>
    queue_ok r.2 /\
    match r.1 with
    | Some (white, black) => black = incoming /\ compatible q incoming white /\
        exists l1 l2, waiting_ q = (l1 ++ white :: l2)%list /\
          r.2 = persist_queue (set_waiting q (l1 ++ l2)%list) /\
          Forall (fun x => ~ compatible q incoming x) l1
    | None => r.2 = q /\ Forall (fun x => ~ compatible q incoming x) (waiting_ q)
    end).
Proof.
  intros [Hp Hq] Hin. unfold try_pair. apply returns_bind.
  eapply returns_mono; [by apply find_compatible_spec|]. intros [[e w]|] Hr; apply returns_ok.
  - destruct Hr as (l1 & l2 & E & -> & Hc & Hl). simpl. split_and!; [|done|done|by exists l1, l2].
    split; [apply persist_persisted|]. simpl. rewrite E in Hq.
    apply Forall_app in Hq as [H1 [H2 H3]%Forall_cons]. by apply Forall_app.
  - done.
Qed.

(** Timeouts take out exactly the players who waited long enough, in the order of the
    queue, keep everybody else in order, never fault, and leave the stored queue equal
    to the current one. *)
Lemma check_timeouts_spec q now : queue_ok q -> 0 <= now < 2 ^ 62 ->
  check_timeouts q now ⇓ (fun r =>
    r.1 = qp_player_id <$> filter (expired q now) (waiting_ q) /\
    waiting_ r.2 = filter (fun e => ~ expired q now e) (waiting_ q) /\ queue_ok r.2 /\
    region_ r.2 = region_ q /\ max_rating_difference_ r.2 = max_rating_difference_ q /\
    queue_timeout_ r.2 = queue_timeout_ q /\
    only_region (region_ q) (runtime_store_ q) (runtime_store_ r.2)).
Proof.
  intros [Hp Hq] Hnow. unfold check_timeouts. rewrite check_entries_eq, bind_ok by done.
  apply returns_ok. cbn [fst snd app].
  set (ids := qp_player_id <$> filter (expired q now) (waiting_ q)).
  assert (Forall entry_ok (filter (fun e => ~ expired q now e) (waiting_ q))) as Hf.
  { apply Forall_forall. intros e [_ He]%list_elem_of_filter. rewrite Forall_forall in Hq. auto. }
  destruct ids eqn:E; cbn -[filter only_region persist_queue].
  - assert (filter (fun e => ~ expired q now e) (waiting_ q) = waiting_ q) as Ew.
    { subst ids. apply fmap_nil_inv in E. clear - E. induction (waiting_ q) as [|e l IH]; [done|].
      destruct (decide (expired q now e)); [by rewrite filter_cons_True in E|].
      rewrite filter_cons_False in E by done. rewrite filter_cons_True by done. by rewrite IH. }
    rewrite Ew. by split_and!.
  - split_and!; [done|done| |done|done|done|apply (persist_only (set_waiting q _))].
    split; [apply persist_persisted|done].
Qed.
End Laws.
End Queue.

(** Three waiting players in the in-memory store. *)
Definition sample_waiting : list QueuedPlayer :=
  [mkQueued 1 11 1500 1000; mkQueued 2 12 1200 1010; mkQueued 3 13 1190 1050].
Definition sample_queue : PlayerMatchmakingQueue :=
  mkQueue (mem_set_queue new_memory_store "local" sample_waiting) "local" 100 60000 sample_waiting.

Lemma sample_queue_ok : queue_ok sample_queue.
Proof.
  split; [reflexivity|]. repeat constructor; simpl; lia.
Qed.
