(* ===== verification/RedisStore.v ===== *)
(** * The Redis runtime store

    [src/src/app/redis_runtime_store.cpp]: the runtime store kept as text in a Redis
    server that all programs share.  The server and its client library are the
    environment: [RedisServer] holds the commands the code sends ([scan] is a whole SCAN
    iteration) and [RedisLaws] what Redis documents about them.  A store without a
    connection ([context == nullptr]) is [None].

    The theorem compares the store with the in-memory one of [RuntimeStore.v]. *)

From S2P Require Import Prelude CppString Codecs RuntimeStore.
From Stdlib Require Import Ascii String.
Open Scope string_scope.
Open Scope Z_scope.

(** ** The environment *)

Class RedisServer (K : Type) := {
  redis_ping : K -> bool;
  redis_set : K -> string -> string -> K;
  redis_del : K -> string -> K;
  redis_get : K -> string -> option string;
  redis_scan : K -> string -> list string
}.

(** SET, DEL and GET act on one key; a complete SCAN iteration for a prefix returns the
    keys that begin with it, each at least once. *)
Class RedisLaws (K : Type) `{RedisServer K} : Prop := {
  get_set k key value key' :
    redis_get (redis_set k key value) key' = if String.eqb key' key then Some value else redis_get k key';
  get_del k key key' :
    redis_get (redis_del k key) key' = if String.eqb key' key then None else redis_get k key';
  scan_spec k start key :
    key ∈ redis_scan k start <-> (exists rest, key = start ++ rest) /\ is_Some (redis_get k key)
}.

(** ** Keys and values *)

Definition room_key (room_id : Z) : string := "room:" ++ to_string room_id.
Definition player_key (player_id : Z) : string := "player:" ++ to_string player_id.
Definition gameserver_key (server_id : string) : string := "gameserver:" ++ server_id.
Definition queue_key (region : string) : string := "queue:" ++ region.

Definition stoll (s : string) : option Z :=
  match extract_i64 s with Some (v, _) => Some v | None => None end.

Definition encode_queue_entry (player : QueuedPlayer) : string :=
  to_string (qp_player_id player) ++ bar ++ to_string (qp_user_id player) ++ bar
  ++ to_string (qp_elo player) ++ bar ++ to_string (qp_enqueue_epoch_seconds player).

Definition decode_queue_entry (value : string) : option QueuedPlayer :=
  match field_at value 0, field_at value 1, field_at value 2, field_at value 3 with
  | Some player_id, Some user_id, Some elo, Some timestamp =>
      match stoull player_id, stoull user_id, stoi elo, stoll timestamp with
      | Some player_id, Some user_id, Some elo, Some timestamp =>
          Some (mkQueued player_id user_id elo timestamp)
      | _, _, _, _ => None
      end
  | _, _, _, _ => None
  end.

Definition encode_queue_value (queue : list QueuedPlayer) : string :=
  join nl (encode_queue_entry <$> queue).

(** The lines of the text; a line that cannot be decoded is dropped. *)
Definition decode_queue_value (value : string) : list QueuedPlayer :=
  omap decode_queue_entry (lines value).

Definition encode_player_location_value (room_id : Z) (server_id endpoint : string) : string :=
  to_string room_id ++ bar ++ server_id ++ bar ++ endpoint.

Definition parse_player_location_value (value : string) : option GameServerLocation :=
  let '(room_text, rest) := span not_bar value in
  match rest with
  | EmptyString => None
  | String _ rest =>
      let '(server_id, rest) := span not_bar rest in
      match rest with
      | EmptyString => None
      | String _ endpoint =>
          match stoull room_text with
          | Some room_id => Some (mkLocation server_id endpoint room_id)
          | None => None
          end
      end
  end.

Definition parse_gameserver_record (server_id value : string) : option GameServerRecord :=
  match field_at value 0, field_at value 1, field_at value 4 with
  | Some region, Some active_rooms, Some endpoint =>
      Some (mkServerRecord server_id endpoint
              (match field_at value 5 with Some allocation => allocation | None => "" end)
              region
              (match stoull active_rooms with Some rooms => rooms | None => 0 end)
              (match field_at value 6 with Some status => status | None => "healthy" end)
              (match field_at value 7 with
               | Some heartbeat => match stoll heartbeat with Some t => t | None => 0 end
               | None => 0
               end))
  | _, _, _ => None
  end.

Definition encode_gameserver_heartbeat (region : string) (metrics : ServerMetrics) (now : Z) : string :=
  region ++ bar ++ to_string (sm_active_rooms metrics) ++ bar
  ++ to_string (sm_connected_sessions metrics) ++ bar ++ to_string (sm_matchmaking_queue metrics)
  ++ bar ++ sm_endpoint metrics ++ bar ++ sm_allocation_endpoint metrics ++ "|healthy|"
  ++ to_string now.

(** ** [RedisRuntimeStore] *)

Section Store.
Context {K : Type} `{RedisServer K}.

(** [Impl]: without a connection writes are dropped and reads find nothing. *)
Definition set_key (c : option K) (key value : string) : option K :=
  (fun k => redis_set k key value) <$> c.
Definition delete_key (c : option K) (key : string) : option K := (fun k => redis_del k key) <$> c.
Definition get_key (c : option K) (key : string) : option string :=
  match c with Some k => redis_get k key | None => None end.
Definition scan_keys (c : option K) (start : string) : list string :=
  match c with Some k => redis_scan k start | None => [] end.
Definition ping (c : option K) : bool := match c with Some k => redis_ping k | None => false end.

Definition redis_register_room (c : option K) (room_id white black : Z) (server_id endpoint : string) :
    option K :=
  let player_location := encode_player_location_value room_id server_id endpoint in
  let c := set_key c (room_key room_id) server_id in
  let c := set_key c (player_key white) player_location in
  set_key c (player_key black) player_location.

Definition redis_unregister_room (c : option K) (room_id white black : Z) : option K :=
  delete_key (delete_key (delete_key c (room_key room_id)) (player_key white)) (player_key black).

Definition redis_publish (c : option K) (server_id region : string) (metrics : ServerMetrics) (now : Z) :
    option K :=
  set_key c (gameserver_key server_id) (encode_gameserver_heartbeat region metrics now).

Definition redis_deregister (c : option K) (server_id : string) : option K :=
  delete_key c (gameserver_key server_id).

Definition redis_find_location (c : option K) (user_id : Z) : option GameServerLocation :=
  match get_key c (player_key user_id) with
  | None => None
  | Some stored => parse_player_location_value stored
  end.

Definition redis_get_server (c : option K) (server_id : string) : option GameServerRecord :=
  match get_key c (gameserver_key server_id) with
  | Some value => parse_gameserver_record server_id value
  | None => None
  end.

(** The server id of a key: what follows the prefix of 11 characters, if anything does. *)
Definition listed_server (c : option K) (key : string) : option GameServerRecord :=
  if slen key <=? slen "gameserver:" then None
  else
    match get_key c key with
    | Some value =>
        parse_gameserver_record (substr key (slen "gameserver:") (slen key)) value
    | None => None
    end.
Definition redis_list_servers (c : option K) : list GameServerRecord :=
  omap (listed_server c) (scan_keys c "gameserver:").

Definition redis_set_queue (c : option K) (region : string) (queue : list QueuedPlayer) : option K :=
  set_key c (queue_key region) (encode_queue_value queue).

Definition redis_list_queue (c : option K) (region : string) : list QueuedPlayer :=
  match get_key c (queue_key region) with
  | Some value => decode_queue_value value
  | None => []
  end.

#[export] Instance redis_store : RuntimeStore (option K) := {|
  is_available := ping;
  register_room := redis_register_room;
  unregister_room := redis_unregister_room;
  publish_server_heartbeat := redis_publish;
  deregister_server := redis_deregister;
  find_player_location := redis_find_location;
  list_game_servers := redis_list_servers;
  get_game_server := redis_get_server;
  set_matchmaking_queue := redis_set_queue;
  list_matchmaking_queue := redis_list_queue
|}.

End Store.

(** ** Lemmas: values *)

Lemma stoll_to_string n : fits_i64 n -> stoll (to_string n) = Some n.
Proof.
  intros Hn. unfold fits_i64, stoll, extract_i64 in *. rewrite <- (app_nil_string (to_string n)).
  by rewrite extract_signed_to_string by (lia || done).
Qed.

(** The numbers of a queue entry fit their types. *)
Definition queued_ok (p : QueuedPlayer) : Prop :=
  fits_u64 (qp_player_id p) /\ fits_u64 (qp_user_id p) /\ fits_int (qp_elo p) /\
  fits_i64 (qp_enqueue_epoch_seconds p).

Definition entry_fields (p : QueuedPlayer) : list string :=
  [to_string (qp_player_id p); to_string (qp_user_id p); to_string (qp_elo p);
   to_string (qp_enqueue_epoch_seconds p)].

Lemma decode_encode_entry p : queued_ok p -> decode_queue_entry (encode_queue_entry p) = Some p.
Proof.
  intros (H1 & H2 & H3 & H4). unfold decode_queue_entry.
  change (encode_queue_entry p) with (join bar (entry_fields p)). unfold entry_fields.
  fields_of [to_string (qp_player_id p); to_string (qp_user_id p); to_string (qp_elo p);
    to_string (qp_enqueue_epoch_seconds p)].
  rewrite stoll_to_string by done. by destruct p.
Qed.

Lemma word_not_newline s : is_word s -> all_chars not_newline s = true.
Proof.
  intros [_ Hs]. eapply all_chars_impl; [|exact Hs]. intros c Hc. unfold not_newline.
  apply negb_true_iff, Ascii.eqb_neq. by intros ->.
Qed.

Lemma decode_encode_queue q : Forall queued_ok q -> decode_queue_value (encode_queue_value q) = q.
Proof.
  intros Hq. unfold decode_queue_value, encode_queue_value. rewrite lines_join.
  - induction Hq as [|p q Hp Hq IH]; [done|]. cbn. by rewrite decode_encode_entry, IH.
  - clear Hq. rewrite Forall_fmap. apply Forall_forall. intros p _. cbn. unfold encode_queue_entry. split.
    + rewrite !all_chars_app. repeat rewrite (word_not_newline (to_string _)) by apply to_string_word_int. done.
    + destruct (to_string_word_int (qp_player_id p)) as [Hne _]. by destruct (to_string (qp_player_id p)).
Qed.

Lemma parse_encode_location room server endpoint : fits_u64 room -> no_bar server ->
  parse_player_location_value (encode_player_location_value room server endpoint) =
  Some (mkLocation server endpoint room).
Proof.
  intros Hr Hs. unfold parse_player_location_value, encode_player_location_value.
  rewrite (span_app not_bar (to_string room)) by (done || apply to_string_no_bar).
  change (bar ++ server ++ bar ++ endpoint) with (String "|" (server ++ bar ++ endpoint)).
  cbv iota. rewrite (span_app not_bar server) by done.
  change (bar ++ endpoint) with (String "|" endpoint). cbv iota. by rewrite stoull_to_string.
Qed.

(** Texts without bars and numbers that fit. *)
Definition heartbeat_ok (region : string) (metrics : ServerMetrics) (now : Z) : Prop :=
  no_bar region /\ no_bar (sm_endpoint metrics) /\ no_bar (sm_allocation_endpoint metrics) /\
  fits_u64 (sm_active_rooms metrics) /\ fits_i64 now.

Lemma parse_encode_heartbeat server region metrics now : heartbeat_ok region metrics now ->
  parse_gameserver_record server (encode_gameserver_heartbeat region metrics now) =
  Some (mkServerRecord server (sm_endpoint metrics) (sm_allocation_endpoint metrics) region
          (sm_active_rooms metrics) "healthy" now).
Proof.
  intros (H1 & H2 & H3 & H4 & H5). unfold parse_gameserver_record.
  set (fs := [region; to_string (sm_active_rooms metrics); to_string (sm_connected_sessions metrics);
    to_string (sm_matchmaking_queue metrics); sm_endpoint metrics; sm_allocation_endpoint metrics;
    "healthy"; to_string now]).
  change (encode_gameserver_heartbeat region metrics now) with (join bar fs).
  rewrite !(field_at_join fs) by (unfold fs; bars). cbn [fs lookup list_lookup].
  by rewrite stoull_to_string, stoll_to_string.
Qed.

(** A record carries the id it was asked for. *)
Lemma parse_record_id server value r : parse_gameserver_record server value = Some r -> gsr_server_id r = server.
Proof. unfold parse_gameserver_record. repeat case_match; naive_solver. Qed.

(** ** Lemmas: keys *)

Lemma app_inj_prefix (a x y : string) : a ++ x = a ++ y -> x = y.
Proof. induction a as [|c a IH]; [done|]. cbn. intros [= E]. by apply IH. Qed.

Lemma player_key_inj a b : 0 <= a -> 0 <= b -> player_key a = player_key b -> a = b.
Proof.
  intros Ha Hb E%app_inj_prefix. rewrite <- (dec_value_to_string a), <- (dec_value_to_string b) by done.
  by rewrite E.
Qed.

Lemma player_key_eqb a b : 0 <= a -> 0 <= b ->
  String.eqb (player_key a) (player_key b) = bool_decide (a = b).
Proof.
  intros Ha Hb. apply eq_true_iff_eq. rewrite String.eqb_eq, bool_decide_eq_true.
  split; [by apply player_key_inj|by intros ->].
Qed.

Lemma prefix_eqb (a x y : string) : String.eqb (a ++ x) (a ++ y) = String.eqb x y.
Proof.
  apply eq_true_iff_eq. rewrite !String.eqb_eq. split; [apply app_inj_prefix|by intros ->].
Qed.

Lemma if_either {A} (u a b : Z) (x y : A) :
  (if bool_decide (u = b) then x else if bool_decide (u = a) then x else y) =
  if decide (u = a \/ u = b) then x else y.
Proof. repeat case_bool_decide; case_decide; tauto. Qed.

(** ** Operations of a store *)

(** The writes that the programs send to a store. *)
Inductive StoreOp :=
| OpRegister (room white black : Z) (server endpoint : string)
| OpUnregister (room white black : Z)
| OpPublish (server region : string) (metrics : ServerMetrics) (now : Z)
| OpDeregister (server : string)
| OpSetQueue (region : string) (queue : list QueuedPlayer).

Definition store_op {S} `{RuntimeStore S} (op : StoreOp) (s : S) : S :=
  match op with
  | OpRegister room white black server endpoint => register_room s room white black server endpoint
  | OpUnregister room white black => unregister_room s room white black
  | OpPublish server region metrics now => publish_server_heartbeat s server region metrics now
  | OpDeregister server => deregister_server s server
  | OpSetQueue region queue => set_matchmaking_queue s region queue
  end.

Definition run_ops {S} `{RuntimeStore S} (ops : list StoreOp) (s : S) : S :=
  foldl (fun s op => store_op op s) s ops.

(** Numbers of the right width, and no separator in a text that stands in a field. *)
Definition op_ok (op : StoreOp) : Prop :=
  match op with
  | OpRegister room white black server _ =>
      fits_u64 room /\ fits_u64 white /\ fits_u64 black /\ no_bar server
  | OpUnregister _ white black => fits_u64 white /\ fits_u64 black
  | OpPublish _ region metrics now => heartbeat_ok region metrics now
  | OpDeregister _ => True
  | OpSetQueue _ queue => Forall queued_ok queue
  end.

(** Two stores that no reader can tell apart (a server without a name is found but not
    listed by Redis). *)
Record same_answers {S T} `{RuntimeStore S} `{RuntimeStore T} (s : S) (t : T) : Prop := {
  sa_location : forall u, fits_u64 u -> find_player_location s u = find_player_location t u;
  sa_server : forall id, get_game_server s id = get_game_server t id;
  sa_list : forall r, gsr_server_id r <> "" -> r ∈ list_game_servers s <-> r ∈ list_game_servers t;
  sa_queue : forall region, list_matchmaking_queue s region = list_matchmaking_queue t region
}.

Section Correct.
Context {K : Type} `{RedisLaws K}.
Implicit Types k : K.

(** Evaluate the reads of a connected store after its writes. *)
Ltac redis_reads :=
  cbn [set_key delete_key get_key fmap option_fmap option_map];
  rewrite ?get_set, ?get_del, ?player_key_eqb by (unfold fits_u64 in *; lia).

Ltac redis_ops :=
  cbn [redis_store find_player_location register_room unregister_room get_game_server
       publish_server_heartbeat deregister_server list_matchmaking_queue set_matchmaking_queue
       list_game_servers].

(** A write to a key of another kind is not seen. *)
Ltac redis_frame :=
  redis_ops; unfold redis_get_server, redis_list_queue, redis_find_location, redis_register_room,
    redis_unregister_room, redis_publish, redis_deregister, redis_set_queue;
  cbn [set_key delete_key get_key fmap option_fmap option_map]; rewrite ?get_set, ?get_del; reflexivity.

Lemma redis_location_registered k room white black server endpoint u :
  op_ok (OpRegister room white black server endpoint) -> fits_u64 u ->
  find_player_location (register_room (Some k) room white black server endpoint) u =
  if decide (u = white \/ u = black) then Some (mkLocation server endpoint room)
  else find_player_location (Some k) u.
Proof.
  intros (Hr & Hw & Hb & Hs) Hu. redis_ops. unfold redis_find_location, redis_register_room. redis_reads.
  change (String.eqb (player_key u) (room_key room)) with false. cbv iota.
  rewrite if_either. case_decide; [by apply parse_encode_location|done].
Qed.

Lemma redis_location_unregistered k room white black u : fits_u64 white -> fits_u64 black -> fits_u64 u ->
  find_player_location (unregister_room (Some k) room white black) u =
  if decide (u = white \/ u = black) then None else find_player_location (Some k) u.
Proof.
  intros Hw Hb Hu. redis_ops. unfold redis_find_location, redis_unregister_room. redis_reads.
  change (String.eqb (player_key u) (room_key room)) with false. cbv iota.
  rewrite if_either. by case_decide.
Qed.

Lemma redis_server_published k server region metrics now id : heartbeat_ok region metrics now ->
  get_game_server (publish_server_heartbeat (Some k) server region metrics now) id =
  if decide (id = server) then
    Some (mkServerRecord server (sm_endpoint metrics) (sm_allocation_endpoint metrics) region
            (sm_active_rooms metrics) "healthy" now)
  else get_game_server (Some k) id.
Proof.
  intros Hh. redis_ops. unfold redis_get_server, redis_publish. redis_reads.
  unfold gameserver_key. rewrite prefix_eqb. destruct (String.eqb_spec id server) as [->|].
  - rewrite decide_True by done. by apply parse_encode_heartbeat.
  - by rewrite decide_False.
Qed.

Lemma redis_server_deregistered k server id :
  get_game_server (deregister_server (Some k) server) id =
  if decide (id = server) then None else get_game_server (Some k) id.
Proof.
  redis_ops. unfold redis_get_server, redis_deregister. redis_reads. unfold gameserver_key. rewrite prefix_eqb.
  destruct (String.eqb_spec id server) as [->|]; [by rewrite decide_True|by rewrite decide_False].
Qed.

Lemma redis_queue_set k region q region' : Forall queued_ok q ->
  list_matchmaking_queue (set_matchmaking_queue (Some k) region q) region' =
  if decide (region' = region) then q else list_matchmaking_queue (Some k) region'.
Proof.
  intros Hq. redis_ops. unfold redis_list_queue, redis_set_queue. redis_reads. unfold queue_key.
  rewrite prefix_eqb. destruct (String.eqb_spec region' region) as [->|].
  - rewrite decide_True by done. by apply decode_encode_queue.
  - by rewrite decide_False.
Qed.

Lemma slen_nonneg s : 0 <= slen s.
Proof. unfold slen. lia. Qed.

(** The listing holds the named servers that can be found. *)
Lemma redis_listed k r : gsr_server_id r <> "" ->
  r ∈ list_game_servers (Some k) <-> get_game_server (Some k) (gsr_server_id r) = Some r.
Proof.
  intros Hne. redis_ops. unfold redis_list_servers, redis_get_server. rewrite list_elem_of_omap.
  assert (forall id, id <> "" -> listed_server (Some k) (gameserver_key id) =
    match get_key (Some k) (gameserver_key id) with
    | Some value => parse_gameserver_record id value | None => None end) as Hkey.
  { intros id Hid. unfold listed_server, gameserver_key. rewrite slen_app.
    destruct (Z.leb_spec (slen "gameserver:" + slen id) (slen "gameserver:")) as [Hl|Hl].
    - destruct id; [done|]. unfold slen in Hl. cbn in Hl. lia.
    - assert (substr ("gameserver:" ++ id) (slen "gameserver:") (slen "gameserver:" + slen id) = id) as ->;
        [|done].
      unfold substr. rewrite <- slen_app. unfold slen. rewrite !Nat2Z.id.
      change (String.substring 0 (String.length ("gameserver:" ++ id)) id = id). apply substring_all. cbn. lia. }
  split.
  - intros (key & [[rest ->] Hs]%scan_spec & Hl).
    assert (rest <> "") as Hrest.
    { intros ->. unfold listed_server in Hl. by rewrite Z.leb_refl in Hl. }
    change ("gameserver:" ++ rest) with (gameserver_key rest) in *. rewrite Hkey in Hl by done.
    destruct (get_key (Some k) (gameserver_key rest)) eqn:Eg; [|done].
    pose proof (parse_record_id _ _ _ Hl) as ->. by rewrite Eg.
  - intros Hg. exists (gameserver_key (gsr_server_id r)). split; [|by rewrite Hkey].
    apply scan_spec. split; [by eexists|]. cbn in Hg.
    destruct (redis_get k _); [by eexists|done].
Qed.

(** ** Every write keeps the stores alike *)

(** The connection is kept. *)
Lemma store_op_connected op k : exists k', store_op op (Some k) = Some k'.
Proof. destruct op; eexists; reflexivity. Qed.

(** The listing follows from the lookups. *)
Lemma same_answers_intro (c : option K) (m : InMemoryRuntimeStore) : (exists k, c = Some k) ->
  (forall u, fits_u64 u -> find_player_location c u = find_player_location m u) ->
  (forall id, get_game_server c id = get_game_server m id) ->
  (forall region, list_matchmaking_queue c region = list_matchmaking_queue m region) ->
  same_answers c m.
Proof.
  intros [k ->] Hl Hg Hq. split; [done|done| |done]. intros r Hne.
  rewrite redis_listed by done. rewrite listed. by rewrite Hg.
Qed.

Lemma same_answers_op k (m : InMemoryRuntimeStore) op : op_ok op -> same_answers (Some k) m ->
  same_answers (store_op op (Some k)) (store_op op m).
Proof.
  intros Hop [Hl Hg _ Hq]. apply same_answers_intro; [apply store_op_connected|..].
  all: destruct op as [room white black server endpoint|room white black|server region metrics now|server|region q];
    cbn [store_op op_ok] in *.
  - intros u Hu. rewrite (find_registered m), <- Hl by done. by apply redis_location_registered.
  - intros u Hu. rewrite (find_unregistered m), <- Hl by done. apply redis_location_unregistered; [apply Hop..|done].
  - intros u Hu. etransitivity; [|by apply Hl]. redis_frame.
  - intros u Hu. etransitivity; [|by apply Hl]. redis_frame.
  - intros u Hu. etransitivity; [|by apply Hl]. redis_frame.
  - intros id. etransitivity; [|apply Hg]. redis_frame.
  - intros id. etransitivity; [|apply Hg]. redis_frame.
  - intros id. rewrite (get_published m), <- Hg. by apply redis_server_published.
  - intros id. rewrite (get_deregistered m), <- Hg. by apply redis_server_deregistered.
  - intros id. etransitivity; [|apply Hg]. redis_frame.
  - intros r. etransitivity; [|apply Hq]. redis_frame.
  - intros r. etransitivity; [|apply Hq]. redis_frame.
  - intros r. etransitivity; [|apply Hq]. redis_frame.
  - intros r. etransitivity; [|apply Hq]. redis_frame.
  - intros r. rewrite (list_set m), <- Hq. by apply redis_queue_set.
Qed.

Lemma same_answers_run ops k (m : InMemoryRuntimeStore) : Forall op_ok ops -> same_answers (Some k) m ->
  exists k', run_ops ops (Some k) = Some k' /\ same_answers (Some k') (run_ops ops m).
Proof.
  intros Hops. revert k m. induction Hops as [|op ops Hop Hops IH]; intros k m Hkm; [by exists k|].
  pose proof (same_answers_op k m op Hop Hkm) as Hop1. destruct (store_op_connected op k) as [k1 E1].
  rewrite E1 in Hop1. unfold run_ops. cbn [foldl]. rewrite E1. by apply IH.
Qed.

(** ** Properties *)

(** C25: The Redis store and the in-memory store are interchangeable: started on an empty
    database and driven by the same sequence of registrations, heartbeats and queue
    updates (numbers of the declared widths, no separator inside a field), the Redis
    store stays connected and answers every question of the programs as the in-memory
    store does: where a player is, which servers are known, who waits in a region. *)
Theorem redis_refines_memory ops k :
  (forall key, redis_get k key = None) -> Forall op_ok ops ->
  exists k', run_ops ops (Some k) = Some k' /\ same_answers (Some k') (run_ops ops new_memory_store).
Proof.
  intros Hempty Hops. apply same_answers_run; [done|]. split.
  - intros u _. cbn [find_player_location redis_store memory_store]. unfold redis_find_location.
    cbn [get_key]. by rewrite Hempty.
  - intros id. cbn [get_game_server redis_store memory_store]. unfold redis_get_server.
    cbn [get_key]. by rewrite Hempty.
  - intros r Hne. rewrite redis_listed, listed by done. cbn [get_game_server redis_store memory_store].
    unfold redis_get_server. cbn [get_key]. by rewrite Hempty.
  - intros region. cbn [list_matchmaking_queue redis_store memory_store]. unfold redis_list_queue.
    cbn [get_key]. by rewrite Hempty.
Qed.

End Correct.

(** A Redis server that keeps its keys in a map. *)
#[local] Instance map_server : RedisServer (gmap string string) := {|
  redis_ping _ := true;
  redis_set k key value := <[key := value]> k;
  redis_del k key := delete key k;
  redis_get k key := k !! key;
  redis_scan k start := List.filter (String.prefix start) (map_to_list k).*1
|}.

Lemma prefix_spec start key : String.prefix start key = true <-> exists rest, key = start ++ rest.
Proof.
  revert key. induction start as [|c start IH]; intros key.
  - split; [by exists key|]. intros _. by destruct key.
  - destruct key as [|d key]; cbn; [split; [done|by intros [rest ?]]|].
    destruct (Ascii.ascii_dec c d) as [->|Hne].
    + rewrite IH. split; intros [rest E]; exists rest; congruence.
    + split; [done|]. intros [rest [= ? ?]]. congruence.
Qed.

#[local] Instance map_server_laws : RedisLaws (gmap string string).
Proof.
  split; cbn.
  - intros k key value key'. destruct (String.eqb_spec key' key) as [->|].
    + apply lookup_insert_eq.
    + by apply lookup_insert_ne.
  - intros k key key'. destruct (String.eqb_spec key' key) as [->|].
    + apply lookup_delete_eq.
    + by apply lookup_delete_ne.
  - intros k start key. rewrite list_elem_of_In, filter_In, <- list_elem_of_In, prefix_spec.
    rewrite list_elem_of_fmap. split.
    + intros [([key' v] & -> & Hin%elem_of_map_to_list) Hp]. split; [done|]. by eexists.
    + intros [Hp [v Hv]]. split; [|done]. exists (key, v). split; [done|]. by apply elem_of_map_to_list.
Qed.

Lemma redis_refines_memory_witness :
  let ops := [OpSetQueue "eu" [mkQueued 3 10 1200 5; mkQueued 4 20 1250 6];
              OpPublish "game-1" "eu" (mkMetrics 2 4 0 9 16 "game-1" "eu" "ws://host:9002" "" true true) 7;
              OpRegister 1 10 20 "game-1" "ws://host:9002"; OpUnregister 1 10 20] in
  exists k', run_ops ops (Some (∅ : gmap string string)) = Some k' /\
    same_answers (Some k') (run_ops ops new_memory_store).
Proof.
  cbv zeta. apply (redis_refines_memory (K := gmap string string)).
  - intros key. apply lookup_empty.
  - repeat constructor; unfold heartbeat_ok, queued_ok, fits_u64, fits_int, fits_i64; cbn;
      repeat split; try done; lia.
Defined.

(** ** Behaviours worth knowing *)

(** A bar in the name of a region shifts the fields of a heartbeat: the server is read
    back with other fields. *)
Example bar_in_region_shifts :
  parse_gameserver_record "game-1" (encode_gameserver_heartbeat "eu|west"
    (mkMetrics 2 4 0 9 16 "game-1" "eu|west" "ws://a:1" "http://a:2" true true) 7) =
  Some (mkServerRecord "game-1" "0" "ws://a:1" "eu" 0 "http://a:2" 0).
Proof. vm_compute. reflexivity. Qed.
