(* ===== verification/Config.v ===== *)
(** * Configuration from the environment

    [src/src/app/config_loader.cpp], the configuration records of
    [server_config.h], [database_config.h], [redis_config.h], [logging_config.h],
    [allocation_config.h] and [app_config.h], and the endpoints of
    [runtime_endpoint.h].  The environment of the process is a function from
    names to values. *)

From S2P Require Import Prelude CppString RuntimeStore Matchmaking PasswordHash.
From Stdlib Require Import Ascii String.
Open Scope string_scope.
Open Scope Z_scope.

(** ** The records *)

Definition kDefaultMaxClients : Z := 8.

Record ServerConfig := mkServerConfig {
  sc_port : Z; sc_game_port : Z; sc_health_port : Z; sc_game_health_port : Z;
  sc_game_internal_port : Z; sc_matchmaker_port : Z; sc_matchmaker_health_port : Z;
  sc_gateway_internal_port : Z;
  sc_bind_address : string; sc_server_id : string; sc_gateway_server_id : string;
  sc_region : string; sc_endpoint : string; sc_allocation_endpoint : string;
  sc_matchmaker_endpoint : string; sc_gateway_notification_endpoint : string;
  sc_max_clients : Z; sc_game_max_clients : Z
}.
Definition default_server_config : ServerConfig :=
  mkServerConfig 8765 8766 8080 8081 8767 8770 8772 8771 "127.0.0.1" "local" "gateway-local" "local"
    "" "" "http://127.0.0.1:8770" "http://127.0.0.1:8771" kDefaultMaxClients kDefaultMaxClients.

Inductive DatabaseBackend := SQLite | PostgreSQL.
Record DatabaseConfig := mkDatabaseConfig {
  db_backend : DatabaseBackend; db_path : string; db_host : string; db_port : Z;
  db_database : string; db_username : string; db_password : string
}.
Definition default_database_config : DatabaseConfig :=
  mkDatabaseConfig SQLite "kfc.db" "localhost" 5432 "kfc" "" "".

Definition database_backend_name (backend : DatabaseBackend) : string :=
  match backend with SQLite => "SQLite" | PostgreSQL => "PostgreSQL" end.

(** The heartbeat interval is in seconds. *)
Record RedisConfig := mkRedisConfig {
  rc_enabled : bool; rc_host : string; rc_port : Z; rc_password : string; rc_database : Z;
  rc_heartbeat_interval : Z
}.
Definition default_redis_config : RedisConfig := mkRedisConfig false "127.0.0.1" 6379 "" 0 1.

Definition default_matchmaking_config : MatchmakingConfig := mkConfig 100 60.

Record LoggingConfig := mkLoggingConfig { lc_diagnostics_enabled : bool }.
Definition default_logging_config : LoggingConfig := mkLoggingConfig true.

(** The timeout is in milliseconds, the time to live in seconds. *)
Record AllocationConfig := mkAllocationConfig {
  ac_internal_service_token : string; ac_allocation_timeout : Z;
  ac_allocation_retry_count : Z; ac_game_server_ttl : Z
}.
Definition default_allocation_config : AllocationConfig := mkAllocationConfig "" 1000 3 10.

Record AppConfig := mkAppConfig {
  cfg_server : ServerConfig; cfg_database : DatabaseConfig; cfg_redis : RedisConfig;
  cfg_matchmaking : MatchmakingConfig; cfg_logging : LoggingConfig;
  cfg_allocation : AllocationConfig
}.
Definition make_default_config : AppConfig :=
  mkAppConfig default_server_config default_database_config default_redis_config
    default_matchmaking_config default_logging_config default_allocation_config.

(** ** Reading values *)

Definition environment := string -> option string.

Definition read_environment (env : environment) (name : string) : option string :=
  match env name with
  | Some value => if is_empty_string value then None else Some value
  | None => None
  end.

Fixpoint parse_unsigned_loop (result : Z) (value : string) : option Z :=
  match value with
  | EmptyString => Some result
  | String c value' =>
      if negb (isdigit c) then None
      else
        let next := to_u64 (result * 10 + digit_value c) in
        if next <? result then None else parse_unsigned_loop next value'
  end.
Definition parse_unsigned (value : string) : option Z :=
  if is_empty_string value then None else parse_unsigned_loop 0 value.

Definition lower (c : ascii) : ascii :=
  if (65 <=? code c) && (code c <=? 90) then chr (code c - 65 + 97) else c.
Fixpoint equal_lower (lhs rhs : string) : bool :=
  match lhs, rhs with
  | String a l, String b r => if negb (Ascii.eqb (lower a) (lower b)) then false else equal_lower l r
  | _, _ => true
  end.
Definition equals_ignore_case (lhs rhs : string) : bool :=
  if negb (slen lhs =? slen rhs) then false else equal_lower lhs rhs.

Definition parse_database_backend (value : string) : option DatabaseBackend :=
  if equals_ignore_case value "sqlite" then Some SQLite
  else if equals_ignore_case value "postgres" then Some PostgreSQL
  else None.

Definition parse_bool (value : string) : option bool :=
  if equals_ignore_case value "true" || equals_ignore_case value "1" ||
     equals_ignore_case value "yes" || equals_ignore_case value "on" then Some true
  else if equals_ignore_case value "false" || equals_ignore_case value "0" ||
          equals_ignore_case value "no" || equals_ignore_case value "off" then Some false
  else None.

(** ** Overriding fields

    Each field is set by its own variable (the second name is read only when the
    first is unset); these are the statement patterns of the override functions. *)

Section override.
Context (env : environment).

(** [if (const auto value = read_environment(name)) field = *value;] *)
Definition env_string (name : string) (field : string) : string :=
  match read_environment env name with Some value => value | None => field end.

(** A port: the parsed value between 1 and 65535, cast to the field's type. *)
Definition set_port (cast : Z -> Z) (value : string) (field : Z) : Z :=
  match parse_unsigned value with
  | Some port => if (1 <=? port) && (port <=? 65535) then cast port else field
  | None => field
  end.
Definition env_port (cast : Z -> Z) (name : string) (field : Z) : Z :=
  match read_environment env name with Some value => set_port cast value field | None => field end.

(** A positive number, cast to the field's type. *)
Definition env_positive (cast : Z -> Z) (name : string) (field : Z) : Z :=
  match read_environment env name with
  | Some value =>
      match parse_unsigned value with
      | Some n => if 0 <? n then cast n else field
      | None => field
      end
  | None => field
  end.

Definition env_bool (name : string) (field : bool) : bool :=
  match read_environment env name with
  | Some value => match parse_bool value with Some b => b | None => field end
  | None => field
  end.

(** [if (a) ... else if (b) ...]: the name that is set, the first one first. *)
Definition either (first second : string) : string :=
  match read_environment env first with Some _ => first | None => second end.

Definition override_server_config (server : ServerConfig) : ServerConfig :=
  mkServerConfig
    (env_port to_u16 "KFC_PORT" (sc_port server))
    (env_port to_u16 "KFC_GAME_PORT" (sc_game_port server))
    (env_port to_u16 "KFC_HEALTH_PORT" (sc_health_port server))
    (env_port to_u16 "KFC_GAME_HEALTH_PORT" (sc_game_health_port server))
    (env_port to_u16 "KFC_GAME_INTERNAL_PORT" (sc_game_internal_port server))
    (env_port to_u16 "KFC_MATCHMAKER_PORT" (sc_matchmaker_port server))
    (env_port to_u16 "KFC_MATCHMAKER_HEALTH_PORT" (sc_matchmaker_health_port server))
    (env_port to_u16 "KFC_GATEWAY_INTERNAL_PORT" (sc_gateway_internal_port server))
    (env_string "KFC_BIND_ADDRESS" (sc_bind_address server))
    (env_string "KFC_SERVER_ID" (sc_server_id server))
    (env_string "KFC_GATEWAY_SERVER_ID" (sc_gateway_server_id server))
    (env_string "KFC_REGION" (sc_region server))
    (env_string "KFC_GAME_ENDPOINT" (sc_endpoint server))
    (env_string "KFC_ALLOCATION_ENDPOINT" (sc_allocation_endpoint server))
    (env_string "KFC_MATCHMAKER_ENDPOINT" (sc_matchmaker_endpoint server))
    (env_string "KFC_GATEWAY_NOTIFICATION_ENDPOINT" (sc_gateway_notification_endpoint server))
    (env_positive to_size "KFC_MAX_CLIENTS" (sc_max_clients server))
    (env_positive to_size "KFC_GAME_MAX_CLIENTS" (sc_game_max_clients server)).

Definition override_database_config (database : DatabaseConfig) : DatabaseConfig :=
  mkDatabaseConfig
    (match read_environment env (either "KFC_DATABASE_TYPE" "KFC_DB_BACKEND") with
     | Some value =>
         match parse_database_backend value with
         | Some backend => backend
         | None => db_backend database
         end
     | None => db_backend database
     end)
    (env_string "KFC_DB_PATH" (db_path database))
    (env_string (either "KFC_POSTGRES_HOST" "KFC_DB_HOST") (db_host database))
    (env_port to_int (either "KFC_POSTGRES_PORT" "KFC_DB_PORT") (db_port database))
    (env_string (either "KFC_POSTGRES_DB" "KFC_DB_NAME") (db_database database))
    (env_string (either "KFC_POSTGRES_USER" "KFC_DB_USER") (db_username database))
    (env_string (either "KFC_POSTGRES_PASSWORD" "KFC_DB_PASSWORD") (db_password database)).

Definition override_matchmaking_config (matchmaking : MatchmakingConfig) : MatchmakingConfig :=
  mkConfig
    (env_positive to_int "KFC_MATCH_MAX_RATING_DIFF" (max_rating_difference matchmaking))
    (env_positive to_i64 "KFC_MATCH_QUEUE_TIMEOUT_SEC" (queue_timeout matchmaking)).

Definition override_logging_config (logging : LoggingConfig) : LoggingConfig :=
  mkLoggingConfig (env_bool "KFC_DIAGNOSTICS" (lc_diagnostics_enabled logging)).

Definition override_redis_config (redis : RedisConfig) : RedisConfig :=
  mkRedisConfig
    (env_bool "KFC_REDIS_ENABLED" (rc_enabled redis))
    (env_string "KFC_REDIS_HOST" (rc_host redis))
    (env_port to_int "KFC_REDIS_PORT" (rc_port redis))
    (env_string "KFC_REDIS_PASSWORD" (rc_password redis))
    (match read_environment env "KFC_REDIS_DATABASE" with
     | Some value =>
         match parse_unsigned value with Some n => to_int n | None => rc_database redis end
     | None => rc_database redis
     end)
    (rc_heartbeat_interval redis).

Definition override_allocation_config (allocation : AllocationConfig) : AllocationConfig :=
  mkAllocationConfig
    (env_string "KFC_INTERNAL_SERVICE_TOKEN" (ac_internal_service_token allocation))
    (env_positive to_i64 "KFC_ALLOCATION_TIMEOUT_MS" (ac_allocation_timeout allocation))
    (env_positive to_size "KFC_ALLOCATION_RETRY_COUNT" (ac_allocation_retry_count allocation))
    (env_positive to_i64 "KFC_GAME_SERVER_TTL_SECONDS" (ac_game_server_ttl allocation)).

Definition load_config_from_environment : AppConfig :=
  let config := make_default_config in
  mkAppConfig (override_server_config (cfg_server config))
    (override_database_config (cfg_database config))
    (override_redis_config (cfg_redis config))
    (override_matchmaking_config (cfg_matchmaking config))
    (override_logging_config (cfg_logging config))
    (override_allocation_config (cfg_allocation config)).

End override.

(** ** Endpoints *)

Definition resolve_game_endpoint (server : ServerConfig) : string :=
  if negb (is_empty_string (sc_endpoint server)) then sc_endpoint server
  else "ws://" ++ sc_bind_address server ++ ":" ++ to_string (sc_game_port server).

Definition resolve_allocation_endpoint (server : ServerConfig) : string :=
  if negb (is_empty_string (sc_allocation_endpoint server)) then sc_allocation_endpoint server
  else "http://" ++ sc_bind_address server ++ ":" ++ to_string (sc_game_internal_port server) ++
       "/allocate".

Definition resolve_matchmaker_health_endpoint (server : ServerConfig) : string :=
  let endpoint := sc_matchmaker_endpoint server in
  if (slen "http://" <=? slen endpoint) && String.eqb (substr endpoint 0 (slen "http://")) "http://" then
    let remainder := substr_to_end endpoint (slen "http://") in
    let host_port :=
      match find "/" 0 remainder with Some slash => substr remainder 0 slash | None => remainder end in
    let host :=
      match find ":" 0 host_port with Some colon => substr host_port 0 colon | None => host_port end in
    "http://" ++ host ++ ":" ++ to_string (sc_matchmaker_health_port server)
  else "http://" ++ sc_bind_address server ++ ":" ++ to_string (sc_matchmaker_health_port server).

(** ** Decimal values *)

Definition is_number (s : string) : bool := negb (is_empty_string s) && all_chars isdigit s.

(** Below this bound one more decimal digit cannot wrap around 64 bits. *)
Definition exact_bound : Z := 1844674407370955160.

Lemma parse_loop_ge r s v : parse_unsigned_loop r s = Some v -> r <= v.
Proof.
  revert r. induction s as [|c s IH]; intros r; simpl; [intros [= ->]; lia|].
  destruct (negb (isdigit c)); [done|]. destruct (Z.ltb_spec (to_u64 (r * 10 + digit_value c)) r); [done|].
  intros Hge%IH. lia.
Qed.

Lemma parse_loop_exact r s v : 0 <= r -> parse_unsigned_loop r s = Some v -> v <= exact_bound ->
  v = dec_value_from r s.
Proof.
  unfold exact_bound. revert r. induction s as [|c s IH]; intros r Hr; simpl; [congruence|].
  destruct (isdigit c) eqn:Hc; [|done]. apply digit_value_range in Hc. simpl.
  destruct (Z.ltb_spec (to_u64 (r * 10 + digit_value c)) r); [done|]. intros H1 Hv.
  pose proof (parse_loop_ge _ _ _ H1).
  assert (to_u64 (r * 10 + digit_value c) = 10 * r + digit_value c) as E.
  { unfold to_u64. rewrite wrap_u_id; lia. }
  rewrite E in H1. apply IH; [lia|done|done].
Qed.

Lemma parse_loop_digits r s v : parse_unsigned_loop r s = Some v -> all_chars isdigit s = true.
Proof.
  revert r. induction s as [|c s IH]; intros r; simpl; [done|].
  destruct (isdigit c); [|done]. simpl. destruct (_ <? _); [done|]. apply IH.
Qed.

Lemma parse_loop_total r s : 0 <= r -> all_chars isdigit s = true -> dec_value_from r s < 2 ^ 64 ->
  parse_unsigned_loop r s = Some (dec_value_from r s).
Proof.
  revert r. induction s as [|c s IH]; intros r Hr Hs Hv; simpl in *; [done|].
  apply andb_true_iff in Hs as [Hc Hs]. rewrite Hc. simpl. apply digit_value_range in Hc.
  pose proof (dec_value_from_ge (10 * r + digit_value c) s Hs ltac:(lia)).
  assert (to_u64 (r * 10 + digit_value c) = 10 * r + digit_value c) as ->.
  { unfold to_u64. rewrite wrap_u_id; lia. }
  destruct (Z.ltb_spec (10 * r + digit_value c) r); [lia|]. by apply IH; [lia|..].
Qed.

(** [parse_unsigned] reads exactly the numbers of 64 bits; a longer number is refused or
    read as a wrong value, which is then large. *)
Lemma parse_unsigned_spec s :
  (is_number s = false -> parse_unsigned s = None) /\
  (is_number s = true -> dec_value s < 2 ^ 64 -> parse_unsigned s = Some (dec_value s)) /\
  (forall v, parse_unsigned s = Some v -> v <= exact_bound -> v = dec_value s).
Proof.
  unfold is_number, parse_unsigned. destruct (is_empty_string s); simpl; [done|].
  split_and!.
  - intros Hn. destruct (parse_unsigned_loop 0 s) eqn:E; [|done].
    apply parse_loop_digits in E. congruence.
  - intros. by apply parse_loop_total.
  - intros v Hv Hle. by eapply parse_loop_exact.
Qed.

(** A number within a bound that cannot be reached by a wrong value. *)
Lemma parse_unsigned_in s hi : hi <= exact_bound ->
  (exists v, parse_unsigned s = Some v /\ 1 <= v <= hi) <->
  is_number s = true /\ 1 <= dec_value s <= hi.
Proof.
  unfold exact_bound. intros Hhi. destruct (parse_unsigned_spec s) as (H1 & H2 & H3). split.
  - intros (v & Hv & Hr). pose proof (H3 v Hv ltac:(unfold exact_bound; lia)) as ->.
    destruct (is_number s); [done|]. rewrite H1 in Hv; done.
  - intros [Hn Hr]. exists (dec_value s). split; [apply H2; [done|lia]|lia].
Qed.

Definition decimal_port (s : string) : bool :=
  is_number s && (1 <=? dec_value s) && (dec_value s <=? 65535).

Lemma set_port_spec cast s field :
  set_port cast s field = if decimal_port s then cast (dec_value s) else field.
Proof.
  pose proof (parse_unsigned_in s 65535 ltac:(unfold exact_bound; lia)) as [H1 H2].
  unfold set_port, decimal_port. destruct (is_number s && (1 <=? dec_value s) && (dec_value s <=? 65535)) eqn:E.
  - rewrite !andb_true_iff, !Z.leb_le in E. destruct E as [[En E1] E2].
    destruct (H2 (conj En (conj E1 E2))) as (v & Hv & Hr).
    destruct (parse_unsigned_spec s) as (_ & _ & H3). pose proof (H3 v Hv ltac:(unfold exact_bound; lia)) as ->.
    rewrite Hv. by rewrite !(proj2 (Z.leb_le _ _)) by lia.
  - destruct (parse_unsigned s) as [v|] eqn:Hv; [|done].
    destruct (Z.leb_spec 1 v); [|done]. destruct (Z.leb_spec v 65535); [|done]. exfalso.
    destruct H1 as [En Er]; [by exists v|]. rewrite En, !(proj2 (Z.leb_le _ _)) in E by lia. done.
Qed.

(** The port that a variable names: a decimal number between 1 and 65535, else the default. *)
Definition configured_port (env : environment) (name : string) (default : Z) : Z :=
  match env name with
  | Some s => if decimal_port s then dec_value s else default
  | None => default
  end.

Lemma env_port_spec env cast name field : (forall z, 1 <= z <= 65535 -> cast z = z) ->
  env_port env cast name field = configured_port env name field.
Proof.
  intros Hcast. unfold env_port, read_environment, configured_port.
  destruct (env name) as [s|]; [|done]. destruct s as [|c s]; [done|]. cbn [is_empty_string].
  rewrite set_port_spec. destruct (decimal_port (String c s)) eqn:E; [|done]. apply Hcast.
  unfold decimal_port in E. rewrite !andb_true_iff, !Z.leb_le in E. lia.
Qed.

Lemma to_u16_port z : 1 <= z <= 65535 -> to_u16 z = z.
Proof. intros. apply wrap_u_id. lia. Qed.
Lemma to_int_port z : 1 <= z <= 65535 -> to_int z = z.
Proof. intros. apply to_int_id. unfold fits_int. lia. Qed.

Lemma configured_port_range env name d : 1 <= d <= 65535 -> 1 <= configured_port env name d <= 65535.
Proof.
  intros Hd. unfold configured_port. destruct (env name) as [s|]; [|done].
  destruct (decimal_port s) eqn:E; [|done]. unfold decimal_port in E.
  rewrite !andb_true_iff, !Z.leb_le in E. lia.
Qed.

Lemma env_positive_range env name field : 1 <= field < 2 ^ 64 ->
  1 <= env_positive env to_size name field < 2 ^ 64.
Proof.
  intros Hf. unfold env_positive. destruct (read_environment env name) as [s|]; [|done].
  destruct (parse_unsigned s) as [v|] eqn:E; [|done]. destruct (Z.ltb_spec 0 v); [|done].
  assert (v < 2 ^ 64).
  { unfold parse_unsigned in E. destruct (is_empty_string s); [done|]. revert E.
    assert (forall s r, r < 2 ^ 64 -> parse_unsigned_loop r s = Some v -> v < 2 ^ 64) as G.
    { intros t. induction t as [|c t IH]; intros r Hr; simpl; [congruence|].
      destruct (negb (isdigit c)); [done|]. destruct (_ <? r); [done|]. apply IH.
      apply wrap_u_range. lia. }
    intros E. eapply G; [|exact E]. lia. }
  rewrite to_size_id; lia.
Qed.

(** A number that fits the field's type is taken as it is written. *)
Lemma env_positive_exact env cast name field s : env name = Some s -> is_number s = true ->
  0 < dec_value s < 2 ^ 64 -> cast (dec_value s) = dec_value s ->
  env_positive env cast name field = dec_value s.
Proof.
  intros He Hn Hv Hc. unfold env_positive, read_environment. rewrite He.
  destruct s as [|c s]; [done|]. cbn [is_empty_string].
  destruct (parse_unsigned_spec (String c s)) as (_ & H2 & _). rewrite H2 by (done || lia).
  by rewrite (proj2 (Z.ltb_lt _ _)) by lia.
Qed.

(** The bounds every configuration keeps. *)
Definition valid_port (p : Z) : Prop := 1 <= p <= 65535.
Definition config_bounds (c : AppConfig) : Prop :=
  Forall valid_port [sc_port (cfg_server c); sc_game_port (cfg_server c); sc_health_port (cfg_server c);
    sc_game_health_port (cfg_server c); sc_game_internal_port (cfg_server c);
    sc_matchmaker_port (cfg_server c); sc_matchmaker_health_port (cfg_server c);
    sc_gateway_internal_port (cfg_server c); db_port (cfg_database c); rc_port (cfg_redis c)] /\
  Forall (fun n => 1 <= n < 2 ^ 64) [sc_max_clients (cfg_server c); sc_game_max_clients (cfg_server c);
    ac_allocation_retry_count (cfg_allocation c)].


(** A number above the range of the field type is cut off: 2^31 becomes negative, so that
    no two players are ever compatible. *)
Lemma rating_difference_truncated :
  max_rating_difference (override_matchmaking_config
    (fun name => if String.eqb name "KFC_MATCH_MAX_RATING_DIFF" then Some "2147483648" else None)
    default_matchmaking_config) = - 2 ^ 31.
Proof. vm_compute. reflexivity. Qed.

(** The overflow test of [parse_unsigned] misses wrap-around that lands above the
    previous value. *)
Lemma parse_unsigned_wraps : parse_unsigned "25000000000000000000" = Some 6553255926290448384.
Proof. vm_compute. reflexivity. Qed.
