(* ===== verification/RedisClient.v ===== *)
(** * The commands of the Redis store

    [RedisRuntimeStore::Impl] of [src/src/app/redis_runtime_store.cpp]: the connection with
    its set-up, and the commands sent through the hiredis library with the replies they
    are answered by.  [RedisStore] describes the server by the effect of its commands;
    here these effects are obtained from the replies.  The library and the server are the
    class [Hiredis]; [RedisProtocol] states what Redis documents about PING, SET, GET,
    DEL and SCAN.

    [redis_runtime_store_stub.cpp], the store of a build without hiredis, is here too. *)

From S2P Require Import Prelude CppString RuntimeStore Config RedisStore.
From Stdlib Require Import Ascii String.
Open Scope string_scope.
Open Scope Z_scope.

(** ** The library *)

(** [redisReply]; the elements of an array are pointers. *)
#[local] Unset Elimination Schemes.
Inductive Reply :=
| ReplyStatus (str : string)
| ReplyString (str : string)
| ReplyArray (element : list (option Reply))
| ReplyInteger (integer : Z)
| ReplyNil
| ReplyError (str : string).
#[local] Set Elimination Schemes.

(** [redisConnect] returns a context, whose error flag may be set, or none.
    [redisCommand] takes the words of the command that its format describes. *)
Class Hiredis (K : Type) := {
  redisConnect : string -> Z -> option (K * bool);
  redisCommand : K -> list string -> K * option Reply
}.

Definition reply_is_ok (reply : option Reply) : bool :=
  match reply with Some (ReplyStatus str) => String.eqb str "OK" | _ => false end.
Definition reply_is_pong (reply : option Reply) : bool :=
  match reply with Some (ReplyStatus str) => String.eqb str "PONG" | _ => false end.

Section Client.
Context {K : Type} `{Hiredis K}.

(** ** [Impl] *)

(** A step of the set-up: the command must be answered by OK. *)
Definition require_ok (words : list string) (k : K) : option K :=
  let '(k, reply) := redisCommand k words in if reply_is_ok reply then Some k else None.

(** The constructor. *)
Definition impl (config : RedisConfig) : option K :=
  match redisConnect (c_str (rc_host config)) (rc_port config) with
  | None => None
  | Some (k, err) =>
      if err : bool then None
      else
        k ← (if negb (is_empty_string (rc_password config))
             then require_ok ["AUTH"; c_str (rc_password config)] k else Some k);
        if negb (rc_database config =? 0) then require_ok ["SELECT"; to_string (rc_database config)] k
        else Some k
  end.

Definition impl_ping (context : option K) : option K * bool :=
  match context with
  | None => (None, false)
  | Some k => let '(k, reply) := redisCommand k ["PING"] in (Some k, reply_is_pong reply)
  end.

Definition impl_set_key (context : option K) (key value : string) : option K :=
  match context with
  | None => None
  | Some k => Some (redisCommand k ["SET"; key; value]).1
  end.

Definition impl_delete_key (context : option K) (key : string) : option K :=
  match context with
  | None => None
  | Some k => Some (redisCommand k ["DEL"; key]).1
  end.

Definition impl_get_key (context : option K) (key : string) : option K * option string :=
  match context with
  | None => (None, None)
  | Some k =>
      let '(k, reply) := redisCommand k ["GET"; key] in
      (Some k, match reply with Some (ReplyString str) => Some str | _ => None end)
  end.

(** The keys of the second element of a reply to SCAN. *)
Definition key_of (key_reply : option Reply) : list string :=
  match key_reply with Some (ReplyString str) => [str] | _ => [] end.
Definition array_keys (key_array : option Reply) : list string :=
  match key_array with Some (ReplyArray element) => List.concat (key_of <$> element) | _ => [] end.

Definition scan_command (cursor pattern : string) : list string :=
  ["SCAN"; c_str cursor; "MATCH"; pattern; "COUNT"; "100"].

(** The loop of [scan_keys]. *)
Fixpoint scan_loop (fuel : nat) (pattern cursor : string) (keys : list string) (k : K) : res (K * list string) :=
  match fuel with
  | O => Err Diverges
  | Datatypes.S fuel =>
      let '(k, reply) := redisCommand k (scan_command cursor pattern) in
      match reply with
      | Some (ReplyArray (first :: key_array :: _)) =>
          first ← deref first;
          let cursor := match first with ReplyString str => str | _ => cursor end in
          let keys := (keys ++ array_keys key_array)%list in
          if String.eqb cursor "0" then Ok (k, keys) else scan_loop fuel pattern cursor keys k
      | _ => Ok (k, keys)
      end
  end.

Definition impl_scan_keys (fuel : nat) (context : option K) (pattern : string) :
    res (option K * list string) :=
  match context with
  | None => Ok (None, [])
  | Some k => r ← scan_loop fuel pattern "0" [] k; Ok (Some r.1, r.2)
  end.

(** ** The build without hiredis *)

Definition stub_is_available (_ : unit) : bool := false.
Definition stub_write (_ : unit) : unit := tt.
Definition stub_find_player_location (_ : unit) (user_id : Z) : option GameServerLocation := None.
Definition stub_list_game_servers (_ : unit) : list GameServerRecord := [].
Definition stub_get_game_server (_ : unit) (server_id : string) : option GameServerRecord := None.
Definition stub_list_matchmaking_queue (_ : unit) (region : string) : list QueuedPlayer := [].

#[export] Instance stub_store : RuntimeStore unit := {|
  is_available := stub_is_available;
  register_room s _ _ _ _ _ := stub_write s;
  unregister_room s _ _ _ := stub_write s;
  publish_server_heartbeat s _ _ _ _ := stub_write s;
  deregister_server s _ := stub_write s;
  find_player_location := stub_find_player_location;
  list_game_servers := stub_list_game_servers;
  get_game_server := stub_get_game_server;
  set_matchmaking_queue s _ _ := stub_write s;
  list_matchmaking_queue := stub_list_matchmaking_queue
|}.

(** ** What Redis documents *)

Definition page (cursor : string) (keys : list string) : option Reply :=
  Some (ReplyArray [Some (ReplyString cursor); Some (ReplyArray ((fun key => Some (ReplyString key)) <$> keys))]).

(** A complete iteration from a cursor, with the pages it returns. *)
Inductive scan_chain (pattern : string) : K -> string -> list (list string) -> K -> Prop :=
| chain_last k cursor keys k' :
    redisCommand k (scan_command cursor pattern) = (k', page "0" keys) ->
    scan_chain pattern k cursor [keys] k'
| chain_more k cursor next keys k1 pages k' :
    redisCommand k (scan_command cursor pattern) = (k1, page next keys) -> next <> "0" ->
    scan_chain pattern k1 next pages k' -> scan_chain pattern k cursor (keys :: pages) k'.

Definition server_pattern : string := "gameserver:*".

End Client.

(** [alive] contexts are connected; [keys_of] is the database of the server.  SET
    stores, DEL removes, GET answers the text of a key or nil; a full iteration of SCAN
    ends and returns every key that matches, perhaps more than once; reading changes
    nothing. *)
Class RedisProtocol (K : Type) `{Hiredis K} := {
  alive : K -> Prop;
  keys_of : K -> gmap string string;
  ping_answer k : alive k -> exists k', redisCommand k ["PING"] = (k', Some (ReplyStatus "PONG")) /\
    alive k' /\ keys_of k' = keys_of k;
  set_answer k key value : alive k -> let k' := (redisCommand k ["SET"; key; value]).1 in
    alive k' /\ keys_of k' = <[key := value]> (keys_of k);
  del_answer k key : alive k -> let k' := (redisCommand k ["DEL"; key]).1 in
    alive k' /\ keys_of k' = delete key (keys_of k);
  get_answer k key : alive k -> exists k', alive k' /\ keys_of k' = keys_of k /\
    redisCommand k ["GET"; key] =
      (k', Some (match keys_of k !! key with Some value => ReplyString value | None => ReplyNil end));
  scan_answer k : alive k -> exists pages k', scan_chain server_pattern k "0" pages k' /\
    alive k' /\ keys_of k' = keys_of k /\
    forall key, key ∈ List.concat pages <-> String.prefix "gameserver:" key = true /\ is_Some (keys_of k !! key)
}.

(** ** Lemmas *)

Section Correct.
Context {K : Type} `{RedisProtocol K}.

Lemma page_keys (l : list string) : array_keys (Some (ReplyArray ((fun key => Some (ReplyString key)) <$> l))) = l.
Proof. cbn. induction l as [|key l IH]; [done|]. cbn. by rewrite IH. Qed.

(** The loop reads a complete iteration, as long as it is, page by page. *)
Lemma scan_loop_chain pattern k cursor pages k' : scan_chain pattern k cursor pages k' ->
  forall fuel keys, (List.length pages <= fuel)%nat ->
  scan_loop fuel pattern cursor keys k = Ok (k', (keys ++ List.concat pages)%list).
Proof.
  induction 1 as [k cursor l k' E|k cursor next l k1 pages k' E Hne _ IH]; intros [|fuel] keys Hf; cbn in Hf; try lia;
    cbn [scan_loop]; rewrite E; cbn [page]; rewrite page_keys; cbn [deref]; rewrite bind_ok; cbn [List.concat].
  - by rewrite String.eqb_refl, app_nil_r.
  - rewrite (proj2 (String.eqb_neq _ _)) by done. rewrite IH by lia. by rewrite <- app_assoc.
Qed.

(** ** Properties *)

(** C32: The commands of the store do what [RedisStore] says of the server: over a
    connection to a Redis server, every write changes the database as SET and DEL of that
    model do, PING reports the server, GET returns the text of the key, and the loop of
    SCAN, however many pages the server needs, ends with exactly the keys of the game
    servers that the model lists; reads change nothing and the connection stays usable. *)
Theorem redis_client_correct (k : K) (key value : string) (Hk : alive k) :
  (exists k', impl_set_key (Some k) key value = Some k' /\ alive k' /\
     keys_of k' = redis_set (RedisServer := map_server) (keys_of k) key value) /\
  (exists k', impl_delete_key (Some k) key = Some k' /\ alive k' /\
     keys_of k' = redis_del (RedisServer := map_server) (keys_of k) key) /\
  (exists k', impl_get_key (Some k) key = (Some k', redis_get (RedisServer := map_server) (keys_of k) key) /\
     alive k' /\ keys_of k' = keys_of k) /\
  (exists k', impl_ping (Some k) = (Some k', true) /\ alive k' /\ keys_of k' = keys_of k) /\
  exists fuel k' keys, (forall more, impl_scan_keys (fuel + more) (Some k) server_pattern = Ok (Some k', keys)) /\
    alive k' /\ keys_of k' = keys_of k /\
    forall x, x ∈ keys <-> x ∈ redis_scan (RedisServer := map_server) (keys_of k) "gameserver:".
Proof.
  split_and!.
  - destruct (set_answer k key value Hk) as [Ha Hs]. by eexists.
  - destruct (del_answer k key Hk) as [Ha Hs]. by eexists.
  - destruct (get_answer k key Hk) as (k' & Ha & Hs & E). exists k'. split_and!; [|done|done].
    unfold impl_get_key. rewrite E. cbn. by destruct (keys_of k !! key).
  - destruct (ping_answer k Hk) as (k' & E & Ha & Hs). exists k'. unfold impl_ping. rewrite E. done.
  - destruct (scan_answer k Hk) as (pages & k' & Hc & Ha & Hs & Hkeys).
    exists (List.length pages), k', (List.concat pages). split_and!; [|done|done|].
    + intros more. unfold impl_scan_keys. by rewrite (scan_loop_chain _ _ _ _ _ Hc) by lia.
    + intros x. rewrite Hkeys. pose proof (scan_spec (RedisLaws := map_server_laws) (keys_of k) "gameserver:" x) as ->.
      by rewrite prefix_spec.
Qed.

End Correct.

(** A store without hiredis answers as a store without a connection. *)
Lemma stub_is_disconnected {K : Type} `{RedisServer K} (ops : list StoreOp) :
  run_ops ops tt = tt /\ run_ops ops (None : option K) = None /\
  is_available tt = is_available (None : option K) /\ same_answers tt (None : option K).
Proof.
  split_and!; [by destruct (run_ops ops tt)| |done|].
  - induction ops as [|[] ops IH]; cbn; done.
  - split; [done|done|done|done].
Qed.

(** ** A server that keeps its keys in a map and scans in two pages *)

Definition listed_keys (k : gmap string string) : list string :=
  List.filter (String.prefix "gameserver:") (map_to_list k).*1.

Definition map_command (k : gmap string string) (words : list string) : gmap string string * option Reply :=
  match words with
  | [word] => (k, Some (if String.eqb word "PING" then ReplyStatus "PONG" else ReplyError "ERR"))
  | [word; key] =>
      if String.eqb word "DEL" then (delete key k, Some (ReplyInteger 1))
      else (k, Some (match k !! key with Some value => ReplyString value | None => ReplyNil end))
  | [_; key; value] => (<[key := value]> k, Some (ReplyStatus "OK"))
  | _ :: cursor :: _ =>
      (k, if String.eqb cursor "0" then page "1" (take 1 (listed_keys k)) else page "0" (drop 1 (listed_keys k)))
  | _ => (k, Some (ReplyError "ERR"))
  end.

#[local] Instance map_hiredis : Hiredis (gmap string string) := {|
  redisConnect _ _ := Some (∅, false);
  redisCommand := map_command
|}.

#[local] Instance map_protocol : RedisProtocol (gmap string string).
Proof.
  refine {| alive _ := True; keys_of k := k |}; intros k.
  - intros _. by exists k.
  - done.
  - done.
  - intros key _. exists k. by cbn.
  - intros _. exists [take 1 (listed_keys k); drop 1 (listed_keys k)], k. split_and!; [|done|done|].
    + eapply chain_more; [reflexivity|done|]. by apply chain_last.
    + intros key. cbn [List.concat]. rewrite app_nil_r, take_drop. unfold listed_keys.
      rewrite list_elem_of_In, filter_In, <- list_elem_of_In, list_elem_of_fmap. split.
      * intros [([key' v] & -> & Hin%elem_of_map_to_list) Hp]. split; [done|]. by eexists.
      * intros [Hp [v Hv]]. split; [|done]. exists (key, v). split; [done|]. by apply elem_of_map_to_list.
Defined.

Definition two_servers : gmap string string := {["gameserver:a" := "1"; "gameserver:b" := "2"; "room:1" := "a"]}.

Lemma redis_client_correct_witness :
  exists fuel k' keys, (forall more, impl_scan_keys (fuel + more) (Some two_servers) server_pattern = Ok (Some k', keys)) /\
    alive k' /\ keys_of k' = two_servers /\
    forall x, x ∈ keys <-> x ∈ redis_scan (RedisServer := map_server) two_servers "gameserver:".
Proof. exact (proj2 (proj2 (proj2 (proj2 (redis_client_correct two_servers "room:2" "b" I))))). Defined.

(** Both servers are found, on two pages. *)
Example two_pages_scanned :
  match impl_scan_keys 2 (Some two_servers) server_pattern with
  | Ok (_, keys) => bool_decide (list_to_set keys =@{gset string} {["gameserver:a"; "gameserver:b"]})
  | Err _ => false
  end = true.
Proof. vm_compute. reflexivity. Qed.

(** ** Behaviours worth knowing *)

(** A server whose cursor never returns to 0 holds the caller for ever. *)
Lemma scan_never_ends {K : Type} `{Hiredis K} (k : K) (pattern cursor : string) keys : cursor <> "0" ->
  (forall c, redisCommand k (scan_command c pattern) = (k, page cursor [])) ->
  forall fuel, scan_loop fuel pattern "0" keys k = Err Diverges.
Proof.
  intros Hne E fuel. generalize "0" as c. revert keys. induction fuel as [|fuel IH]; intros keys c; [done|].
  cbn [scan_loop]. rewrite E. cbn [page deref]. rewrite bind_ok, (proj2 (String.eqb_neq _ _)) by done. apply IH.
Qed.

(** A refused password leaves a store without a connection, not an exception. *)
Lemma refused_password {K : Type} `{Hiredis K} (config : RedisConfig) (k k' : K) reply :
  redisConnect (c_str (rc_host config)) (rc_port config) = Some (k, false) -> rc_password config <> "" ->
  redisCommand k ["AUTH"; c_str (rc_password config)] = (k', reply) -> reply_is_ok reply = false ->
  impl config = None.
Proof.
  intros E1 Hp E2 Hr. unfold impl. rewrite E1. destruct (rc_password config) as [|a s] eqn:Ep; [done|].
  cbn [is_empty_string negb]. unfold require_ok. rewrite E2, Hr. done.
Qed.
