(* ===== verification/GameResult.v ===== *)
(** * Settling finished games

    [src/src/server/game_result/game_result_handler.cpp],
    [game_result_message_writer.cpp], [gateway/local_game_completion_gateway.cpp] with
    the records of [i_game_completion_gateway.h], and the interface
    [database/i_game_repository.h].

    The handler is the [FinishHandler] of the game loop, and [result_finish_ok]
    discharges what the loop relies on.  It works on any user repository and
    runtime store that obey their laws, and on any game repository.  Log output is
    not modelled. *)

From S2P Require Import Prelude Piece BoardModel PathUtils PieceRules CollisionResolver MoveScheduler RealTimeArbiter GameState CppString Rooms Sessions Users GameLoop Ratings RuntimeStore.
From Stdlib Require Import Ascii String.
Open Scope string_scope.
Open Scope Z_scope.

(** ** Interfaces and messages *)

(** [IGameRepository]. *)
Class GameRepository (G : Type) := {
  create_game : G -> Z -> Z -> G * option Z;
  finish_game : G -> Z -> Z -> G * bool;
  finish_game_without_winner : G -> Z -> G * bool
}.

Definition finish_reason_token (reason : FinishReason) : string :=
  match reason with
  | KingCapture => "checkmate"
  | Resign => "resign"
  | Disconnect => "opponent_disconnect"
  end.

Definition create_game_result_message (won : bool) (reason : FinishReason) (rating : Z) : string :=
  "game_result " ++ (if won then "win" else "loss") ++ " " ++ finish_reason_token reason ++ " " ++
  to_string rating ++ nl.

Record FinishedPlayerState := mkFinished {
  fp_player_id : Z; fp_user_id : Z; fp_username : string; fp_rating : Z; fp_has_user : bool
}.

(** ** [LocalGameCompletionGateway] *)

Section Gateway.
Context {C : Type} `{Connection C}.

Definition notify_player (player_id : Z) (message : string) (p : Plane (C := C)) : res Plane :=
  connected ← is_player_connected p player_id;
  if connected : bool then r ← sink_send_message p player_id message; Ok r.2 else Ok p.

Definition notify_game_finished (white black : Z) (winner_color : PieceColor)
    (reason : FinishReason) (change : RatingChange) (p : Plane (C := C)) : res Plane :=
  let white_won := bool_decide (winner_color = White) in
  let white_message := create_game_result_message white_won reason
    (if white_won then winner_new_rating change else loser_new_rating change) in
  let black_message := create_game_result_message (negb white_won) reason
    (if white_won then loser_new_rating change else winner_new_rating change) in
  p ← notify_player white white_message p;
  notify_player black black_message p.

(** A change of the session a pointer refers to: the one that [find_session] gives. *)
Fixpoint replace_session (ss : list PlayerSession) (s : PlayerSession) : list PlayerSession :=
  match ss with
  | [] => []
  | x :: ss' => if ps_id x =? ps_id s then s :: ss' else x :: replace_session ss' s
  end.

(** The session after the game: no side, no room, the current profile. *)
Definition released (player : FinishedPlayerState) (s : PlayerSession) : PlayerSession :=
  let s := clear_room (clear_side s) in
  if fp_has_user player then assign_user s (fp_user_id player) (fp_username player) (fp_rating player)
  else s.

Definition cleanup_finished_player (player : FinishedPlayerState) (p : Plane (C := C)) : res Plane :=
  match find_session p (fp_player_id player) with
  | None => Ok p
  | Some session =>
      let session := released player session in
      let p := set_sessions p (replace_session (sessions_ p) session) in
      profile ← session_player session;
      Ok (set_registry p (unregister_session (registry_ p) (pl_username profile)))
  end.

Definition cleanup_finished_players (white black : FinishedPlayerState) (p : Plane (C := C)) :
    res Plane :=
  p ← cleanup_finished_player white p;
  cleanup_finished_player black p.

End Gateway.

(** ** [GameResultHandler] *)

(** What the handler refers to besides rooms and connections. *)
Record ResultEnv {U G S : Type} := mkEnv { re_users : U; re_games : G; re_store : S }.
Arguments ResultEnv : clear implicits.
Arguments mkEnv {U G S} _ _ _.

Section Handler.
Context {C U G S : Type} `{Connection C} `{UserRepository U} `{GameRepository G} `{RuntimeStore S}.

Notation State := (LoopState C (ResultEnv U G S)).
Implicit Type st : State.

Definition set_users (e : ResultEnv U G S) (u : U) : ResultEnv U G S := mkEnv u (re_games e) (re_store e).
Definition set_games (e : ResultEnv U G S) (g : G) : ResultEnv U G S := mkEnv (re_users e) g (re_store e).
Definition set_store (e : ResultEnv U G S) (s : S) : ResultEnv U G S := mkEnv (re_users e) (re_games e) s.
Definition set_ext st (e : ResultEnv U G S) : State :=
  mkLoop (ls_rooms st) (ls_plane st) (ls_last_tick st) e.

Definition find_player_by_color (room : Room) (color : PieceColor) : option GamePlayer :=
  match color with White => white_player_ room | Black => black_player_ room end.

Definition update_ratings_for_result (room : Room) (winner_color : PieceColor) (game_id : Z)
    (e : ResultEnv U G S) : res (ResultEnv U G S * option RatingChange) :=
  match find_player_by_color room winner_color,
        find_player_by_color room (other_color winner_color) with
  | Some winner, Some loser =>
      match find_profile_by_id (re_users e) (gp_user_id winner),
            find_profile_by_id (re_users e) (gp_user_id loser) with
      | Some winner_profile, Some loser_profile =>
          change ← calculate kDefaultKFactor (pl_rating winner_profile) (pl_rating loser_profile);
          let u := (update_rating (re_users e) (gp_user_id winner) (winner_new_rating change)).1 in
          let u := (update_rating u (gp_user_id loser) (loser_new_rating change)).1 in
          let g := (finish_game (re_games e) game_id (to_int (gp_user_id winner))).1 in
          Ok (set_games (set_users e u) g, Some change)
      | _, _ => Ok (e, None)
      end
  | _, _ => Ok (e, None)
  end.

Definition build_finished_player_state (u : U) (player : GamePlayer) : FinishedPlayerState :=
  match find_profile_by_id u (gp_user_id player) with
  | Some profile =>
      mkFinished (gp_player_id player) (gp_user_id player) (pl_username profile) (pl_rating profile) true
  | None => mkFinished (gp_player_id player) (gp_user_id player) "" 0 false
  end.

(** [FinishedPlayerState{}]. *)
Definition no_finished_player : FinishedPlayerState := mkFinished 0 0 "" 0 false.

Definition cleanup_finished_room (room_id : Z) st : res State :=
  match find_room (ls_rooms st) room_id with
  | None => Ok st
  | Some room =>
      let state_of o := match o with
        | Some player => build_finished_player_state (re_users (ls_ext st)) player
        | None => no_finished_player
        end in
      let white_state := state_of (white_player_ room) in
      let black_state := state_of (black_player_ room) in
      let st := match white_player_ room, black_player_ room with
        | Some white, Some black =>
            set_ext st (set_store (ls_ext st)
              (unregister_room (re_store (ls_ext st)) room_id (gp_user_id white) (gp_user_id black)))
        | _, _ => st
        end in
      let st := set_ls_rooms st (write_room (ls_rooms st) room_id (reset room)) in
      p ← cleanup_finished_players white_state black_state (ls_plane st);
      Ok (set_ls_plane st p)
  end.

(** The database part of [finish]. *)
Definition record_result (room : Room) (winner_color : option PieceColor) (reason : FinishReason)
    (e : ResultEnv U G S) : res (ResultEnv U G S * option RatingChange) :=
  match db_game_id_ room with
  | None => Ok (e, None)
  | Some game_id =>
      match winner_color with
      | Some color => update_ratings_for_result room color game_id e
      | None =>
          match reason with
          | Disconnect =>
              Ok (set_games e (finish_game_without_winner (re_games e) game_id).1, None)
          | _ => Ok (e, None)
          end
      end
  end.

Definition finish_result (room_id : Z) (winner_color : option PieceColor) (reason : FinishReason) st :
    res State :=
  match find_room (ls_rooms st) room_id with
  | None => Ok st
  | Some room =>
      match white_player_ room, black_player_ room with
      | Some white, Some black =>
          r ← record_result room winner_color reason (ls_ext st);
          let st := set_ext st r.1 in
          st ← match winner_color, r.2 with
               | Some color, Some change =>
                   p ← notify_game_finished (gp_player_id white) (gp_player_id black) color reason
                         change (ls_plane st);
                   Ok (set_ls_plane st p)
               | _, _ => Ok st
               end;
          cleanup_finished_room room_id st
      | _, _ => Ok st
      end
  end.

#[export] Instance result_finish : FinishHandler C (ResultEnv U G S) := { finish := finish_result }.

End Handler.

(** ** Lemmas on sessions *)

Section Gateway_lemmas.
Context {C : Type} `{Connection C}.

Lemma replace_session_fmap {A} (f : PlayerSession -> A) ss s s0 :
  find_if (fun x => ps_id x =? ps_id s) ss = Some s0 -> f s = f s0 ->
  f <$> replace_session ss s = f <$> ss.
Proof.
  induction ss as [|x ss IH]; simpl; [done|]. destruct (ps_id x =? ps_id s).
  - intros [= ->] E. by rewrite fmap_cons, E.
  - intros Hf E. by rewrite fmap_cons, IH.
Qed.

Lemma elem_of_replace ss s x : x ∈ replace_session ss s -> x = s \/ x ∈ ss.
Proof.
  induction ss as [|y ss IH]; simpl; [set_solver|]. destruct (ps_id y =? ps_id s); set_solver.
Qed.

Lemma released_same player s : ps_id (released player s) = ps_id s /\
  ps_connection (released player s) = ps_connection s /\
  ps_side (released player s) = None /\ ps_room_id (released player s) = None.
Proof. unfold released. by destruct (fp_has_user player). Qed.

Lemma find_session_id (p : Plane (C := C)) id s : find_session p id = Some s ->
  s ∈ sessions_ p /\ ps_id s = id.
Proof. intros [? ?%Z.eqb_eq]%find_if_elem. done. Qed.

Lemma replace_session_ok (p : Plane (C := C)) id s s' : plane_ok p -> find_session p id = Some s ->
  ps_id s' = ps_id s -> ps_connection s' = ps_connection s ->
  plane_ok (set_sessions p (replace_session (sessions_ p) s')).
Proof.
  intros [Hl Hn Hx] Hf Hid Hc. pose proof (find_session_id p id s Hf) as [Hin Eid].
  unfold find_session in Hf. rewrite <- Eid, <- Hid in Hf.
  split; cbn [set_sessions sessions_ next_session_id_ clients_].
  - intros x [->|Hx']%elem_of_replace; [|by apply Hl]. rewrite Hc. by apply Hl.
  - by rewrite (replace_session_fmap ps_id _ s' s).
  - intros x [->|Hx']%elem_of_replace; [|by apply Hx]. rewrite Hid. by apply Hx.
Qed.

Lemma notify_player_ok id message (p : Plane (C := C)) : plane_ok p ->
  notify_player id message p ⇓ traffic p.
Proof.
  intros Hp. unfold notify_player. destruct (is_player_connected_ok p id Hp) as [[] ->];
    rewrite bind_ok; [|by apply returns_ok].
  apply returns_bind. eapply returns_mono; [by apply sink_with_ok|]. intros [b p'] Ht. by apply returns_ok.
Qed.

Lemma notify_finished_ok white black c reason change (p : Plane (C := C)) : plane_ok p ->
  notify_game_finished white black c reason change p ⇓ traffic p.
Proof.
  intros Hp. unfold notify_game_finished. cbv zeta. apply returns_bind.
  eapply returns_mono; [by apply notify_player_ok|]. intros p1 Ht.
  eapply returns_mono; [by eapply notify_player_ok, traffic_ok|]. intros p2 Ht2. by etrans.
Qed.

Lemma cleanup_player_ok player (p : Plane (C := C)) : plane_ok p -> fp_has_user player = true ->
  cleanup_finished_player player p ⇓ plane_ok.
Proof.
  intros Hp Hu. unfold cleanup_finished_player.
  destruct (find_session p (fp_player_id player)) as [s|] eqn:E; [|by apply returns_ok].
  cbv zeta. pose proof (released_same player s) as (E1 & E2 & _).
  unfold session_player. replace (ps_profile (released player s))
    with (Some (mkPlayer (to_int (fp_user_id player)) (fp_username player) (fp_rating player)))
    by (unfold released; by rewrite Hu).
  cbn [deref]. rewrite bind_ok. apply returns_ok.
  destruct (replace_session_ok p _ s (released player s) Hp E E1 E2) as [H1 H2 H3]. by split.
Qed.

Lemma cleanup_players_ok white black (p : Plane (C := C)) : plane_ok p ->
  fp_has_user white = true -> fp_has_user black = true ->
  cleanup_finished_players white black p ⇓ plane_ok.
Proof.
  intros Hp Hw Hb. unfold cleanup_finished_players. apply returns_bind.
  eapply returns_mono; [by apply cleanup_player_ok|]. intros p1 Hp1. by apply cleanup_player_ok.
Qed.

End Gateway_lemmas.

(** ** The handler keeps what the loop relies on *)

#[local] Opaque nearest_share.

(** An account after a rating was written to user [id]; a write can fail. *)
Definition rated (written : bool) (id rating : Z) (c : UserCredentials) : UserCredentials :=
  if written && bool_decide (uc_id c = id)
  then mkCredentials id (uc_username c) rating (uc_password_hash c) else c.

Lemma rated_id b id r c : uc_id (rated b id r c) = uc_id c.
Proof. unfold rated. destruct b; [|done]. simpl. by case_bool_decide. Qed.

Section Handler_lemmas.
Context {C U G S : Type} `{Connection C} `{UserRepositoryLaws U} `{GameRepository G} `{RuntimeStore S}.

Notation State := (LoopState C (ResultEnv U G S)).
Implicit Type st : State.

Lemma update_rating_accounts u id r : repo_ok u -> id_ok id -> fits_int r ->
  repo_ok (update_rating u id r).1 /\
  forall n, credentials (update_rating u id r).1 n =
    rated (update_rating u id r).2 id r <$> credentials u n.
Proof.
  intros Hu Hid Hr. pose proof (update_rating_spec u id r Hu Hid Hr) as (Hok & Ht & Hf).
  split; [done|]. intros n. unfold rated. destruct (update_rating u id r) as [u' []]; simpl in *.
  - rewrite Ht by done. apply option_fmap_ext. intros c. by case_bool_decide; case_decide.
  - rewrite Hf by done. by destruct (credentials u n).
Qed.

(** The user of an id is known. *)
Definition known (u : U) (id : Z) : Prop := id_ok id /\ is_Some (find_profile_by_id u id).

(** Users keep existing when ratings change. *)
Lemma known_by_accounts (f : UserCredentials -> UserCredentials) (u u' : U) id :
  repo_ok u -> repo_ok u' -> (forall c, uc_id (f c) = uc_id c) ->
  (forall n, credentials u' n = f <$> credentials u n) -> known u id -> known u' id.
Proof.
  intros Hu Hu' Hf Hc [Hi [p (n & c & E & Hid & _)%find_profile_spec]]; [|done..]. split; [done|].
  exists (profile (f c)). apply find_profile_spec; [done..|]. exists n, (f c).
  rewrite Hc, E, Hf. done.
Qed.

Definition users_ok (n : nat) (u : U) : Prop :=
  repo_ok u /\ forall name c, credentials u name = Some c -> rating_ok n (uc_rating c).

(** The handler can settle [n] more games: ratings leave room for [n] wins and the users
    of all rooms are known. *)
Definition settle_inv (n : nat) st : Prop :=
  users_ok n (re_users (ls_ext st)) /\
  forall id r player, rooms_ (ls_rooms st) !! id = Some r ->
    white_player_ r = Some player \/ black_player_ r = Some player ->
    known (re_users (ls_ext st)) (gp_user_id player).

#[export] Instance result_invariant : FinishInvariant C (ResultEnv U G S).
Proof.
  refine {| finish_inv := settle_inv |}.
  - intros n n' st Hle [[Hr Hc] Hk]. split; [|done]. split; [done|]. intros name c Ec.
    specialize (Hc name c Ec). unfold rating_ok in *. lia.
  - intros n st st' [Hu Hk] [He Hs]. split; [by rewrite He|]. intros id r' player Hr' Hp.
    rewrite He. destruct (Hs id r' Hr') as (r & Hr & Ew & Eb). eapply (Hk id r); [done|].
    by rewrite <- Ew, <- Eb.
Defined.

(** The profile of a known user, and its rating. *)
Lemma known_rating n u id p : users_ok n u -> find_profile_by_id u id = Some p -> id_ok id ->
  rating_ok n (pl_rating p).
Proof.
  intros [Hu Hc] Hp Hi. apply find_profile_spec in Hp as (name & c & Ec & _ & ->); [|done..]. simpl. by eapply Hc.
Qed.

Lemma rating_fits n r : rating_ok n r -> fits_int r.
Proof. unfold rating_ok, fits_int. lia. Qed.

Lemma rated_users_ok n u id r : users_ok n u -> id_ok id -> rating_ok n r ->
  users_ok n (update_rating u id r).1.
Proof.
  intros [Hu Hc] Hi Hr. destruct (update_rating_accounts u id r Hu Hi (rating_fits n r Hr)) as [Hu' Ha]. split; [done|].
  intros name c. rewrite Ha, fmap_Some. intros (c0 & E0 & ->). specialize (Hc name c0 E0).
  unfold rated. destruct (_ && _); done.
Qed.

Lemma users_ok_mono n n' u : users_ok n u -> (n' <= n)%nat -> users_ok n' u.
Proof.
  intros [Hu Hc] Hle. split; [done|]. intros name c Ec. specialize (Hc name c Ec).
  unfold rating_ok in *. lia.
Qed.

(** The new ratings of a game between users rated [w] and [l]. *)
Lemma share_small d : 0 <= nearest_share kDefaultKFactor d <= 25.
Proof. apply share_range. unfold kDefaultKFactor. lia. Qed.

Lemma calculate_ok n w l : rating_ok (Datatypes.S n) w -> rating_ok (Datatypes.S n) l ->
  exists change, calculate kDefaultKFactor w l = Ok change /\
    winner_new_rating change = w + nearest_share kDefaultKFactor (w - l) /\
    loser_new_rating change = Z.max 0 (l - nearest_share kDefaultKFactor (w - l)) /\
    rating_ok n (winner_new_rating change) /\ rating_ok n (loser_new_rating change).
Proof.
  intros Hw Hl. rewrite (calculate_spec n) by done. eexists. split; [done|]. simpl.
  pose proof (share_small (w - l)). unfold rating_ok in *. split_and!; lia.
Qed.

(** What recording a result leaves: ratings within one win, the same users, the store. *)
Definition recorded (n : nat) (e : ResultEnv U G S) (r : ResultEnv U G S * option RatingChange) : Prop :=
  users_ok n (re_users r.1) /\ re_store r.1 = re_store e /\
  forall id, known (re_users e) id -> known (re_users r.1) id.

Lemma recorded_none n (e : ResultEnv U G S) g o : users_ok (Datatypes.S n) (re_users e) ->
  recorded n e (set_games e g, o).
Proof. intros Hu. split_and!; [by apply users_ok_mono with (Datatypes.S n); [|lia]|done|done]. Qed.

(** The repository can tell the players of a room apart. *)
Definition seated_ids (room : Room) : Prop := forall player,
  white_player_ room = Some player \/ black_player_ room = Some player -> id_ok (gp_user_id player).

Lemma seated_color room c player : seated_ids room -> find_player_by_color room c = Some player ->
  id_ok (gp_user_id player).
Proof. intros Hs Hf. apply Hs. destruct c; auto. Qed.

Lemma record_result_ok n room winner reason (e : ResultEnv U G S) :
  users_ok (Datatypes.S n) (re_users e) -> seated_ids room ->
  record_result room winner reason e ⇓ recorded n e.
Proof.
  intros Hu Hseats. assert (forall o, Ok (e, o) ⇓ recorded n e) as Hnone.
  { intros o. apply returns_ok. pose proof (recorded_none n e (re_games e) o Hu) as Hx. by destruct e. }
  unfold record_result. destruct (db_game_id_ room) as [gid|]; [|apply Hnone].
  destruct winner as [c|].
  2: { destruct reason; [apply Hnone..|]. by apply returns_ok, recorded_none. }
  unfold update_ratings_for_result.
  destruct (find_player_by_color room c) as [w|] eqn:Iw; [|apply Hnone].
  destruct (find_player_by_color room (other_color c)) as [l|] eqn:Il; [|apply Hnone].
  apply seated_color in Iw, Il; [|done..].
  destruct (find_profile_by_id (re_users e) (gp_user_id w)) as [wp|] eqn:Ew; [|apply Hnone].
  destruct (find_profile_by_id (re_users e) (gp_user_id l)) as [lp|] eqn:El; [|apply Hnone].
  destruct (calculate_ok n (pl_rating wp) (pl_rating lp)) as (change & -> & _ & _ & Hrw & Hrl);
    [by eapply known_rating..|].
  rewrite bind_ok. apply returns_ok. cbn [fst set_games set_users re_users re_store].
  assert (users_ok n (re_users e)) as Hn by (by apply users_ok_mono with (Datatypes.S n); [|lia]).
  pose proof (rated_users_ok n _ (gp_user_id w) _ Hn Iw Hrw) as H1'.
  pose proof (rated_users_ok n _ (gp_user_id l) _ H1' Il Hrl) as H2'.
  split_and!; [done|done|]. intros id Hid.
  destruct (update_rating_accounts (re_users e) (gp_user_id w) (winner_new_rating change) (proj1 Hn) Iw (rating_fits _ _ Hrw)) as [Hu1 Ha1].
  destruct (update_rating_accounts _ (gp_user_id l) (loser_new_rating change) Hu1 Il (rating_fits _ _ Hrl)) as [Hu2 Ha2].
  eapply known_by_accounts; [exact Hu1|exact Hu2|intros; apply rated_id|exact Ha2|].
  eapply known_by_accounts; [exact (proj1 Hn)|exact Hu1|intros; apply rated_id|exact Ha1|done].
Qed.

(** The players of a room are known. *)
Definition seated_known st (room : Room) : Prop := forall player,
  white_player_ room = Some player \/ black_player_ room = Some player ->
  known (re_users (ls_ext st)) (gp_user_id player).

Lemma build_finished_known u player : known u (gp_user_id player) ->
  fp_has_user (build_finished_player_state u player) = true.
Proof. unfold build_finished_player_state. by intros [_ [p ->]]. Qed.

Lemma build_finished_id u player :
  fp_player_id (build_finished_player_state u player) = gp_player_id player.
Proof. unfold build_finished_player_state. by destruct (find_profile_by_id u (gp_user_id player)). Qed.

Lemma cleanup_room_ok id room st : manager_ok (ls_rooms st) -> plane_ok (ls_plane st) ->
  rooms_ (ls_rooms st) !! id = Some room ->
  is_Some (white_player_ room) -> is_Some (black_player_ room) -> seated_known st room ->
  cleanup_finished_room id st ⇓ (fun st' => manager_ok (ls_rooms st') /\ plane_ok (ls_plane st') /\
    ls_rooms st' = write_room (ls_rooms st) id (reset room) /\
    re_users (ls_ext st') = re_users (ls_ext st)).
Proof.
  intros Hm Hp Hr [w Ew] [b Eb] Hk. unfold cleanup_finished_room, find_room. rewrite Hr, Ew, Eb. cbv zeta.
  apply returns_bind. eapply returns_mono.
  { apply cleanup_players_ok; [done|..]; apply build_finished_known, Hk; auto. }
  intros p' Hp'. apply returns_ok. split_and!; [|done|done|done].
  destruct (mo_rooms _ Hm _ _ Hr) as (Hid & Hok & _).
  by apply (write_room_ok _ _ room); [..|by apply reset_ok|].
Qed.

#[export] Instance result_finish_ok : FinishOk (C := C) (X := ResultEnv U G S).
Proof.
  split. intros n id winner reason st room (Hm & Hp & Hu & Hk) Hr.
  unfold finish, result_finish, finish_result, find_room. rewrite Hr.
  assert (Ok st ⇓ (fun st' => loop_ok n st' /\ others id st st' /\
      exists room', rooms_ (ls_rooms st') !! id = Some room' /\ settled_as room room')) as Hsame.
  { apply returns_ok. split; [|split; [done|exists room; split; [done|by left]]].
    refine (conj Hm (conj Hp (conj _ Hk))). by apply users_ok_mono with (Datatypes.S n); [|lia]. }
  destruct (white_player_ room) as [w|] eqn:Ew; [|done].
  destruct (black_player_ room) as [b|] eqn:Eb; [|done].
  apply returns_bind. eapply returns_mono; [apply (record_result_ok n); [done|]|].
  { intros player Hpl. by eapply (Hk id room). }
  intros [e' o] (Hu' & _ & Hk'). cbn [fst snd] in *. cbv zeta.
  apply returns_bind. apply (returns_mono _ (fun st1 => ls_rooms st1 = ls_rooms st /\ ls_ext st1 = e' /\
    plane_ok (ls_plane st1))).
  { destruct winner as [c|]; [destruct o as [change|]|]; [|by apply returns_ok..].
    apply returns_bind. eapply returns_mono; [by apply notify_finished_ok|].
    intros p' Ht. apply returns_ok. split_and!; [done|done|by eapply traffic_ok]. }
  intros st1 (E1 & E2 & Hp1). rewrite <- E1 in Hm, Hr.
  eapply returns_mono; [apply (cleanup_room_ok id room); [done|done|done|by rewrite Ew|by rewrite Eb|]|].
  { intros player Hpl. rewrite E2. apply Hk'. rewrite E1 in Hr. by eapply Hk. }
  intros st2 (Hm2 & Hp2 & Er & Eu). split; [refine (conj Hm2 (conj Hp2 _))|split].
  - split; rewrite Eu, E2; [done|]. intros id' r' player. rewrite Er. cbn [write_room set_rooms rooms_].
    rewrite lookup_insert_Some. intros [[<- <-] | [Hne Hr']] Hpl; [by destruct Hpl|].
    apply Hk'. rewrite E1 in Hr'. by eapply Hk.
  - intros id' Hne. rewrite Er, E1. by apply lookup_insert_ne.
  - exists (reset room). rewrite Er. split; [apply lookup_insert_eq|by right].
Qed.

End Handler_lemmas.

(** ** What settling a game does *)

Section Finish.
Context {C U G S : Type} `{Connection C} `{UserRepositoryLaws U} `{GameRepository G} `{RuntimeStore S}.

Notation State := (LoopState C (ResultEnv U G S)).
Implicit Type st : State.

(** No session of this id is bound to a side or a room. *)
Definition unbound (p : Plane (C := C)) (id : Z) : Prop :=
  forall s, find_session p id = Some s -> ps_side s = None /\ ps_room_id s = None.

Lemma find_replace ss s id : find_if (fun x => ps_id x =? id) (replace_session ss s) =
  if decide (id = ps_id s) then (fun _ => s) <$> find_if (fun x => ps_id x =? id) ss
  else find_if (fun x => ps_id x =? id) ss.
Proof.
  induction ss as [|x ss IH]; simpl; [by case_decide|].
  destruct (Z.eqb_spec (ps_id x) (ps_id s)) as [E|E]; simpl.
  - rewrite E. case_decide as Hd; [subst id; by rewrite Z.eqb_refl|].
    by rewrite (proj2 (Z.eqb_neq _ _)) by congruence.
  - rewrite IH. case_decide as Hd; [|done]. subst id. by rewrite (proj2 (Z.eqb_neq _ _)) by congruence.
Qed.

Lemma cleanup_player_unbound player (p : Plane (C := C)) : fp_has_user player = true ->
  cleanup_finished_player player p ⇓ (fun p' => unbound p' (fp_player_id player) /\
    forall id, unbound p id -> unbound p' id).
Proof.
  intros Hu. unfold cleanup_finished_player, unbound.
  destruct (find_session p (fp_player_id player)) as [s|] eqn:E.
  2: { apply returns_ok. rewrite E. done. }
  cbv zeta. unfold session_player. replace (ps_profile (released player s))
    with (Some (mkPlayer (to_int (fp_user_id player)) (fp_username player) (fp_rating player)))
    by (unfold released; by rewrite Hu).
  cbn [deref]. rewrite bind_ok. apply returns_ok.
  pose proof (find_session_id p _ _ E) as [_ Hid].
  destruct (released_same player s) as (E1 & _ & E3 & E4).
  unfold find_session in *. cbn [set_registry set_sessions sessions_]. split.
  - intros s'. rewrite find_replace, E1, decide_True, E by congruence. cbn [fmap option_fmap option_map]. by intros [= <-].
  - intros id Hun s'. rewrite find_replace. case_decide; [|apply Hun].
    intros (? & _ & ->)%fmap_Some. done.
Qed.

Lemma cleanup_players_unbound white black (p : Plane (C := C)) :
  fp_has_user white = true -> fp_has_user black = true ->
  cleanup_finished_players white black p ⇓ (fun p' =>
    unbound p' (fp_player_id white) /\ unbound p' (fp_player_id black)).
Proof.
  intros Hw Hb. unfold cleanup_finished_players. apply returns_bind.
  eapply returns_mono; [by apply cleanup_player_unbound|]. intros p1 [H1' _].
  eapply returns_mono; [by apply cleanup_player_unbound|]. intros p2 [H2' Hk]. auto.
Qed.

(** The player of a colour. *)
Definition by_color {A} (c : PieceColor) (white black : A) : A :=
  match c with White => white | Black => black end.

(** The accounts after the user of rating [w] beat the user of rating [l]. *)
Definition result_accounts (u u' : U) (winner loser w l : Z) : Prop :=
  let share := nearest_share kDefaultKFactor (w - l) in
  let u1 := update_rating u winner (w + share) in
  let u2 := update_rating u1.1 loser (Z.max 0 (l - share)) in
  u' = u2.1 /\
  forall n, credentials u' n =
    (fun a => rated u2.2 loser (Z.max 0 (l - share)) (rated u1.2 winner (w + share) a)) <$> credentials u n.

Lemma update_ratings_spec n room c white black gid (e : ResultEnv U G S) :
  users_ok (Datatypes.S n) (re_users e) ->
  white_player_ room = Some white -> black_player_ room = Some black ->
  known (re_users e) (gp_user_id white) -> known (re_users e) (gp_user_id black) ->
  exists w l u change,
    find_profile_by_id (re_users e) (gp_user_id (by_color c white black)) = Some w /\
    find_profile_by_id (re_users e) (gp_user_id (by_color c black white)) = Some l /\
    result_accounts (re_users e) u (gp_user_id (by_color c white black))
      (gp_user_id (by_color c black white)) (pl_rating w) (pl_rating l) /\
    winner_new_rating change = pl_rating w + nearest_share kDefaultKFactor (pl_rating w - pl_rating l) /\
    update_ratings_for_result room c gid e =
      Ok (mkEnv u (finish_game (re_games e) gid (to_int (gp_user_id (by_color c white black)))).1
            (re_store e), Some change).
Proof.
  intros Hu Ew Eb Kw Kb. unfold update_ratings_for_result.
  assert (find_player_by_color room c = Some (by_color c white black)) as -> by (by destruct c).
  assert (find_player_by_color room (other_color c) = Some (by_color c black white)) as -> by (by destruct c).
  assert (known (re_users e) (gp_user_id (by_color c white black))) as [Iw [w Hw]] by (by destruct c).
  assert (known (re_users e) (gp_user_id (by_color c black white))) as [Il [l Hl]] by (by destruct c).
  rewrite Hw, Hl.
  destruct (calculate_ok n (pl_rating w) (pl_rating l)) as (change & -> & Ecw & Ecl & Fw & Fl);
    [by eapply known_rating..|].
  apply rating_fits in Fw, Fl. rewrite Ecw in Fw. rewrite Ecl in Fl.
  rewrite bind_ok, Ecl. cbv zeta. exists w, l. do 2 eexists. split_and!; [done|done| |exact Ecw|].
  2: { cbv [set_games set_users re_games re_store]. rewrite Ecw. reflexivity. }
  split; [done|]. intros name. destruct Hu as [Hu _].
  destruct (update_rating_accounts (re_users e) (gp_user_id (by_color c white black))
    (pl_rating w + nearest_share kDefaultKFactor (pl_rating w - pl_rating l)) Hu Iw Fw) as [Hu1 Ha1].
  destruct (update_rating_accounts _ (gp_user_id (by_color c black white))
    (Z.max 0 (pl_rating l - nearest_share kDefaultKFactor (pl_rating w - pl_rating l))) Hu1 Il Fl) as [_ Ha2].
  rewrite Ha2, Ha1. by destruct (credentials (re_users e) name).
Qed.

End Finish.


(** A repository that writes down the results, and two users who play in the sample room. *)
#[local] Existing Instance idle_connection.
#[local] Instance log_repository : GameRepository (list (Z * Z)) := {|
  create_game g _ _ := (g, Some 0);
  finish_game g id winner := (g ++ [(id, winner)], true)%list;
  finish_game_without_winner g id := (g, true)
|}.

Definition sample_users : InMemoryUserRepository :=
  mkRepo 21 {[10 := mkStored (mkUser 10 "ann") 1000 ""; 20 := mkStored (mkUser 20 "bob") 1000 ""]}
    {["ann" := 10; "bob" := 20]}.
Definition recorded_room : Room := set_db_game_id sample_room 7.
Definition sample_server :
    LoopState bool (ResultEnv InMemoryUserRepository (list (Z * Z)) InMemoryRuntimeStore) :=
  mkLoop (mkManager sample_board 2 {[1 := recorded_room]}) sample_plane 0
    (mkEnv sample_users [] new_memory_store).

Lemma sample_users_ok : mem_ok sample_users.
Proof.
  split; cbn [sample_users users_ by_username_ Users.next_id_].
  - intros name id. rewrite lookup_insert_Some, lookup_singleton_Some.
    intros [[<- <-] | [_ [<- <-]]]; eexists; (split; [vm_compute; reflexivity|done]).
  - intros id st. rewrite lookup_insert_Some, lookup_singleton_Some.
    intros [[<- <-] | [_ [<- <-]]]; (split; [done|]); (split; [vm_compute; reflexivity|]); simpl; lia.
Qed.

Lemma sample_server_ok (n : nat) : (n <= 100)%nat -> loop_ok n sample_server.
Proof.
  intros Hn. refine (conj _ (conj sample_plane_ok (conj _ _))).
  - split; [apply sample_start|done|]. intros id r. cbn [sample_server ls_rooms rooms_].
    rewrite lookup_singleton_Some. intros [<- <-]. split_and!; [done| |done|done].
    destruct sample_room_ok as [H1 H2 H3 H4]. by split.
  - split; [split; [apply sample_users_ok|done]|]. intros name c (st & E & _ & ->)%mem_credentials_Some;
      [|apply sample_users_ok]. revert E. cbn [sample_server ls_ext re_users sample_users users_].
    rewrite lookup_insert_Some, lookup_singleton_Some. unfold rating_ok.
    intros [[_ <-] | [_ [_ <-]]]; simpl; lia.
  - intros id r player. cbn [sample_server ls_rooms ls_ext rooms_ re_users]. rewrite lookup_singleton_Some.
    intros [_ <-] [[= <-] | [= <-]]; (split; [done|]); eexists; vm_compute; reflexivity.
Qed.

Definition sample_white : GamePlayer := mkGamePlayer 10 White 0.
Definition sample_black : GamePlayer := mkGamePlayer 20 Black 1.


(** A king captured while the capturing piece is unknown leaves no winner: the room is
    cleared, but the game stays open in the database. *)
Lemma no_winner_not_recorded {C U G S : Type} `{Connection C} `{UserRepository U} `{GameRepository G}
    `{RuntimeStore S} (room : Room) (e : ResultEnv U G S) :
  record_result room None KingCapture e = Ok (e, None).
Proof. unfold record_result. by destruct (db_game_id_ room). Qed.
