(* ===== verification/Tables.v ===== *)
(** * The tables of the database

    The schema that [src/src/database/sqlite_database.cpp] and [postgres_connection.cpp]
    create, as values: the players with their unique names and their id sequence, and the
    games.  [TableRepository] is what a user repository over SQL does to the table of
    players ([server/database/i_user_repository.h]); from it follow the laws that the
    services rely on ([table_repository_laws]).  [GameTableRepository] is the same for
    games ([database/i_game_repository.h]).  The two database back ends are instances. *)

From S2P Require Import Prelude Piece CppString Sessions Users GameResult.
From Stdlib Require Import Ascii String.
Open Scope string_scope.
Open Scope Z_scope.

(** ** Rows *)

Record PlayerRow := mkRow {
  row_id : Z; row_username : string; row_rating : Z; row_hash : option string
}.
Record PlayersTable := mkPlayers { rows : list PlayerRow; sequence : Z }.

Record GameRow := mkGame {
  game_id : Z; game_white : Z; game_black : Z; game_winner : option Z; game_status : string
}.
Record GamesTable := mkGames { game_rows : list GameRow; game_sequence : Z }.

Record Tables := mkTables { players_table : PlayersTable; games_table : GamesTable }.

Definition row_by_id (t : PlayersTable) (id : Z) : option PlayerRow :=
  find_if (fun r => row_id r =? id) (rows t).
Definition row_by_name (t : PlayersTable) (name : string) : option PlayerRow :=
  find_if (fun r => String.eqb (row_username r) name) (rows t).

(** What the repositories make of a row: [int] ids and ratings, C strings, and an empty
    hash for NULL. *)
Definition row_player (r : PlayerRow) : Player :=
  mkPlayer (to_int (row_id r)) (c_str (row_username r)) (to_int (row_rating r)).
Definition row_hash_text (r : PlayerRow) : string :=
  match row_hash r with Some h => c_str h | None => "" end.
Definition row_credentials (r : PlayerRow) : UserCredentials :=
  mkCredentials (to_u64 (to_int (row_id r))) (c_str (row_username r)) (to_int (row_rating r))
    (row_hash_text r).

(** What they store: an empty hash is NULL. *)
Definition stored_hash (hash : string) : option string :=
  if is_empty_string hash then None else Some (c_str hash).
Definition new_row (t : PlayersTable) (name : string) (rating : Z) (hash : string) : PlayerRow :=
  mkRow (sequence t + 1) (c_str name) rating (stored_hash hash).
Definition add_row (t : PlayersTable) (r : PlayerRow) : PlayersTable :=
  mkPlayers (rows t ++ [r])%list (row_id r).
Definition set_rating (id rating : Z) (r : PlayerRow) : PlayerRow :=
  if row_id r =? id then mkRow (row_id r) (row_username r) rating (row_hash r) else r.

(** The constraints of the schema, and ids and ratings that an [int] can hold. *)
Definition row_ok (t : PlayersTable) (r : PlayerRow) : Prop :=
  0 < row_id r <= sequence t /\ fits_int (row_rating r) /\ clean (row_username r) /\
  clean (default "" (row_hash r)).
Record table_ok (t : PlayersTable) : Prop := {
  to_rows : Forall (row_ok t) (rows t);
  to_ids : NoDup (row_id <$> rows t);
  to_names : NoDup (row_username <$> rows t);
  to_sequence : 0 <= sequence t < 2 ^ 31
}.

(** The outcome of an insertion: the name was new and the row is there, or nothing was
    stored, though an id may have been used up. *)
Definition created (t : PlayersTable) (name : string) (rating : Z) (hash : string)
    (t' : PlayersTable) (o : option Player) : Prop :=
  match o with
  | Some p => row_by_name t (c_str name) = None /\ t' = add_row t (new_row t name rating hash) /\
      p = mkPlayer (to_int (sequence t + 1)) name rating
  | None => rows t' = rows t /\ sequence t <= sequence t' <= sequence t + 1
  end.

(** ** The interface to the services *)

Class TableRepository (S : Type) `{UserRepository S} := {
  connected : S -> Prop;
  players : S -> PlayersTable;
  tr_find s name : connected s ->
    find_credentials_by_username s name = Ok (row_credentials <$> row_by_name (players s) (c_str name));
  tr_profile s id : connected s ->
    find_profile_by_id s id = row_player <$> row_by_id (players s) (to_int id);
  tr_create s name rating hash : connected s -> fits_int rating ->
    let r := create_user_with_password s name rating hash in
    connected r.1 /\ created (players s) name rating hash (players r.1) r.2;
  tr_update s id rating : connected s -> fits_int rating ->
    let r := update_rating s id rating in
    connected r.1 /\ players r.1 =
      mkPlayers (if r.2 then set_rating (to_int id) rating <$> rows (players s) else rows (players s))
        (sequence (players s))
}.

(** ** Lemmas on tables *)

Lemma find_if_app {A} (f : A -> bool) l l' :
  find_if f (l ++ l')%list = match find_if f l with Some x => Some x | None => find_if f l' end.
Proof. induction l as [|x l IH]; simpl; [done|]. by destruct (f x). Qed.

Lemma find_if_fmap {A} (f : A -> bool) (g : A -> A) l : (forall x, f (g x) = f x) ->
  find_if f (g <$> l) = g <$> find_if f l.
Proof. intros Hg. induction l as [|x l IH]; [done|]. cbn. rewrite Hg. by destruct (f x). Qed.

(** Looking up a key that determines the element. *)
Lemma find_if_key {A} (f : A -> bool) l x :
  (forall y, y ∈ l -> f y = true -> y = x) -> x ∈ l -> f x = true -> find_if f l = Some x.
Proof.
  intros Hu Hin Hx. destruct (find_if f l) as [y|] eqn:E.
  - apply find_if_elem in E as [Hy Hf]. by rewrite (Hu y Hy Hf).
  - assert (is_Some (find_if f l)) as [y Hy]; [|congruence]. apply find_if_Some, existsb_exists.
    exists x. split; [by apply list_elem_of_In|done].
Qed.

Lemma elem_of_key {A B} (k : A -> B) l x y : NoDup (k <$> l) -> x ∈ l -> y ∈ l -> k x = k y -> x = y.
Proof.
  intros Hn (i & Hi)%list_elem_of_lookup (j & Hj)%list_elem_of_lookup E.
  assert (i = j) as ->; [|congruence]. eapply NoDup_lookup; [exact Hn|..].
  - by rewrite list_lookup_fmap, Hi.
  - rewrite list_lookup_fmap, Hj. simpl. by rewrite E.
Qed.

Lemma row_by_id_spec t id r : table_ok t -> row_by_id t id = Some r <-> r ∈ rows t /\ row_id r = id.
Proof.
  intros Ht. split; [by intros [? ?%Z.eqb_eq]%find_if_elem|]. intros [Hr <-].
  apply find_if_key; [|done|apply Z.eqb_refl]. intros y Hy E%Z.eqb_eq.
  by apply (elem_of_key row_id (rows t)); [apply Ht|..].
Qed.

Lemma row_by_name_spec t name r : table_ok t ->
  row_by_name t name = Some r <-> r ∈ rows t /\ row_username r = name.
Proof.
  intros Ht. split; [by intros [? ?%String.eqb_eq]%find_if_elem|]. intros [Hr <-].
  apply find_if_key; [|done|apply String.eqb_refl]. intros y Hy E%String.eqb_eq.
  by apply (elem_of_key row_username (rows t)); [apply Ht|..].
Qed.

Lemma row_in_ok t r : table_ok t -> r ∈ rows t -> row_ok t r.
Proof. intros [Hr _ _ _]. by rewrite Forall_forall in Hr; apply Hr. Qed.

Lemma row_id_small t r : table_ok t -> row_ok t r -> to_int (row_id r) = row_id r /\ to_u64 (row_id r) = row_id r.
Proof.
  intros Ht (Hid & _). pose proof (to_sequence t Ht). split.
  - apply to_int_id. unfold fits_int. lia.
  - apply wrap_u_id. lia.
Qed.

Lemma row_credentials_ok t r : table_ok t -> row_ok t r ->
  row_credentials r = mkCredentials (row_id r) (row_username r) (row_rating r) (default "" (row_hash r)).
Proof.
  intros Ht Hr. destruct (row_id_small t r Ht Hr) as [E1 E2]. destruct Hr as (_ & Hra & Hn & Hh).
  unfold row_credentials. rewrite E1, E2, c_str_clean, to_int_id by done. f_equal.
  unfold row_hash_text. destruct (row_hash r); [by apply c_str_clean|done].
Qed.

Lemma row_profile t r : table_ok t -> row_ok t r -> row_player r = profile (row_credentials r).
Proof.
  intros Ht Hr. rewrite (row_credentials_ok t) by done. unfold row_player, profile.
  destruct Hr as (_ & Hra & Hn & _). by rewrite c_str_clean, (to_int_id (row_rating r)) by done.
Qed.

Lemma stored_hash_clean hash : clean hash -> default "" (stored_hash hash) = hash.
Proof.
  intros Hc. unfold stored_hash. destruct hash as [|c h]; [done|]. cbn [is_empty_string default].
  by apply c_str_clean.
Qed.

Lemma c_str_is_clean s : clean (c_str s).
Proof.
  unfold clean, c_str. induction s as [|c s IH]; [done|]. cbn [span]. destruct (not_nul c) eqn:E; [|done].
  destruct (span not_nul s). cbn [fst all_chars] in *. by rewrite E, IH.
Qed.

Lemma add_row_ok t name rating hash : table_ok t -> sequence t + 1 < 2 ^ 31 -> fits_int rating ->
  row_by_name t (c_str name) = None -> table_ok (add_row t (new_row t name rating hash)).
Proof.
  intros Ht Hs Hr Hn. pose proof Ht as [H1 H2 H3 H4]. split; cbn [add_row rows sequence new_row row_id].
  - apply Forall_app. split; [|apply Forall_singleton].
    + eapply Forall_impl; [exact H1|]. intros r (Hid & Hrest). split; [simpl; lia|done].
    + split_and!; cbn [row_id row_rating row_username row_hash sequence add_row new_row]; try lia; [done|apply c_str_is_clean|].
      unfold stored_hash. destruct (is_empty_string hash); [done|apply c_str_is_clean].
  - rewrite fmap_app. apply NoDup_app. split_and!; [done| |apply NoDup_singleton].
    intros i (r & -> & Hin)%list_elem_of_fmap. cbn. rewrite list_elem_of_singleton.
    destruct (row_in_ok t r Ht Hin) as [Hid _]. lia.
  - rewrite fmap_app. apply NoDup_app. split_and!; [done| |apply NoDup_singleton].
    intros i (r & -> & Hin)%list_elem_of_fmap. cbn. rewrite list_elem_of_singleton. intros E.
    assert (row_by_name t (c_str name) = Some r) as Hx by (by apply row_by_name_spec). congruence.
  - lia.
Qed.

Lemma same_rows_ok t t' : table_ok t -> rows t' = rows t -> sequence t <= sequence t' < 2 ^ 31 -> table_ok t'.
Proof.
  intros [H1 H2 H3 H4] E Hs. split; rewrite ?E; [|done|done|lia].
  eapply Forall_impl; [exact H1|]. intros r (Hid & Hrest). split; [lia|done].
Qed.

Lemma set_rating_keys id rating r : row_id (set_rating id rating r) = row_id r /\
  row_username (set_rating id rating r) = row_username r /\ row_hash (set_rating id rating r) = row_hash r.
Proof. unfold set_rating. by destruct (row_id r =? id). Qed.

Lemma rated_rows_ok t id rating : table_ok t -> fits_int rating ->
  table_ok (mkPlayers (set_rating id rating <$> rows t) (sequence t)).
Proof.
  intros [H1 H2 H3 H4] Hr. split; cbn [rows sequence].
  - apply Forall_fmap. eapply Forall_impl; [exact H1|]. intros r (Hid & Hra & Hn & Hh).
    destruct (set_rating_keys id rating r) as (E1 & E2 & E3). unfold compose, row_ok. rewrite E1, E2, E3.
    split_and!; try done; cbn; [lia..|]. unfold set_rating. by destruct (row_id r =? id).
  - rewrite <- list_fmap_compose. by rewrite (list_fmap_ext _ row_id) by (intros; apply set_rating_keys).
  - rewrite <- list_fmap_compose. by rewrite (list_fmap_ext _ row_username) by (intros; apply set_rating_keys).
  - done.
Qed.

(** ** The laws of a repository over a table *)

Section Laws.
Context {S : Type} `{TableRepository S}.

Definition accounts (s : S) (name : string) : option UserCredentials :=
  row_credentials <$> row_by_name (players s) name.

Lemma accounts_spec s name c : table_ok (players s) ->
  accounts s name = Some c <-> exists r, r ∈ rows (players s) /\ row_ok (players s) r /\
    row_username r = name /\ c = row_credentials r.
Proof.
  intros Ht. unfold accounts. rewrite fmap_Some. split.
  - intros (r & [Hr Hn]%row_by_name_spec & ->); [|done]. exists r. by split_and!; [|apply row_in_ok|..].
  - intros (r & Hr & _ & Hn & ->). exists r. split; [by apply row_by_name_spec|done].
Qed.

(** Rewrites the credentials of a row of a good table. *)
Ltac row_simpl Ht Hr := rewrite (row_credentials_ok _ _ Ht Hr); cbn [uc_id uc_username uc_rating uc_password_hash].

Lemma profile_by_id s id p : connected s -> table_ok (players s) -> 0 <= id < 2 ^ 31 ->
  find_profile_by_id s id = Some p <->
  exists name c, accounts s name = Some c /\ uc_id c = id /\ p = profile c.
Proof.
  intros Hc Ht Hid. rewrite tr_profile, to_int_id, fmap_Some by (done || unfold fits_int; lia). split.
  - intros (r & [Hr Hi]%row_by_id_spec & ->); [|done]. pose proof (row_in_ok _ _ Ht Hr) as Hok.
    exists (row_username r), (row_credentials r). split_and!; [apply accounts_spec; eauto| |by eapply row_profile].
    by row_simpl Ht Hok.
  - intros (name & c & (r & Hr & Hok & Hn & ->)%accounts_spec & Hi & ->); [|done]. exists r.
    split; [|symmetry; by eapply row_profile]. apply row_by_id_spec; [done|]. split; [done|].
    revert Hi. by row_simpl Ht Hok.
Qed.

Lemma accounts_add s s' name rating hash : table_ok (players s) -> clean name -> clean hash ->
  fits_int rating -> sequence (players s) + 1 < 2 ^ 31 -> row_by_name (players s) (c_str name) = None ->
  players s' = add_row (players s) (new_row (players s) name rating hash) ->
  forall n, accounts s' n = if decide (n = name)
    then Some (mkCredentials (sequence (players s) + 1) name rating hash) else accounts s n.
Proof.
  intros Ht Hn Hh Hr Hs Hnone E n. pose proof (add_row_ok _ name rating hash Ht Hs Hr Hnone) as Ht'.
  unfold accounts. rewrite E. unfold row_by_name at 1. cbn [add_row rows]. rewrite find_if_app.
  fold (row_by_name (players s) n). rewrite c_str_clean in Hnone by done. case_decide as Hd.
  - subst n. rewrite Hnone. cbn [find_if new_row row_username]. rewrite c_str_clean, String.eqb_refl by done.
    cbn [fmap option_fmap option_map]. f_equal. rewrite (row_credentials_ok _ _ Ht').
    2: { apply row_in_ok; [done|]. cbn [add_row rows]. apply elem_of_app. right.
         by apply list_elem_of_singleton. }
    cbn [new_row row_id row_username row_rating row_hash]. by rewrite c_str_clean, stored_hash_clean.
  - destruct (row_by_name (players s) n) as [r|]; [done|]. cbn [find_if new_row row_username].
    rewrite c_str_clean by done. by rewrite (proj2 (String.eqb_neq _ _)) by congruence.
Qed.

Lemma accounts_rate s s' id rating : table_ok (players s) -> fits_int rating ->
  players s' = mkPlayers (set_rating id rating <$> rows (players s)) (sequence (players s)) ->
  forall n, accounts s' n = (fun c => if decide (uc_id c = id)
    then mkCredentials id (uc_username c) rating (uc_password_hash c) else c) <$> accounts s n.
Proof.
  intros Ht Hr E n. pose proof (rated_rows_ok _ id rating Ht Hr) as Ht'. unfold accounts. rewrite E.
  unfold row_by_name. cbn [rows]. rewrite find_if_fmap by (intros r; by destruct (set_rating_keys id rating r) as (_ & -> & _)).
  destruct (find_if _ _) as [r|] eqn:Ef; [|done]. apply find_if_elem in Ef as [Hin _].
  pose proof (row_in_ok _ _ Ht Hin) as Hok. cbn [fmap option_fmap option_map]. f_equal.
  assert (row_ok (mkPlayers (set_rating id rating <$> rows (players s)) (sequence (players s)))
    (set_rating id rating r)) as Hok' by (apply row_in_ok; [done|by apply list_elem_of_fmap_2]).
  rewrite (row_credentials_ok _ _ Ht' Hok'), (row_credentials_ok _ _ Ht Hok). cbn [uc_id uc_username uc_password_hash].
  unfold set_rating. case_decide as Hd; [rewrite (proj2 (Z.eqb_eq _ _) Hd)|rewrite (proj2 (Z.eqb_neq _ _) Hd)];
    cbn [row_id row_username row_rating row_hash]; congruence.
Qed.

#[export] Program Instance table_repository_laws : UserRepositoryLaws S := {
  repo_ok s := connected s /\ table_ok (players s);
  ids_left n s := sequence (players s) + Z.of_nat n < 2 ^ 31;
  text_ok := clean;
  id_ok id := 0 <= id < 2 ^ 31;
  credentials := accounts
}.
Next Obligation. intros n s Hn. cbv beta in *. lia. Qed.
Next Obligation. done. Qed.
Next Obligation. intros s name [Hc _] Hn. cbv beta in Hn. by rewrite tr_find, c_str_clean. Qed.
Next Obligation.
  intros s name c [_ Ht] (r & _ & Hok & <- & ->)%accounts_spec; [|done]. by row_simpl Ht Hok.
Qed.
Next Obligation.
  intros s n n' c c' [_ Ht] (r & Hr & Hok & <- & ->)%accounts_spec (r' & Hr' & Hok' & <- & ->)%accounts_spec; [|done..].
  row_simpl Ht Hok. row_simpl Ht Hok'. intros E. f_equal.
  by apply (elem_of_key row_id (rows (players s))); [apply Ht|..].
Qed.
Next Obligation.
  intros s name c [_ Ht] (r & _ & Hok & _ & ->)%accounts_spec; [|done]. row_simpl Ht Hok.
  destruct Hok as [Hid _]. pose proof (to_sequence _ Ht). lia.
Qed.
Next Obligation. intros s id p [Hc Ht] Hid. by apply profile_by_id. Qed.
Next Obligation.
  intros n s name rating hash s' p [Hc Ht] Hids Hn Hh Hr E. cbv beta in *.
  destruct (tr_create s name rating hash Hc Hr) as [Hc' Hcr]. rewrite E in Hc', Hcr. cbn [fst snd] in *.
  destruct Hcr as (Hnone & Et & ->).
  split_and!; [done|rewrite Et; apply add_row_ok; [done|lia|done|done]|rewrite Et; cbn; lia| |].
  - unfold accounts. rewrite c_str_clean in Hnone by done. by rewrite Hnone.
  - exists (sequence (players s) + 1). split; [done|]. apply accounts_add; [done..|lia|done|done].
Qed.
Next Obligation.
  intros n s name rating hash s' [Hc Ht] Hids Hr E. cbv beta in *.
  destruct (tr_create s name rating hash Hc Hr) as [Hc' Hcr]. rewrite E in Hc', Hcr. cbn [fst snd] in *.
  destruct Hcr as [Er Hs]. split_and!; [done|apply (same_rows_ok (players s)); [done|done|lia]|lia|].
  intros m. unfold accounts, row_by_name. by rewrite Er.
Qed.
Next Obligation.
  intros s id rating [Hc Ht] Hid Hr. cbv beta in *. destruct (tr_update s id rating Hc Hr) as [Hc' Et].
  rewrite to_int_id in Et by (unfold fits_int; lia).
  destruct (update_rating s id rating) as [s' []]; cbn [fst snd] in *.
  - split_and!; [done|rewrite Et; by apply rated_rows_ok|intros _; by apply accounts_rate|done].
  - assert (players s' = players s) as Es by (rewrite Et; by destruct (players s)).
    split_and!; [done|by rewrite Es|done|]. intros _ n. unfold accounts. by rewrite Es.
Qed.

End Laws.

(** ** Games *)

Definition finish_row (id : Z) (winner : option Z) (r : GameRow) : GameRow :=
  if game_id r =? id then mkGame (game_id r) (game_white r) (game_black r) winner "finished" else r.
Definition new_game (t : GamesTable) (white black : Z) : GameRow :=
  mkGame (game_sequence t + 1) white black None "active".
Definition finish_rows (id : Z) (winner : option Z) (t : GamesTable) : GamesTable :=
  mkGames (finish_row id winner <$> game_rows t) (game_sequence t).

(** What a game repository over SQL does to the table of games. *)
Class GameTableRepository (G : Type) `{GameRepository G} := {
  games_connected : G -> Prop;
  games : G -> GamesTable;
  gt_create g white black : games_connected g -> fits_int white -> fits_int black ->
    let r := create_game g white black in
    games_connected r.1 /\
    match r.2 with
    | Some id => id = to_int (game_sequence (games g) + 1) /\
        games r.1 = mkGames (game_rows (games g) ++ [new_game (games g) white black])%list
                      (game_sequence (games g) + 1)
    | None => game_rows (games r.1) = game_rows (games g) /\
        game_sequence (games g) <= game_sequence (games r.1) <= game_sequence (games g) + 1
    end;
  gt_finish g id winner : games_connected g -> fits_int id -> fits_int winner ->
    let r := finish_game g id winner in
    games_connected r.1 /\ games r.1 = if r.2 then finish_rows id (Some winner) (games g) else games g;
  gt_finish_without_winner g id : games_connected g -> fits_int id ->
    let r := finish_game_without_winner g id in
    games_connected r.1 /\ games r.1 = if r.2 then finish_rows id None (games g) else games g
}.

Record games_ok (t : GamesTable) : Prop := {
  go_ids : Forall (fun r => 0 < game_id r <= game_sequence t) (game_rows t);
  go_nodup : NoDup (game_id <$> game_rows t);
  go_sequence : 0 <= game_sequence t < 2 ^ 31
}.

Definition game_by_id (t : GamesTable) (id : Z) : option GameRow :=
  find_if (fun r => game_id r =? id) (game_rows t).

Lemma game_by_id_spec t id r : games_ok t -> game_by_id t id = Some r <-> r ∈ game_rows t /\ game_id r = id.
Proof.
  intros Ht. split; [by intros [? ?%Z.eqb_eq]%find_if_elem|]. intros [Hr <-].
  apply find_if_key; [|done|apply Z.eqb_refl]. intros y Hy E%Z.eqb_eq.
  by apply (elem_of_key game_id (game_rows t)); [apply Ht|..].
Qed.

Lemma finish_rows_spec t id winner i :
  game_by_id (finish_rows id winner t) i =
  if decide (i = id) then (fun r => mkGame id (game_white r) (game_black r) winner "finished") <$> game_by_id t i
  else game_by_id t i.
Proof.
  unfold game_by_id. cbn [finish_rows game_rows].
  assert (forall r, game_id (finish_row id winner r) = game_id r) as Hid
    by (intros r; unfold finish_row; by destruct (game_id r =? id)).
  rewrite find_if_fmap by (intros r; by rewrite Hid).
  destruct (find_if _ _) as [r|] eqn:E; [|by case_decide]. apply find_if_elem in E as [_ Hr%Z.eqb_eq].
  cbn [fmap option_fmap option_map]. unfold finish_row. rewrite Hr.
  destruct (Z.eqb_spec i id) as [->|Hne]; [by rewrite decide_True|by rewrite decide_False].
Qed.

Lemma finish_rows_ok t id winner : games_ok t -> games_ok (finish_rows id winner t).
Proof.
  assert (forall r, game_id (finish_row id winner r) = game_id r) as Hid
    by (intros r; unfold finish_row; by destruct (game_id r =? id)).
  intros [H1 H2 H3]. split; cbn [finish_rows game_rows game_sequence]; [| |done].
  - apply Forall_fmap. eapply Forall_impl; [exact H1|]. intros r. unfold compose. by rewrite Hid.
  - rewrite <- list_fmap_compose. by rewrite (list_fmap_ext _ game_id) by (intros; apply Hid).
Qed.

(** A new game gets an id of its own; settling it touches no other game. *)
Lemma new_game_spec t white black : games_ok t -> game_sequence t + 1 < 2 ^ 31 ->
  let t' := mkGames (game_rows t ++ [new_game t white black])%list (game_sequence t + 1) in
  games_ok t' /\ game_by_id t (game_sequence t + 1) = None /\
  forall i, game_by_id t' i =
    if decide (i = game_sequence t + 1) then Some (new_game t white black) else game_by_id t i.
Proof.
  intros Ht Hs. pose proof Ht as [H1 H2 H3]. cbv zeta.
  assert (forall r, r ∈ game_rows t -> 0 < game_id r <= game_sequence t) as Hids
    by (by rewrite Forall_forall in H1).
  assert (game_by_id t (game_sequence t + 1) = None) as Hnone.
  { destruct (game_by_id t _) as [r|] eqn:E; [|done]. apply game_by_id_spec in E as [Hr E]; [|done].
    specialize (Hids r Hr). lia. }
  split_and!; [split|done|].
  - cbn [game_rows game_sequence]. apply Forall_app. split; [|apply Forall_singleton; simpl; lia].
    eapply Forall_impl; [exact H1|]. simpl. lia.
  - cbn [game_rows]. rewrite fmap_app. apply NoDup_app. split_and!; [done| |apply NoDup_singleton].
    intros i (r & -> & Hr)%list_elem_of_fmap. cbn. rewrite list_elem_of_singleton. specialize (Hids r Hr). lia.
  - simpl. lia.
  - intros i. unfold game_by_id at 1. cbn [game_rows]. rewrite find_if_app. fold (game_by_id t i).
    case_decide as Hd; [subst i; rewrite Hnone; cbn; by rewrite Z.eqb_refl|].
    destruct (game_by_id t i); [done|]. cbn. by rewrite (proj2 (Z.eqb_neq _ _)) by congruence.
Qed.
