(* ===== verification/Sqlite.v ===== *)
(** * The SQLite back end

    [src/src/database/sqlite_database.cpp], [player_repository.cpp], [game_repository.cpp]
    with [sqlite_game_repository.h], and [server/database/sqlite_user_repository.cpp].

    The SQLite library is the environment: [Sqlite] holds the calls that the code makes,
    and [SqliteLaws] what SQLite documents about the statements that the code sends, in
    terms of the tables of [Tables.v].  A null handle is [None].  The repositories are
    instances of the interfaces of [Tables.v], and so of those of the services. *)

From S2P Require Import Prelude Piece CppString PasswordHash Sessions Users GameResult Tables.
From Stdlib Require Import Ascii String.
Open Scope string_scope.
Open Scope Z_scope.

(** ** The environment *)

Inductive SqlValue := SqlNull | SqlInt (n : Z) | SqlText (t : string).
Inductive StepResult := StepRow (columns : list SqlValue) | StepDone | StepError.

(** [sqlite_query] is the step of a SELECT, which leaves the database alone;
    [sqlite_exec] returns the error message of a failure, which may be null. *)
Class Sqlite (D : Type) := {
  sqlite_open : string -> option D * bool;
  sqlite_exec : D -> string -> D * option (option string);
  sqlite_prepare : D -> string -> bool;
  sqlite_query : D -> string -> list SqlValue -> StepResult;
  sqlite_step : D -> string -> list SqlValue -> D * StepResult;
  sqlite_last_insert_rowid : D -> Z;
  sqlite_column_int : SqlValue -> Z;
  sqlite_column_text : SqlValue -> option string
}.

Definition is_done (r : StepResult) : bool := match r with StepDone => true | _ => false end.

(** ** The statements *)

Definition kPlayersTableSql : string := "
CREATE TABLE IF NOT EXISTS players (
    id INTEGER PRIMARY KEY AUTOINCREMENT,
    username TEXT NOT NULL UNIQUE,
    rating INTEGER NOT NULL DEFAULT 1000,
    password_hash TEXT
);
".
Definition kPlayersRatingMigrationSql : string :=
  "ALTER TABLE players ADD COLUMN rating INTEGER NOT NULL DEFAULT 1000;".
Definition kPlayersPasswordHashMigrationSql : string :=
  "ALTER TABLE players ADD COLUMN password_hash TEXT;".
Definition kGamesTableSql : string := "
CREATE TABLE IF NOT EXISTS games (
    id INTEGER PRIMARY KEY AUTOINCREMENT,
    white_player_id INTEGER,
    black_player_id INTEGER,
    winner_id INTEGER,
    status TEXT NOT NULL,
    created_at TEXT NOT NULL
);
".

Definition select_player_sql : string := "SELECT id, username, rating FROM players WHERE id = ? LIMIT 1;".
Definition select_credentials_sql : string :=
  "SELECT id, username, rating, password_hash FROM players WHERE username = ? LIMIT 1;".
Definition insert_player_sql : string :=
  "INSERT INTO players (username, rating, password_hash) VALUES (?, ?, ?);".
Definition update_rating_sql : string := "UPDATE players SET rating = ? WHERE id = ?;".
Definition insert_game_sql : string :=
  "INSERT INTO games (white_player_id, black_player_id, status, created_at) " ++
  "VALUES (?, ?, 'active', datetime('now'));".
Definition finish_game_sql : string := "UPDATE games SET status = 'finished', winner_id = ? WHERE id = ?;".
Definition finish_without_winner_sql : string :=
  "UPDATE games SET status = 'finished', winner_id = NULL WHERE id = ?;".

Definition hash_value (h : option string) : SqlValue :=
  match h with Some t => SqlText t | None => SqlNull end.

(** What SQLite documents about these statements, on a database with the schema:
    column conversions; SELECT returns the row of a unique key; an INSERT either stores a
    row whose AUTOINCREMENT id follows the last one used, or fails and stores nothing, and
    fails if the name exists; an UPDATE changes the rows of its WHERE clause or fails. *)
Class SqliteLaws (D : Type) `{Sqlite D} := {
  tables : D -> Tables;
  schema : D -> Prop;
  column_int_int n : sqlite_column_int (SqlInt n) = to_int n;
  column_text_text t : sqlite_column_text (SqlText t) = Some t;
  column_text_null : sqlite_column_text SqlNull = None;
  prepare_ok d sql : schema d ->
    sql ∈ [select_player_sql; select_credentials_sql; insert_player_sql; update_rating_sql;
           insert_game_sql; finish_game_sql; finish_without_winner_sql] ->
    sqlite_prepare d sql = true;
  select_player d id : schema d ->
    sqlite_query d select_player_sql [SqlInt id] =
    match row_by_id (players_table (tables d)) id with
    | Some r => StepRow [SqlInt (row_id r); SqlText (row_username r); SqlInt (row_rating r)]
    | None => StepDone
    end;
  select_credentials d name : schema d ->
    sqlite_query d select_credentials_sql [SqlText name] =
    match row_by_name (players_table (tables d)) name with
    | Some r => StepRow [SqlInt (row_id r); SqlText (row_username r); SqlInt (row_rating r);
                         hash_value (row_hash r)]
    | None => StepDone
    end;
  insert_player d name rating hash : schema d ->
    let t := players_table (tables d) in
    let r := sqlite_step d insert_player_sql [SqlText name; SqlInt rating; hash_value hash] in
    schema r.1 /\ games_table (tables r.1) = games_table (tables d) /\
    (is_done r.2 = true -> row_by_name t name = None /\
      players_table (tables r.1) = add_row t (mkRow (sequence t + 1) name rating hash) /\
      sqlite_last_insert_rowid r.1 = sequence t + 1) /\
    (is_done r.2 = false -> rows (players_table (tables r.1)) = rows t /\
      sequence t <= sequence (players_table (tables r.1)) <= sequence t + 1);
  update_player d rating id : schema d ->
    let t := players_table (tables d) in
    let r := sqlite_step d update_rating_sql [SqlInt rating; SqlInt id] in
    schema r.1 /\ tables r.1 = mkTables
      (if is_done r.2 then mkPlayers (set_rating id rating <$> rows t) (sequence t) else t)
      (games_table (tables d));
  insert_game d white black : schema d ->
    let t := games_table (tables d) in
    let r := sqlite_step d insert_game_sql [SqlInt white; SqlInt black] in
    schema r.1 /\ players_table (tables r.1) = players_table (tables d) /\
    (is_done r.2 = true -> games_table (tables r.1) =
        mkGames (game_rows t ++ [new_game t white black])%list (game_sequence t + 1) /\
      sqlite_last_insert_rowid r.1 = game_sequence t + 1) /\
    (is_done r.2 = false -> game_rows (games_table (tables r.1)) = game_rows t /\
      game_sequence t <= game_sequence (games_table (tables r.1)) <= game_sequence t + 1);
  update_game d winner id : schema d ->
    let r := sqlite_step d finish_game_sql [SqlInt winner; SqlInt id] in
    schema r.1 /\ tables r.1 = mkTables (players_table (tables d))
      (if is_done r.2 then finish_rows id (Some winner) (games_table (tables d))
       else games_table (tables d));
  update_game_no_winner d id : schema d ->
    let r := sqlite_step d finish_without_winner_sql [SqlInt id] in
    schema r.1 /\ tables r.1 = mkTables (players_table (tables d))
      (if is_done r.2 then finish_rows id None (games_table (tables d))
       else games_table (tables d))
}.

(** ** [SqliteDatabase] *)

Record SqliteDatabase (D : Type) := mkSqlite { path_ : string; db_ : option D }.
Arguments mkSqlite {D} _ _.
Arguments path_ {D} _.
Arguments db_ {D} _.

Record PlayerCredentials := mkPlayerCredentials {
  pc_id : Z; pc_username : string; pc_rating : Z; pc_password_hash : string
}.

(** [text.find(pattern) != npos]. *)
Definition contains (pattern text : string) : bool :=
  match String.index 0 pattern text with Some _ => true | None => false end.

Section Code.
Context {D : Type} `{Sqlite D}.
Notation Db := (SqliteDatabase D).

Definition set_db (s : Db) (d : D) : Db := mkSqlite (path_ s) (Some d).

Definition sqlite_database (path : string) : Db := mkSqlite path None.

Definition exec_sql (d : D) (sql : string) : D * bool :=
  let '(d, error) := sqlite_exec d sql in
  (d, match error with None => true | Some _ => false end).

Definition exec_sql_ignore_duplicate_column (d : D) (sql : string) : D * bool :=
  let '(d, error) := sqlite_exec d sql in
  (d, match error with
      | None => true
      | Some (Some err_msg) => contains "duplicate column name" (c_str err_msg)
      | Some None => false
      end).

Definition open_database (s : Db) : Db * bool :=
  match db_ s with
  | Some _ => (s, true)
  | None => let '(db, ok) := sqlite_open (c_str (path_ s)) in (mkSqlite (path_ s) db, ok)
  end.

(** [a && b]: the second statement runs if the first succeeded. *)
Definition exec_then (first second : D -> D * bool) (d : D) : D * bool :=
  let '(d, ok) := first d in if ok : bool then second d else (d, false).

Definition initialize_schema (s : Db) : Db * bool :=
  match db_ s with
  | None => (s, false)
  | Some d =>
      let '(d, ok) :=
        exec_then (fun d => exec_sql d kPlayersTableSql)
        (exec_then (fun d => exec_sql_ignore_duplicate_column d kPlayersRatingMigrationSql)
        (exec_then (fun d => exec_sql_ignore_duplicate_column d kPlayersPasswordHashMigrationSql)
                   (fun d => exec_sql d kGamesTableSql))) d in
      (set_db s d, ok)
  end.

Definition is_connected (s : Db) : bool := match db_ s with Some _ => true | None => false end.
Definition connection (s : Db) : option D := db_ s.

(** ** [PlayerRepository] *)

(** A column of the current row. *)
Definition column (columns : list SqlValue) (i : nat) : SqlValue := default SqlNull (columns !! i).

Definition find_player_by_id (s : Db) (player_id : Z) : option Player :=
  match connection s with
  | None => None
  | Some db =>
      if negb (sqlite_prepare db select_player_sql) then None
      else match sqlite_query db select_player_sql [SqlInt player_id] with
      | StepRow row =>
          let id := sqlite_column_int (column row 0) in
          let name := sqlite_column_text (column row 1) in
          let rating := sqlite_column_int (column row 2) in
          match name with Some name => Some (mkPlayer id (c_str name) rating) | None => None end
      | _ => None
      end
  end.

Definition find_player_credentials (s : Db) (username : string) : option PlayerCredentials :=
  match connection s with
  | None => None
  | Some db =>
      if negb (sqlite_prepare db select_credentials_sql) then None
      else match sqlite_query db select_credentials_sql [SqlText (c_str username)] with
      | StepRow row =>
          let id := sqlite_column_int (column row 0) in
          let name := sqlite_column_text (column row 1) in
          let rating := sqlite_column_int (column row 2) in
          let password_hash := sqlite_column_text (column row 3) in
          match name with
          | Some name =>
              Some (mkPlayerCredentials id (c_str name) rating
                (match password_hash with Some h => c_str h | None => "" end))
          | None => None
          end
      | _ => None
      end
  end.

Definition find_player_by_username (s : Db) (username : string) : option Player :=
  match find_player_credentials s username with
  | Some c => Some (mkPlayer (pc_id c) (pc_username c) (pc_rating c))
  | None => None
  end.

Definition create_player (s : Db) (username : string) (rating : Z) (password_hash : string) :
    Db * option Player :=
  match connection s with
  | None => (s, None)
  | Some db =>
      if negb (sqlite_prepare db insert_player_sql) then (s, None)
      else
        let hash := if is_empty_string password_hash then SqlNull else SqlText (c_str password_hash) in
        let '(db, r) := sqlite_step db insert_player_sql [SqlText (c_str username); SqlInt rating; hash] in
        let s := set_db s db in
        if negb (is_done r) then (s, None)
        else (s, Some (mkPlayer (to_int (sqlite_last_insert_rowid db)) username rating))
  end.

Definition update_player_rating (s : Db) (player_id rating : Z) : Db * bool :=
  match connection s with
  | None => (s, false)
  | Some db =>
      if negb (sqlite_prepare db update_rating_sql) then (s, false)
      else
        let '(db, r) := sqlite_step db update_rating_sql [SqlInt rating; SqlInt player_id] in
        (set_db s db, is_done r)
  end.

(** ** [GameRepository] *)

Definition sqlite_create_game (s : Db) (white_player_id black_player_id : Z) : Db * option Z :=
  match connection s with
  | None => (s, None)
  | Some db =>
      if negb (sqlite_prepare db insert_game_sql) then (s, None)
      else
        let '(db, r) := sqlite_step db insert_game_sql [SqlInt white_player_id; SqlInt black_player_id] in
        let s := set_db s db in
        if negb (is_done r) then (s, None)
        else (s, Some (to_int (sqlite_last_insert_rowid db)))
  end.

Definition sqlite_finish_game (s : Db) (game_id winner_player_id : Z) : Db * bool :=
  match connection s with
  | None => (s, false)
  | Some db =>
      if negb (sqlite_prepare db finish_game_sql) then (s, false)
      else
        let '(db, r) := sqlite_step db finish_game_sql [SqlInt winner_player_id; SqlInt game_id] in
        (set_db s db, is_done r)
  end.

Definition sqlite_finish_without_winner (s : Db) (game_id : Z) : Db * bool :=
  match connection s with
  | None => (s, false)
  | Some db =>
      if negb (sqlite_prepare db finish_without_winner_sql) then (s, false)
      else
        let '(db, r) := sqlite_step db finish_without_winner_sql [SqlInt game_id] in
        (set_db s db, is_done r)
  end.

#[export] Instance sqlite_games : GameRepository Db := {
  create_game := sqlite_create_game;
  finish_game := sqlite_finish_game;
  finish_game_without_winner := sqlite_finish_without_winner
}.

(** ** [SqliteUserRepository] *)

(** A user found is written to the cache, and the pointer to the cache is returned. *)
Record SqliteUserRepository := mkSqliteUsers { player_repository_ : Db; cached_user_ : option User }.

Definition set_players (s : SqliteUserRepository) (db : Db) : SqliteUserRepository :=
  mkSqliteUsers db (cached_user_ s).

Definition sqlite_create_with_password (s : SqliteUserRepository) (username : string) (rating : Z)
    (password_hash : string) : SqliteUserRepository * option Player :=
  let '(db, created) := create_player (player_repository_ s) username rating password_hash in
  (set_players s db, created).

Definition sqlite_create_user (s : SqliteUserRepository) (username : string) : SqliteUserRepository * Z :=
  let '(db, created) := create_player (player_repository_ s) username 1000 "" in
  (set_players s db, match created with Some p => to_u64 (pl_id p) | None => 0 end).

Definition sqlite_create_user_with_id (s : SqliteUserRepository) (id : Z) (username : string) :
    SqliteUserRepository * Z :=
  match find_player_by_id (player_repository_ s) (to_int id) with
  | Some _ => (s, id)
  | None =>
      let '(db, created) := create_player (player_repository_ s) username 1000 "" in
      (set_players s db, match created with Some p => to_u64 (pl_id p) | None => id end)
  end.

Definition cache_user (s : SqliteUserRepository) (id : Z) (username : string) : SqliteUserRepository :=
  mkSqliteUsers (player_repository_ s) (Some (mkUser id username)).

(** The new state holds what the returned pointer refers to; the flag says whether it is
    not null. *)
Definition sqlite_find_by_id (s : SqliteUserRepository) (id : Z) : SqliteUserRepository * bool :=
  match find_player_by_id (player_repository_ s) (to_int id) with
  | Some profile => (cache_user s id (pl_username profile), true)
  | None => (s, false)
  end.

Definition sqlite_find_by_username (s : SqliteUserRepository) (username : string) :
    SqliteUserRepository * bool :=
  match find_player_by_username (player_repository_ s) username with
  | Some profile => (cache_user s (to_u64 (pl_id profile)) (pl_username profile), true)
  | None => (s, false)
  end.

Definition sqlite_find_credentials (s : SqliteUserRepository) (username : string) :
    option UserCredentials :=
  match find_player_credentials (player_repository_ s) username with
  | Some c => Some (mkCredentials (to_u64 (pc_id c)) (pc_username c) (pc_rating c) (pc_password_hash c))
  | None => None
  end.

Definition sqlite_find_profile (s : SqliteUserRepository) (id : Z) : option Player :=
  find_player_by_id (player_repository_ s) (to_int id).

Definition sqlite_update_rating (s : SqliteUserRepository) (id rating : Z) : SqliteUserRepository * bool :=
  let '(db, updated) := update_player_rating (player_repository_ s) (to_int id) rating in
  (set_players s db, updated).

(** What a returned pointer refers to at the time of the call. *)
Definition pointee (r : SqliteUserRepository * bool) : option User :=
  if r.2 then cached_user_ r.1 else None.

#[export] Instance sqlite_users : UserRepository SqliteUserRepository := {
  create_user := sqlite_create_user;
  create_user_with_id := sqlite_create_user_with_id;
  find_by_id s id := pointee (sqlite_find_by_id s id);
  find_by_username s name := pointee (sqlite_find_by_username s name);
  find_credentials_by_username s name := Ok (sqlite_find_credentials s name);
  find_profile_by_id := sqlite_find_profile;
  create_user_with_password := sqlite_create_with_password;
  update_rating := sqlite_update_rating
}.

End Code.

(** ** The repositories do to the tables what they promise *)

Section Correct.
Context {D : Type} `{SqliteLaws D}.
Notation Db := (SqliteDatabase D).

(** An open handle on a database with the schema. *)
Definition open_on (s : Db) (d : D) : Prop := db_ s = Some d /\ schema d.
Definition usable (s : Db) : Prop := exists d, open_on s d.
Definition db_tables (s : Db) : Tables :=
  match db_ s with Some d => tables d | None => mkTables (mkPlayers [] 0) (mkGames [] 0) end.

(** The statements of the repositories compile. *)
Ltac prepared Hs := rewrite (prepare_ok _ _ Hs) by set_solver; cbn [negb].

Lemma find_player_by_id_spec s d id : open_on s d ->
  find_player_by_id s id = row_player <$> row_by_id (players_table (tables d)) id.
Proof.
  intros [E Hs]. unfold find_player_by_id, connection. rewrite E. prepared Hs.
  rewrite select_player by done. destruct (row_by_id _ id) as [r|]; [|done]. cbn.
  by rewrite !column_int_int, column_text_text.
Qed.

Lemma find_player_credentials_spec s d name : open_on s d ->
  find_player_credentials s name =
  (fun r => mkPlayerCredentials (to_int (row_id r)) (c_str (row_username r)) (to_int (row_rating r))
              (row_hash_text r)) <$> row_by_name (players_table (tables d)) (c_str name).
Proof.
  intros [E Hs]. unfold find_player_credentials, connection. rewrite E. prepared Hs.
  rewrite select_credentials by done. destruct (row_by_name _ _) as [r|]; [|done]. cbn.
  rewrite !column_int_int, column_text_text. unfold row_hash_text.
  by destruct (row_hash r); cbn; rewrite ?column_text_text, ?column_text_null.
Qed.

Lemma create_player_spec s d name rating hash : open_on s d ->
  let r := create_player s name rating hash in
  exists d', open_on r.1 d' /\
    created (players_table (tables d)) name rating hash (players_table (tables d')) r.2.
Proof.
  intros [E Hs]. unfold create_player, connection. rewrite E. prepared Hs.
  assert ((if is_empty_string hash then SqlNull else SqlText (c_str hash)) = hash_value (stored_hash hash))
    as -> by (unfold stored_hash; by destruct (is_empty_string hash)).
  destruct (insert_player d (c_str name) rating (stored_hash hash) Hs) as (Hs' & _ & Hok & Hno).
  destruct (sqlite_step _ _ _) as [d' r]. cbn [fst snd] in *. exists d'.
  destruct (is_done r); cbn [negb fst snd]; (split; [done|]).
  - destruct Hok as (Hn & Ht & Hid); [done|]. cbn [created]. rewrite Hid. done.
  - by apply Hno.
Qed.

Lemma update_player_spec s d id rating : open_on s d ->
  let r := update_player_rating s id rating in
  let t := players_table (tables d) in
  exists d', open_on r.1 d' /\ players_table (tables d') =
    mkPlayers (if r.2 then set_rating id rating <$> rows t else rows t) (sequence t).
Proof.
  intros [E Hs]. unfold update_player_rating, connection. rewrite E. prepared Hs.
  destruct (update_player d rating id Hs) as (Hs' & Ht). destruct (sqlite_step _ _ _) as [d' r].
  cbn [fst snd] in *. exists d'. split; [done|]. rewrite Ht. destruct (is_done r); [done|].
  by destruct (players_table (tables d)).
Qed.

#[export] Program Instance sqlite_table_repository : TableRepository (SqliteUserRepository (D := D)) := {
  connected s := usable (player_repository_ s);
  players s := players_table (db_tables (player_repository_ s))
}.
Next Obligation.
  intros s name [d Hd]. cbn [find_credentials_by_username sqlite_users]. unfold sqlite_find_credentials.
  rewrite (find_player_credentials_spec _ d) by done. unfold db_tables. rewrite (proj1 Hd).
  by destruct (row_by_name _ _).
Qed.
Next Obligation.
  intros s id [d Hd]. cbn [find_profile_by_id sqlite_users]. unfold sqlite_find_profile, db_tables.
  rewrite (find_player_by_id_spec _ d) by done. by rewrite (proj1 Hd).
Qed.
Next Obligation.
  intros s name rating hash [d Hd] _. cbn [create_user_with_password sqlite_users].
  unfold sqlite_create_with_password, db_tables. rewrite (proj1 Hd).
  destruct (create_player_spec _ d name rating hash Hd) as (d' & Hd' & Hc).
  destruct (create_player _ _ _ _) as [s' o]. cbn [fst snd set_players player_repository_] in *.
  split; [by exists d'|]. by rewrite (proj1 Hd').
Qed.
Next Obligation.
  intros s id rating [d Hd] _. cbn [update_rating sqlite_users]. unfold sqlite_update_rating, db_tables.
  rewrite (proj1 Hd). destruct (update_player_spec _ d (to_int id) rating Hd) as (d' & Hd' & Hc).
  destruct (update_player_rating _ _ _) as [s' o]. cbn [fst snd set_players player_repository_] in *.
  split; [by exists d'|]. by rewrite (proj1 Hd').
Qed.

#[export] Program Instance sqlite_game_table : GameTableRepository Db := {
  games_connected := usable;
  games s := games_table (db_tables s)
}.
Next Obligation.
  intros s white black [d [E Hs]] _ _. cbn [create_game sqlite_games].
  unfold sqlite_create_game, connection, db_tables. rewrite E. prepared Hs.
  destruct (insert_game d white black Hs) as (Hs' & _ & Hok & Hno).
  destruct (sqlite_step _ _ _) as [d' r]. cbn [fst snd] in *.
  destruct (is_done r); cbn [negb fst snd set_db db_]; (split; [by exists d'|]).
  - destruct Hok as [Ht Hid]; [done|]. by rewrite Hid, Ht.
  - by apply Hno.
Qed.
Next Obligation.
  intros s id winner [d [E Hs]] _ _. cbn [finish_game sqlite_games].
  unfold sqlite_finish_game, connection, db_tables. rewrite E. prepared Hs.
  destruct (update_game d winner id Hs) as [Hs' Ht]. destruct (sqlite_step _ _ _) as [d' r].
  cbn [fst snd set_db db_] in *. split; [by exists d'|]. by rewrite Ht.
Qed.
Next Obligation.
  intros s id [d [E Hs]] _. cbn [finish_game_without_winner sqlite_games].
  unfold sqlite_finish_without_winner, connection, db_tables. rewrite E. prepared Hs.
  destruct (update_game_no_winner d id Hs) as [Hs' Ht]. destruct (sqlite_step _ _ _) as [d' r].
  cbn [fst snd set_db db_] in *. split; [by exists d'|]. by rewrite Ht.
Qed.

End Correct.

(** ** An engine that obeys the laws

    A database that interprets exactly the statements above. *)

Module TableEngine.

Record Engine := mkEngine { en_tables : Tables; en_rowid : Z }.

Definition set_players_table (d : Engine) (t : PlayersTable) (rowid : Z) : Engine :=
  mkEngine (mkTables t (games_table (en_tables d))) rowid.
Definition set_games_table (d : Engine) (t : GamesTable) (rowid : Z) : Engine :=
  mkEngine (mkTables (players_table (en_tables d)) t) rowid.

Definition text_or_null (v : SqlValue) : option string :=
  match v with SqlText t => Some t | _ => None end.

Definition query (d : Engine) (sql : string) (args : list SqlValue) : StepResult :=
  let t := players_table (en_tables d) in
  match args with
  | [SqlInt id] =>
      match row_by_id t id with
      | Some r => StepRow [SqlInt (row_id r); SqlText (row_username r); SqlInt (row_rating r)]
      | None => StepDone
      end
  | [SqlText name] =>
      match row_by_name t name with
      | Some r => StepRow [SqlInt (row_id r); SqlText (row_username r); SqlInt (row_rating r);
                           hash_value (row_hash r)]
      | None => StepDone
      end
  | _ => StepError
  end.

Definition step (d : Engine) (sql : string) (args : list SqlValue) : Engine * StepResult :=
  let t := players_table (en_tables d) in
  let g := games_table (en_tables d) in
  if String.eqb sql insert_player_sql then
    match args with
    | [SqlText name; SqlInt rating; hash] =>
        match row_by_name t name with
        | Some _ => (d, StepError)
        | None => (set_players_table d (add_row t (mkRow (sequence t + 1) name rating (text_or_null hash)))
                     (sequence t + 1), StepDone)
        end
    | _ => (d, StepError)
    end
  else if String.eqb sql update_rating_sql then
    match args with
    | [SqlInt rating; SqlInt id] =>
        (set_players_table d (mkPlayers (set_rating id rating <$> rows t) (sequence t)) (en_rowid d), StepDone)
    | _ => (d, StepError)
    end
  else if String.eqb sql insert_game_sql then
    match args with
    | [SqlInt white; SqlInt black] =>
        (set_games_table d (mkGames (game_rows g ++ [new_game g white black])%list (game_sequence g + 1))
           (game_sequence g + 1), StepDone)
    | _ => (d, StepError)
    end
  else
    match args with
    | [SqlInt winner; SqlInt id] => (set_games_table d (finish_rows id (Some winner) g) (en_rowid d), StepDone)
    | [SqlInt id] => (set_games_table d (finish_rows id None g) (en_rowid d), StepDone)
    | _ => (d, StepError)
    end.

Definition empty_engine : Engine := mkEngine (mkTables (mkPlayers [] 0) (mkGames [] 0)) 0.

#[export] Instance engine : Sqlite Engine := {
  sqlite_open _ := (Some empty_engine, true);
  sqlite_exec d _ := (d, None);
  sqlite_prepare _ _ := true;
  sqlite_query := query;
  sqlite_step := step;
  sqlite_last_insert_rowid := en_rowid;
  sqlite_column_int v := match v with SqlInt n => to_int n | _ => 0 end;
  sqlite_column_text := text_or_null
}.

#[export] Program Instance engine_laws : SqliteLaws Engine := {
  tables := en_tables;
  schema _ := True
}.
Next Obligation. done. Qed.
Next Obligation. done. Qed.
Next Obligation. done. Qed.
Next Obligation. done. Qed.
Next Obligation. done. Qed.
Next Obligation. done. Qed.
Next Obligation.
  intros d name rating hash _. unfold sqlite_step, engine, step. rewrite String.eqb_refl.
  destruct (row_by_name _ name) eqn:E; cbn.
  - split_and!; try done. intros _. split; [done|lia].
  - by destruct hash.
Qed.
Next Obligation. done. Qed.
Next Obligation. done. Qed.
Next Obligation. done. Qed.
Next Obligation. done. Qed.

End TableEngine.

(** ** Behaviours worth knowing *)

(** SQLite leaves a handle even when opening fails: a second call of [open] then reports
    success, and the database counts as connected. *)
Lemma second_open_succeeds {D : Type} `{Sqlite D} (path : string) (d : D) :
  sqlite_open (c_str path) = (Some d, false) ->
  let s := (open_database (sqlite_database path)).1 in
  (open_database (sqlite_database path)).2 = false /\ (open_database s).2 = true /\ is_connected s = true.
Proof. intros E. unfold open_database, sqlite_database. cbn [db_ path_]. by rewrite E. Qed.

#[local] Existing Instance TableEngine.engine.

Definition one_user : SqliteUserRepository (D := TableEngine.Engine) :=
  mkSqliteUsers (mkSqlite "kfc.db" (Some
    (TableEngine.mkEngine (mkTables (mkPlayers [mkRow 1 "bob" 1000 (Some "h")] 1) (mkGames [] 0)) 1))) None.

(** A name with a zero byte leads to the account of the part before it. *)
Example zero_byte_aliases :
  find_credentials_by_username one_user ("bob" ++ String (ascii_of_nat 0) "x") =
  Ok (Some (mkCredentials 1 "bob" 1000 "h")).
Proof. reflexivity. Qed.

(** Rating a player that does not exist is reported as done. *)
Example rating_nobody_succeeds : (update_rating one_user 99 1200).2 = true.
Proof. reflexivity. Qed.

(** Users are returned as pointers to one cache: after a second lookup, what the first
    pointer refers to is the user of the second. *)
Example cached_user_aliases :
  let s0 := (sqlite_create_with_password one_user "ann" 1000 "").1 in
  let r1 := sqlite_find_by_username s0 "bob" in
  let r2 := sqlite_find_by_username r1.1 "ann" in
  pointee r1 = Some (mkUser 1 "bob") /\ cached_user_ r2.1 = Some (mkUser 2 "ann").
Proof. split; reflexivity. Qed.

(** [create_user] with an id ignores the id for a new user; the in-memory repository
    stores the user under it. *)
Example explicit_id_ignored :
  (create_user_with_id one_user 7 "ann").2 = 2 /\ (create_user_with_id new_repository 7 "ann").2 = 7.
Proof. split; reflexivity. Qed.
