(* ===== verification/Postgres.v ===== *)
(** * The PostgreSQL back end

    [src/src/database/postgres_connection.cpp], [postgres_game_repository.cpp] and
    [server/database/postgres_user_repository.cpp], built with libpq.

    The library libpq and the server are the environment: [Libpq] holds the calls, and
    [LibpqLaws] what is documented about the statements that the code sends.  Parameters
    and results are texts; a null pointer is [None].  The theorem compares the two back
    ends. *)

From S2P Require Import Prelude Piece CppString PasswordHash Sessions Users GameResult Tables Sqlite.
From Stdlib Require Import Ascii String.
Open Scope string_scope.
Open Scope Z_scope.

(** ** The environment *)

Inductive ExecStatus := PGRES_COMMAND_OK | PGRES_TUPLES_OK | PGRES_OTHER.

(** The fields of a tuple are [None] for NULL. *)
Record PGresult := mkResult {
  pq_status : ExecStatus; pq_tuples : list (list (option string)); pq_cmd_tuples : option string
}.

(** [pq_query] is [PQexecParams] of a SELECT; a result may be a null pointer. *)
Class Libpq (D : Type) := {
  pq_connectdb : string -> option D;
  pq_connection_ok : D -> bool;
  pq_exec : D -> string -> D * option PGresult;
  pq_query : D -> string -> list (option string) -> option PGresult;
  pq_exec_params : D -> string -> list (option string) -> D * option PGresult
}.

(** ** The statements *)

Module Sql.
Definition kPlayersTableSql : string := "
CREATE TABLE IF NOT EXISTS players (
    id SERIAL PRIMARY KEY,
    username TEXT NOT NULL UNIQUE,
    password_hash TEXT,
    rating INTEGER NOT NULL DEFAULT 1000,
    created_at TIMESTAMPTZ NOT NULL DEFAULT NOW()
);
".
Definition kGamesTableSql : string := "
CREATE TABLE IF NOT EXISTS games (
    id SERIAL PRIMARY KEY,
    white_player_id INTEGER NOT NULL REFERENCES players(id),
    black_player_id INTEGER NOT NULL REFERENCES players(id),
    winner_id INTEGER REFERENCES players(id),
    status TEXT NOT NULL,
    created_at TIMESTAMPTZ NOT NULL DEFAULT NOW(),
    finished_at TIMESTAMPTZ
);
".
Definition kGamesIndexesSql : string := "
CREATE INDEX IF NOT EXISTS idx_games_white_player_id ON games(white_player_id);
CREATE INDEX IF NOT EXISTS idx_games_black_player_id ON games(black_player_id);
CREATE INDEX IF NOT EXISTS idx_games_status ON games(status);
".
Definition select_player : string := "SELECT id, username, rating FROM players WHERE id = $1 LIMIT 1;".
Definition select_credentials : string :=
  "SELECT id, username, rating, password_hash FROM players WHERE username = $1 LIMIT 1;".
Definition insert_player : string :=
  "INSERT INTO players (username, rating, password_hash) VALUES ($1, $2, $3) " ++ "RETURNING id;".
Definition update_rating : string := "UPDATE players SET rating = $1 WHERE id = $2;".
Definition insert_game : string :=
  "INSERT INTO games (white_player_id, black_player_id, status, created_at) " ++
  "VALUES ($1, $2, 'active', NOW()) RETURNING id;".
Definition finish_game : string := "UPDATE games SET status = 'finished', winner_id = $1 WHERE id = $2;".
Definition finish_without_winner : string :=
  "UPDATE games SET status = 'finished', winner_id = NULL WHERE id = $1;".
End Sql.

(** A result with tuples, and one without. *)
Definition result_ok (r : option PGresult) : bool :=
  match r with
  | None => false
  | Some r => match pq_status r with PGRES_COMMAND_OK | PGRES_TUPLES_OK => true | PGRES_OTHER => false end
  end.
Definition ntuples (r : option PGresult) : Z :=
  match r with Some r => vlen (pq_tuples r) | None => 0 end.

(** [PQgetvalue] where [PQgetisnull] is false; a field out of range counts as NULL. *)
Definition getfield (r : option PGresult) (row col : nat) : option string :=
  r ← r; tuple ← pq_tuples r !! row; f ← tuple !! col; f.

Definition player_tuple (r : PlayerRow) : list (option string) :=
  [Some (to_string (row_id r)); Some (row_username r); Some (to_string (row_rating r))].
Definition tuples (l : list (list (option string))) : option PGresult :=
  Some (mkResult PGRES_TUPLES_OK l (Some (to_string (vlen l)))).
Definition no_tuples (r : option PGresult) : Prop := result_ok r = false \/ ntuples r = 0.

(** The outcome of an UPDATE of the rating of an id. *)
Definition rating_updated (t t' : Tables) (id rating : Z) (r : option PGresult) : Prop :=
  let p := players_table t in
  games_table t' = games_table t /\
  ((exists affected, r = Some (mkResult PGRES_COMMAND_OK [] (Some (to_string affected))) /\
      affected = vlen (filter (fun row => row_id row = id) (rows p)) /\ affected < 2 ^ 31 /\
      players_table t' = mkPlayers (set_rating id rating <$> rows p) (sequence p)) \/
   (result_ok r = false /\ players_table t' = p)).

(** What PostgreSQL documents about these statements, on a live connection to a database
    with the schema: parameters and results in text format; SELECT returns the row of a
    unique key (a text that the encoding does not admit is an error); an INSERT returns
    the next value of the SERIAL sequence, or fails and stores nothing, though the value
    may be used up, and fails if the name exists; an UPDATE reports how many rows of its
    WHERE clause it changed, or fails. *)
Class LibpqLaws (D : Type) `{Libpq D} := {
  pg_tables : D -> Tables;
  pg_schema : D -> Prop;
  pg_connection d : pg_schema d -> pq_connection_ok d = true;
  pg_select_player d id : pg_schema d -> fits_int id ->
    match row_by_id (players_table (pg_tables d)) id with
    | Some r => pq_query d Sql.select_player [Some (to_string id)] = tuples [player_tuple r]
    | None => no_tuples (pq_query d Sql.select_player [Some (to_string id)])
    end;
  pg_select_credentials d name : pg_schema d ->
    match row_by_name (players_table (pg_tables d)) name with
    | Some r => pq_query d Sql.select_credentials [Some name] = tuples [player_tuple r ++ [row_hash r]]%list
    | None => no_tuples (pq_query d Sql.select_credentials [Some name])
    end;
  pg_insert_player d name rating hash : pg_schema d -> fits_int rating ->
    let t := players_table (pg_tables d) in
    let r := pq_exec_params d Sql.insert_player [Some name; Some (to_string rating); hash] in
    pg_schema r.1 /\ games_table (pg_tables r.1) = games_table (pg_tables d) /\
    ((row_by_name t name = None /\ r.2 = tuples [[Some (to_string (sequence t + 1))]] /\
      sequence t + 1 < 2 ^ 31 /\
      players_table (pg_tables r.1) = add_row t (mkRow (sequence t + 1) name rating hash)) \/
     (no_tuples r.2 /\ rows (players_table (pg_tables r.1)) = rows t /\
      sequence t <= sequence (players_table (pg_tables r.1)) <= sequence t + 1));
  pg_update_rating d rating id : pg_schema d -> fits_int rating -> fits_int id ->
    let r := pq_exec_params d Sql.update_rating [Some (to_string rating); Some (to_string id)] in
    pg_schema r.1 /\ rating_updated (pg_tables d) (pg_tables r.1) id rating r.2;
  pg_insert_game d white black : pg_schema d -> fits_int white -> fits_int black ->
    let t := games_table (pg_tables d) in
    let r := pq_exec_params d Sql.insert_game [Some (to_string white); Some (to_string black)] in
    pg_schema r.1 /\ players_table (pg_tables r.1) = players_table (pg_tables d) /\
    ((r.2 = tuples [[Some (to_string (game_sequence t + 1))]] /\ game_sequence t + 1 < 2 ^ 31 /\
      games_table (pg_tables r.1) =
        mkGames (game_rows t ++ [new_game t white black])%list (game_sequence t + 1)) \/
     (no_tuples r.2 /\ game_rows (games_table (pg_tables r.1)) = game_rows t /\
      game_sequence t <= game_sequence (games_table (pg_tables r.1)) <= game_sequence t + 1));
  pg_finish_game d winner id : pg_schema d -> fits_int winner -> fits_int id ->
    let r := pq_exec_params d Sql.finish_game [Some (to_string winner); Some (to_string id)] in
    pg_schema r.1 /\ pg_tables r.1 = mkTables (players_table (pg_tables d))
      (if result_ok r.2 then finish_rows id (Some winner) (games_table (pg_tables d))
       else games_table (pg_tables d));
  pg_finish_without_winner d id : pg_schema d -> fits_int id ->
    let r := pq_exec_params d Sql.finish_without_winner [Some (to_string id)] in
    pg_schema r.1 /\ pg_tables r.1 = mkTables (players_table (pg_tables d))
      (if result_ok r.2 then finish_rows id None (games_table (pg_tables d))
       else games_table (pg_tables d))
}.

(** ** [PostgresConnection] *)

Record Settings := mkSettings {
  pg_host : string; pg_port : Z; pg_database : string; pg_username : string; pg_password : string
}.
Record PostgresConnection (D : Type) := mkPostgres { settings_ : Settings; connection_ : option D }.
Arguments mkPostgres {D} _ _.
Arguments settings_ {D} _.
Arguments connection_ {D} _.

Record StoredCredentials := mkStoredCredentials {
  sc_id : Z; sc_username : string; sc_rating : Z; sc_password_hash : string
}.

Section Code.
Context {D : Type} `{Libpq D}.
Notation Conn := (PostgresConnection D).

Definition set_connection (s : Conn) (d : D) : Conn := mkPostgres (settings_ s) (Some d).

(** [connection_ok]. *)
Definition connection_ok (c : option D) : bool :=
  match c with Some d => pq_connection_ok d | None => false end.

Definition pg_exec_sql (d : D) (sql : string) : D * bool :=
  if negb (pq_connection_ok d) then (d, false)
  else
    let '(d, r) := pq_exec d sql in
    (d, match r with
        | None => false
        | Some r => match pq_status r with PGRES_COMMAND_OK => true | _ => false end
        end).

Definition conninfo (s : Settings) : string :=
  "host=" ++ pg_host s ++ " port=" ++ to_string (pg_port s) ++ " dbname=" ++ pg_database s ++
  (if is_empty_string (pg_username s) then "" else " user=" ++ pg_username s) ++
  (if is_empty_string (pg_password s) then "" else " password=" ++ pg_password s).

Definition pg_open (s : Conn) : Conn * bool :=
  match connection_ s with
  | Some d => (s, pq_connection_ok d)
  | None =>
      let c := pq_connectdb (c_str (conninfo (settings_ s))) in
      (mkPostgres (settings_ s) c, connection_ok c)
  end.

Definition pg_initialize_schema (s : Conn) : Conn * bool :=
  match connection_ s with
  | None => (s, false)
  | Some d =>
      if negb (pq_connection_ok d) then (s, false)
      else
        let '(d, ok) :=
          exec_then (fun d => pg_exec_sql d Sql.kPlayersTableSql)
          (exec_then (fun d => pg_exec_sql d Sql.kGamesTableSql)
                     (fun d => pg_exec_sql d Sql.kGamesIndexesSql)) d in
        (set_connection s d, ok)
  end.

Definition pg_is_connected (s : Conn) : bool := connection_ok (connection_ s).
Definition native_connection (s : Conn) : option D := connection_ s.

(** ** Rows *)

Definition row_to_player (result : option PGresult) (row : nat) : option Player :=
  match getfield result row 0, getfield result row 1, getfield result row 2 with
  | Some id_text, Some username, Some rating_text =>
      Some (mkPlayer (atoi (c_str id_text)) (c_str username) (atoi (c_str rating_text)))
  | _, _, _ => None
  end.

Definition row_to_credentials (result : option PGresult) (row : nat) : option StoredCredentials :=
  match getfield result row 0, getfield result row 1, getfield result row 2 with
  | Some id_text, Some username, Some rating_text =>
      let password_hash := match getfield result row 3 with Some h => h | None => "" end in
      Some (mkStoredCredentials (to_int (strtol (c_str id_text))) (c_str username)
              (to_int (strtol (c_str rating_text))) (c_str password_hash))
  | _, _, _ => None
  end.

(** ** The helpers of [PostgresUserRepository] *)

Definition pg_find_player_by_id (d : D) (player_id : Z) : option Player :=
  let result := pq_query d Sql.select_player [Some (to_string player_id)] in
  if negb (result_ok result) || (ntuples result =? 0) then None else row_to_player result 0.

Definition pg_find_credentials (d : D) (username : string) : option StoredCredentials :=
  let result := pq_query d Sql.select_credentials [Some (c_str username)] in
  if negb (result_ok result) || (ntuples result =? 0) then None else row_to_credentials result 0.

Definition pg_insert (d : D) (username : string) (rating : Z) (password_hash : string) :
    D * option Player :=
  let hash_param := if is_empty_string password_hash then None else Some (c_str password_hash) in
  let '(d, result) := pq_exec_params d Sql.insert_player
    [Some (c_str username); Some (to_string rating); hash_param] in
  (d, if negb (result_ok result) || (ntuples result =? 0) then None
      else match getfield result 0 0 with
      | Some id_text => Some (mkPlayer (to_int (strtol (c_str id_text))) username rating)
      | None => None
      end).

Definition pg_update_player_rating (d : D) (player_id rating : Z) : D * bool :=
  let '(d, result) := pq_exec_params d Sql.update_rating
    [Some (to_string rating); Some (to_string player_id)] in
  (d, if negb (result_ok result) then false
      else match (r ← result; pq_cmd_tuples r) with
      | Some affected => 0 <? strtol (c_str affected)
      | None => false
      end).

(** ** [PostgresUserRepository] *)

Record PostgresUserRepository := mkPostgresUsers { database_ : Conn; pg_cached_user_ : option User }.
Implicit Type s : PostgresUserRepository.

Definition set_database s (c : Conn) : PostgresUserRepository := mkPostgresUsers c (pg_cached_user_ s).

(** The connection of the repository, if it is usable. *)
Definition usable_connection (c : Conn) : option D :=
  match native_connection c with
  | Some d => if pq_connection_ok d then Some d else None
  | None => None
  end.

Definition pg_find_credentials_by_username s (username : string) : option UserCredentials :=
  match usable_connection (database_ s) with
  | None => None
  | Some d =>
      match pg_find_credentials d username with
      | Some c => Some (mkCredentials (to_u64 (sc_id c)) (sc_username c) (sc_rating c) (sc_password_hash c))
      | None => None
      end
  end.

Definition pg_find_profile_by_id s (id : Z) : option Player :=
  match usable_connection (database_ s) with
  | None => None
  | Some d => pg_find_player_by_id d (to_int id)
  end.

Definition pg_create_user_with_password s (username : string) (rating : Z) (password_hash : string) :
    PostgresUserRepository * option Player :=
  match usable_connection (database_ s) with
  | None => (s, None)
  | Some d =>
      let '(d, created) := pg_insert d username rating password_hash in
      (set_database s (set_connection (database_ s) d), created)
  end.

Definition pg_update_rating_of s (id rating : Z) : PostgresUserRepository * bool :=
  match usable_connection (database_ s) with
  | None => (s, false)
  | Some d =>
      let '(d, updated) := pg_update_player_rating d (to_int id) rating in
      (set_database s (set_connection (database_ s) d), updated)
  end.

Definition pg_create_user s (username : string) : PostgresUserRepository * Z :=
  let '(s, created) := pg_create_user_with_password s username 1000 "" in
  (s, match created with Some p => to_u64 (pl_id p) | None => 0 end).

Definition pg_cache_user s (id : Z) (username : string) : PostgresUserRepository :=
  mkPostgresUsers (database_ s) (Some (mkUser id username)).

(** As in [Sqlite.v]: the new state holds what the pointer refers to. *)
Definition pg_find_by_id s (id : Z) : PostgresUserRepository * bool :=
  match pg_find_profile_by_id s id with
  | Some profile => (pg_cache_user s id (pl_username profile), true)
  | None => (s, false)
  end.

Definition pg_find_by_username s (username : string) : PostgresUserRepository * bool :=
  match pg_find_credentials_by_username s username with
  | Some profile => (pg_cache_user s (uc_id profile) (uc_username profile), true)
  | None => (s, false)
  end.

Definition pg_create_user_with_id s (id : Z) (username : string) : PostgresUserRepository * Z :=
  let '(s, found) := pg_find_by_id s id in
  if found : bool then (s, id)
  else
    let '(s, created) := pg_create_user_with_password s username 1000 "" in
    (s, match created with Some p => to_u64 (pl_id p) | None => id end).

Definition pg_pointee (r : PostgresUserRepository * bool) : option User :=
  if r.2 then pg_cached_user_ r.1 else None.

#[export] Instance postgres_users : UserRepository PostgresUserRepository := {
  create_user := pg_create_user;
  create_user_with_id := pg_create_user_with_id;
  find_by_id s id := pg_pointee (pg_find_by_id s id);
  find_by_username s name := pg_pointee (pg_find_by_username s name);
  find_credentials_by_username s name := Ok (pg_find_credentials_by_username s name);
  find_profile_by_id := pg_find_profile_by_id;
  create_user_with_password := pg_create_user_with_password;
  update_rating := pg_update_rating_of
}.

(** ** [PostgresGameRepository] *)

Definition pg_create_game (c : Conn) (white_player_id black_player_id : Z) : Conn * option Z :=
  match usable_connection c with
  | None => (c, None)
  | Some d =>
      let '(d, result) := pq_exec_params d Sql.insert_game
        [Some (to_string white_player_id); Some (to_string black_player_id)] in
      (set_connection c d,
       if negb (result_ok result) || (ntuples result =? 0) then None
       else match getfield result 0 0 with
       | Some id_text => Some (to_int (strtol (c_str id_text)))
       | None => None
       end)
  end.

Definition pg_finish (c : Conn) (game_id winner_player_id : Z) : Conn * bool :=
  match usable_connection c with
  | None => (c, false)
  | Some d =>
      let '(d, result) := pq_exec_params d Sql.finish_game
        [Some (to_string winner_player_id); Some (to_string game_id)] in
      (set_connection c d, result_ok result)
  end.

Definition pg_finish_no_winner (c : Conn) (game_id : Z) : Conn * bool :=
  match usable_connection c with
  | None => (c, false)
  | Some d =>
      let '(d, result) := pq_exec_params d Sql.finish_without_winner [Some (to_string game_id)] in
      (set_connection c d, result_ok result)
  end.

#[export] Instance postgres_games : GameRepository Conn := {
  create_game := pg_create_game;
  finish_game := pg_finish;
  finish_game_without_winner := pg_finish_no_winner
}.

End Code.

(** ** The repositories do to the tables what they promise *)

Lemma no_tuples_none r : no_tuples r -> negb (result_ok r) || (ntuples r =? 0) = true.
Proof. intros [->| ->]; [done|by rewrite orb_true_r]. Qed.

(** Numbers come back from their texts. *)
Lemma int_text n : fits_int n -> to_int (strtol (c_str (to_string n))) = n.
Proof. intros Hn. rewrite c_str_clean by apply to_string_clean. by apply atoi_to_string. Qed.

Lemma atoi_text n : fits_int n -> atoi (c_str (to_string n)) = n.
Proof. apply int_text. Qed.

Lemma set_rating_nobody id rating l : filter (fun r => row_id r = id) l = [] -> set_rating id rating <$> l = l.
Proof.
  induction l as [|r l IH]; [done|]. rewrite filter_cons, fmap_cons. case_decide as Hd; [done|].
  intros E. rewrite IH by done. unfold set_rating. by rewrite (proj2 (Z.eqb_neq _ _) Hd).
Qed.

Section Correct.
Context {D : Type} `{LibpqLaws D}.
Notation Conn := (PostgresConnection D).

(** A live connection; the rows of a good table hold what an INTEGER column can hold. *)
Definition conn_on (c : Conn) (d : D) : Prop := connection_ c = Some d /\ pg_schema d.
Definition int_rows (t : PlayersTable) : Prop :=
  Forall (fun r => fits_int (row_id r) /\ fits_int (row_rating r)) (rows t).
Definition conn_usable (c : Conn) : Prop :=
  exists d, conn_on c d /\ int_rows (players_table (pg_tables d)).
Definition conn_tables (c : Conn) : Tables :=
  match connection_ c with Some d => pg_tables d | None => mkTables (mkPlayers [] 0) (mkGames [] 0) end.

Lemma usable_spec c d : conn_on c d -> usable_connection c = Some d.
Proof. intros [E Hs]. unfold usable_connection, native_connection. by rewrite E, pg_connection. Qed.

Lemma int_row t r : int_rows t -> r ∈ rows t -> fits_int (row_id r) /\ fits_int (row_rating r).
Proof. unfold int_rows. rewrite Forall_forall. auto. Qed.

Lemma pg_player_spec d id : pg_schema d -> int_rows (players_table (pg_tables d)) -> fits_int id ->
  pg_find_player_by_id d id = row_player <$> row_by_id (players_table (pg_tables d)) id.
Proof.
  intros Hs Hi Hid. unfold pg_find_player_by_id. pose proof (pg_select_player d id Hs Hid) as Hq.
  destruct (row_by_id _ id) as [r|] eqn:E; [|by rewrite no_tuples_none].
  apply find_if_elem in E as [Hin _]. destruct (int_row _ _ Hi Hin) as [H1 H2]. rewrite Hq.
  cbn -[atoi to_string c_str row_player]. rewrite !atoi_text by done.
  unfold row_player. by rewrite !to_int_id.
Qed.

Lemma pg_credentials_spec d name : pg_schema d -> int_rows (players_table (pg_tables d)) ->
  pg_find_credentials d name =
  (fun r => mkStoredCredentials (to_int (row_id r)) (c_str (row_username r)) (to_int (row_rating r))
              (row_hash_text r)) <$> row_by_name (players_table (pg_tables d)) (c_str name).
Proof.
  intros Hs Hi. unfold pg_find_credentials. pose proof (pg_select_credentials d (c_str name) Hs) as Hq.
  destruct (row_by_name _ _) as [r|] eqn:E; [|by rewrite no_tuples_none].
  apply find_if_elem in E as [Hin _]. destruct (int_row _ _ Hi Hin) as [H1 H2]. rewrite Hq.
  cbn -[to_int strtol to_string c_str row_hash_text]. rewrite !int_text by done.
  rewrite !to_int_id by done. unfold row_hash_text. by destruct (row_hash r).
Qed.

Lemma pg_insert_spec d name rating hash : pg_schema d -> int_rows (players_table (pg_tables d)) ->
  fits_int rating -> 0 <= sequence (players_table (pg_tables d)) ->
  let r := pg_insert d name rating hash in
  pg_schema r.1 /\ int_rows (players_table (pg_tables r.1)) /\
  created (players_table (pg_tables d)) name rating hash (players_table (pg_tables r.1)) r.2.
Proof.
  intros Hs Hi Hr Hseq. unfold pg_insert. fold (stored_hash hash).
  destruct (pg_insert_player d (c_str name) rating (stored_hash hash) Hs Hr) as (Hs' & _ & Hcase).
  destruct (pq_exec_params _ _ _) as [d' res]. cbn [fst snd] in *. split; [done|].
  destruct Hcase as [(Hn & -> & Hlt & ->)|(Hno & Er & Hq)].
  - cbn -[to_int strtol to_string c_str int_rows created]. rewrite int_text by (unfold fits_int; lia). split.
    + apply Forall_app. split; [done|]. apply Forall_singleton. cbn. split; [unfold fits_int; lia|done].
    + split_and!; [done|done|]. f_equal. rewrite to_int_id; [done|]. unfold fits_int. lia.
  - rewrite no_tuples_none by done. split; [unfold int_rows; by rewrite Er|done].
Qed.

Lemma pg_update_spec d id rating : pg_schema d -> int_rows (players_table (pg_tables d)) ->
  fits_int rating -> fits_int id ->
  let r := pg_update_player_rating d id rating in
  let t := players_table (pg_tables d) in
  pg_schema r.1 /\ int_rows (players_table (pg_tables r.1)) /\ players_table (pg_tables r.1) =
    mkPlayers (if r.2 then set_rating id rating <$> rows t else rows t) (sequence t).
Proof.
  intros Hs Hi Hr Hid. unfold pg_update_player_rating.
  destruct (pg_update_rating d rating id Hs Hr Hid) as (Hs' & _ & Hcase).
  destruct (pq_exec_params _ _ _) as [d' res]. cbn [fst snd] in *. split; [done|].
  destruct Hcase as [(n & -> & Hn & Hlt & Et)|[-> Et]].
  - assert (0 <= n) as Hge by (rewrite Hn; unfold vlen; lia). split.
    { rewrite Et. unfold int_rows. cbn [rows]. apply Forall_fmap. eapply Forall_impl; [exact Hi|].
      intros r [H1 H2]. unfold compose, set_rating. by destruct (row_id r =? id). }
    rewrite Et. cbn [result_ok pq_status negb mbind option_bind pq_cmd_tuples].
    rewrite c_str_clean, strtol_to_string by (apply to_string_clean || unfold fits_i64; lia).
    destruct (Z.ltb_spec 0 n) as [Hpos|Hz]; [done|]. f_equal. apply set_rating_nobody.
    apply length_zero_iff_nil. unfold vlen in Hn. lia.
  - split; [by rewrite Et|]. rewrite Et. by destruct (players_table (pg_tables d)).
Qed.

#[export] Program Instance postgres_table_repository : TableRepository (PostgresUserRepository (D := D)) := {
  connected s := conn_usable (database_ s) /\ 0 <= sequence (players_table (conn_tables (database_ s)));
  players s := players_table (conn_tables (database_ s))
}.
Next Obligation.
  intros s name [(d & Hd & Hi) _]. cbn [find_credentials_by_username postgres_users].
  unfold pg_find_credentials_by_username, conn_tables. rewrite (usable_spec _ d Hd), (proj1 Hd).
  rewrite pg_credentials_spec by (apply Hd || done). by destruct (row_by_name _ _).
Qed.
Next Obligation.
  intros s id [(d & Hd & Hi) _]. cbn [find_profile_by_id postgres_users].
  unfold pg_find_profile_by_id, conn_tables. rewrite (usable_spec _ d Hd), (proj1 Hd).
  apply pg_player_spec; [apply Hd|done|]. apply to_int_fits.
Qed.
Next Obligation.
  intros s name rating hash [(d & Hd & Hi) Hseq] Hr. cbn [create_user_with_password postgres_users].
  unfold pg_create_user_with_password, conn_tables in *. rewrite (proj1 Hd) in *. rewrite (usable_spec _ d Hd).
  destruct (pg_insert_spec d name rating hash (proj2 Hd) Hi Hr Hseq) as (Hs' & Hi' & Hc).
  destruct (pg_insert _ _ _ _) as [d' o].
  cbn [fst snd set_database set_connection database_ connection_] in *.
  split; [split; [by exists d'|]|done]. destruct o; cbn [created] in Hc.
  - destruct Hc as (_ & -> & _). cbn. lia.
  - lia.
Qed.
Next Obligation.
  intros s id rating [(d & Hd & Hi) Hseq] Hr. cbn [update_rating postgres_users].
  unfold pg_update_rating_of, conn_tables in *. rewrite (proj1 Hd) in *. rewrite (usable_spec _ d Hd).
  assert (fits_int (to_int id)) as Hid by apply to_int_fits.
  destruct (pg_update_spec d (to_int id) rating (proj2 Hd) Hi Hr Hid) as (Hs' & Hi' & Hc).
  destruct (pg_update_player_rating _ _ _) as [d' o].
  cbn [fst snd set_database set_connection database_ connection_] in *.
  split; [split; [by exists d'|]|done]. by rewrite Hc.
Qed.

(** A rating is reported as written only if the player exists. *)
Lemma pg_rates_existing (s : PostgresUserRepository (D := D)) id rating : connected s -> fits_int rating ->
  (update_rating s id rating).2 = true -> is_Some (row_by_id (players s) (to_int id)).
Proof.
  intros [(d & Hd & Hi) _] Hr. cbn [update_rating postgres_users players postgres_table_repository].
  unfold pg_update_rating_of, conn_tables. rewrite (proj1 Hd), (usable_spec _ d Hd).
  unfold pg_update_player_rating.
  destruct (pg_update_rating d rating (to_int id) (proj2 Hd) Hr (to_int_fits id)) as (_ & _ & Hcase).
  destruct (pq_exec_params _ _ _) as [d' res]. cbn [fst snd] in *.
  destruct Hcase as [(n & -> & Hn & Hlt & _)|[-> _]]; [|done].
  cbn [result_ok pq_status negb mbind option_bind pq_cmd_tuples].
  assert (0 <= n) as Hge by (rewrite Hn; unfold vlen; lia).
  rewrite c_str_clean, strtol_to_string by (apply to_string_clean || unfold fits_i64; lia).
  intros Hpos%Z.ltb_lt. destruct (filter _ _) as [|r l] eqn:Ef; [unfold vlen in Hn; cbn in Hn; lia|].
  assert (r ∈ filter (fun row => row_id row = to_int id) (rows (players_table (pg_tables d)))) as Hin
    by (rewrite Ef; apply list_elem_of_here).
  apply list_elem_of_filter in Hin as [Er Hin]. apply find_if_Some, existsb_exists. exists r.
  split; [by apply list_elem_of_In|by apply Z.eqb_eq].
Qed.

#[export] Program Instance postgres_game_table : GameTableRepository Conn := {
  games_connected c := (exists d, conn_on c d) /\ 0 <= game_sequence (games_table (conn_tables c));
  games c := games_table (conn_tables c)
}.
Next Obligation.
  intros c white black [[d Hd] Hseq] Hw Hb. cbn [create_game postgres_games].
  unfold pg_create_game, conn_tables in *. rewrite (proj1 Hd) in *. rewrite (usable_spec _ d Hd).
  destruct (pg_insert_game d white black (proj2 Hd) Hw Hb) as (Hs' & _ & Hcase).
  destruct (pq_exec_params _ _ _) as [d' res]. cbn [fst snd set_connection connection_] in *.
  assert (conn_on (set_connection c d') d') as Hd' by done.
  destruct Hcase as [(-> & Hlt & Et)|(Hno & Er & Hq)].
  - rewrite Et. cbn -[to_int strtol to_string c_str]. rewrite int_text by (unfold fits_int; lia).
    split; [split; [by exists d'|lia]|split; [|done]]. rewrite to_int_id; [done|]. unfold fits_int. lia.
  - rewrite no_tuples_none by done. split; [split; [by exists d'|lia]|split; [done|lia]].
Qed.
Next Obligation.
  intros c id winner [[d Hd] Hseq] Hid Hw. cbn [finish_game postgres_games].
  unfold pg_finish, conn_tables in *. rewrite (proj1 Hd) in *. rewrite (usable_spec _ d Hd).
  destruct (pg_finish_game d winner id (proj2 Hd) Hw Hid) as (Hs' & Et).
  destruct (pq_exec_params _ _ _) as [d' res]. cbn [fst snd set_connection connection_] in *. rewrite Et.
  split; [split; [by exists d'|]|done]. by destruct (result_ok res).
Qed.
Next Obligation.
  intros c id [[d Hd] Hseq] Hid. cbn [finish_game_without_winner postgres_games].
  unfold pg_finish_no_winner, conn_tables in *. rewrite (proj1 Hd) in *. rewrite (usable_spec _ d Hd).
  destruct (pg_finish_without_winner d id (proj2 Hd) Hid) as (Hs' & Et).
  destruct (pq_exec_params _ _ _) as [d' res]. cbn [fst snd set_connection connection_] in *. rewrite Et.
  split; [split; [by exists d'|]|done]. by destruct (result_ok res).
Qed.

End Correct.

(** ** A server that obeys the laws: the statements over the tables *)

Module TableServer.

Definition parse_int (p : option string) : option Z := t ← p; fst <$> extract_int t.

Definition failed : option PGresult := Some (mkResult PGRES_OTHER [] None).
Definition command_ok (n : Z) : option PGresult := Some (mkResult PGRES_COMMAND_OK [] (Some (to_string n))).

Definition query (d : Tables) (sql : string) (args : list (option string)) : option PGresult :=
  let t := players_table d in
  match args with
  | [p] =>
      if String.eqb sql Sql.select_player then
        match parse_int p with
        | Some id => tuples (match row_by_id t id with Some r => [player_tuple r] | None => [] end)
        | None => failed
        end
      else match p with
      | Some name =>
          tuples (match row_by_name t name with Some r => [player_tuple r ++ [row_hash r]]%list | None => [] end)
      | None => tuples []
      end
  | _ => failed
  end.

Definition with_players (d : Tables) (t : PlayersTable) : Tables := mkTables t (games_table d).
Definition with_games (d : Tables) (t : GamesTable) : Tables := mkTables (players_table d) t.

(** The id of a failed insertion is used up. *)
Definition exec_params (d : Tables) (sql : string) (args : list (option string)) : Tables * option PGresult :=
  let t := players_table d in
  let g := games_table d in
  if String.eqb sql Sql.insert_player then
    match args with
    | [Some name; rating; hash] =>
        match parse_int rating, row_by_name t name with
        | Some rating, None =>
            if sequence t + 1 <? 2 ^ 31 then
              (with_players d (add_row t (mkRow (sequence t + 1) name rating hash)),
               tuples [[Some (to_string (sequence t + 1))]])
            else (d, failed)
        | _, _ => (with_players d (mkPlayers (rows t) (sequence t + 1)), failed)
        end
    | _ => (d, failed)
    end
  else if String.eqb sql Sql.update_rating then
    match args with
    | [rating; id] =>
        match parse_int rating, parse_int id with
        | Some rating, Some id =>
            let n := vlen (filter (fun row => row_id row = id) (rows t)) in
            if n <? 2 ^ 31 then
              (with_players d (mkPlayers (set_rating id rating <$> rows t) (sequence t)), command_ok n)
            else (d, failed)
        | _, _ => (d, failed)
        end
    | _ => (d, failed)
    end
  else if String.eqb sql Sql.insert_game then
    match args with
    | [white; black] =>
        match parse_int white, parse_int black with
        | Some white, Some black =>
            if game_sequence g + 1 <? 2 ^ 31 then
              (with_games d (mkGames (game_rows g ++ [new_game g white black])%list (game_sequence g + 1)),
               tuples [[Some (to_string (game_sequence g + 1))]])
            else (d, failed)
        | _, _ => (d, failed)
        end
    | _ => (d, failed)
    end
  else if String.eqb sql Sql.finish_game then
    match args with
    | [winner; id] =>
        match parse_int winner, parse_int id with
        | Some winner, Some id => (with_games d (finish_rows id (Some winner) g), command_ok 1)
        | _, _ => (d, failed)
        end
    | _ => (d, failed)
    end
  else
    match args with
    | [id] =>
        match parse_int id with
        | Some id => (with_games d (finish_rows id None g), command_ok 1)
        | None => (d, failed)
        end
    | _ => (d, failed)
    end.

#[export] Instance server : Libpq Tables := {
  pq_connectdb _ := Some (mkTables (mkPlayers [] 0) (mkGames [] 0));
  pq_connection_ok _ := true;
  pq_exec d _ := (d, command_ok 0);
  pq_query := query;
  pq_exec_params := exec_params
}.

Lemma parse_int_text n : fits_int n -> parse_int (Some (to_string n)) = Some n.
Proof.
  intros Hn. unfold fits_int in Hn. cbn [parse_int mbind option_bind].
  rewrite <- (app_nil_string (to_string n)). unfold extract_int.
  by rewrite extract_signed_to_string by (done || lia).
Qed.

#[local] Opaque parse_int to_string.

#[export] Program Instance server_laws : LibpqLaws Tables := {
  pg_tables d := d;
  pg_schema _ := True
}.
Next Obligation. done. Qed.
Next Obligation.
  intros d id _ Hid. cbn -[Z.eqb to_string tuples no_tuples]. rewrite parse_int_text by done.
  destruct (row_by_id _ id); [done|by right].
Qed.
Next Obligation. intros d name _. cbn -[tuples no_tuples]. destruct (row_by_name _ name); [done|by right]. Qed.
Next Obligation.
  intros d name rating hash _ Hr. cbn [pq_exec_params server]. unfold exec_params. rewrite String.eqb_refl, parse_int_text by done.
  destruct (row_by_name _ name) eqn:E; [|destruct (Z.ltb_spec (sequence (players_table d) + 1) (2 ^ 31))];
    cbn [fst snd with_players players_table games_table]; (split; [done|]); (split; [done|]).
  - right. split_and!; [by left|done|cbn; lia..].
  - by left.
  - right. split_and!; [by left|done|lia..].
Qed.
Next Obligation.
  intros d rating id _ Hr Hid. cbn [pq_exec_params server]. unfold exec_params.
  change (String.eqb Sql.update_rating Sql.insert_player) with false. rewrite String.eqb_refl, !parse_int_text by done.
  cbv zeta. cbv iota. destruct (Z.ltb_spec (vlen (filter (fun row => row_id row = id) (rows (players_table d)))) (2 ^ 31));
    cbn [fst snd]; (split; [done|]); (split; [done|]).
  - left. eexists. by split_and!.
  - by right.
Qed.
Next Obligation.
  intros d white black _ Hw Hb. cbn [pq_exec_params server]. unfold exec_params.
  change (String.eqb Sql.insert_game Sql.insert_player) with false.
  change (String.eqb Sql.insert_game Sql.update_rating) with false. cbv iota.
  rewrite String.eqb_refl, !parse_int_text by done. cbv iota.
  destruct (Z.ltb_spec (game_sequence (games_table d) + 1) (2 ^ 31)); cbn [fst snd with_games players_table games_table];
    (split; [done|]); (split; [done|]).
  - by left.
  - right. split_and!; [by left|done|lia..].
Qed.
Next Obligation.
  intros d winner id _ Hw Hid. cbn [pq_exec_params server]. unfold exec_params.
  change (String.eqb Sql.finish_game Sql.insert_player) with false.
  change (String.eqb Sql.finish_game Sql.update_rating) with false.
  change (String.eqb Sql.finish_game Sql.insert_game) with false. cbv iota.
  by rewrite String.eqb_refl, !parse_int_text by done.
Qed.
Next Obligation.
  intros d id _ Hid. cbn [pq_exec_params server]. unfold exec_params.
  change (String.eqb Sql.finish_without_winner Sql.insert_player) with false.
  change (String.eqb Sql.finish_without_winner Sql.update_rating) with false.
  change (String.eqb Sql.finish_without_winner Sql.insert_game) with false.
  change (String.eqb Sql.finish_without_winner Sql.finish_game) with false. cbv iota.
  by rewrite parse_int_text by done.
Qed.

End TableServer.

(** ** Both back ends *)


#[local] Existing Instance TableEngine.engine.
#[local] Existing Instance TableEngine.engine_laws.
#[local] Existing Instance TableServer.server.
#[local] Existing Instance TableServer.server_laws.

(** The same user in a PostgreSQL database. *)
Definition one_pg_user : PostgresUserRepository (D := Tables) :=
  mkPostgresUsers (mkPostgres (mkSettings "localhost" 5432 "kfc" "" "")
    (Some (mkTables (mkPlayers [mkRow 1 "bob" 1000 (Some "h")] 1) (mkGames [] 0)))) None.


(** Recording a game, in any game repository over SQL: a new game gets an id that no
    game had; settling it stores the winner and leaves its players and every other game
    as they were. *)
Theorem game_record_correct {G : Type} `{GameTableRepository G} (g g1 g2 : G) (white black winner id : Z)
    (Hg : games_connected g) (Hok : games_ok (games g)) (Hids : game_sequence (games g) + 1 < 2 ^ 31)
    (Hw : fits_int white) (Hb : fits_int black) (Hwin : fits_int winner)
    (Hcreate : create_game g white black = (g1, Some id))
    (Hfinish : finish_game g1 id winner = (g2, true)) :
  games_connected g2 /\ games_ok (games g2) /\
  game_by_id (games g) id = None /\
  game_by_id (games g1) id = Some (mkGame id white black None "active") /\
  game_by_id (games g2) id = Some (mkGame id white black (Some winner) "finished") /\
  forall i, i <> id -> game_by_id (games g2) i = game_by_id (games g) i.
Proof.
  pose proof (gt_create g white black Hg Hw Hb) as [Hg1 Hc]. rewrite Hcreate in Hg1, Hc.
  cbn [fst snd] in *. destruct Hc as [Hid Et].
  rewrite to_int_id in Hid by (pose proof (go_sequence _ Hok); unfold fits_int; lia).
  destruct (new_game_spec (games g) white black Hok Hids) as (Hok1 & Hnone & Hall).
  rewrite <- Et in Hok1, Hall. rewrite <- Hid in Hnone, Hall.
  assert (fits_int id) as Hfid by (pose proof (go_sequence _ Hok); unfold fits_int; lia).
  pose proof (gt_finish g1 id winner Hg1 Hfid Hwin) as [Hg2 Ht2]. rewrite Hfinish in Hg2, Ht2.
  cbn [fst snd] in *. rewrite Ht2. split_and!; [done|by apply finish_rows_ok|done| | |].
  - rewrite Hall, decide_True by done. by subst id.
  - rewrite finish_rows_spec, decide_True, Hall, decide_True by done. done.
  - intros i Hi. by rewrite finish_rows_spec, decide_False, Hall, decide_False by done.
Qed.

Lemma game_record_correct_witness :
  let c := database_ one_pg_user in
  let r := create_game c 1 1 in
  let g2 := (finish_game r.1 1 1).1 in
  games_connected g2 /\ games_ok (games g2) /\ game_by_id (games c) 1 = None /\
  game_by_id (games r.1) 1 = Some (mkGame 1 1 1 None "active") /\
  game_by_id (games g2) 1 = Some (mkGame 1 1 1 (Some 1) "finished") /\
  forall i, i <> 1 -> game_by_id (games g2) i = game_by_id (games c) i.
Proof.
  cbv zeta. apply (game_record_correct (database_ one_pg_user) (create_game (database_ one_pg_user) 1 1).1
    (finish_game (create_game (database_ one_pg_user) 1 1).1 1 1).1 1 1 1 1).
  - split; [eexists; split; [reflexivity|exact I]|vm_compute; discriminate].
  - split; [constructor|constructor|split; vm_compute; congruence].
  - reflexivity.
  - split; vm_compute; congruence.
  - split; vm_compute; congruence.
  - split; vm_compute; congruence.
  - vm_compute. reflexivity.
  - vm_compute. reflexivity.
Defined.
