(* ===== verification/Hosting.v ===== *)
(** * Creating and joining games

    [src/src/server/game/local_game_host.cpp], [game_allocation_handler.cpp],
    [local_game_allocator.cpp], [game_join_handler.cpp] and the text messages of
    [loopback_game_host.cpp]. *)

From S2P Require Import Prelude Piece BoardModel PathUtils PieceRules CollisionResolver MoveScheduler RealTimeArbiter GameState CppString BoardIO GameMessages Codecs Rooms Sessions GameLoop RuntimeStore Matchmaking GameResult.
From Stdlib Require Import Ascii String.
Open Scope string_scope.
Open Scope Z_scope.

(** ** [LocalGameHost] *)

Section Host.
Context {C : Type} `{Connection C}.

Definition find_session_by_user_id (p : Plane (C := C)) (user_id : Z) : option PlayerSession :=
  find_if (fun s => match ps_user_id s with Some u => u =? user_id | None => false end) (sessions_ p).

(** [to_game_player] with the id of the user's session, or 0. *)
Definition seat (bound : option (Plane (C := C))) (user_id : Z) (side : PieceColor) : GamePlayer :=
  let session := match bound with Some p => find_session_by_user_id p user_id | None => None end in
  mkGamePlayer user_id side (match session with Some s => ps_id s | None => 0 end).

Record LocalGameHost := mkHost { lh_game_server_id : string; lh_endpoint : string }.

Definition host_create_room (host : LocalGameHost) (bound : option (Plane (C := C)))
    (request : GameCreationRequest) (m : RoomManager) : res (RoomManager * GameCreationResponse) :=
  let white := seat bound (cr_white_user_id request) White in
  let black := seat bound (cr_black_user_id request) Black in
  let '(room_id, m) := create_room m in
  room ← deref (find_room m room_id);
  let room := activate room white black in
  let room := match cr_db_game_id request with Some id => set_db_game_id room id | None => room end in
  Ok (write_room m room_id room,
      mkCreationResponse room_id (lh_game_server_id host) (Some (lh_endpoint host))).

(** [LocalGameAllocator::allocate_game]. *)
Definition local_allocate_game : LocalGameHost -> option (Plane (C := C)) -> GameCreationRequest ->
    RoomManager -> res (RoomManager * GameCreationResponse) := host_create_room.

End Host.

(** ** [GameAllocationHandler] *)

Definition or_else (s default : string) : string := if is_empty_string s then default else s.

Section Allocation.
Context {S M : Type} `{RuntimeStore S}.
(** [IGameHost::create_room]. *)
Context (game_host : GameCreationRequest -> M -> res (M * GameCreationResponse)).

Definition allocate (server_id endpoint : string) (request : GameCreationRequest) (st : M * S) :
    res (M * S * GameCreationResponse) :=
  r ← game_host request st.1;
  let '(m, response) := r in
  let e := match cp_endpoint response with Some e => or_else e endpoint | None => endpoint end in
  let id := or_else (cp_game_server_id response) server_id in
  let response := mkCreationResponse (cp_room_id response) id (Some e) in
  Ok (m, register_room st.2 (cp_room_id response) (cr_white_user_id request)
           (cr_black_user_id request) id e, response).

End Allocation.

(** ** [LoopbackGameHost]: its text messages *)

Definition build_create_command (request : GameCreationRequest) : string :=
  "CREATE " ++ to_string (cr_white_user_id request) ++ " " ++ to_string (cr_black_user_id request) ++
  match cr_db_game_id request with Some id => " " ++ to_string id | None => "" end ++ nl.

(** The value [input >> room_id] leaves in a [uint64_t]: 0 without digits, the largest
    value out of range; a minus sign negates modulo 2^64.  The bounds given to
    [extract_signed] exclude no number that fits the text. *)
Definition read_u64 (s : string) : Z :=
  match extract_signed (- 10 ^ slen s) (10 ^ slen s) s with
  | None => 0
  | Some (v, _) => if (v <? - (2 ^ 64 - 1)) || (2 ^ 64 - 1 <? v) then 2 ^ 64 - 1 else to_u64 v
  end.

(** An exception stands for every refused answer. *)
Definition parse_create_response (line game_server_id game_endpoint : string) :
    res GameCreationResponse :=
  match extract_word line with
  | Some (status, rest) =>
      if negb (String.eqb status "OK") then Err RuntimeError
      else
        let room_id := read_u64 rest in
        if room_id =? 0 then Err RuntimeError
        else Ok (mkCreationResponse room_id game_server_id (Some game_endpoint))
  | None => Err RuntimeError
  end.

(** [LoopbackGameHost::create_room].  [transact] connects to the address and port, sends the
    command and reads until a newline has come: the bytes that were read, or nothing
    when one of the three throws.  [getline] takes the text before the newline. *)
Record LoopbackGameHost := mkLoopback {
  lb_bind_address : string; lb_internal_port : Z; lb_game_server_id : string; lb_game_endpoint : string
}.

Definition drop_cr (line : string) : string :=
  match get (String.length line - 1) line with
  | Some c => if code c =? 13 then substring 0 (String.length line - 1) line else line
  | None => line
  end.

Definition loopback_create_room (transact : string -> string -> string -> option string) (host : LoopbackGameHost)
    (request : GameCreationRequest) : res GameCreationResponse :=
  match transact (lb_bind_address host) (to_string (lb_internal_port host)) (build_create_command request) with
  | None => Err RuntimeError
  | Some received =>
      parse_create_response (drop_cr (fst (span not_newline received)))
        (lb_game_server_id host) (lb_game_endpoint host)
  end.

Lemma dec_value_bound s v : all_chars isdigit s = true -> 0 <= v -> dec_value_from v s < (v + 1) * 10 ^ slen s.
Proof.
  revert v. induction s as [|c s IH]; intros v Hs Hv; cbn [dec_value_from all_chars] in *; [change (10 ^ slen EmptyString) with 1; lia|].
  apply andb_true_iff in Hs as [Hc Hs]. unfold isdigit in Hc. rewrite andb_true_iff, !Z.leb_le in Hc.
  replace (slen (String c s)) with (slen s + 1) by (unfold slen; simpl String.length; lia).
  rewrite Z.pow_add_r by (unfold slen; lia). unfold digit_value.
  eapply Z.lt_le_trans; [apply IH; [done|lia]|]. assert (0 < 10 ^ slen s) by (apply Z.pow_pos_nonneg; unfold slen; lia).
  nia.
Qed.

Lemma read_u64_to_string n : 0 <= n < 2 ^ 64 -> read_u64 (" " ++ to_string n) = n.
Proof.
  intros Hn. destruct (to_string_digits n) as [Hd _]; [lia|].
  pose proof (dec_value_bound (to_string n) 0 Hd ltac:(lia)) as Hb. fold (dec_value (to_string n)) in Hb.
  rewrite dec_value_to_string in Hb by lia. unfold read_u64. rewrite slen_app. change (slen " ") with 1.
  set (k := slen (to_string n)) in *. assert (0 <= k) by (unfold k, slen; lia).
  assert (10 ^ k <= 10 ^ (1 + k)) by (apply Z.pow_le_mono_r; lia).
  change (extract_signed ?a ?b (" " ++ ?t)) with (extract_signed a b t).
  rewrite <- (app_nil_string (to_string n)), extract_signed_to_string by (lia || done).
  destruct (Z.ltb_spec n (- (2 ^ 64 - 1))); [lia|]. destruct (Z.ltb_spec (2 ^ 64 - 1) n); [lia|].
  unfold to_u64. by rewrite wrap_u_id.
Qed.

Lemma length_front line c : (String.length (line ++ String c EmptyString) - 1 = String.length line)%nat.
Proof. induction line as [|c' line IH]; [done|]. simpl in *. destruct line; [done|]. simpl in *. lia. Qed.

Lemma get_end line c rest : get (String.length line) (line ++ String c rest) = Some c.
Proof. induction line as [|c' line IH]; [done|exact IH]. Qed.

Lemma substring_front line rest : substring 0 (String.length line) (line ++ rest) = line.
Proof. induction line as [|c line IH]; [by destruct rest|]. simpl. by rewrite IH. Qed.

Lemma drop_cr_app line : drop_cr (line ++ String (chr 13) EmptyString) = line.
Proof.
  unfold drop_cr. rewrite length_front, get_end. change (code (chr 13) =? 13) with true. apply substring_front.
Qed.

Lemma drop_cr_id line c : code c <> 13 -> drop_cr (line ++ String c EmptyString) = line ++ String c EmptyString.
Proof.
  intros Hc. unfold drop_cr. rewrite length_front, get_end. by destruct (Z.eqb_spec (code c) 13).
Qed.

(** A line of digits after a prefix ends in one. *)
Lemma drop_cr_digits pre s : all_chars isdigit s = true -> s <> EmptyString -> drop_cr (pre ++ s) = pre ++ s.
Proof.
  revert pre. induction s as [|c s IH]; intros pre Hs Hne; [done|]. simpl in Hs. apply andb_true_iff in Hs as [Hc Hs].
  destruct s as [|c' s].
  - apply drop_cr_id. unfold isdigit in Hc. rewrite andb_true_iff, !Z.leb_le in Hc. lia.
  - rewrite <- (app_cons_string pre c (String c' s)). by apply IH.
Qed.

Lemma loopback_line id (crlf : bool) : 0 <= id ->
  drop_cr (fst (span not_newline (("OK " ++ to_string id) ++ (if crlf then String (chr 13) nl else nl)))) =
    "OK " ++ to_string id.
Proof.
  intros Hid. destruct (to_string_digits id) as [Hd Hne]; [lia|].
  assert (all_chars not_newline ("OK " ++ to_string id) = true) as Hline.
  { rewrite all_chars_app. eapply all_chars_impl; [|exact Hd]. intros c Hc. unfold isdigit in Hc.
    rewrite andb_true_iff, !Z.leb_le in Hc. unfold not_newline.
    destruct (Ascii.eqb_spec c newline) as [->|]; [|done]. vm_compute in Hc. by destruct Hc as [[] _]. }
  destruct crlf.
  - rewrite <- (app_cons_string ("OK " ++ to_string id) (chr 13) nl), span_app; [apply drop_cr_app| |done].
    by rewrite all_chars_app, Hline.
  - rewrite span_app by done. by apply drop_cr_digits.
Qed.

(** What an endpoint that creates rooms answers, with either end of line, comes back as the
    room on this server; room 0 ends in an exception. *)
Theorem loopback_create_room_correct transact host request id (crlf : bool) : 0 <= id < 2 ^ 64 ->
  transact (lb_bind_address host) (to_string (lb_internal_port host)) (build_create_command request) =
    Some (("OK " ++ to_string id) ++ (if crlf then String (chr 13) nl else nl)) ->
  loopback_create_room transact host request =
    if id =? 0 then Err RuntimeError
    else Ok (mkCreationResponse id (lb_game_server_id host) (Some (lb_game_endpoint host))).
Proof.
  intros Hid E. unfold loopback_create_room. rewrite E, loopback_line by lia. unfold parse_create_response.
  change (extract_word ("OK " ++ to_string id)) with (Some ("OK", " " ++ to_string id)).
  cbn [String.eqb Ascii.eqb Bool.eqb negb]. by rewrite read_u64_to_string.
Qed.

(** ** [GameJoinHandler] *)

Section Join.
Context {C : Type} `{Connection C}.

Definition reply (p : Plane (C := C)) (addr : Z) (message : string) : res Plane :=
  c ← load p addr;
  let '(_, c') := try_send c message in Ok (store p addr c').

(** A change of the session at an index of the list that is traversed. *)
Definition write_session (p : Plane (C := C)) (i : nat) (s : PlayerSession) : Plane :=
  set_sessions p (<[i := s]> (sessions_ p)).

Definition take_seat (s : PlayerSession) (room_id : Z) (side : PieceColor) : PlayerSession :=
  set_side (set_playing (assign_room s room_id)) side.

(** The body of the loop of [process]. *)
Definition join_session (m : RoomManager) (i : nat) (p : Plane (C := C)) : res Plane :=
  session ← deref (sessions_ p !! i);
  addr ← deref (ps_connection session);
  c ← load p addr;
  if negb (is_open c) || has_room session then Ok p
  else
    let '(raw_message, c') := try_read c in
    let p := store p addr c' in
    match raw_message with
    | None => Ok p
    | Some message =>
        match parse_join_game_message message with
        | None => Ok p
        | Some room_id =>
            match find_room m room_id with
            | None => reply p addr "join_failed room_not_found"
            | Some room =>
                if negb (active_ room) then reply p addr "join_failed room_not_found"
                else
                  match ps_user_id session with
                  | None => reply p addr "join_failed not_authenticated"
                  | Some user_id =>
                      match white_player_ room, black_player_ room with
                      | Some white, Some black =>
                          if gp_user_id white =? user_id then
                            reply (write_session p i (take_seat session room_id White)) addr
                              "join_ok white"
                          else if gp_user_id black =? user_id then
                            reply (write_session p i (take_seat session room_id Black)) addr
                              "join_ok black"
                          else reply p addr "join_failed not_a_player"
                      | _, _ => reply p addr "join_failed room_not_ready"
                      end
                  end
            end
        end
    end.

Definition join_process (m : RoomManager) (p : Plane (C := C)) : res Plane :=
  foldM (join_session m) (seq 0 (List.length (sessions_ p))) p.

End Join.

(** ** Hosting *)

Section Host_lemmas.
Context {C : Type} `{Connection C}.

(** The room that a request asks for. *)
Definition hosted_room (bound : option (Plane (C := C))) (request : GameCreationRequest) (id : Z)
    (board : BoardModel) : Room :=
  mkRoom id board (new_match board) true (Some (seat bound (cr_white_user_id request) White))
    (Some (seat bound (cr_black_user_id request) Black)) (cr_db_game_id request).

Lemma host_create_room_spec host bound request m : manager_ok m -> Rooms.next_id_ m < 2 ^ 64 - 1 ->
  exists m', host_create_room host bound request m =
    Ok (m', mkCreationResponse (Rooms.next_id_ m) (lh_game_server_id host) (Some (lh_endpoint host))) /\
  manager_ok m' /\ Rooms.next_id_ m' = Rooms.next_id_ m + 1 /\ rooms_ m !! Rooms.next_id_ m = None /\
  rooms_ m' !! Rooms.next_id_ m =
    Some (hosted_room bound request (Rooms.next_id_ m) (rm_default_board_ m)) /\
  forall id, id <> Rooms.next_id_ m -> rooms_ m' !! id = rooms_ m !! id.
Proof.
  intros Hm Hn. pose proof (create_room_spec m Hm Hn) as Hc. unfold host_create_room.
  destruct (create_room m) as [id m1] eqn:E. destruct Hc as (Hnone & Hnew & Hm1 & Hnext & Hother).
  assert (id = Rooms.next_id_ m) as -> by (unfold create_room in E; congruence).
  unfold find_room. rewrite Hnew. cbn [deref]. rewrite bind_ok.
  assert (forall r, r = hosted_room bound request (Rooms.next_id_ m) (rm_default_board_ m) -> room_ok r) as Hok.
  { intros r ->. destruct (new_room_ok (Rooms.next_id_ m) _ (mo_board _ Hm)) as [H1 H2 H3 _].
    split; [done..|]. intros _. split; by eexists. }
  eexists. split; [done|]. split_and!; [|done|done| |].
  - eapply write_room_ok; [done|done|apply Hok; by destruct request as [? ? []]|by destruct request as [? ? []]].
  - cbn [write_room set_rooms rooms_]. rewrite lookup_insert_eq. by destruct request as [? ? []].
  - intros id' Hne. cbn [write_room set_rooms rooms_]. rewrite lookup_insert_ne by done. by apply Hother.
Qed.

(** A seat names a session of its user, if one is bound. *)
Lemma seat_session (p : Plane (C := C)) uid side s : find_session_by_user_id p uid = Some s ->
  gp_player_id (seat (Some p) uid side) = ps_id s /\ s ∈ sessions_ p /\ ps_user_id s = Some uid.
Proof.
  intros E. unfold seat. rewrite E. pose proof E as [Hin Hu]%find_if_elem.
  split_and!; [done|done|]. destruct (ps_user_id s) as [u|]; [|done]. f_equal. lia.
Qed.

(** ** Joining *)

(** A session without a room whose open connection holds a request for a room. *)
Definition wants (c : C) (s : PlayerSession) (room_id : Z) : Prop :=
  is_open c = true /\ ps_room_id s = None /\
  exists message c', try_read c = (Some message, c') /\
    parse_join_game_message message = Some room_id.

(** The session's user is a player of an active room; who plays both sides gets the
    white one. *)
Definition plays (m : RoomManager) (s : PlayerSession) (room_id : Z) (side : PieceColor) : Prop :=
  exists room white black user_id, find_room m room_id = Some room /\ active_ room = true /\
    white_player_ room = Some white /\ black_player_ room = Some black /\
    ps_user_id s = Some user_id /\
    match side with
    | White => gp_user_id white = user_id
    | Black => gp_user_id white <> user_id /\ gp_user_id black = user_id
    end.

(** What a session becomes: it takes the seat it asks for, if that is its user's. *)
Definition joined (m : RoomManager) (c : C) (s s' : PlayerSession) : Prop :=
  (exists room_id side, wants c s room_id /\ plays m s room_id side /\
     s' = take_seat s room_id side) \/
  (s' = s /\ forall room_id side, wants c s room_id -> ~ plays m s room_id side).

(** Joining changes the session at [i] and its connection, nothing else. *)
Definition joins_at (m : RoomManager) (i : nat) (s : PlayerSession) (addr : Z) (c : C)
    (p p' : Plane (C := C)) : Prop :=
  plane_ok p' /\ List.length (sessions_ p') = List.length (sessions_ p) /\
  (forall j, j <> i -> sessions_ p' !! j = sessions_ p !! j) /\
  (forall a, a <> addr -> load p' a = load p a) /\
  (exists s', sessions_ p' !! i = Some s' /\ joined m c s s').

Lemma load_store_other (p : Plane (C := C)) addr a c : a <> addr -> load (store p addr c) a = load p a.
Proof.
  intros Hne. unfold load, store. cbn [set_clients clients_].
  induction (clients_ p) as [|e l IH]; [done|]. cbn [fmap list_fmap find_if].
  destruct (Z.eqb_spec e.1 addr) as [E|E]; cbn [fst].
  - destruct (Z.eqb_spec addr a); [congruence|]. destruct (Z.eqb_spec e.1 a); [congruence|exact IH].
  - destruct (e.1 =? a); [done|exact IH].
Qed.

Lemma load_store_same (p : Plane (C := C)) addr c : live p addr -> load (store p addr c) addr = Ok c.
Proof.
  unfold live, load, store. cbn [set_clients clients_].
  induction (clients_ p) as [|e l IH]; [set_solver|]. intros Hl. cbn [fmap list_fmap find_if].
  destruct (Z.eqb_spec e.1 addr) as [E|E]; cbn [fst snd]; [by rewrite Z.eqb_refl|].
  destruct (Z.eqb_spec e.1 addr); [done|]. apply IH. set_solver.
Qed.

Lemma write_session_ok (p : Plane (C := C)) i s s' : plane_ok p -> sessions_ p !! i = Some s ->
  ps_id s' = ps_id s -> ps_connection s' = ps_connection s -> plane_ok (write_session p i s').
Proof.
  intros [Hl Hn Hx] Hi Eid Ec. split; cbn [write_session set_sessions sessions_ next_session_id_ clients_].
  - intros x (j & Hj)%list_elem_of_lookup. apply list_lookup_insert_Some in Hj
      as [(<- & <- & _)|(_ & Hj)]; [rewrite Ec|]; apply Hl; by eapply list_elem_of_lookup_2.
  - rewrite list_fmap_insert, Eid, list_insert_id; [done|]. by rewrite list_lookup_fmap, Hi.
  - intros x (j & Hj)%list_elem_of_lookup. apply list_lookup_insert_Some in Hj
      as [(<- & <- & _)|(_ & Hj)]; [rewrite Eid|]; apply Hx; by eapply list_elem_of_lookup_2.
Qed.

(** A reply on the session's own connection. *)
Lemma reply_joins m i s addr c (p q : Plane (C := C)) message : live q addr ->
  joins_at m i s addr c p q -> reply q addr message ⇓ joins_at m i s addr c p.
Proof.
  intros Hl (Hp & Hn & Ho & Hload & Hi). unfold reply. destruct (load_live q addr Hl) as [c0 ->].
  rewrite bind_ok. destruct (try_send c0 message) as [b c']. apply returns_ok.
  pose proof (store_traffic q addr c') as Ht. pose proof (tr_sessions _ _ Ht) as E.
  split_and!; [by eapply traffic_ok|by rewrite E|by rewrite E| |by rewrite E].
  intros a Ha. rewrite load_store_other by done. by apply Hload.
Qed.

(** A session that was read and stays as it is. *)
Lemma read_joins m i s addr c c' (p : Plane (C := C)) : plane_ok p -> sessions_ p !! i = Some s ->
  (forall rid side, wants c s rid -> ~ plays m s rid side) -> joins_at m i s addr c p (store p addr c').
Proof.
  intros Hp Hs Hno. pose proof (store_traffic p addr c') as Ht. pose proof (tr_sessions _ _ Ht) as Ess.
  split_and!; [by eapply traffic_ok|by rewrite Ess|by rewrite Ess| |].
  - intros a Ha. by apply load_store_other.
  - exists s. rewrite Ess. split; [done|]. by right.
Qed.

(** A session that was read and takes its seat. *)
Lemma seat_joins m i s addr c c' rid side (p : Plane (C := C)) : plane_ok p -> sessions_ p !! i = Some s ->
  wants c s rid -> plays m s rid side ->
  joins_at m i s addr c p (write_session (store p addr c') i (take_seat s rid side)).
Proof.
  intros Hp Hs Hwants Hside. pose proof (store_traffic p addr c') as Ht. pose proof (tr_sessions _ _ Ht) as Ess.
  split_and!.
  - eapply write_session_ok; [by eapply traffic_ok|by rewrite Ess|done|done].
  - cbn [write_session set_sessions sessions_]. by rewrite length_insert, Ess.
  - intros j Hne. cbn [write_session set_sessions sessions_]. by rewrite list_lookup_insert_ne, Ess.
  - intros a Ha. change (load (store p addr c') a = load p a). by apply load_store_other.
  - exists (take_seat s rid side). split.
    + cbn [write_session set_sessions sessions_]. apply list_lookup_insert_eq. rewrite Ess. by eapply lookup_lt_Some.
    + left. by exists rid, side.
Qed.

Lemma join_session_ok m i s addr c (p : Plane (C := C)) : plane_ok p -> sessions_ p !! i = Some s ->
  ps_connection s = Some addr -> load p addr = Ok c ->
  join_session m i p ⇓ joins_at m i s addr c p.
Proof.
  intros Hp Hs Ea Hc. unfold join_session. rewrite Hs. cbn [deref]. rewrite bind_ok, Ea. cbn [deref].
  rewrite bind_ok, Hc, bind_ok. pose proof (list_elem_of_lookup_2 _ _ _ Hs) as Hin.
  destruct (po_live p Hp s Hin) as (addr' & Ea' & Hl). rewrite Ea in Ea'. injection Ea' as <-.
  destruct (is_open c) eqn:Eo; cbn [negb orb]; last first.
  { apply returns_ok. split_and!; [done|done|done|done|]. exists s. split; [done|]. right.
    split; [done|]. intros ?? (? & _). congruence. }
  unfold has_room. destruct (ps_room_id s) as [r0|] eqn:Er0.
  { apply returns_ok. split_and!; [done|done|done|done|]. exists s. split; [done|]. right.
    split; [done|]. intros ?? (_ & ? & _). congruence. }
  destruct (try_read c) as [raw c'] eqn:Et. pose proof (store_traffic p addr c') as Ht. set (q := store p addr c') in *.
  assert (live q addr) as Hlq by (unfold live; rewrite (tr_addrs _ _ Ht); exact Hl).
  pose proof (read_joins m i s addr c c' p Hp Hs) as Hstay. fold q in Hstay.
  destruct raw as [message|].
  2:{ apply returns_ok, Hstay. intros ?? (_ & _ & ? & ? & ? & _). congruence. }
  destruct (parse_join_game_message message) as [rid|] eqn:Ep.
  2:{ apply returns_ok, Hstay. intros ?? (_ & _ & ? & ? & ? & ?). congruence. }
  assert (forall rid', wants c s rid' -> rid' = rid) as Hrid.
  { intros rid' (_ & _ & msg & c0 & E1 & E2). congruence. }
  assert (forall msg, (forall side, ~ plays m s rid side) -> reply q addr msg ⇓ joins_at m i s addr c p)
    as Hrefuse.
  { intros msg Hno. apply reply_joins; [done|]. apply Hstay. intros rid' side ->%Hrid. apply Hno. }
  destruct (find_room m rid) as [room|] eqn:Er.
  2:{ apply Hrefuse. intros side (?&?&?&?&?&_). congruence. }
  destruct (active_ room) eqn:Eact; cbn [negb].
  2:{ apply Hrefuse. intros side (?&?&?&?&?&?&_). congruence. }
  destruct (ps_user_id s) as [uid|] eqn:Eu.
  2:{ apply Hrefuse. intros side (?&?&?&?&?&?&?&?&?&_). congruence. }
  destruct (white_player_ room) as [w|] eqn:Ew.
  2:{ apply Hrefuse. intros side (?&?&?&?&?&?&?&_). congruence. }
  destruct (black_player_ room) as [b|] eqn:Eb.
  2:{ apply Hrefuse. intros side (?&?&?&?&?&?&?&?&_). congruence. }
  assert (forall side msg, plays m s rid side ->
    reply (write_session q i (take_seat s rid side)) addr msg ⇓ joins_at m i s addr c p) as Hseat.
  { intros side msg Hside. apply reply_joins; [exact Hlq|]. apply seat_joins; [done|done| |done].
    split_and!; [done|done|]. by exists message, c'. }
  destruct (Z.eqb_spec (gp_user_id w) uid) as [Hw|Hw].
  { apply Hseat. by exists room, w, b, uid. }
  destruct (Z.eqb_spec (gp_user_id b) uid) as [Hb|Hb].
  { apply Hseat. by exists room, w, b, uid. }
  apply Hrefuse. intros side (?&?&?&?&?&?&?&?&?&Hside). simplify_eq. destruct side; naive_solver.
Qed.

(** The sessions of the list [l] have been visited. *)
Lemma join_loop_ok m l (p : Plane (C := C)) : plane_ok p -> NoDup (ps_connection <$> sessions_ p) ->
  NoDup l -> (forall i, i ∈ l -> (i < List.length (sessions_ p))%nat) ->
  foldM (join_session m) l p ⇓ (fun p' => plane_ok p' /\
    List.length (sessions_ p') = List.length (sessions_ p) /\
    (forall i, i ∉ l -> sessions_ p' !! i = sessions_ p !! i) /\
    forall i s addr c, i ∈ l -> sessions_ p !! i = Some s -> ps_connection s = Some addr ->
      load p addr = Ok c -> exists s', sessions_ p' !! i = Some s' /\ joined m c s s').
Proof.
  intros Hp Hd Hnd. revert p Hp Hd. induction Hnd as [|i l Hni _ IH]; intros p Hp Hd Hl; cbn [foldM].
  { apply returns_ok. split_and!; [done|done|done|]. intros ???? []%not_elem_of_nil. }
  destruct (lookup_lt_is_Some_2 (sessions_ p) i) as [s Hs]; [apply Hl, list_elem_of_here|].
  destruct (po_live p Hp s (list_elem_of_lookup_2 _ _ _ Hs)) as (addr & Ea & Hlv).
  destruct (load_live p addr Hlv) as [c Hc].
  apply returns_bind. eapply returns_mono; [by eapply join_session_ok|].
  intros p1 (Hp1 & Hl1 & Ho & Hload & s1 & Hs1 & Hj).
  assert (ps_connection <$> sessions_ p1 = ps_connection <$> sessions_ p) as Econn.
  { apply list_eq. intros j. rewrite !list_lookup_fmap. destruct (decide (j = i)) as [->|Hne].
    - rewrite Hs1, Hs. simpl. f_equal. by destruct Hj as [(?&?&_&_&->)|[-> _]].
    - by rewrite (Ho j Hne). }
  eapply returns_mono; [apply IH; [done|by rewrite Econn|]|].
  { intros j Hj'. rewrite Hl1. by apply Hl, list_elem_of_further. }
  intros p2 (Hp2 & Hl2 & Hrest & H2). split_and!; [done|lia| |].
  - intros j Hnj. rewrite not_elem_of_cons in Hnj. destruct Hnj as [Hne Hnj]. by rewrite Hrest, Ho.
  - intros j sj aj cj [->|Hjl]%elem_of_cons Hsj Haj Hcj.
    + assert (sj = s) as -> by congruence. assert (aj = addr) as -> by congruence.
      assert (cj = c) as -> by congruence. exists s1. rewrite Hrest by done. done.
    + assert (j <> i) by (intros ->; done). rewrite <- (Ho j) in Hsj by done.
      apply (H2 j sj aj cj); [done|done|done|]. rewrite Hload; [done|]. intros ->.
      rewrite (Ho j) in Hsj by done. assert (j = i); [|done].
      by eapply (NoDup_lookup _ _ _ (Some addr) Hd); rewrite list_lookup_fmap, ?Hsj, ?Hs; simpl; f_equal.
Qed.

End Host_lemmas.

(** ** Properties *)

Section Properties.
Context {S C : Type} `{RuntimeStoreLaws S} `{Connection C}.

(** The allocation handler over the local host: the game gets a room with a fresh
    id, started from the default board and active, with both users seated under the
    ids of their sessions and the database id of the request; the answer names that
    room; every other room is as before and the manager stays well formed; and the
    runtime store sends exactly the two users to this server and room. *)
Theorem allocate_correct (host : LocalGameHost) (bound : option (Plane (C := C)))
    (request : GameCreationRequest) (server endpoint : string) (m : RoomManager) (store : S)
    (Hm : manager_ok m) (Hn : Rooms.next_id_ m < 2 ^ 64 - 1) :
  allocate (host_create_room host bound) server endpoint request (m, store) ⇓ (fun '(m', store', response) =>
    let id := Rooms.next_id_ m in
    response = mkCreationResponse id (or_else (lh_game_server_id host) server)
                 (Some (or_else (lh_endpoint host) endpoint)) /\
    manager_ok m' /\ rooms_ m !! id = None /\
    rooms_ m' !! id = Some (hosted_room bound request id (rm_default_board_ m)) /\
    (forall id', id' <> id -> rooms_ m' !! id' = rooms_ m !! id') /\
    forall u, find_player_location store' u =
      if decide (u = cr_white_user_id request \/ u = cr_black_user_id request)
      then Some (mkLocation (or_else (lh_game_server_id host) server)
                   (or_else (lh_endpoint host) endpoint) id)
      else find_player_location store u).
Proof.
  unfold allocate. cbn [fst snd]. destruct (host_create_room_spec host bound request m Hm Hn)
    as (m' & -> & Hok & _ & Hnone & Hroom & Hother).
  rewrite bind_ok. cbn [cp_room_id cp_game_server_id cp_endpoint]. apply returns_ok.
  split_and!; [done..|]. intros u. apply find_registered.
Qed.

(** C22: A round of the join handler: with sessions on distinct connections it never
    faults, keeps the session table well formed, and a session changes exactly if its
    open connection holds a request for an active room of which its user is a player:
    it then takes that user's side of that room and is playing. *)
Theorem join_process_correct (m : RoomManager) (p : Plane (C := C)) (Hp : plane_ok p)
    (Hd : NoDup (ps_connection <$> sessions_ p)) :
  join_process m p ⇓ (fun p' => plane_ok p' /\
    List.length (sessions_ p') = List.length (sessions_ p) /\
    forall i s addr c, sessions_ p !! i = Some s -> ps_connection s = Some addr ->
      load p addr = Ok c -> exists s', sessions_ p' !! i = Some s' /\ joined m c s s').
Proof.
  eapply returns_mono; [apply (join_loop_ok m _ p Hp Hd)|].
  - apply NoDup_seq.
  - intros i. rewrite elem_of_seq. lia.
  - intros p' (Hp' & Hl & _ & Hall). split_and!; [done|done|]. intros i s addr c Hs.
    apply Hall; [|done]. apply elem_of_seq. apply lookup_lt_Some in Hs. lia.
Qed.

End Properties.

#[local] Existing Instance idle_connection.

Definition sample_host : LocalGameHost := mkHost "" "ws://host:9002".
Definition sample_request : GameCreationRequest := mkCreationRequest 10 20 (Some 7).

Lemma allocate_correct_witness :
  allocate (host_create_room sample_host (Some sample_plane)) "game-1" "ws://other" sample_request
      (sample_manager, new_memory_store) ⇓ (fun '(m', store', response) =>
    let id := Rooms.next_id_ sample_manager in
    response = mkCreationResponse id (or_else (lh_game_server_id sample_host) "game-1")
                 (Some (or_else (lh_endpoint sample_host) "ws://other")) /\
    manager_ok m' /\ rooms_ sample_manager !! id = None /\
    rooms_ m' !! id = Some (hosted_room (Some sample_plane) sample_request id (rm_default_board_ sample_manager)) /\
    (forall id', id' <> id -> rooms_ m' !! id' = rooms_ sample_manager !! id') /\
    forall u, find_player_location store' u =
      if decide (u = cr_white_user_id sample_request \/ u = cr_black_user_id sample_request)
      then Some (mkLocation (or_else (lh_game_server_id sample_host) "game-1")
                   (or_else (lh_endpoint sample_host) "ws://other") id)
      else find_player_location new_memory_store u).
Proof.
  apply (allocate_correct sample_host (Some sample_plane) sample_request "game-1" "ws://other"
    sample_manager new_memory_store).
  - apply sample_manager_ok.
  - cbn [sample_manager Rooms.next_id_]. lia.
Defined.

(** A connection with the next message of the client. *)
#[local] Instance asking_connection : Connection (option string) := {|
  is_open _ := true; try_read c := (c, None); try_send c _ := (true, c);
  send_message c _ := (true, c); probe_disconnect c := c
|}.
Definition asking_plane : Plane (C := option string) :=
  mkPlane [(4096, Some "join_game 1"); (8192, Some "join_game 9")] 2
    [assign_user (new_session 0 (Some 4096)) 20 "bob" 1200; new_session 1 (Some 8192)] 2 ∅.

Lemma join_process_correct_witness :
  join_process sample_manager asking_plane ⇓ (fun p' => plane_ok p' /\
    List.length (sessions_ p') = List.length (sessions_ asking_plane) /\
    forall i s addr c, sessions_ asking_plane !! i = Some s -> ps_connection s = Some addr ->
      load asking_plane addr = Ok c ->
      exists s', sessions_ p' !! i = Some s' /\ joined sample_manager c s s').
Proof.
  apply (join_process_correct sample_manager asking_plane).
  - split; cbn [asking_plane sessions_ next_session_id_].
    + intros s [->|[->|Hs]%elem_of_cons]%elem_of_cons; [eexists..|set_solver];
        (split; [done|]); unfold live; simpl; set_solver.
    + apply NoDup_cons. split; [set_solver|apply NoDup_singleton].
    + intros s [->|[->|Hs]%elem_of_cons]%elem_of_cons; simpl; [lia..|set_solver].
  - apply NoDup_cons. split; [set_solver|apply NoDup_singleton].
Defined.

Example bob_joins : exists p', join_process sample_manager asking_plane = Ok p' /\
  (ps_state <$> sessions_ p') = [Playing; Connected] /\ (ps_side <$> sessions_ p') = [Some Black; None].
Proof. eexists. split; [vm_compute; reflexivity|done]. Qed.
