(* ===== verification/Allocation.v ===== *)
(** * Allocating games on other servers

    [src/src/server/game/runtime_store_game_server_registry.cpp] and
    [remote_game_allocator.cpp].  The HTTP request to another server is a parameter of
    the allocator; the wall clock is an argument. *)

From S2P Require Import Prelude Piece BoardModel PathUtils PieceRules CollisionResolver MoveScheduler RealTimeArbiter GameState CppString BoardIO GameMessages Codecs Rooms Sessions RuntimeStore Matchmaking Hosting.
From Stdlib Require Import Ascii String OrderedTypeEx Sorted.
Open Scope string_scope.
Open Scope Z_scope.

(** ** [RuntimeStoreGameServerRegistry] *)

Section Registry.
Context {S : Type} `{RuntimeStore S}.

Definition is_live_server (ttl now : Z) (server : GameServerRecord) : res bool :=
  if negb (String.eqb (gsr_status server) "healthy") then Ok false
  else if is_empty_string (gsr_allocation_endpoint server) then Ok false
  else if gsr_last_heartbeat server <=? 0 then Ok false
  else age ← i64_sub now (gsr_last_heartbeat server); Ok (age <=? ttl).

(** The comparison passed to [std::sort]. *)
Definition server_before (lhs rhs : GameServerRecord) : bool :=
  if negb (gsr_active_rooms lhs =? gsr_active_rooms rhs)
  then gsr_active_rooms lhs <? gsr_active_rooms rhs
  else String.ltb (gsr_server_id lhs) (gsr_server_id rhs).

(** [std::sort]: insertion into a sorted list. *)
Fixpoint insert_server (x : GameServerRecord) (l : list GameServerRecord) : list GameServerRecord :=
  match l with
  | [] => [x]
  | y :: l' => if server_before y x then y :: insert_server x l' else x :: l
  end.
Definition sort_servers (l : list GameServerRecord) : list GameServerRecord :=
  foldr insert_server [] l.

Fixpoint live_servers (ttl now : Z) (l : list GameServerRecord) : res (list GameServerRecord) :=
  match l with
  | [] => Ok []
  | server :: l' =>
      live ← is_live_server ttl now server;
      rest ← live_servers ttl now l';
      Ok (if live : bool then server :: rest else rest)
  end.
Definition list_available_servers (ttl now : Z) (s : S) : res (list GameServerRecord) :=
  servers ← live_servers ttl now (list_game_servers s);
  Ok (sort_servers servers).

Definition get_server (ttl now : Z) (s : S) (server_id : string) : res (option GameServerRecord) :=
  match get_game_server s server_id with
  | None => Ok None
  | Some server => live ← is_live_server ttl now server; Ok (if live : bool then Some server else None)
  end.

End Registry.

(** ** [RemoteGameAllocator] *)

(** The fields of an answer that the server left empty. *)
Definition complete_response (server : GameServerRecord) (response : GameCreationResponse) :
    GameCreationResponse :=
  mkCreationResponse (cp_room_id response)
    (or_else (cp_game_server_id response) (gsr_server_id server))
    (Some (match cp_endpoint response with
           | Some e => or_else e (gsr_endpoint server)
           | None => gsr_endpoint server
           end)).

Section Remote.
(** [GameAllocationHttpClient::allocate]: the answer to the request sent as the
    [n]-th attempt to an endpoint. *)
Context (http_allocate : nat -> string -> GameCreationRequest -> option GameCreationResponse).

Fixpoint try_candidates (request : GameCreationRequest) (attempts max_retry_count : nat)
    (candidates : list GameServerRecord) : res GameCreationResponse :=
  match candidates with
  | [] => Err RuntimeError
  | server :: rest =>
      if Nat.leb max_retry_count attempts then Err RuntimeError
      else
        match http_allocate attempts (gsr_allocation_endpoint server) request with
        | None => try_candidates request (attempts + 1) max_retry_count rest
        | Some response =>
            Ok (complete_response server response)
        end
  end.

(** [RemoteGameAllocator::allocate_game]. *)
Definition remote_allocate_game {S} `{RuntimeStore S} (ttl now : Z) (max_retry_count : nat) (s : S)
    (request : GameCreationRequest) : res GameCreationResponse :=
  candidates ← list_available_servers ttl now s;
  match candidates with
  | [] => Err RuntimeError
  | _ => try_candidates request 0 max_retry_count candidates
  end.

End Remote.

(** ** The order of the servers *)

(** Fewer rooms first, then the smaller name. *)
Definition less_loaded (a b : GameServerRecord) : Prop :=
  gsr_active_rooms a < gsr_active_rooms b \/
  gsr_active_rooms a = gsr_active_rooms b /\ String_as_OT.lt (gsr_server_id a) (gsr_server_id b).
Definition no_worse (a b : GameServerRecord) : Prop := ~ less_loaded b a.

Lemma server_before_spec a b : server_before a b = true <-> less_loaded a b.
Proof.
  unfold server_before, less_loaded. destruct (Z.eqb_spec (gsr_active_rooms a) (gsr_active_rooms b)) as [E|E].
  - cbn [negb]. unfold String.ltb. fold (String_as_OT.cmp (gsr_server_id a) (gsr_server_id b)).
    rewrite <- String_as_OT.cmp_lt.
    destruct (String_as_OT.cmp _ _); split; intros Hx; try done; try lia; try naive_solver lia.
  - cbn [negb]. rewrite Z.ltb_lt. split; [by left|]. intros [?|[? _]]; [done|lia].
Qed.

#[export] Instance less_loaded_order : StrictOrder less_loaded.
Proof.
  split.
  - intros a [?|[_ Hlt]]; [lia|]. by eapply String_as_OT.lt_not_eq.
  - intros a b c [?|[E1 L1]] [?|[E2 L2]]; [left; lia..|right].
    split; [lia|]. by eapply String_as_OT.lt_trans.
Qed.

Lemma less_loaded_cases a b : less_loaded a b \/ (gsr_active_rooms a = gsr_active_rooms b /\
  gsr_server_id a = gsr_server_id b) \/ less_loaded b a.
Proof.
  destruct (Z.lt_trichotomy (gsr_active_rooms a) (gsr_active_rooms b)) as [?|[E|?]];
    [left; by left| |right; right; by left].
  destruct (String_as_OT.compare (gsr_server_id a) (gsr_server_id b)) as [L|L|L].
  - left; by right.
  - right; by left.
  - right; right; right; done.
Qed.

#[export] Instance no_worse_transitive : Transitive no_worse.
Proof.
  intros a b c Hab Hbc Hca. destruct (less_loaded_cases a b) as [L|[[E1 E2]|L]]; [|..|done].
  - apply Hbc. by etransitivity.
  - apply Hbc. unfold less_loaded in *. by rewrite E1, E2 in Hca.
Qed.

Lemma insert_server_perm x l : insert_server x l ≡ₚ x :: l.
Proof.
  induction l as [|y l IH]; simpl; [done|]. destruct (server_before y x); [|done].
  rewrite IH. apply Permutation_swap.
Qed.

Lemma insert_server_sorted x l : Sorted no_worse l -> Sorted no_worse (insert_server x l).
Proof.
  induction 1 as [|y l Hl IH Hy]; simpl; [by repeat constructor|].
  destruct (server_before y x) eqn:E.
  - apply server_before_spec in E. constructor; [done|].
    assert (no_worse y x) by (intros L; exact (irreflexivity less_loaded y (transitivity E L))).
    destruct l as [|z l]; simpl; [by constructor|]. apply HdRel_inv in Hy.
    destruct (server_before z x); by constructor.
  - constructor; [by constructor|]. constructor. intros L%server_before_spec. congruence.
Qed.

Lemma sort_servers_spec l : sort_servers l ≡ₚ l /\ StronglySorted no_worse (sort_servers l).
Proof.
  split.
  - induction l as [|x l IH]; simpl; [done|]. rewrite insert_server_perm. by f_equiv.
  - apply Sorted_StronglySorted; [apply no_worse_transitive|].
    induction l as [|x l IH]; simpl; [constructor|by apply insert_server_sorted].
Qed.

(** ** Live servers *)

(** The server said within the last [ttl] seconds that it is healthy, and where. *)
Definition live_at (ttl now : Z) (r : GameServerRecord) : bool :=
  bool_decide (gsr_status r = "healthy") && negb (bool_decide (gsr_allocation_endpoint r = "")) &&
  (0 <? gsr_last_heartbeat r) && (now <=? gsr_last_heartbeat r + ttl).

Lemma is_live_server_spec ttl now r : 0 <= now < 2 ^ 63 -> gsr_last_heartbeat r < 2 ^ 63 ->
  is_live_server ttl now r = Ok (live_at ttl now r).
Proof.
  intros Hnow Hr. unfold is_live_server, live_at.
  destruct (String.eqb_spec (gsr_status r) "healthy"); cbn [negb];
    [rewrite bool_decide_eq_true_2 by done|by rewrite bool_decide_eq_false_2].
  destruct (gsr_allocation_endpoint r); [done|]. cbn [is_empty_string].
  rewrite bool_decide_eq_false_2 by done. cbn [negb andb].
  destruct (Z.leb_spec (gsr_last_heartbeat r) 0) as [Hh|Hh]; [by rewrite (proj2 (Z.ltb_ge _ _) Hh)|].
  rewrite (proj2 (Z.ltb_lt _ _) Hh). unfold i64_sub.
  rewrite i64_checked_ok, bind_ok by (unfold fits_i64; lia). f_equal.
  destruct (Z.leb_spec (now - gsr_last_heartbeat r) ttl), (Z.leb_spec now (gsr_last_heartbeat r + ttl)); lia || done.
Qed.

Lemma live_servers_spec ttl now l : 0 <= now < 2 ^ 63 ->
  (forall r, r ∈ l -> gsr_last_heartbeat r < 2 ^ 63) ->
  live_servers ttl now l = Ok (List.filter (live_at ttl now) l).
Proof.
  intros Hnow. induction l as [|r l IH]; intros Hl; [done|]. cbn [live_servers].
  rewrite is_live_server_spec, bind_ok, IH, bind_ok; [by cbn; destruct (live_at _ _ _)|..|done|].
  - intros r' Hr'. by apply Hl, list_elem_of_further.
  - apply Hl, list_elem_of_here.
Qed.

(** ** The attempts *)

(** The outcome of asking the candidates in order: the first answer, completed, or an
    exception if none of the first [max] answers. *)
Definition asked (http : nat -> string -> GameCreationRequest -> option GameCreationResponse)
    (request : GameCreationRequest) (from max : nat) (candidates : list GameServerRecord)
    (result : res GameCreationResponse) : Prop :=
  let silent k r := http (from + k)%nat (gsr_allocation_endpoint r) request = None in
  match result with
  | Ok response => exists n r answer, (from + n < max)%nat /\ candidates !! n = Some r /\
      http (from + n)%nat (gsr_allocation_endpoint r) request = Some answer /\
      response = complete_response r answer /\
      forall k r', (k < n)%nat -> candidates !! k = Some r' -> silent k r'
  | Err e => e = RuntimeError /\
      forall k r', (from + k < max)%nat -> candidates !! k = Some r' -> silent k r'
  end.

Lemma try_candidates_spec http request max candidates : forall from,
  asked http request from max candidates (try_candidates http request from max candidates).
Proof.
  induction candidates as [|r l IH]; intros from; cbn [try_candidates].
  { split; [done|]. intros k r' _ Hk. by rewrite lookup_nil in Hk. }
  destruct (Nat.leb_spec max from) as [Hm|Hm].
  { split; [done|]. intros k r' Hk. lia. }
  destruct (http from (gsr_allocation_endpoint r) request) as [answer|] eqn:E.
  { exists 0%nat, r, answer. rewrite Nat.add_0_r. split_and!; [done|done|done|done|]. intros; lia. }
  specialize (IH (from + 1)%nat). destruct (try_candidates http request (from + 1) max l) as [response|e].
  - destruct IH as (n & r' & answer & Hn & Hr' & Ha & -> & Hbefore). exists (Datatypes.S n), r', answer.
    split_and!; [lia|done|by replace (from + Datatypes.S n)%nat with (from + 1 + n)%nat by lia|done|].
    intros [|k] r'' Hk Hr''; [simplify_eq/=; by rewrite Nat.add_0_r|].
    replace (from + Datatypes.S k)%nat with (from + 1 + k)%nat by lia. apply Hbefore; [lia|done].
  - destruct IH as [-> Hall]. split; [done|].
    intros [|k] r'' Hk Hr''; [simplify_eq/=; by rewrite Nat.add_0_r|].
    replace (from + Datatypes.S k)%nat with (from + 1 + k)%nat by lia. apply Hall; [lia|done].
Qed.

(** The live servers of a store, best first. *)
Definition available {S} `{RuntimeStore S} (ttl now : Z) (s : S) (candidates : list GameServerRecord) : Prop :=
  (forall r, r ∈ candidates <->
     get_game_server s (gsr_server_id r) = Some r /\ live_at ttl now r = true) /\
  StronglySorted no_worse candidates.

Lemma list_available_spec {S : Type} `{RuntimeStoreLaws S} (ttl now : Z) (s : S) : 0 <= now < 2 ^ 63 ->
  (forall r, r ∈ list_game_servers s -> gsr_last_heartbeat r < 2 ^ 63) ->
  exists candidates, list_available_servers ttl now s = Ok candidates /\
    candidates ≡ₚ List.filter (live_at ttl now) (list_game_servers s) /\ available ttl now s candidates.
Proof.
  intros Hnow Hbeats. unfold list_available_servers. rewrite live_servers_spec, bind_ok by done.
  set (live := List.filter _ _). destruct (sort_servers_spec live) as [Hp Hs].
  eexists. split_and!; [done|done|]. split; [|done].
  intros r. rewrite Hp. unfold live. rewrite list_elem_of_In, filter_In, <- list_elem_of_In. by rewrite listed.
Qed.

(** ** Properties *)

(** C23: The remote allocator asks exactly the live servers of the store, each at most
    once and the least loaded first (ties by name), until one answers or the retries
    are used up: it returns the first answer, with the fields the server left empty
    filled from its record, and throws exactly if nobody that was asked answers. *)
Theorem remote_allocation_correct {S : Type} `{RuntimeStoreLaws S}
    (http : nat -> string -> GameCreationRequest -> option GameCreationResponse)
    (ttl now : Z) (max_retry_count : nat) (s : S) (request : GameCreationRequest)
    (Hnow : 0 <= now < 2 ^ 63)
    (Hbeats : forall r, r ∈ list_game_servers s -> gsr_last_heartbeat r < 2 ^ 63) :
  exists candidates,
    candidates ≡ₚ List.filter (live_at ttl now) (list_game_servers s) /\
    (forall r, r ∈ candidates <->
       get_game_server s (gsr_server_id r) = Some r /\ live_at ttl now r = true) /\
    StronglySorted no_worse candidates /\
    asked http request 0 max_retry_count candidates
      (remote_allocate_game http ttl now max_retry_count s request).
Proof.
  destruct (list_available_spec ttl now s Hnow Hbeats) as (candidates & El & Hp & Hin & Hs).
  exists candidates. split_and!; [done..|]. unfold remote_allocate_game. rewrite El, bind_ok.
  destruct candidates eqn:E; [|apply try_candidates_spec]. split; [done|]. intros k r _ Hk.
  by rewrite lookup_nil in Hk.
Qed.

Definition sample_store : InMemoryRuntimeStore :=
  let metrics rooms allocation := mkMetrics rooms 0 0 0 0 "" "" "ws://a" allocation false false in
  publish_server_heartbeat
    (publish_server_heartbeat new_memory_store "a" "eu" (metrics 3 "http://a") 1000)
    "b" "eu" (metrics 1 "http://b") 1005.
Definition sample_http (_ : nat) (endpoint : string) (_ : GameCreationRequest) :
    option GameCreationResponse :=
  if String.eqb endpoint "http://a" then Some (mkCreationResponse 4 "" None) else None.

Lemma remote_allocation_correct_witness :
  exists candidates,
    candidates ≡ₚ List.filter (live_at 30 1010) (list_game_servers sample_store) /\
    (forall r, r ∈ candidates <->
       get_game_server sample_store (gsr_server_id r) = Some r /\ live_at 30 1010 r = true) /\
    StronglySorted no_worse candidates /\
    asked sample_http sample_request 0 3 candidates
      (remote_allocate_game sample_http 30 1010 3 sample_store sample_request).
Proof.
  apply (remote_allocation_correct sample_http 30 1010 3 sample_store sample_request).
  - lia.
  - intros r Hr. apply listed in Hr. cbn [get_game_server memory_store] in Hr. unfold mem_get_server in Hr.
    change (game_servers_ sample_store) with
      (<["b" := mkServerEntry "ws://a" "http://b" "eu" 1 "healthy" 1005]>
       (<["a" := mkServerEntry "ws://a" "http://a" "eu" 3 "healthy" 1000]> (∅ : gmap string GameServerEntry))) in Hr.
    rewrite !lookup_insert, lookup_empty in Hr.
    repeat case_decide; [| |done]; injection Hr as Hr; rewrite <- Hr; simpl; lia.
Defined.

(** The first server does not answer; the second does, without naming itself. *)
Example second_server_answers :
  remote_allocate_game sample_http 30 1010 3 sample_store sample_request =
  Ok (mkCreationResponse 4 "a" (Some "ws://a")).
Proof. vm_compute. reflexivity. Qed.
