(* ===== verification/MatchService.v ===== *)
(** * The matchmaking service

    [src/src/matchmaking/remote_matchmaking_service.h]/[remote_matchmaking_service.cpp]
    over the queues of [Matchmaking], and the requests that
    [matchmaking/http/matchmaking_http_server.cpp] passes to it.

    The queues of all regions share one runtime store by reference: a queue is opened
    on the current store and closed after use.  The allocator is a parameter: it may
    change the store (another server registers the room) and may throw, and it leaves
    the matchmaking queues alone.  Notifications are recorded in order; log output and
    metrics are not modelled. *)

From S2P Require Import Prelude Piece BoardModel PathUtils PieceRules CollisionResolver MoveScheduler RealTimeArbiter GameState CppString BoardIO GameMessages Codecs Rooms Sessions Users GameLoop RuntimeStore Matchmaking GameResult Hosting Allocation.
From Stdlib Require Import Ascii String.
Open Scope string_scope.
Open Scope Z_scope.

(** The calls of [IGatewayNotifier]. *)
Inductive Notice :=
| MatchFound (n : MatchNotification)
| SearchTimeout (player_id : Z).

(** A queue object without its reference to the store. *)
Record QueueCell := mkCell {
  qc_region : string; qc_max_difference : Z; qc_timeout : Z; qc_waiting : list QueuedPlayer
}.

Definition default_region_ : string := "local".

Section Service.
Context {S G A : Type} `{RuntimeStore S} `{GameRepository G}.
(** [IGameAllocator::allocate_game]; no response stands for an exception. *)
Context (allocate_game : S -> A -> GameCreationRequest -> S * A * option GameCreationResponse).
Context (config : MatchmakingConfig) (gateway_server_id_ : string).

Record Service := mkService {
  sv_store : S;
  sv_games : G;
  sv_allocator : A;
  default_queue_ : QueueCell;
  region_queues_ : gmap string QueueCell;
  sv_notices : list Notice
}.

Definition open_queue (s : S) (c : QueueCell) : PlayerMatchmakingQueue :=
  mkQueue s (qc_region c) (qc_max_difference c) (qc_timeout c) (qc_waiting c).
Definition close_queue (q : PlayerMatchmakingQueue (S := S)) : QueueCell :=
  mkCell (region_ q) (max_rating_difference_ q) (queue_timeout_ q) (waiting_ q).

Definition new_service (s : S) (g : G) (a : A) : res Service :=
  q ← new_queue s default_region_ config;
  Ok (mkService s g a (close_queue q) ∅ []).

(** The queue of a region, made on first use. *)
Definition queue_for (st : Service) (region : string) : res (QueueCell * Service) :=
  if String.eqb region default_region_ then Ok (default_queue_ st, st)
  else
    match region_queues_ st !! region with
    | Some c => Ok (c, st)
    | None =>
        q ← new_queue (sv_store st) region config;
        Ok (close_queue q,
            mkService (sv_store st) (sv_games st) (sv_allocator st) (default_queue_ st)
              (<[region := close_queue q]> (region_queues_ st)) (sv_notices st))
    end.

(** The effect of an operation on the queue that [queue_for] returned. *)
Definition write_queue (st : Service) (region : string) (q : PlayerMatchmakingQueue (S := S)) : Service :=
  let is_default := String.eqb region default_region_ in
  mkService (runtime_store_ q) (sv_games st) (sv_allocator st)
    (if is_default then close_queue q else default_queue_ st)
    (if is_default then region_queues_ st else <[region := close_queue q]> (region_queues_ st))
    (sv_notices st).

Definition notify (st : Service) (n : Notice) : Service :=
  mkService (sv_store st) (sv_games st) (sv_allocator st) (default_queue_ st) (region_queues_ st)
    (sv_notices st ++ [n])%list.

(** [finalize_match]; [false] if the allocator's exception is thrown on. *)
Definition finalize_match (st : Service) (white black : QueuedPlayer) : Service * bool :=
  let '(g, db_game_id) :=
    create_game (sv_games st) (to_int (qp_user_id white)) (to_int (qp_user_id black)) in
  let request := mkCreationRequest (qp_user_id white) (qp_user_id black) db_game_id in
  let '(s, a, response) := allocate_game (sv_store st) (sv_allocator st) request in
  let after s := mkService s g a (default_queue_ st) (region_queues_ st) (sv_notices st) in
  match response with
  | None => (after s, false)
  | Some response =>
      let routing_server_id := or_else (cp_game_server_id response) gateway_server_id_ in
      let endpoint := match cp_endpoint response with Some e => e | None => "" end in
      let s := register_room s (cp_room_id response) (qp_user_id white) (qp_user_id black)
                 routing_server_id endpoint in
      (notify (after s) (MatchFound
         (mkMatchCompleted (qp_player_id white) (qp_user_id white) (qp_player_id black)
            (qp_user_id black) (cp_room_id response) routing_server_id endpoint)), true)
  end.

(** The answer is missing if an exception leaves the call. *)
Definition enter_queue (now : Z) (request : MatchRequest) (st : Service) :
    res (Service * option MatchResponse) :=
  let region := if is_empty_string (mr_region request) then default_region_ else mr_region request in
  r ← queue_for st region;
  let '(c, st) := r in
  let incoming := mkQueued (mr_player_id request) (mr_user_id request) (mr_elo request) now in
  let q := remove (open_queue (sv_store st) c) (mr_player_id request) in
  r ← try_pair q incoming;
  match r with
  | (Some (white, black), q) =>
      let '(st, ok) := finalize_match (write_queue st region q) white black in
      Ok (st, if ok then Some (mkMatchResponse Queued "matched") else None)
  | (None, q) =>
      Ok (write_queue st region (enqueue q incoming), Some (mkMatchResponse Queued "queued"))
  end.

Definition leave_queue (player_id : Z) (region : string) (st : Service) : res Service :=
  r ← queue_for st region;
  let '(c, st) := r in
  Ok (write_queue st region (remove (open_queue (sv_store st) c) player_id)).

Definition drain_timeouts (now : Z) (region : string) (st : Service) : res (list Z * Service) :=
  r ← queue_for st region;
  let '(c, st) := r in
  r ← check_timeouts (open_queue (sv_store st) c) now;
  let '(timed_out, q) := r in
  Ok (timed_out, foldl (fun st id => notify st (SearchTimeout id)) (write_queue st region q) timed_out).

(** The loop of [process_queue] is that of [drain_timeouts]. *)
Definition process_queue (now : Z) (region : string) (st : Service) : res Service :=
  r ← drain_timeouts now region st; Ok r.2.

Definition service_waiting_count (st : Service) (region : string) : Z :=
  if String.eqb region default_region_ then vlen (qc_waiting (default_queue_ st))
  else vlen (list_matchmaking_queue (sv_store st) region).

(** ** The HTTP server's requests *)

Inductive HttpStatus := HttpOk | BadRequest | Unauthorized | NotFound | MethodNotAllowed | ServiceUnavailable.

(** The answer to a request, or a dropped connection after an exception. *)
Definition handle_request (now : Z) (is_post : bool) (target body : string) (st : Service) :
    res (Service * option (HttpStatus * string)) :=
  if negb is_post then Ok (st, Some (MethodNotAllowed, "Method Not Allowed"))
  else if String.eqb target "/matchmaking/join" then
    match decode_match_request body with
    | Some request =>
        r ← enter_queue now request st;
        Ok (r.1, match r.2 with Some m => Some (HttpOk, encode_match_response m) | None => None end)
    | None => Ok (st, Some (BadRequest, "Bad Request"))
    end
  else if String.eqb target "/matchmaking/leave" then
    match decode_match_request body with
    | Some request =>
        st ← leave_queue (mr_player_id request) (mr_region request) st;
        Ok (st, Some (HttpOk, encode_match_response (mkMatchResponse Queued "left")))
    | None => Ok (st, Some (BadRequest, "Bad Request"))
    end
  else Ok (st, Some (NotFound, "Not Found")).

(** ** Invariant *)

(** A queue object agrees with the store and was made from the configuration. *)
Record cell_ok (s : S) (region : string) (c : QueueCell) : Prop := {
  co_region : qc_region c = region;
  co_max : qc_max_difference c = max_rating_difference config;
  co_timeout : qc_timeout c = queue_timeout config * 1000;
  co_waiting : qc_waiting c = list_matchmaking_queue s region
}.

(** A stored queue: numbers in range, and nobody waits twice. *)
Definition stored_ok (l : list QueuedPlayer) : Prop :=
  Forall entry_ok l /\ NoDup (qp_player_id <$> l).

Record service_ok (st : Service) : Prop := {
  so_default : cell_ok (sv_store st) default_region_ (default_queue_ st);
  so_regions : forall region c, region_queues_ st !! region = Some c -> cell_ok (sv_store st) region c;
  so_none : region_queues_ st !! default_region_ = None;
  so_stored : forall region, stored_ok (list_matchmaking_queue (sv_store st) region)
}.

(** The queue of a region, as the store has it. *)
Definition queue_at (st : Service) (region : string) : list QueuedPlayer :=
  list_matchmaking_queue (sv_store st) region.

(** ** Lemmas *)

Section Laws.
Context `{!RuntimeStoreLaws S}.
Context (Hconfig : fits_i64 (queue_timeout config * 1000)).

Lemma open_queue_ok st region c : service_ok st -> cell_ok (sv_store st) region c ->
  queue_ok (open_queue (sv_store st) c).
Proof.
  intros Hst [Er _ _ Ew]. split; unfold persisted; simpl; rewrite Ew; [by rewrite Er|].
  apply (so_stored st Hst).
Qed.

(** A queue made on first use is the stored one. *)
Lemma new_queue_cell s region :
  new_queue s region config ⇓ (fun q => runtime_store_ q = s /\ cell_ok s region (close_queue q)).
Proof.
  unfold new_queue, i64_mul. rewrite i64_checked_ok, bind_ok by done. apply returns_ok. by repeat split.
Qed.

(** What [queue_for] may change: the queue objects only. *)
Definition same_world (st st' : Service) : Prop :=
  sv_store st' = sv_store st /\ sv_games st' = sv_games st /\ sv_allocator st' = sv_allocator st /\
  sv_notices st' = sv_notices st.

Lemma queue_for_ok st region : service_ok st ->
  queue_for st region ⇓ (fun '(c, st') =>
    service_ok st' /\ cell_ok (sv_store st) region c /\ same_world st st').
Proof.
  intros Hst. unfold queue_for. destruct (String.eqb_spec region default_region_) as [->|Hne].
  { apply returns_ok. split_and!; [done|apply Hst|done]. }
  destruct (region_queues_ st !! region) as [c|] eqn:E.
  { apply returns_ok. split_and!; [done|by apply Hst|done]. }
  apply returns_bind. eapply returns_mono; [apply new_queue_cell|]. intros q [Es Hc]. apply returns_ok.
  split_and!; [|done|done]. destruct Hst as [H1 H2 H3 H4].
  split; cbn [sv_store default_queue_ region_queues_]; [done| |by rewrite lookup_insert_ne|done].
  intros r c [[<- <-]|[_ Hr]]%lookup_insert_Some; [done|by apply H2].
Qed.

Lemma cell_other s s' region region' c : cell_ok s region' c -> region' <> region ->
  only_region region s s' -> cell_ok s' region' c.
Proof. intros [? ? ? E] Hne [Ho _]. split; [done..|]. by rewrite Ho. Qed.

(** Closing a queue that works on its own region. *)
Lemma write_queue_ok st region q : service_ok st -> region_ q = region ->
  max_rating_difference_ q = max_rating_difference config ->
  queue_timeout_ q = queue_timeout config * 1000 ->
  queue_ok q -> NoDup (qp_player_id <$> waiting_ q) ->
  only_region region (sv_store st) (runtime_store_ q) ->
  service_ok (write_queue st region q) /\ queue_at (write_queue st region q) region = waiting_ q /\
  forall r, r <> region -> queue_at (write_queue st region q) r = queue_at st r.
Proof.
  intros [H1 H2 H3 H4] Er Em Et [Hp Hf] Hnd Ho. unfold persisted in Hp. rewrite Er in Hp.
  assert (cell_ok (runtime_store_ q) region (close_queue q)) as Hc by (split; [done..|by symmetry]).
  assert (forall r, stored_ok (list_matchmaking_queue (runtime_store_ q) r)) as Hs.
  { intros r. destruct (decide (r = region)) as [->|Hne]; [by rewrite Hp|].
    rewrite (proj1 Ho r Hne). apply H4. }
  split_and!; [|done|by apply Ho].
  unfold write_queue. destruct (String.eqb_spec region default_region_) as [->|Hne];
    split; cbn [sv_store default_queue_ region_queues_]; try done.
  - intros r c Hr. eapply cell_other; [by apply H2| |done]. intros ->. congruence.
  - by eapply cell_other; [|apply not_eq_sym|].
  - intros r c [[<- <-]|[Hr' Hr]]%lookup_insert_Some; [done|].
    eapply cell_other; [by apply H2|by apply not_eq_sym|done].
  - by rewrite lookup_insert_ne.
Qed.

(** The queue without a player. *)
Definition without (player_id : Z) (l : list QueuedPlayer) : list QueuedPlayer :=
  List.filter (fun e => negb (qp_player_id e =? player_id)) l.

Lemma without_sublist player_id l : sublist (without player_id l) l.
Proof.
  induction l as [|e l IH]; simpl; [done|].
  destruct (negb _); [by apply sublist_skip|by apply sublist_cons].
Qed.

Lemma sublist_ids l1 l2 : sublist l1 l2 -> NoDup (qp_player_id <$> l2) -> NoDup (qp_player_id <$> l1).
Proof. intros Hs Hn. eapply sublist_NoDup; [done|]. by apply fmap_sublist. Qed.

Lemma without_not_in player_id l : player_id ∉ qp_player_id <$> without player_id l.
Proof.
  intros (e & -> & [_ He]%list_elem_of_In%filter_In)%list_elem_of_fmap. lia.
Qed.

(** ** What entering the queue does *)

Definition region_of (request : MatchRequest) : string :=
  if is_empty_string (mr_region request) then default_region_ else mr_region request.
Definition newcomer (now : Z) (request : MatchRequest) : QueuedPlayer :=
  mkQueued (mr_player_id request) (mr_user_id request) (mr_elo request) now.
Definition close_to (request : MatchRequest) (e : QueuedPlayer) : Prop :=
  Z.abs (mr_elo request - qp_elo e) <= max_rating_difference config.

(** The newcomer plays Black against [white]: the game is recorded and allocated, on a
    store in which only the queue of the region has changed.  The store then sends both
    users to the room and both players are told; or the exception leaves the call. *)
Definition match_made (st : Service) (request : MatchRequest) (white : QueuedPlayer)
    (st' : Service) (answer : option MatchResponse) : Prop :=
  let '(g, db_game_id) :=
    create_game (sv_games st) (to_int (qp_user_id white)) (to_int (mr_user_id request)) in
  exists s1, only_region (region_of request) (sv_store st) s1 /\
  let '(s2, a, response) := allocate_game s1 (sv_allocator st)
    (mkCreationRequest (qp_user_id white) (mr_user_id request) db_game_id) in
  sv_games st' = g /\ sv_allocator st' = a /\
  match response with
  | None => answer = None /\ sv_notices st' = sv_notices st /\ sv_store st' = s2
  | Some response =>
      let server := or_else (cp_game_server_id response) gateway_server_id_ in
      let endpoint := match cp_endpoint response with Some e => e | None => "" end in
      answer = Some (mkMatchResponse Queued "matched") /\
      sv_notices st' = (sv_notices st ++ [MatchFound
        (mkMatchCompleted (qp_player_id white) (qp_user_id white) (mr_player_id request)
           (mr_user_id request) (cp_room_id response) server endpoint)])%list /\
      (forall id, get_game_server (sv_store st') id = get_game_server s2 id) /\
      forall u, find_player_location (sv_store st') u =
        if decide (u = qp_user_id white \/ u = mr_user_id request)
        then Some (mkLocation server endpoint (cp_room_id response))
        else find_player_location s2 u
  end.

(** The newcomer waits. *)
Definition now_waiting (st : Service) (st' : Service) (answer : option MatchResponse) : Prop :=
  answer = Some (mkMatchResponse Queued "queued") /\
  sv_games st' = sv_games st /\ sv_allocator st' = sv_allocator st /\
  sv_notices st' = sv_notices st /\
  (forall id, get_game_server (sv_store st') id = get_game_server (sv_store st) id) /\
  forall u, find_player_location (sv_store st') u = find_player_location (sv_store st) u.

(** The allocator leaves the matchmaking queues alone. *)
Context (Halloc : forall s a request region,
  list_matchmaking_queue (allocate_game s a request).1.1 region = list_matchmaking_queue s region).

(** A change of the store that keeps the queues keeps the service well formed. *)
Lemma service_store st s g a ns : service_ok st ->
  (forall region, list_matchmaking_queue s region = queue_at st region) ->
  service_ok (mkService s g a (default_queue_ st) (region_queues_ st) ns).
Proof.
  intros [[A1 A2 A3 A4] H2 H3 H4] Hq. split; cbn [sv_store default_queue_ region_queues_]; [| |done|].
  - split; [done..|]. by rewrite Hq.
  - intros r c Hr. destruct (H2 r c Hr) as [B1 B2 B3 B4]. split; [done..|]. by rewrite Hq.
  - intros r. rewrite Hq. apply H4.
Qed.

Lemma finalize_match_ok st white black : service_ok st ->
  let '(st', ok) := finalize_match st white black in
  service_ok st' /\ (forall region, queue_at st' region = queue_at st region) /\
  let '(g, db_game_id) :=
    create_game (sv_games st) (to_int (qp_user_id white)) (to_int (qp_user_id black)) in
  let '(s2, a, response) := allocate_game (sv_store st) (sv_allocator st)
    (mkCreationRequest (qp_user_id white) (qp_user_id black) db_game_id) in
  sv_games st' = g /\ sv_allocator st' = a /\
  match response with
  | None => ok = false /\ sv_notices st' = sv_notices st /\ sv_store st' = s2
  | Some response =>
      let server := or_else (cp_game_server_id response) gateway_server_id_ in
      let endpoint := match cp_endpoint response with Some e => e | None => "" end in
      ok = true /\
      sv_notices st' = (sv_notices st ++ [MatchFound
        (mkMatchCompleted (qp_player_id white) (qp_user_id white) (qp_player_id black)
           (qp_user_id black) (cp_room_id response) server endpoint)])%list /\
      (forall id, get_game_server (sv_store st') id = get_game_server s2 id) /\
      forall u, find_player_location (sv_store st') u =
        if decide (u = qp_user_id white \/ u = qp_user_id black)
        then Some (mkLocation server endpoint (cp_room_id response))
        else find_player_location s2 u
  end.
Proof.
  intros Hst. unfold finalize_match. destruct (create_game _ _ _) as [g id].
  pose proof (Halloc (sv_store st) (sv_allocator st)
    (mkCreationRequest (qp_user_id white) (qp_user_id black) id)) as Hq.
  destruct (allocate_game _ _ _) as [[s2 a] [response|]]; cbn [fst snd] in *.
  - split_and!; [| |done|done|done|done|intros id'; apply get_registered|].
    + apply (service_store st); [done|]. intros r. cbn [notify sv_store]. by rewrite list_registered.
    + intros r. unfold queue_at. cbn [notify sv_store]. by rewrite list_registered.
    + intros u. apply find_registered.
  - by split_and!; [apply (service_store st)|..].
Qed.

(** The queue of the region after the newcomer's old entry is removed. *)
Lemma removed_queue st region c player : service_ok st -> cell_ok (sv_store st) region c ->
  let q := remove (open_queue (sv_store st) c) player in
  queue_ok q /\ waiting_ q = without player (queue_at st region) /\
  NoDup (qp_player_id <$> waiting_ q) /\ region_ q = region /\
  max_rating_difference_ q = max_rating_difference config /\
  queue_timeout_ q = queue_timeout config * 1000 /\
  only_region region (sv_store st) (runtime_store_ q).
Proof.
  intros Hst Hc. pose proof (open_queue_ok st region c Hst Hc) as Hq. destruct Hc as [Er Em Et Ew].
  assert (waiting_ (remove (open_queue (sv_store st) c) player) = without player (queue_at st region)) as E.
  { cbn. by rewrite Ew. }
  split_and!; [by apply remove_ok|exact E| |exact Er|exact Em|exact Et|].
  - rewrite E. eapply sublist_ids; [apply without_sublist|]. apply (so_stored st Hst).
  - rewrite <- Er. apply (persist_only (set_waiting (open_queue (sv_store st) c) _)).
Qed.

Lemma enter_queue_spec now request st : service_ok st -> 0 <= mr_elo request < 2 ^ 31 ->
  0 <= now < 2 ^ 62 ->
  let region := region_of request in
  let waiting := without (mr_player_id request) (queue_at st region) in
  enter_queue now request st ⇓ (fun '(st', answer) =>
    service_ok st' /\ (forall r, r <> region -> queue_at st' r = queue_at st r) /\
    ((exists l1 white l2, waiting = (l1 ++ white :: l2)%list /\
        close_to request white /\ Forall (fun e => ~ close_to request e) l1 /\
        queue_at st' region = (l1 ++ l2)%list /\ match_made st request white st' answer) \/
     (Forall (fun e => ~ close_to request e) waiting /\
        queue_at st' region = (waiting ++ [newcomer now request])%list /\
        now_waiting st st' answer))).
Proof.
  intros Hst Helo Hnow region waiting. unfold enter_queue. fold (region_of request) region.
  apply returns_bind. eapply returns_mono; [by apply queue_for_ok|].
  intros [c st1] (Hst1 & Hc & Es & Eg & Ea & En). rewrite <- Es in Hc.
  destruct (removed_queue st1 region c (mr_player_id request) Hst1 Hc)
    as (Hq & Ew & Hnd & Er & Em & Et & Ho).
  set (q := remove _ _) in *. fold (newcomer now request).
  assert (queue_at st1 = queue_at st) as Eq by (unfold queue_at; by rewrite Es).
  rewrite Eq in Ew. fold waiting in Ew.
  apply returns_bind. eapply returns_mono; [apply try_pair_spec; [done|by split]|].
  assert (forall e, compatible q (newcomer now request) e <-> close_to request e) as Hclose.
  { intros e. unfold compatible, close_to. by rewrite Em. }
  intros [[[white black]|] q'] [Hq' Hr]; cbn [fst snd] in *.
  - destruct Hr as (-> & Hcl & l1 & l2 & El & -> & Hl1). rewrite Ew in El.
    destruct (write_queue_ok st1 region (persist_queue (set_waiting q (l1 ++ l2)%list)))
      as (Hok & Eat & Eother); [done|exact Er|exact Em|exact Et|done| | |].
    { cbn. rewrite Ew, El in Hnd. eapply sublist_ids; [|exact Hnd].
      apply sublist_app; [done|by apply sublist_cons]. }
    { etransitivity; [exact Ho|]. rewrite <- Er. apply (persist_only (set_waiting q (l1 ++ l2)%list)). }
    pose proof (finalize_match_ok _ white (newcomer now request) Hok) as Hfin.
    destruct (finalize_match _ _ _) as [st2 ok]. destruct Hfin as (Hok2 & Eq2 & Hrest).
    apply returns_ok. split_and!; [done| |left].
    + intros r Hr. by rewrite Eq2, Eother, Eq.
    + exists l1, white, l2. split_and!; [done|by apply Hclose| |by rewrite Eq2, Eat|].
      { eapply Forall_impl; [exact Hl1|]. intros e He. by rewrite <- Hclose. }
      unfold match_made. cbn [write_queue sv_games sv_allocator sv_notices sv_store newcomer qp_user_id qp_player_id] in Hrest.
      rewrite Eg, Ea, En in Hrest. destruct (create_game _ _ _) as [g id].
      exists (runtime_store_ (persist_queue (set_waiting q (l1 ++ l2)%list))). split.
      * fold region. rewrite <- Es. etransitivity; [exact Ho|]. rewrite <- Er.
        apply (persist_only (set_waiting q (l1 ++ l2)%list)).
      * destruct (allocate_game _ _ _) as [[s2 a] [response|]];
          destruct Hrest as (H1 & H2 & -> & H3 & H4); split_and!; try done; apply H4.
  - destruct Hr as [-> Hall]. rewrite Ew in Hall.
    assert (only_region region (sv_store st1) (runtime_store_ (enqueue q (newcomer now request)))) as Ho'.
    { etransitivity; [exact Ho|]. rewrite <- Er.
      apply (persist_only (set_waiting q (waiting_ q ++ [newcomer now request])%list)). }
    destruct (write_queue_ok st1 region (enqueue q (newcomer now request)))
      as (Hok & Eat & Eother); [done|exact Er|exact Em|exact Et|by apply enqueue_ok| |done|].
    { cbn [enqueue persist_queue set_waiting waiting_]. rewrite fmap_app. apply NoDup_app. split_and!; [done| |apply NoDup_singleton].
      rewrite Ew. intros x Hx ->%list_elem_of_singleton. by eapply without_not_in. }
    apply returns_ok. split_and!; [done|intros r Hr; by rewrite Eother, Eq|right].
    split_and!; [|by rewrite Eat; cbn [enqueue persist_queue set_waiting waiting_]; rewrite Ew|].
    + eapply Forall_impl; [exact Hall|]. intros e He. by rewrite <- Hclose.
    + split_and!; [done..| |]; intros; rewrite <- Es; apply Ho'.
Qed.

(** ** The other operations *)

(** What changes only the queue of a region and who was told. *)
Definition only_queue (region : string) (told : list Notice) (st st' : Service) : Prop :=
  (forall r, r <> region -> queue_at st' r = queue_at st r) /\
  (forall u, find_player_location (sv_store st') u = find_player_location (sv_store st) u) /\
  sv_games st' = sv_games st /\ sv_allocator st' = sv_allocator st /\
  sv_notices st' = (sv_notices st ++ told)%list /\
  (forall id, get_game_server (sv_store st') id = get_game_server (sv_store st) id).

Lemma leave_queue_spec player region st : service_ok st ->
  leave_queue player region st ⇓ (fun st' => service_ok st' /\
    queue_at st' region = without player (queue_at st region) /\ only_queue region [] st st').
Proof.
  intros Hst. unfold leave_queue. apply returns_bind. eapply returns_mono; [by apply queue_for_ok|].
  intros [c st1] (Hst1 & Hc & Es & Eg & Ea & En). rewrite <- Es in Hc. apply returns_ok.
  destruct (removed_queue st1 region c player Hst1 Hc) as (Hq & Ew & Hnd & Er & Em & Et & Ho).
  set (q := remove _ _) in *.
  assert (queue_at st1 = queue_at st) as Eq by (unfold queue_at; by rewrite Es).
  destruct (write_queue_ok st1 region q) as (Hok & Eat & Eother); [done..|].
  split_and!; [done|by rewrite Eat, Ew, Eq|]. split_and!; [|..|done|done|by rewrite app_nil_r|].
  - intros r Hr. by rewrite Eother, Eq.
  - intros u. rewrite <- Es. apply Ho.
  - intros u. rewrite <- Es. apply Ho.
Qed.

Definition waited_out (now : Z) (e : QueuedPlayer) : Prop :=
  queue_timeout config <= now - qp_enqueue_epoch_seconds e.
#[export] Instance waited_out_dec now e : Decision (waited_out now e).
Proof. unfold waited_out. apply _. Defined.

Lemma notify_all st ids : service_ok st ->
  let st' := foldl (fun st id => notify st (SearchTimeout id)) st ids in
  service_ok st' /\ sv_store st' = sv_store st /\ sv_games st' = sv_games st /\
  sv_allocator st' = sv_allocator st /\ sv_notices st' = (sv_notices st ++ (SearchTimeout <$> ids))%list.
Proof.
  revert st. induction ids as [|id ids IH]; intros st Hst; simpl; [by rewrite app_nil_r|].
  destruct (IH (notify st (SearchTimeout id))) as (H1 & H2 & H3 & H4 & H5).
  { by apply (service_store st). }
  split_and!; [done..|]. rewrite H5. simpl. by rewrite <- app_assoc.
Qed.

Lemma drain_timeouts_spec now region st : service_ok st -> 0 <= now < 2 ^ 62 ->
  drain_timeouts now region st ⇓ (fun '(ids, st') => service_ok st' /\
    ids = qp_player_id <$> filter (waited_out now) (queue_at st region) /\
    queue_at st' region = filter (fun e => ~ waited_out now e) (queue_at st region) /\
    only_queue region (SearchTimeout <$> ids) st st').
Proof.
  intros Hst Hnow. unfold drain_timeouts. apply returns_bind.
  eapply returns_mono; [by apply queue_for_ok|].
  intros [c st1] (Hst1 & Hc & Es & Eg & Ea & En). rewrite <- Es in Hc.
  pose proof (open_queue_ok st1 region c Hst1 Hc) as Hq. destruct Hc as [Er Em Et Ew].
  apply returns_bind. eapply returns_mono; [by apply check_timeouts_spec|].
  intros [ids q] (Eids & Ewq & Hokq & Erq & Emq & Etq & Ho). cbn [fst snd open_queue waiting_ region_
    max_rating_difference_ queue_timeout_ runtime_store_] in *.
  assert (forall e, expired (open_queue (sv_store st1) c) now e <-> waited_out now e) as Hexp.
  { intros e. unfold expired, waited_out. cbn [open_queue queue_timeout_]. rewrite Et, Z.quot_mul; lia. }
  rewrite Ew, Es in Eids, Ewq. fold (queue_at st region) in Eids, Ewq.
  rewrite (list_filter_iff _ (waited_out now) _ Hexp) in Eids.
  rewrite (list_filter_iff _ (fun e => ~ waited_out now e) _ (fun e => not_iff_compat (Hexp e))) in Ewq.
  rewrite Er in *. apply returns_ok.
  destruct (write_queue_ok st1 region q) as (Hok & Eat & Eother); [done|congruence|congruence|congruence|done| |done|].
  { rewrite Ewq. eapply sublist_ids; [apply sublist_filter|]. apply (so_stored st Hst). }
  destruct (notify_all (write_queue st1 region q) ids Hok) as (H1 & H2 & H3 & H4 & H5).
  split_and!; [done|done|by rewrite <- Ewq, <- Eat; unfold queue_at; rewrite H2|]. split_and!.
  - intros r Hr. unfold queue_at. rewrite H2, <- Es. by apply Eother.
  - intros u. rewrite H2, <- Es. apply Ho.
  - by rewrite H3.
  - by rewrite H4.
  - by rewrite H5, <- En.
  - intros id. rewrite H2, <- Es. apply Ho.
Qed.

(** ** Requests and timeouts *)

(** What reaches a running matchmaker. *)
Inductive ServiceEvent :=
| HttpRequest (now : Z) (is_post : bool) (target body : string)
| ProcessQueue (now : Z) (region : string).

Definition service_event (e : ServiceEvent) (st : Service) : res Service :=
  match e with
  | HttpRequest now is_post target body => r ← handle_request now is_post target body st; Ok r.1
  | ProcessQueue now region => process_queue now region st
  end.

(** Times of the clock, and ratings that are not negative. *)
Definition event_ok (e : ServiceEvent) : Prop :=
  match e with
  | HttpRequest now _ _ body => 0 <= now < 2 ^ 62 /\
      forall request, decode_match_request body = Some request -> 0 <= mr_elo request < 2 ^ 31
  | ProcessQueue now _ => 0 <= now < 2 ^ 62
  end.

Lemma service_event_ok e st : service_ok st -> event_ok e -> service_event e st ⇓ service_ok.
Proof.
  intros Hst He. destruct e as [now is_post target body|now region]; cbn [service_event event_ok] in *.
  - destruct He as [Hnow Hbody]. unfold handle_request.
    destruct is_post; cbn [negb]; [|rewrite bind_ok; by apply returns_ok].
    destruct (String.eqb target _); [|destruct (String.eqb target _)];
      try (destruct (decode_match_request body) as [request|]; [|rewrite bind_ok; by apply returns_ok]).
    + apply returns_bind, returns_bind. eapply returns_mono; [apply enter_queue_spec; [done|by apply Hbody|done]|].
      intros [st' answer] (Hok & _). apply returns_ok. by apply returns_ok.
    + apply returns_bind, returns_bind. eapply returns_mono; [by apply leave_queue_spec|].
      intros st' (Hok & _). apply returns_ok. by apply returns_ok.
    + rewrite bind_ok. by apply returns_ok.
  - unfold process_queue. apply returns_bind. eapply returns_mono; [by apply drain_timeouts_spec|].
    intros [ids st'] (Hok & _). by apply returns_ok.
Qed.

Lemma new_service_ok s g a : (forall region, stored_ok (list_matchmaking_queue s region)) ->
  new_service s g a ⇓ service_ok.
Proof.
  intros Hs. unfold new_service. apply returns_bind. eapply returns_mono; [apply new_queue_cell|].
  intros q [_ Hc]. apply returns_ok. split; [done|by intros|done|done].
Qed.

(** ** Properties *)

(** C14: Entering the queue: the newcomer's old entry is dropped; if somebody in the
    region has a close rating the first such player is taken out of the queue and the
    two are matched, White first: the game is recorded and allocated, the store sends
    both users to its room and both are told (or the allocator's exception leaves the
    call with neither of them waiting); otherwise the newcomer is put at the end.  No
    other region changes, and the call never faults. *)
Theorem enter_queue_correct now request st : service_ok st -> 0 <= mr_elo request < 2 ^ 31 ->
  0 <= now < 2 ^ 62 ->
  let region := region_of request in
  let waiting := without (mr_player_id request) (queue_at st region) in
  enter_queue now request st ⇓ (fun '(st', answer) =>
    service_ok st' /\ (forall r, r <> region -> queue_at st' r = queue_at st r) /\
    ((exists l1 white l2, waiting = (l1 ++ white :: l2)%list /\
        close_to request white /\ Forall (fun e => ~ close_to request e) l1 /\
        queue_at st' region = (l1 ++ l2)%list /\ match_made st request white st' answer) \/
     (Forall (fun e => ~ close_to request e) waiting /\
        queue_at st' region = (waiting ++ [newcomer now request])%list /\
        now_waiting st st' answer))).
Proof. apply enter_queue_spec. Qed.

(** Leaving takes the player out of the region's queue; timeouts take out exactly the
    players who waited for the configured time, in order, and tell each of them; the
    number of waiting players is the length of the stored queue.  Nothing else changes,
    and none of these calls faults. *)
Theorem leave_and_timeouts_correct now player region st : service_ok st -> 0 <= now < 2 ^ 62 ->
  leave_queue player region st ⇓ (fun st' => service_ok st' /\
    queue_at st' region = without player (queue_at st region) /\ only_queue region [] st st') /\
  drain_timeouts now region st ⇓ (fun '(ids, st') => service_ok st' /\
    ids = qp_player_id <$> filter (waited_out now) (queue_at st region) /\
    queue_at st' region = filter (fun e => ~ waited_out now e) (queue_at st region) /\
    only_queue region (SearchTimeout <$> ids) st st') /\
  service_waiting_count st region = vlen (queue_at st region).
Proof.
  intros Hst Hnow. split_and!; [by apply leave_queue_spec|by apply drain_timeouts_spec|].
  unfold service_waiting_count. destruct (String.eqb_spec region default_region_) as [->|]; [|done].
  by rewrite (co_waiting _ _ _ (so_default st Hst)).
Qed.


End Laws.
End Service.

(** ** Samples *)

(** A game repository that numbers the games, and the remote allocator of [Allocation]
    at a fixed time. *)
#[local] Instance counting_games : GameRepository Z := {|
  create_game g _ _ := (g + 1, Some g);
  finish_game g _ _ := (g, true);
  finish_game_without_winner g _ := (g, true)
|}.

Definition sample_allocator (s : InMemoryRuntimeStore) (a : unit) (request : GameCreationRequest) :
    InMemoryRuntimeStore * unit * option GameCreationResponse :=
  (s, a, match remote_allocate_game sample_http 30 1010 3 s request with Ok r => Some r | Err _ => None end).

(** Three players wait; the game servers of [Allocation] are alive, or none is. *)
Definition sample_config : MatchmakingConfig := mkConfig 100 60.
Definition with_servers : InMemoryRuntimeStore :=
  set_matchmaking_queue sample_store "local" sample_waiting.
Definition service_on (s : InMemoryRuntimeStore) : Service (G := Z) (A := unit) :=
  mkService s 5 tt (mkCell "local" 100 60000 sample_waiting) ∅ [].

Lemma sample_stored : stored_ok sample_waiting.
Proof.
  split; [repeat constructor; simpl; lia|].
  repeat (apply NoDup_cons; split; [set_solver|]). apply NoDup_nil_2.
Qed.

Lemma with_servers_stored region : stored_ok (list_matchmaking_queue with_servers region).
Proof.
  unfold with_servers. rewrite list_set. case_decide; [apply sample_stored|].
  change (stored_ok []). split; [by constructor|apply NoDup_nil_2].
Qed.

Lemma sample_service_ok : service_ok sample_config (service_on with_servers).
Proof. split; [done|done|done|apply with_servers_stored]. Qed.

Definition sample_join : MatchRequest := mkMatchRequest 4 14 1250 "".

Lemma enter_queue_correct_witness :
  let region := region_of sample_join in
  let waiting := without (mr_player_id sample_join) (queue_at (service_on with_servers) region) in
  enter_queue sample_allocator sample_config "gw" 1055 sample_join (service_on with_servers) ⇓ (fun '(st', answer) =>
    service_ok sample_config st' /\
    (forall r, r <> region -> queue_at st' r = queue_at (service_on with_servers) r) /\
    ((exists l1 white l2, waiting = (l1 ++ white :: l2)%list /\
        close_to sample_config sample_join white /\
        Forall (fun e => ~ close_to sample_config sample_join e) l1 /\
        queue_at st' region = (l1 ++ l2)%list /\
        match_made sample_allocator "gw" (service_on with_servers) sample_join white st' answer) \/
     (Forall (fun e => ~ close_to sample_config sample_join e) waiting /\
        queue_at st' region = (waiting ++ [newcomer 1055 sample_join])%list /\
        now_waiting (service_on with_servers) st' answer))).
Proof.
  apply (enter_queue_correct sample_allocator sample_config "gw").
  - unfold fits_i64. simpl. lia.
  - done.
  - apply sample_service_ok.
  - simpl. lia.
  - lia.
Defined.

(** The second player is the first with a close rating. *)
Example newcomer_matched : exists st,
  enter_queue sample_allocator sample_config "gw" 1055 sample_join (service_on with_servers) =
    Ok (st, Some (mkMatchResponse Queued "matched")) /\
  qp_player_id <$> queue_at st "local" = [1; 3] /\
  sv_notices st = [MatchFound (mkMatchCompleted 2 12 4 14 4 "a" "ws://a")].
Proof. eexists. split; [vm_compute; reflexivity|done]. Qed.

Lemma leave_and_timeouts_correct_witness :
  leave_queue sample_config 2 "local" (service_on with_servers) ⇓ (fun st' => service_ok sample_config st' /\
    queue_at st' "local" = without 2 (queue_at (service_on with_servers) "local") /\
    only_queue "local" [] (service_on with_servers) st') /\
  drain_timeouts sample_config 1065 "local" (service_on with_servers) ⇓ (fun '(ids, st') =>
    service_ok sample_config st' /\
    ids = qp_player_id <$> filter (waited_out sample_config 1065) (queue_at (service_on with_servers) "local") /\
    queue_at st' "local" =
      filter (fun e => ~ waited_out sample_config 1065 e) (queue_at (service_on with_servers) "local") /\
    only_queue "local" (SearchTimeout <$> ids) (service_on with_servers) st') /\
  service_waiting_count (service_on with_servers) "local" = vlen (queue_at (service_on with_servers) "local").
Proof.
  apply (leave_and_timeouts_correct sample_config).
  - unfold fits_i64. simpl. lia.
  - apply sample_service_ok.
  - lia.
Defined.

Definition sample_events : list ServiceEvent :=
  [HttpRequest 1055 true "/matchmaking/join" "4|14|1250|eu"; ProcessQueue 1090 "local";
   HttpRequest 1100 true "/matchmaking/leave" "4|14|1250|eu"].


(** ** Two observations *)

(** [enter_queue] takes the empty region for the default one, [leave_queue] does not:
    the player is still waiting. *)
Lemma leave_misses_default_region : exists st1 st2,
  enter_queue sample_allocator sample_config "gw" 1055 (mkMatchRequest 9 19 3000 "") (service_on with_servers) =
    Ok (st1, Some (mkMatchResponse Queued "queued")) /\
  leave_queue sample_config 9 "" st1 = Ok st2 /\ 9 ∈ qp_player_id <$> queue_at st2 "local".
Proof.
  eexists _, _. split; [vm_compute; reflexivity|]. split; [vm_compute; reflexivity|].
  vm_compute. set_solver.
Qed.

(** An allocation that throws: the opponent has left the queue, the newcomer never
    entered it, and nobody is told. *)
Lemma failed_allocation_drops_both : exists st,
  let s := mem_set_queue new_memory_store "local" sample_waiting in
  enter_queue sample_allocator sample_config "gw" 1055 sample_join (service_on s) = Ok (st, None) /\
  qp_player_id <$> queue_at st "local" = [1; 3] /\ sv_notices st = [].
Proof. eexists. split; [vm_compute; reflexivity|done]. Qed.
