(* ===== verification/Lobby.v ===== *)
(** * The lobby

    [src/src/server/lobby/lobby_message_handler.cpp] (login and search requests),
    [gateway/local_game_gateway.cpp] (messages to the players),
    [gateway/gateway_notification_handler.cpp] with the requests that
    [gateway/gateway_notification_listener.cpp] passes to it, and
    [gateway/gateway_matchmaking_disconnect_handler.cpp].

    [JoinClient] is the interface [IMatchmakingJoinClient]; [JoinClientOk] states what
    the lobby relies on, and the lobby's theorem holds for every client that obeys it.
    A pointer to a session is the id of the session: sessions are elements of a list,
    so that they stay in place, and their ids are distinct.  The random salts of new
    accounts are arguments; log output, metrics and correlation ids are not modelled. *)

From S2P Require Import Prelude Piece BoardModel PathUtils PieceRules CollisionResolver MoveScheduler RealTimeArbiter GameState CppString Sha256 PasswordHash BoardIO GameMessages Codecs Rooms Sessions Users GameLoop RuntimeStore Matchmaking GameResult Hosting Allocation MatchService.
From Stdlib Require Import Ascii String.
Open Scope string_scope.
Open Scope Z_scope.

(** [IMatchmakingJoinClient]; the client may work on the sessions. *)
Class JoinClient (C J : Type) `{Connection C} := {
  join : MatchRequest -> Plane (C := C) * J -> res (Plane (C := C) * J * option MatchResponse);
  leave : Z -> string -> Plane (C := C) * J -> res (Plane (C := C) * J)
}.

Section Lobby.
Context {C : Type} `{Connection C}.

(** Writing through a pointer to a session. *)
Definition put_session (p : Plane (C := C)) (s : PlayerSession) : Plane :=
  set_sessions p (replace_session (sessions_ p) s).

(** A call of a method on the session a pointer refers to. *)
Definition update_session (id : Z) (f : PlayerSession -> PlayerSession) (p : Plane (C := C)) : Plane :=
  match find_session p id with Some s => put_session p (f s) | None => p end.

(** ** [LocalGameGateway] *)

Record GatewayGameRedirectInfo := mkRedirect {
  ri_room_id : Z; ri_server_id : string; ri_endpoint : string; ri_side : PieceColor
}.

Definition side_token (side : PieceColor) : string :=
  match side with White => "white" | Black => "black" end.

Definition gateway_send (player : Z) (message : string) (p : Plane (C := C)) : res Plane :=
  r ← sink_send p player message; Ok r.2.

Definition notify_match_found (white black : Z) (p : Plane (C := C)) : res Plane :=
  p ← gateway_send white "match_found white" p;
  gateway_send black "match_found black" p.

Definition notify_game_start (white black : Z) (p : Plane (C := C)) : res Plane :=
  p ← gateway_send white "game_start white" p;
  gateway_send black "game_start black" p.

Definition notify_search_timeout (player : Z) (p : Plane (C := C)) : res Plane :=
  gateway_send player "search_timeout" p.

(** The text of [send_game_redirect]. *)
Definition redirect_message (info : GatewayGameRedirectInfo) : string :=
  "game_redirect " ++ ri_endpoint info ++ " " ++ to_string (ri_room_id info)
  ++ " " ++ side_token (ri_side info).

Definition send_game_redirect (player : Z) (info : GatewayGameRedirectInfo) (p : Plane (C := C)) :
    res Plane :=
  gateway_send player (redirect_message info) p.

(** ** [GatewayNotificationHandler] *)

Definition handle_match_found (n : MatchNotification) (p : Plane (C := C)) : res Plane :=
  match find_session p (mc_white_player_id n), find_session p (mc_black_player_id n) with
  | Some _, Some _ =>
      let white_id := mc_white_player_id n in
      let black_id := mc_black_player_id n in
      let p := update_session white_id set_playing p in
      let p := update_session black_id set_playing p in
      let p := update_session white_id (fun s => set_side s White) p in
      let p := update_session black_id (fun s => set_side s Black) p in
      let p := update_session white_id (fun s => assign_room s (mc_room_id n)) p in
      let p := update_session black_id (fun s => assign_room s (mc_room_id n)) p in
      p ← notify_match_found white_id black_id p;
      p ← notify_game_start white_id black_id p;
      p ← send_game_redirect white_id
            (mkRedirect (mc_room_id n) (mc_server_id n) (mc_endpoint n) White) p;
      send_game_redirect black_id
        (mkRedirect (mc_room_id n) (mc_server_id n) (mc_endpoint n) Black) p
  | _, _ => Ok p
  end.

Definition handle_search_timeout (player_id : Z) (p : Plane (C := C)) : res Plane :=
  notify_search_timeout player_id (update_session player_id cancel_search p).

(** The listener's requests. *)
Definition handle_notification (is_post : bool) (target body : string) (p : Plane (C := C)) :
    res (Plane * (HttpStatus * string)) :=
  if negb is_post then Ok (p, (MethodNotAllowed, "Method Not Allowed"))
  else if String.eqb target "/gateway/notify/match" then
    match decode_match_notification body with
    | Some n => p ← handle_match_found n p; Ok (p, (HttpOk, "OK"))
    | None => Ok (p, (BadRequest, "Bad Request"))
    end
  else if String.eqb target "/gateway/notify/timeout" then
    match decode_timeout_notification body with
    | Some id => p ← handle_search_timeout id p; Ok (p, (HttpOk, "OK"))
    | None => Ok (p, (BadRequest, "Bad Request"))
    end
  else Ok (p, (NotFound, "Not Found")).

(** ** [LobbyMessageHandler] *)

Section Handler.
Context {U J : Type} `{UserRepository U} `{!JoinClient C J}.
Context (salt : Z -> list Z) (region : string).

Record LobbyState := mkLobby { lb_plane : Plane (C := C); lb_users : U; lb_client : J }.

Definition set_lb_plane (st : LobbyState) (p : Plane (C := C)) : LobbyState :=
  mkLobby p (lb_users st) (lb_client st).
Definition lobby_reply (st : LobbyState) (addr : Z) (message : string) : res LobbyState :=
  p ← reply (lb_plane st) addr message; Ok (set_lb_plane st p).

(** A message of a session without a user. *)
Definition lobby_login (session : PlayerSession) (addr : Z) (message : string) (st : LobbyState) :
    res LobbyState :=
  match parse_login_message message with
  | None => Ok st
  | Some request =>
      if is_online (registry_ (lb_plane st)) (username request) then
        lobby_reply st addr "login_failed already_connected"
      else
        r ← authenticate (salt (ps_id session)) (lb_users st) (username request) (password request);
        let '(users, auth) := r in
        let st := mkLobby (lb_plane st) users (lb_client st) in
        if negb (ar_success auth) then lobby_reply st addr ("login_failed " ++ ar_failure_reason auth)
        else
          player ← deref (ar_player auth);
          let p := put_session (lb_plane st) (bind_player session player) in
          let p := set_registry p (register_session (registry_ p) (pl_username player)).2 in
          lobby_reply (set_lb_plane st p) addr ("login_ok " ++ to_string (pl_rating player))
  end.

(** A request to play of a session in the state Connected. *)
Definition lobby_play (session : PlayerSession) (addr : Z) (st : LobbyState) : res LobbyState :=
  let session := request_play session in
  let st := set_lb_plane st (put_session (lb_plane st) session) in
  if bool_decide (ps_state session = Searching) then
    uid ← user_id session;
    elo ← rating session;
    r ← join (mkMatchRequest (ps_id session) uid elo region) (lb_plane st, lb_client st);
    let '(p, j, response) := r in
    let st := mkLobby p (lb_users st) j in
    match response with
    | Some (mkMatchResponse Queued _) => lobby_reply st addr "searching"
    | _ =>
        session ← deref (find_session p (ps_id session));
        lobby_reply (set_lb_plane st (put_session p (cancel_search session))) addr "search_failed"
    end
  else Ok st.

(** The body of the loop of [process], for the session with an id. *)
Definition lobby_session (id : Z) (st : LobbyState) : res LobbyState :=
  session ← deref (find_session (lb_plane st) id);
  if bool_decide (ps_state session = Playing) then Ok st
  else
    addr ← deref (ps_connection session);
    c ← load (lb_plane st) addr;
    if negb (is_open c) then Ok st
    else
      let '(raw_message, c') := try_read c in
      let st := set_lb_plane st (store (lb_plane st) addr c') in
      match raw_message with
      | None => Ok st
      | Some message =>
          if bool_decide (ps_state session = Searching) then Ok st
          else if negb (has_user session) then lobby_login session addr message st
          else if parse_play_message message then lobby_play session addr st
          else Ok st
      end.

Definition lobby_process (st : LobbyState) : res LobbyState :=
  foldM lobby_session (ps_id <$> sessions_ (lb_plane st)) st.

End Handler.

(** ** [GatewayMatchmakingDisconnectHandler] *)

Definition gateway_on_disconnected {J} `{!JoinClient C J} (region : string) (session : PlayerSession)
    (st : Plane (C := C) * J) : res (Plane * J) :=
  if bool_decide (ps_state session = Searching) then leave (ps_id session) region st else Ok st.

End Lobby.

(** ** Invariant *)

Section Invariant.
Context {C : Type} `{Connection C}.
Implicit Types (p : Plane (C := C)) (s : PlayerSession).

(** Who is logged in: profiles belong to users, their names are registered, no two
    sessions have the same name, and ratings and user ids are in range. *)
Record lobby_ok p : Prop := {
  lo_plane : plane_ok p;
  lo_profile : forall s, s ∈ sessions_ p -> is_Some (ps_user_id s) <-> is_Some (ps_profile s);
  lo_online : forall s pl, s ∈ sessions_ p -> ps_profile s = Some pl -> pl_username pl ∈ registry_ p;
  lo_unique : forall s1 s2 l1 l2, s1 ∈ sessions_ p -> s2 ∈ sessions_ p -> ps_profile s1 = Some l1 ->
    ps_profile s2 = Some l2 -> pl_username l1 = pl_username l2 -> s1 = s2;
  lo_rating : forall s pl, s ∈ sessions_ p -> ps_profile s = Some pl -> 0 <= pl_rating pl < 2 ^ 31;
  lo_user_ids : forall s u, s ∈ sessions_ p -> ps_user_id s = Some u -> fits_u64 u
}.

(** The session belongs to the same connection and user. *)
Definition same_user s s' : Prop :=
  ps_id s' = ps_id s /\ ps_connection s' = ps_connection s /\ ps_user_id s' = ps_user_id s /\
  ps_profile s' = ps_profile s.

#[export] Instance same_user_preorder : PreOrder same_user.
Proof. split; [done|]. intros s1 s2 s3 (?&?&?&?) (?&?&?&?). split_and!; congruence. Qed.

(** What a client may do to the sessions. *)
Record only_matching p p' : Prop := {
  om_plane : plane_ok p';
  om_sessions : Forall2 same_user (sessions_ p) (sessions_ p');
  om_registry : registry_ p' = registry_ p
}.

(** The searching sessions of [p] are sessions of [p']. *)
Definition keeps_searching p p' : Prop :=
  forall s, s ∈ sessions_ p -> ps_state s = Searching -> s ∈ sessions_ p'.

(** [id] is the user of a session, and who is the user of a session of [p] is one of [p']. *)
Definition has_session_of p (id : Z) : Prop := exists s, s ∈ sessions_ p /\ ps_user_id s = Some id.
Definition keeps_users p p' : Prop := forall id, has_session_of p id -> has_session_of p' id.

Lemma Forall2_elem {A B} (R : A -> B -> Prop) l l' y : Forall2 R l l' -> y ∈ l' -> exists x, x ∈ l /\ R x y.
Proof.
  intros HR (i & Hi)%list_elem_of_lookup. destruct (Forall2_lookup_r _ _ _ _ _ HR Hi) as (x & Hx & HRx).
  exists x. split; [by eapply list_elem_of_lookup_2|done].
Qed.

Lemma Forall2_compose {A B D} (R1 : A -> B -> Prop) (R2 : B -> D -> Prop) (R3 : A -> D -> Prop) l1 l2 l3 :
  (forall x y z, R1 x y -> R2 y z -> R3 x z) -> Forall2 R1 l1 l2 -> Forall2 R2 l2 l3 -> Forall2 R3 l1 l3.
Proof.
  intros HR H12. revert l3. induction H12; intros l3 H23; inversion H23; subst; constructor; eauto.
Qed.

Lemma plane_ids p s1 s2 : plane_ok p -> s1 ∈ sessions_ p -> s2 ∈ sessions_ p -> ps_id s1 = ps_id s2 -> s1 = s2.
Proof.
  intros Hp (i & Hi)%list_elem_of_lookup (j & Hj)%list_elem_of_lookup E.
  assert (i = j) as ->; [|congruence].
  apply (NoDup_lookup _ i j (ps_id s1) (po_ids p Hp)).
  - by rewrite list_lookup_fmap, Hi.
  - by rewrite list_lookup_fmap, Hj, E.
Qed.

Lemma find_session_in p s : plane_ok p -> s ∈ sessions_ p -> find_session p (ps_id s) = Some s.
Proof.
  intros Hp Hs. assert (is_Some (find_session p (ps_id s))) as [s' Hs'].
  { apply find_if_Some, existsb_exists. exists s. split; [by apply list_elem_of_In|apply Z.eqb_refl]. }
  rewrite Hs'. f_equal. apply find_session_id in Hs' as [Hin E]. by eapply plane_ids.
Qed.

Lemma lobby_matching p p' : lobby_ok p -> only_matching p p' -> lobby_ok p'.
Proof.
  intros [H1 H2 H3 H4 H5 H6] [Hp Hs Hr]. split; [done|..].
  - intros s' (s & Hin & (_ & _ & -> & ->))%(Forall2_elem _ _ _ _ Hs). by apply H2.
  - intros s' pl (s & Hin & (_ & _ & _ & ->))%(Forall2_elem _ _ _ _ Hs). rewrite Hr. by apply H3.
  - intros s1' s2' l1 l2 Hin1 Hin2 E1 E2 E.
    destruct (Forall2_elem _ _ _ _ Hs Hin1) as (s1 & Hs1 & (I1 & _ & _ & P1)).
    destruct (Forall2_elem _ _ _ _ Hs Hin2) as (s2 & Hs2 & (I2 & _ & _ & P2)).
    assert (s1 = s2) as -> by (eapply (H4 s1 s2 l1 l2); congruence).
    eapply (plane_ids p'); [done..|congruence].
  - intros s' pl (s & Hin & (_ & _ & _ & ->))%(Forall2_elem _ _ _ _ Hs). by apply H5.
  - intros s' u (s & Hin & (_ & _ & -> & _))%(Forall2_elem _ _ _ _ Hs). by apply H6.
Qed.

Lemma matching_refl p : plane_ok p -> only_matching p p.
Proof. intros Hp. split; [done| |done]. by apply Forall_Forall2_diag, Forall_true. Qed.

Lemma matching_trans p1 p2 p3 : only_matching p1 p2 -> only_matching p2 p3 -> only_matching p1 p3.
Proof.
  intros [H1 H2 H3] [H4 H5 H6]. split; [done| |congruence].
  by etransitivity.
Qed.

(** *** Writing a session *)

Lemma elem_of_put p s s' x : plane_ok p -> s ∈ sessions_ p -> ps_id s' = ps_id s ->
  x ∈ sessions_ (put_session p s') <-> x = s' \/ (x ∈ sessions_ p /\ x <> s).
Proof.
  intros Hp Hs E. unfold put_session. cbn [set_sessions sessions_].
  assert (NoDup (ps_id <$> sessions_ p)) as Hnd by apply Hp. revert Hs Hnd.
  induction (sessions_ p) as [|y l IH]; simpl; [set_solver|]. intros Hs [Hy Hnd]%NoDup_cons.
  rewrite E in *. destruct (Z.eqb_spec (ps_id y) (ps_id s)) as [Ey|Ey].
  - assert (y = s) as ->.
    { apply elem_of_cons in Hs as [->|Hs]; [done|]. destruct Hy. rewrite Ey. by apply list_elem_of_fmap_2. }
    rewrite !elem_of_cons. split; [|naive_solver]. intros [->|Hx]; [by left|right].
    split; [by right|]. intros ->. apply Hy. by apply list_elem_of_fmap_2.
  - apply elem_of_cons in Hs as [->|Hs]; [done|]. rewrite !elem_of_cons, IH by done.
    split; [|naive_solver]. intros [->|[->|[Hx Hn]]]; [right|by left|right]; split; auto.
    intros ->. done.
Qed.

Lemma put_Forall2 (R : PlayerSession -> PlayerSession -> Prop) `{!Reflexive R} p s s' : plane_ok p ->
  s ∈ sessions_ p -> ps_id s' = ps_id s -> R s s' ->
  Forall2 R (sessions_ p) (sessions_ (put_session p s')).
Proof.
  intros Hp Hs E HR. unfold put_session. cbn [set_sessions sessions_].
  assert (NoDup (ps_id <$> sessions_ p)) as Hnd by apply Hp. revert Hs Hnd.
  induction (sessions_ p) as [|y l IH]; simpl; [set_solver|]. intros Hs [Hy Hnd]%NoDup_cons. rewrite E in *.
  destruct (Z.eqb_spec (ps_id y) (ps_id s)) as [Ey|Ey].
  - assert (y = s) as ->.
    { apply elem_of_cons in Hs as [->|Hs]; [done|]. destruct Hy. rewrite Ey. by apply list_elem_of_fmap_2. }
    constructor; [done|]. by apply Forall_Forall2_diag, Forall_true.
  - apply elem_of_cons in Hs as [->|Hs]; [done|]. constructor; [done|by apply IH].
Qed.

Lemma put_ok p s s' : plane_ok p -> s ∈ sessions_ p -> ps_id s' = ps_id s ->
  ps_connection s' = ps_connection s -> plane_ok (put_session p s').
Proof. intros Hp Hs E Ec. eapply replace_session_ok; [done|by apply find_session_in|done|done]. Qed.

Lemma put_matching p s s' : plane_ok p -> s ∈ sessions_ p -> same_user s s' ->
  only_matching p (put_session p s').
Proof.
  intros Hp Hs Hss. pose proof Hss as (E1 & E2 & _ & _). split; [by eapply put_ok| |done].
  by eapply put_Forall2; [apply _|..].
Qed.

Lemma traffic_matching p p' : plane_ok p -> traffic p p' -> only_matching p p'.
Proof.
  intros Hp Ht. split; [by eapply traffic_ok| |apply Ht]. rewrite (tr_sessions _ _ Ht).
  by apply Forall_Forall2_diag, Forall_true.
Qed.

Lemma traffic_keeps p p' : traffic p p' -> keeps_searching p p'.
Proof. intros Ht s Hs _. by rewrite (tr_sessions _ _ Ht). Qed.

Lemma traffic_users p p' : traffic p p' -> keeps_users p p'.
Proof. intros Ht id (s & Hs & E). exists s. by rewrite (tr_sessions _ _ Ht). Qed.

Lemma matching_users p p' : only_matching p p' -> keeps_users p p'.
Proof.
  intros Hm id (s & (i & Hi)%list_elem_of_lookup & E).
  destruct (Forall2_lookup_l _ _ _ _ _ (om_sessions _ _ Hm) Hi) as (s' & Hi' & _ & _ & E' & _).
  exists s'. split; [by eapply list_elem_of_lookup_2|congruence].
Qed.

Lemma put_keeps p s s' : plane_ok p -> s ∈ sessions_ p -> ps_id s' = ps_id s ->
  ps_state s <> Searching -> keeps_searching p (put_session p s').
Proof.
  intros Hp Hs E Hn x Hx Hsx. apply (elem_of_put p s s'); [done..|]. right. split; [done|]. congruence.
Qed.

Lemma put_users p s s' : plane_ok p -> s ∈ sessions_ p -> ps_id s' = ps_id s ->
  ps_user_id s = None -> keeps_users p (put_session p s').
Proof.
  intros Hp Hs E Hn id (x & Hx & Ex). exists x. split; [|done]. apply (elem_of_put p s s'); [done..|].
  right. split; [done|]. congruence.
Qed.

Lemma find_put p s s' id : plane_ok p -> s ∈ sessions_ p -> ps_id s' = ps_id s ->
  find_session (put_session p s') id = if id =? ps_id s then Some s' else find_session p id.
Proof.
  intros Hp Hs E. unfold put_session, find_session. cbn [set_sessions sessions_].
  pose proof (find_session_in p s Hp Hs) as Hf. unfold find_session in Hf. rewrite <- E in *. revert Hf. clear Hs.
  induction (sessions_ p) as [|y l IH]; simpl; [done|].
  destruct (Z.eqb_spec (ps_id y) (ps_id s')) as [Ey|Ey]; simpl.
  - intros [= ->]. rewrite Ey. rewrite (Z.eqb_sym (ps_id s') id). by destruct (Z.eqb_spec id (ps_id s')).
  - intros Hf. rewrite (IH Hf). destruct (Z.eqb_spec (ps_id y) id), (Z.eqb_spec id (ps_id s')); congruence.
Qed.

Lemma find_update id f p id' : plane_ok p -> (forall s, ps_id (f s) = ps_id s) ->
  find_session (update_session id f p) id' =
  if id' =? id then f <$> find_session p id else find_session p id'.
Proof.
  intros Hp Hf. unfold update_session. destruct (find_session p id) as [s|] eqn:E.
  - apply find_session_id in E as [Hs <-]. by apply find_put.
  - destruct (Z.eqb_spec id' id) as [->|]; done.
Qed.

Lemma update_matching id f p : plane_ok p -> (forall s, same_user s (f s)) ->
  only_matching p (update_session id f p).
Proof.
  intros Hp Hf. unfold update_session. destruct (find_session p id) as [s|] eqn:E.
  - apply find_session_id in E as [Hs _]. by eapply put_matching.
  - split; [done| |done]. by apply Forall_Forall2_diag, Forall_true.
Qed.

Lemma find_traffic p p' id : traffic p p' -> find_session p' id = find_session p id.
Proof. intros Ht. unfold find_session. by rewrite (tr_sessions _ _ Ht). Qed.

(** The same change of two sessions, one after the other. *)
Definition update_both (a b : Z) (f g : PlayerSession -> PlayerSession) p : Plane :=
  update_session b g (update_session a f p).

Lemma update_both_ok a b f g p : plane_ok p -> a <> b -> (forall s, same_user s (f s)) ->
  (forall s, same_user s (g s)) ->
  only_matching p (update_both a b f g p) /\
  forall id, find_session (update_both a b f g p) id =
    if id =? a then f <$> find_session p a
    else if id =? b then g <$> find_session p b else find_session p id.
Proof.
  intros Hp Hab Hf Hg. pose proof (update_matching a f p Hp Hf) as Hm.
  split; [eapply matching_trans; [exact Hm|apply update_matching; [apply Hm|done]]|]. intros id.
  unfold update_both. rewrite find_update; [|apply Hm|intros s; apply Hg].
  rewrite !find_update; [|done|intros s; apply Hf|done|intros s; apply Hf].
  destruct (Z.eqb_spec id b), (Z.eqb_spec id a), (Z.eqb_spec b a); subst; congruence.
Qed.

(** The session of a player who has been matched. *)
Definition matched (room_id : Z) (side : PieceColor) s : PlayerSession :=
  assign_room (set_side (set_playing s) side) room_id.

(** The sessions after a match: both players are seated, nobody else is touched. *)
Definition both_matched (white black room_id : Z) p p' : Prop := forall id,
  find_session p' id =
  if id =? white then matched room_id White <$> find_session p white
  else if id =? black then matched room_id Black <$> find_session p black
  else find_session p id.

Lemma gateway_send_ok player message p : plane_ok p -> gateway_send player message p ⇓ traffic p.
Proof.
  intros Hp. unfold gateway_send. apply returns_bind. eapply returns_mono; [by apply sink_with_ok|].
  intros [b p'] Ht. by apply returns_ok.
Qed.

Lemma reply_ok p addr message : live p addr -> reply p addr message ⇓ traffic p.
Proof.
  intros Hl. unfold reply. destruct (load_live p addr Hl) as [c ->]. rewrite bind_ok.
  destruct (try_send c message). apply returns_ok, store_traffic.
Qed.

(** Messages one after the other are traffic. *)
Lemma traffic_bind (m : res Plane) k p : plane_ok p -> m ⇓ traffic p ->
  (forall p', plane_ok p' -> k p' ⇓ traffic p') -> (p' ← m; k p') ⇓ traffic p.
Proof.
  intros Hp Hm Hk. apply returns_bind. eapply returns_mono; [exact Hm|]. intros p1 Ht.
  eapply returns_mono; [by eapply Hk, traffic_ok|]. intros p2 Ht2. by etrans.
Qed.

Lemma notify_match_found_ok white black p : plane_ok p -> notify_match_found white black p ⇓ traffic p.
Proof. intros Hp. apply traffic_bind; [done|by apply gateway_send_ok|]. intros. by apply gateway_send_ok. Qed.
Lemma notify_game_start_ok white black p : plane_ok p -> notify_game_start white black p ⇓ traffic p.
Proof. intros Hp. apply traffic_bind; [done|by apply gateway_send_ok|]. intros. by apply gateway_send_ok. Qed.

(** The changes of the two sessions of a match. *)
Definition seat_both (white black room_id : Z) p : Plane :=
  update_both white black (fun s => assign_room s room_id) (fun s => assign_room s room_id)
    (update_both white black (fun s => set_side s White) (fun s => set_side s Black)
       (update_both white black set_playing set_playing p)).

Lemma seat_both_ok white black room_id p : plane_ok p -> white <> black ->
  only_matching p (seat_both white black room_id p) /\
  both_matched white black room_id p (seat_both white black room_id p).
Proof.
  intros Hp Hne. unfold seat_both.
  destruct (update_both_ok white black set_playing set_playing p) as [M1 F1]; [done..|].
  set (p1 := update_both _ _ _ _ p) in *.
  destruct (update_both_ok white black (fun s => set_side s White) (fun s => set_side s Black) p1)
    as [M2 F2]; [apply M1|done..|].
  set (p2 := update_both _ _ _ _ p1) in *.
  destruct (update_both_ok white black (fun s => assign_room s room_id) (fun s => assign_room s room_id) p2)
    as [M3 F3]; [apply M2|done..|].
  split; [eapply matching_trans; [exact M1|by eapply matching_trans]|].
  intros id. rewrite F3, !F2, !F1, !Z.eqb_refl. destruct (Z.eqb_spec black white); [congruence|].
  destruct (id =? white); [by destruct (find_session p white)|].
  destruct (id =? black); [by destruct (find_session p black)|done].
Qed.

(** A match that another server reports: nothing happens unless both sessions exist. *)
Lemma handle_match_found_ok (n : MatchNotification) p : plane_ok p ->
  mc_white_player_id n <> mc_black_player_id n ->
  handle_match_found n p ⇓ (fun p' => only_matching p p' /\
    if bool_decide (is_Some (find_session p (mc_white_player_id n)) /\
                    is_Some (find_session p (mc_black_player_id n)))
    then both_matched (mc_white_player_id n) (mc_black_player_id n) (mc_room_id n) p p' else p' = p).
Proof.
  intros Hp Hne. unfold handle_match_found.
  destruct (find_session p (mc_white_player_id n)) as [w|] eqn:Ew; cycle 1.
  { apply returns_ok. split; [by apply matching_refl|]. rewrite bool_decide_eq_false_2; [done|]. by intros [[] _]. }
  destruct (find_session p (mc_black_player_id n)) as [b|] eqn:Eb; cycle 1.
  { apply returns_ok. split; [by apply matching_refl|]. rewrite bool_decide_eq_false_2; [done|]. by intros [_ []]. }
  rewrite bool_decide_eq_true_2 by (split; eauto). cbv zeta.
  set (wid := mc_white_player_id n) in *. set (bid := mc_black_player_id n) in *.
  destruct (seat_both_ok wid bid (mc_room_id n) p Hp Hne) as [M F].
  change (update_session bid _ _) with (seat_both wid bid (mc_room_id n) p). set (p3 := seat_both _ _ _ p) in *.
  apply (returns_mono _ (traffic p3)).
  - apply traffic_bind; [apply M|apply notify_match_found_ok, M|]. intros q1 Hq1.
    apply traffic_bind; [done|by apply notify_game_start_ok|]. intros q2 Hq2.
    apply traffic_bind; [done|by apply gateway_send_ok|]. intros q3 Hq3. by apply gateway_send_ok.
  - intros p4 Ht. split; [eapply matching_trans; [exact M|by apply traffic_matching; [apply M|]]|].
    intros id. by rewrite (find_traffic _ _ _ Ht).
Qed.

End Invariant.

(** ** What the lobby relies on *)

(** [client_inv n] is the client's own invariant, about the searching sessions and the users of sessions only, with
    room for [n] more requests; [region_ok] says which names of regions it can pass on.  Asked
    to join for a session that has just begun to search, the client returns, touches
    nothing of the sessions but the state of their games, and has not kept a session
    that it refuses. *)
Class JoinClientOk (C J : Type) `{JoinClient C J} := {
  region_ok : string -> Prop;
  client_inv : nat -> Plane (C := C) -> J -> Prop;
  client_mono n p j : client_inv (1 + n) p j -> client_inv n p j;
  client_keeps n p p' j : client_inv n p j -> plane_ok p' -> keeps_searching p p' -> keeps_users p p' ->
    client_inv n p' j;
  join_spec n p j s uid profile region : region_ok region -> lobby_ok p -> client_inv (1 + n) p j -> s ∈ sessions_ p ->
    ps_state s = Connected -> ps_user_id s = Some uid -> ps_profile s = Some profile ->
    let p0 := put_session p (request_play s) in
    join (mkMatchRequest (ps_id s) uid (pl_rating profile) region) (p0, j) ⇓ (fun '(p', j', response) =>
      only_matching p0 p' /\ client_inv n p' j' /\
      match response with
      | Some (mkMatchResponse Queued _) => True
      | _ => forall s', s' ∈ sessions_ p' -> ps_id s' = ps_id s ->
               client_inv n (put_session p' (cancel_search s')) j'
      end)
}.

Section Correct.
Context {C U J : Type} `{JoinClientOk C J} `{UserRepositoryLaws U}.
Context (salt : Z -> list Z) (region : string) (Hsalt : forall id, Forall u8_ok (salt id)).
Context (Hregion : region_ok region).
Notation State := (LobbyState (C := C) (U := U) (J := J)).
Implicit Types (st : State) (u : U).

(** The user repository keeps the names of login messages apart. *)
Definition login_names_ok (message : string) : Prop := forall request,
  parse_login_message message = Some request -> text_ok (username request).
Context (Hnames : forall (c c' : C) message, try_read c = (Some message, c') -> login_names_ok message).

Definition accounts_ok u : Prop :=
  repo_ok u /\ forall name c, credentials u name = Some c -> 0 <= uc_rating c < 2 ^ 31.

Record lobby_inv (n : nat) st : Prop := {
  li_lobby : lobby_ok (lb_plane st);
  li_client : client_inv n (lb_plane st) (lb_client st);
  li_users : accounts_ok (lb_users st);
  li_ids : ids_left n (lb_users st)
}.

(** Accounts are only added, with the rating of a beginner. *)
Definition grows u u' : Prop :=
  (forall name c, credentials u name = Some c -> credentials u' name = Some c) /\
  forall name c, credentials u name = None -> credentials u' name = Some c -> uc_rating c = 1000.

#[export] Instance grows_preorder : PreOrder grows.
Proof.
  split; [split; congruence|]. intros u1 u2 u3 [K1 N1] [K2 N2]. split; [by auto|]. intros name c E1 E3.
  destruct (credentials u2 name) as [c2|] eqn:E2; [|by eapply N2].
  rewrite (K2 _ _ E2) in E3. injection E3 as <-. by eapply N1.
Qed.

(** A session keeps its user, or somebody who knows the password has logged in. *)
Definition logged_in u (s s' : PlayerSession) : Prop :=
  ps_user_id s = None /\ exists c password,
    credentials u (uc_username c) = Some c /\ verify_password password (uc_password_hash c) = true /\
    ps_user_id s' = ps_user_id (bind_player s (profile c)) /\
    ps_profile s' = ps_profile (bind_player s (profile c)).
Definition changed u (s s' : PlayerSession) : Prop :=
  ps_id s' = ps_id s /\ ps_connection s' = ps_connection s /\
  ((ps_user_id s' = ps_user_id s /\ ps_profile s' = ps_profile s) \/ logged_in u s s').

Lemma changed_same u s s' : same_user s s' -> changed u s s'.
Proof. intros (?&?&?&?). split_and!; [done|done|by left]. Qed.

#[export] Instance changed_reflexive u : Reflexive (changed u).
Proof. intros s. apply changed_same. reflexivity. Qed.

Lemma changed_trans u u' s1 s2 s3 : grows u u' -> changed u s1 s2 -> changed u' s2 s3 -> changed u' s1 s3.
Proof.
  intros Hg (I1 & C1 & H12) (I2 & C2 & H23). split_and!; [congruence|congruence|].
  destruct H12 as [[E1 E2]|(En & c & pw & Hc & Hv & E1 & E2)], H23 as [[E3 E4]|(En' & c' & pw' & Hc' & Hv' & E3 & E4)].
  - left. split; congruence.
  - right. split; [congruence|]. exists c', pw'. split_and!; [done|done|done|done].
  - right. split; [done|]. exists c, pw. split_and!; [by apply (proj1 Hg)|done|congruence|congruence].
  - exfalso. rewrite E1 in En'. done.
Qed.

(** The outcome of a step of the lobby with [n] accounts left. *)
Definition lobby_done (n : nat) st st' : Prop :=
  lobby_inv n st' /\ grows (lb_users st) (lb_users st') /\
  Forall2 (changed (lb_users st')) (sessions_ (lb_plane st)) (sessions_ (lb_plane st')).

Lemma lobby_done_trans n m st1 st2 st3 : lobby_done n st1 st2 -> lobby_done m st2 st3 -> lobby_done m st1 st3.
Proof.
  intros (_ & G1 & F1) (Hi & G2 & F2). split_and!; [done| |].
  - by etrans.
  - eapply Forall2_compose; [|exact F1|exact F2]. intros x y z. by apply changed_trans.
Qed.

Lemma lobby_done_refl n st : lobby_inv n st -> lobby_done n st st.
Proof.
  intros Hi. split_and!; [done|reflexivity|]. apply Forall_Forall2_diag, Forall_true. intros s.
  apply changed_same. reflexivity.
Qed.

(** Traffic on the connections, after which the invariant still holds. *)
Lemma lobby_done_traffic n st st' p : lobby_done n st st' -> traffic (lb_plane st') p ->
  lobby_done n st (set_lb_plane st' p).
Proof.
  intros Hd Ht. eapply lobby_done_trans; [exact Hd|]. destruct Hd as ([Hl Hc Hu Hids] & _ & _).
  pose proof (traffic_matching _ _ (lo_plane _ Hl) Ht) as Hm. split_and!; [split|reflexivity|].
  - by eapply lobby_matching.
  - eapply client_keeps; [exact Hc|apply Hm|by apply traffic_keeps|by apply traffic_users].
  - done.
  - done.
  - cbn [set_lb_plane lb_plane]. rewrite (tr_sessions _ _ Ht).
    apply Forall_Forall2_diag, Forall_true. intros s. apply changed_same. reflexivity.
Qed.

Lemma lobby_reply_ok n st st' addr message : lobby_done n st st' -> live (lb_plane st') addr ->
  lobby_reply st' addr message ⇓ lobby_done n st.
Proof.
  intros Hd Hl. unfold lobby_reply. apply returns_bind. eapply returns_mono; [by apply reply_ok|].
  intros p Ht. apply returns_ok. by apply lobby_done_traffic.
Qed.

Lemma register_new r name : name <> "" -> name ∉ r -> (register_session r name).2 = {[name]} ∪ r.
Proof.
  intros Hne Hn. unfold register_session, is_online. destruct name; [done|]. cbn [is_empty_string orb].
  by rewrite bool_decide_eq_false_2.
Qed.

(** A login of a new name. *)
Lemma login_plane (p : Plane (C := C)) s pl : lobby_ok p -> s ∈ sessions_ p -> pl_username pl ∉ registry_ p ->
  0 <= pl_rating pl < 2 ^ 31 ->
  lobby_ok (set_registry (put_session p (bind_player s pl)) ({[pl_username pl]} ∪ registry_ p)).
Proof.
  intros [A1 A2 A3 A4 A5 A6] Hs Hn Hr.
  assert (forall x, x ∈ sessions_ (put_session p (bind_player s pl)) <->
    x = bind_player s pl \/ (x ∈ sessions_ p /\ x <> s)) as Hin by (intros x; by apply elem_of_put).
  assert (plane_ok (put_session p (bind_player s pl))) as Hp by (by eapply put_ok).
  assert (forall x l, x ∈ sessions_ p -> ps_profile x = Some l -> pl_username l <> pl_username pl) as Hother.
  { intros x l Hx Hl E. apply Hn. rewrite <- E. by eapply A3. }
  split; cbn [set_registry sessions_ registry_].
  - by destruct Hp; split.
  - intros x [->|[Hx _]]%Hin; [done|by apply A2].
  - intros x l [->|[Hx _]]%Hin Hl; [|specialize (A3 x l Hx Hl); set_solver].
    injection Hl as <-. simpl. set_solver.
  - intros x y lx ly [->|[Hx _]]%Hin [->|[Hy _]]%Hin Ex Ey E; [done| | |by eapply A4].
    + injection Ex as <-. by destruct (Hother y ly Hy Ey).
    + injection Ey as <-. by destruct (Hother x lx Hx Ex).
  - intros x l [->|[Hx _]]%Hin Hl; [by injection Hl as <-|by eapply A5].
  - intros x u [->|[Hx _]]%Hin Hu; [|by eapply A6]. injection Hu as <-. apply wrap_u_range. lia.
Qed.

Lemma ids_left_le n m u : (m <= n)%nat -> ids_left n u -> ids_left m u.
Proof. induction 1 as [|n Hle IH]; [done|]. intros Hn. apply IH. by apply ids_left_mono. Qed.

Lemma lobby_login_ok n st s addr message : lobby_inv (1 + n) st -> s ∈ sessions_ (lb_plane st) ->
  ps_state s <> Searching -> ps_user_id s = None -> live (lb_plane st) addr -> login_names_ok message ->
  lobby_login salt s addr message st ⇓ lobby_done n st.
Proof.
  intros [Hl Hc Hu Hids] Hs Hst Hn Hlive Hok'.
  assert (lobby_done n st st) as Hsame.
  { apply lobby_done_refl. split; [done|by apply client_mono|done|by apply ids_left_mono]. }
  unfold lobby_login. destruct (parse_login_message message) as [request|] eqn:Ereq; [|by apply returns_ok].
  apply Hok' in Ereq.
  destruct (is_online _ _) eqn:Eon; [by apply lobby_reply_ok|].
  apply bool_decide_eq_false in Eon.
  destruct (authenticate_spec (salt (ps_id s)) (lb_users st) (username request) (password request))
    as (u' & auth & -> & Hok & Hleft & Hothers & Hfail & Hsucc & Hknown & Hnew & _);
    [done|apply Hu|eapply ids_left_le; [|exact Hids]; lia|done|].
  assert (grows (lb_users st) u') as Hgrows.
  { split; intros name c Ec; (destruct (decide (name = username request)) as [->|Hne]; [|rewrite Hothers by done]).
    - by destruct (Hknown c Ec) as [-> _].
    - done.
    - by apply Hnew.
    - congruence. }
  assert (ids_left n u') as Hids' by (by apply Hleft).
  assert (accounts_ok u') as Hu'.
  { split; [done|]. intros name c Ec. destruct (decide (name = username request)) as [->|Hne].
    - destruct (credentials (lb_users st) (username request)) as [c0|] eqn:E0.
      + destruct (Hknown c0 eq_refl) as [-> _]. by apply Hu in Ec.
      + rewrite (Hnew eq_refl c Ec). lia.
    - rewrite Hothers in Ec by done. by apply Hu in Ec. }
  rewrite bind_ok. destruct (ar_success auth) eqn:Eauth; cbn [negb].
  2:{ apply lobby_reply_ok; [|done]. split_and!; [|done|apply Forall_Forall2_diag, Forall_true; reflexivity].
      split; [done|by apply client_mono|done|done]. }
  destruct Hsucc as (Hname & _ & c & Ec & -> & Hv); [done|]. cbn [deref]. rewrite bind_ok.
  pose proof (credentials_name u' _ c Hok Ec) as En.
  cbn [lb_plane set_registry put_session set_sessions registry_].
  change (registry_ (put_session (lb_plane st) (bind_player s (profile c)))) with (registry_ (lb_plane st)).
  rewrite register_new by (simpl; by rewrite En).
  assert (lobby_ok (set_registry (put_session (lb_plane st) (bind_player s (profile c)))
    ({[pl_username (profile c)]} ∪ registry_ (lb_plane st)))) as Hl'.
  { apply login_plane; [done|done|simpl; by rewrite En|]. by apply Hu' in Ec. }
  apply lobby_reply_ok; [|exact Hlive]. split_and!; [split|done|].
  - done.
  - eapply client_keeps; [exact (client_mono _ _ _ Hc)|apply Hl'| |].
    + by apply (put_keeps (lb_plane st) s); [apply Hl|..].
    + by apply (put_users (lb_plane st) s); [apply Hl|..].
  - done.
  - by apply Hleft.
  - cbn [set_lb_plane lb_plane lb_users set_registry sessions_].
    apply (put_Forall2 _ _ s); [apply Hl|done|done|]. split_and!; [done|done|right].
    split; [done|]. exists c, (password request). by rewrite En.
Qed.

(** Changes of the games of the sessions. *)
Lemma lobby_done_matching n st p j : lobby_inv (1 + n) st -> only_matching (lb_plane st) p ->
  client_inv n p j -> lobby_done n st (mkLobby p (lb_users st) j).
Proof.
  intros [Hl Hc Hu Hids] Hm Hj. split_and!; [split|reflexivity|].
  - by eapply lobby_matching.
  - done.
  - done.
  - by apply ids_left_mono.
  - eapply Forall2_impl; [apply Hm|]. intros x y. apply changed_same.
Qed.

(** The session of an id after matching, and its connection. *)
Lemma matching_session (p p' : Plane (C := C)) s : plane_ok p -> only_matching p p' -> s ∈ sessions_ p ->
  exists s', find_session p' (ps_id s) = Some s' /\ s' ∈ sessions_ p' /\ same_user s s' /\
    forall addr, ps_connection s = Some addr -> live p' addr.
Proof.
  intros Hp [Hp' Hs _] (i & Hi)%list_elem_of_lookup.
  destruct (Forall2_lookup_l _ _ _ _ _ Hs Hi) as (s' & Hi' & Hsame).
  pose proof (list_elem_of_lookup_2 _ _ _ Hi') as Hin. pose proof Hsame as (E1 & E2 & _).
  exists s'. split_and!; [rewrite <- E1; by apply find_session_in|done|done|].
  intros addr Ha. destruct (po_live p' Hp' s' Hin) as (a & Ea & Hlive). congruence.
Qed.

Lemma lobby_play_ok n st s addr : lobby_inv (1 + n) st -> s ∈ sessions_ (lb_plane st) ->
  ps_state s = Connected -> is_Some (ps_user_id s) -> ps_connection s = Some addr ->
  lobby_play region s addr st ⇓ lobby_done n st.
Proof.
  intros Hi Hs Hst [uid Huid] Haddr. pose proof Hi as [Hl Hc Hu Hids].
  destruct (proj1 (lo_profile _ Hl s Hs)) as [pl Hpl]; [by eexists|].
  assert (request_play s = set_session_state s Searching) as Ereq.
  { unfold request_play, has_user. rewrite Hst, Huid. done. }
  pose proof (join_spec n (lb_plane st) (lb_client st) s uid pl region Hregion Hl Hc Hs Hst Huid Hpl) as Hjoin.
  unfold lobby_play. rewrite Ereq in *. cbn [ps_state set_session_state]. rewrite bool_decide_eq_true_2 by done.
  unfold user_id, rating, session_player. cbn [ps_user_id ps_profile ps_id set_session_state].
  rewrite Huid, Hpl. cbn [deref]. rewrite !bind_ok. cbn [set_lb_plane lb_plane lb_client lb_users].
  set (p0 := put_session (lb_plane st) _) in *.
  assert (only_matching (lb_plane st) p0) as Hm0 by (apply put_matching with s; [apply Hl|done|done]).
  apply returns_bind. eapply returns_mono; [exact Hjoin|]. intros [[p' j'] response] (Hm & Hj & Hresp).
  pose proof (matching_trans _ _ _ Hm0 Hm) as Hm1.
  destruct (matching_session _ p' s (lo_plane _ Hl) Hm1 Hs) as (s' & Hf & Hs' & Hsame & Hlive).
  pose proof Hsame as (Eid & _ & _ & _).
  assert (forall p, only_matching p' p -> client_inv n p j' ->
    lobby_done n st (mkLobby p (lb_users st) j') /\ live p addr) as Hdone.
  { intros p Hmp Hjp. pose proof (matching_trans _ _ _ Hm1 Hmp) as Hm2. split.
    - by apply lobby_done_matching.
    - destruct (matching_session _ p s (lo_plane _ Hl) Hm2 Hs) as (_ & _ & _ & _ & Hlv). by apply Hlv. }
  assert (forall msg, (forall s', s' ∈ sessions_ p' -> ps_id s' = ps_id s ->
      client_inv n (put_session p' (cancel_search s')) j') ->
    (session ← deref (find_session p' (ps_id s));
     lobby_reply (set_lb_plane (mkLobby p' (lb_users st) j') (put_session p' (cancel_search session))) addr msg)
    ⇓ lobby_done n st) as Hrefused.
  { intros msg Hx. rewrite Hf. cbn [deref]. rewrite bind_ok.
    destruct (Hdone (put_session p' (cancel_search s'))) as [Hd Hlv]; [|by apply Hx|].
    - eapply put_matching; [apply Hm|exact Hs'|]. unfold cancel_search.
      destruct (bool_decide _); done.
    - apply lobby_reply_ok; [exact Hd|exact Hlv]. }
  destruct response as [[[] msg]|]; [|by apply Hrefused|by apply Hrefused].
  destruct (Hdone p') as [Hd Hlv]; [by apply matching_refl, Hm|done|]. by apply lobby_reply_ok.
Qed.

Lemma lobby_session_ok n id st : lobby_inv (1 + n) st -> id ∈ ps_id <$> sessions_ (lb_plane st) ->
  lobby_session salt region id st ⇓ lobby_done n st.
Proof.
  intros Hi (s & -> & Hs)%list_elem_of_fmap. pose proof Hi as [Hl Hc Hu Hids].
  unfold lobby_session. rewrite (find_session_in _ s (lo_plane _ Hl) Hs). cbn [deref]. rewrite bind_ok.
  assert (lobby_inv n st) as Hin by (split; [done|by apply client_mono|done|by apply ids_left_mono]).
  pose proof (lobby_done_refl n st Hin) as Hsame.
  case_bool_decide as Hplay; [by apply returns_ok|].
  destruct (po_live _ (lo_plane _ Hl) s Hs) as (addr & Ea & Hlive). rewrite Ea. cbn [deref]. rewrite bind_ok.
  destruct (load_live _ addr Hlive) as [c ->]. rewrite bind_ok.
  destruct (is_open c); cbn [negb]; [|by apply returns_ok].
  destruct (try_read c) as [raw c'] eqn:Eread. pose proof (store_traffic (lb_plane st) addr c') as Ht.
  set (st1 := set_lb_plane st (store (lb_plane st) addr c')).
  pose proof (lobby_done_traffic (1 + n) st st _ (lobby_done_refl _ st Hi) Ht) as Hd1. fold st1 in Hd1.
  assert (lobby_done n st st1) as Hd1' by (by apply lobby_done_traffic).
  destruct raw as [message|]; [|by apply returns_ok].
  case_bool_decide as Hsearch; [by apply returns_ok|].
  assert (s ∈ sessions_ (lb_plane st1)) as Hs1 by exact Hs.
  assert (live (lb_plane st1) addr) as Hlive1.
  { unfold live. cbn [st1 set_lb_plane lb_plane]. by rewrite (tr_addrs _ _ Ht). }
  assert (forall m, m ⇓ lobby_done n st1 -> m ⇓ lobby_done n st) as Hlift.
  { intros m Hm. eapply returns_mono; [exact Hm|]. intros st2 Hd2. exact (lobby_done_trans n n _ _ _ Hd1' Hd2). }
  unfold has_user. destruct (ps_user_id s) as [uid|] eqn:Eu; cbn [negb].
  - destruct (parse_play_message message); [|by apply returns_ok].
    apply Hlift, lobby_play_ok; [apply Hd1|done| |by eexists|done].
    by destruct (ps_state s).
  - apply Hlift, lobby_login_ok; [apply Hd1|done|done|done|done|by eapply Hnames].
Qed.

Lemma lobby_loop_ok n ids st : lobby_inv (List.length ids + n) st ->
  (forall id, id ∈ ids -> id ∈ ps_id <$> sessions_ (lb_plane st)) ->
  foldM (lobby_session salt region) ids st ⇓ lobby_done n st.
Proof.
  revert st. induction ids as [|id ids IH]; intros st Hi Hids; cbn [foldM].
  { apply returns_ok. by apply lobby_done_refl. }
  apply returns_bind. eapply returns_mono; [apply lobby_session_ok; [exact Hi|apply Hids, list_elem_of_here]|].
  intros st1 Hd. eapply returns_mono; [apply IH; [apply Hd|]|intros st2 Hd2; by eapply lobby_done_trans].
  intros i Hin. destruct Hd as (_ & _ & HF).
  assert (ps_id <$> sessions_ (lb_plane st1) = ps_id <$> sessions_ (lb_plane st)) as ->.
  { clear - HF. induction HF as [|x y l l' (E & _) _ IHF]; [done|]. by rewrite !fmap_cons, E, IHF. }
  by apply Hids, list_elem_of_further.
Qed.

End Correct.
