(* ===== verification/Observability.v ===== *)
(** * Observability

    [src/src/app/observability]: correlation ids, metric counters, the Prometheus report
    and the structured logger; [app/server_metrics.h].  Each thread has a current
    correlation id, which a scope replaces and restores; the wall clock and the standard
    output are the environment ([log_line] is the line that [log] prints, the time stamp
    is an argument).  [log_line_roundtrip]: a log line can be read back, whatever its
    fields contain. *)

From S2P Require Import Prelude CppString RuntimeStore.
From Stdlib Require Import Floats.SpecFloat Ascii String.
Open Scope string_scope.
Open Scope Z_scope.

(** ** Correlation ids *)

Definition kCorrelationIdHeader : string := "X-KFC-Correlation-Id".

Definition hex_char (d : Z) : ascii := if d <? 10 then chr (48 + d) else chr (87 + d).

(** [std::hex]. *)
Fixpoint hex_loop (fuel : nat) (n : Z) (acc : string) : string :=
  let acc := String (hex_char (n mod 16)) acc in
  match fuel with
  | O => acc
  | S fuel => if n <? 16 then acc else hex_loop fuel (n / 16) acc
  end.
Definition to_hex_u32 (n : Z) : string := hex_loop 8 n EmptyString.

(** The id of a thread and the counter of the process. *)
Record Correlation := mkCorrelation { g_correlation_id : string; suffix_counter : Z }.

Definition random_suffix (st : Correlation) : string * Correlation :=
  (to_hex_u32 (suffix_counter st), mkCorrelation (g_correlation_id st) ((suffix_counter st + 1) mod 2 ^ 32)).

(** The operands are evaluated from left to right. *)
Definition generate_correlation_id (st : Correlation) : string * Correlation :=
  let '(a, st) := random_suffix st in
  let '(b, st) := random_suffix st in
  ("kfc-" ++ a ++ "-" ++ b, st).

Definition set_correlation_id (st : Correlation) (id : string) : Correlation := mkCorrelation id (suffix_counter st).
Definition clear_correlation_id (st : Correlation) : Correlation := set_correlation_id st "".

(** [CorrelationScope]: what the object remembers. *)
Record CorrelationScope := mkScope { previous_ : string; had_previous_ : bool }.

Definition enter_scope (id : string) (st : Correlation) : CorrelationScope * Correlation :=
  let scope := if negb (is_empty_string (g_correlation_id st)) then mkScope (g_correlation_id st) true
               else mkScope "" false in
  (scope, set_correlation_id st id).

Definition leave_scope (scope : CorrelationScope) (st : Correlation) : Correlation :=
  if had_previous_ scope then set_correlation_id st (previous_ scope) else clear_correlation_id st.

(** The header of a request, if it has one. *)
Definition extract_correlation_id (header : option string) (st : Correlation) : Correlation :=
  match header with
  | Some value =>
      if negb (is_empty_string value) then set_correlation_id st value
      else if is_empty_string (g_correlation_id st) then
        let '(id, st) := generate_correlation_id st in set_correlation_id st id
      else st
  | None =>
      if is_empty_string (g_correlation_id st) then
        let '(id, st) := generate_correlation_id st in set_correlation_id st id
      else st
  end.

(** ** Metric counters *)

Record MetricCounters := mkCounters {
  matchmaking_requests_total : Z;
  matchmaking_failures_total : Z;
  matches_created_total : Z;
  allocation_failures_total : Z;
  matchmaking_duration_ms_total : Z;
  matchmaking_duration_count : Z;
  snapshots_sent_total : Z;
  player_actions_total : Z;
  allocation_requests_total : Z;
  tick_duration_ms_total : Z;
  tick_duration_count : Z
}.

Definition record_matchmaking_duration_ms (m : MetricCounters) (duration_ms : Z) : MetricCounters :=
  mkCounters (matchmaking_requests_total m) (matchmaking_failures_total m) (matches_created_total m)
    (allocation_failures_total m) (to_size (matchmaking_duration_ms_total m + duration_ms))
    (to_size (matchmaking_duration_count m + 1)) (snapshots_sent_total m) (player_actions_total m)
    (allocation_requests_total m) (tick_duration_ms_total m) (tick_duration_count m).

Definition record_tick_duration_ms (m : MetricCounters) (duration_ms : Z) : MetricCounters :=
  mkCounters (matchmaking_requests_total m) (matchmaking_failures_total m) (matches_created_total m)
    (allocation_failures_total m) (matchmaking_duration_ms_total m) (matchmaking_duration_count m)
    (snapshots_sent_total m) (player_actions_total m) (allocation_requests_total m)
    (to_size (tick_duration_ms_total m + duration_ms)) (to_size (tick_duration_count m + 1)).

(** ** The Prometheus report *)

(** Output of a [double] with the default precision of 6 digits ([%g]), for values that
    are not negative. *)
Section General.
Context (m e : Z).

(** [m * 2 ^ e / 10 ^ x], rounded to the nearest integer, ties to even. *)
Definition scaled_round (x : Z) : Z :=
  let num := m * (if 0 <=? e then 2 ^ e else 1) * (if x <? 0 then 10 ^ (- x) else 1) in
  let den := (if 0 <=? e then 1 else 2 ^ (- e)) * (if x <? 0 then 1 else 10 ^ x) in
  let q := num / den in
  let r := num mod den in
  if 2 * r <? den then q else if den <? 2 * r then q + 1 else if Z.even q then q else q + 1.

(** The decimal exponent: the largest [x] with [10 ^ x <= m * 2 ^ e]. *)
Definition at_least_power (x : Z) : bool :=
  (if x <? 0 then 1 else 10 ^ x) * (if 0 <=? e then 1 else 2 ^ (- e)) <=?
  m * (if 0 <=? e then 2 ^ e else 1) * (if x <? 0 then 10 ^ (- x) else 1).

Fixpoint decimal_exponent (fuel : nat) (x : Z) : Z :=
  match fuel with
  | O => x
  | S fuel => if at_least_power x then x else decimal_exponent fuel (x - 1)
  end.

End General.

Fixpoint strip_zeros (digits : list ascii) : list ascii :=
  match digits with
  | [] => []
  | c :: rest => match strip_zeros rest with
                 | [] => if Ascii.eqb c "0" then [] else [c]
                 | rest' => c :: rest'
                 end
  end.

Fixpoint zeros (n : nat) : string := match n with O => "" | S n => String "0" (zeros n) end.

(** Six digits [n] at the decimal exponent [x]. *)
Definition print_general (n x : Z) : string :=
  let digits := list_ascii_of_string (to_string n) in
  if (x <? -4) || (6 <=? x) then
    let frac := strip_zeros (drop 1 digits) in
    string_of_list_ascii (take 1 digits) ++
    (match frac with [] => "" | _ => "." ++ string_of_list_ascii frac end) ++
    "e" ++ (if x <? 0 then "-" else "+") ++ (if Z.abs x <? 10 then "0" else "") ++ to_string (Z.abs x)
  else if x <? 0 then
    "0." ++ zeros (Z.to_nat (- x - 1)) ++ string_of_list_ascii (strip_zeros digits)
  else
    let frac := strip_zeros (drop (Z.to_nat (x + 1)) digits) in
    string_of_list_ascii (take (Z.to_nat (x + 1)) digits) ++
    (match frac with [] => "" | _ => "." ++ string_of_list_ascii frac end).

Definition double_text (v : spec_float) : string :=
  match v with
  | S754_finite _ m e =>
      let x := decimal_exponent (Zpos m) e 700 330 in
      let n := scaled_round (Zpos m) e (x - 5) in
      if n =? 1000000 then print_general 100000 (x + 1) else print_general n x
  | S754_zero _ => "0"
  | _ => "inf"
  end.

(** [static_cast<double>(sum_ms) / 1000.0]. *)
Definition seconds_of_ms (sum_ms : Z) : spec_float :=
  SFdiv 53 1024 (binary_normalize 53 1024 sum_ms 0 false) (binary_normalize 53 1024 1000 0 false).

Example seconds_text : double_text <$> [seconds_of_ms 0; seconds_of_ms 1; seconds_of_ms 12345; seconds_of_ms 1234567890; seconds_of_ms 999999999999] =
  ["0"; "0.001"; "12.345"; "1.23457e+06"; "1e+09"].
Proof. vm_compute. reflexivity. Qed.

Definition append_metric (type name help value : string) : string :=
  "# HELP " ++ name ++ " " ++ help ++ nl ++ "# TYPE " ++ name ++ " " ++ type ++ nl ++ name ++ " " ++ value ++ nl.

Definition append_counter (name help : string) (value : Z) : string := append_metric "counter" name help (to_string value).
Definition append_gauge (name help : string) (value : Z) : string := append_metric "gauge" name help (to_string value).

Definition append_histogram_summary (name help : string) (sum_ms count : Z) : string :=
  "# HELP " ++ name ++ " " ++ help ++ nl ++ "# TYPE " ++ name ++ " summary" ++ nl ++
  name ++ "_sum " ++ double_text (seconds_of_ms sum_ms) ++ nl ++ name ++ "_count " ++ to_string count ++ nl.

Inductive ServiceKind := KGateway | KMatchmaker | KGameServer.

Definition flag (b : bool) : Z := if b then 1 else 0.

Definition format_prometheus_metrics (service_kind : ServiceKind) (metrics : ServerMetrics) (counters : MetricCounters)
    (authenticated_players active_players active_game_servers : Z) (allocation_api_active : bool) : string :=
  append_gauge "server_uptime_seconds" "Process uptime in seconds" (to_size (sm_server_uptime_seconds metrics)) ++
  append_gauge "redis_enabled" "Whether Redis is enabled" (flag (sm_redis_enabled metrics)) ++
  append_gauge "redis_connected" "Whether Redis is connected" (flag (sm_redis_connected metrics)) ++
  match service_kind with
  | KGateway =>
      append_gauge "connected_sessions" "Active gateway lobby sessions" (sm_connected_sessions metrics) ++
      append_gauge "websocket_connections" "Active gateway websocket connections" (sm_connected_sessions metrics) ++
      append_gauge "authenticated_players" "Authenticated players in gateway lobby" authenticated_players ++
      append_counter "matchmaking_requests_total" "Total matchmaking join requests forwarded by gateway"
        (matchmaking_requests_total counters) ++
      append_counter "matchmaking_failures_total" "Total failed matchmaking join requests from gateway"
        (matchmaking_failures_total counters)
  | KMatchmaker =>
      append_gauge "queue_size" "Players waiting in matchmaking queue" (sm_matchmaking_queue metrics) ++
      append_gauge "active_game_servers" "Registered healthy game servers" active_game_servers ++
      append_counter "matches_created_total" "Total matches created" (matches_created_total counters) ++
      append_counter "allocation_failures_total" "Total game allocation failures in matchmaker"
        (allocation_failures_total counters) ++
      append_histogram_summary "matchmaking_duration_seconds" "Matchmaking finalize duration"
        (matchmaking_duration_ms_total counters) (matchmaking_duration_count counters)
  | KGameServer =>
      append_gauge "active_rooms" "Active game rooms" (sm_active_rooms metrics) ++
      append_gauge "active_players" "Connected players in active rooms" active_players ++
      append_gauge "connected_sessions" "Active game websocket sessions" (sm_connected_sessions metrics) ++
      append_gauge "allocation_api_active" "Whether allocation API listener is active" (flag allocation_api_active) ++
      append_counter "snapshots_sent_total" "Total game snapshots sent to clients" (snapshots_sent_total counters) ++
      append_counter "player_actions_total" "Total accepted player actions" (player_actions_total counters) ++
      append_counter "allocation_requests_total" "Total allocation requests handled by game server"
        (allocation_requests_total counters) ++
      append_histogram_summary "tick_duration_seconds" "Game server tick duration"
        (tick_duration_ms_total counters) (tick_duration_count counters) ++
      append_gauge "last_tick_duration_ms" "Most recent tick duration in milliseconds"
        (to_size (sm_last_tick_duration_ms metrics))
  end.

Definition format_server_metrics (metrics : ServerMetrics) : string :=
  "active_rooms " ++ to_string (sm_active_rooms metrics) ++ nl ++
  "connected_sessions " ++ to_string (sm_connected_sessions metrics) ++ nl ++
  "matchmaking_queue " ++ to_string (sm_matchmaking_queue metrics) ++ nl ++
  "server_uptime_seconds " ++ to_string (sm_server_uptime_seconds metrics) ++ nl ++
  "last_tick_duration_ms " ++ to_string (sm_last_tick_duration_ms metrics) ++ nl ++
  "server_id " ++ sm_server_id metrics ++ nl ++
  "region " ++ sm_region metrics ++ nl ++
  "endpoint " ++ sm_endpoint metrics ++ nl ++
  "redis_enabled " ++ to_string (flag (sm_redis_enabled metrics)) ++ nl ++
  "redis_connected " ++ to_string (flag (sm_redis_connected metrics)) ++ nl.

(** ** The structured logger *)

Definition quote_char : ascii := chr 34.
Definition backslash : ascii := chr 92.
Definition quote : string := String quote_char EmptyString.

Fixpoint escape_json (value : string) : string :=
  match value with
  | EmptyString => EmptyString
  | String c rest =>
      if Ascii.eqb c backslash then String backslash (String backslash (escape_json rest))
      else if Ascii.eqb c quote_char then String backslash (String quote_char (escape_json rest))
      else String c (escape_json rest)
  end.

Inductive LogLevel := Info | Warn | LogError.

Definition level_name (level : LogLevel) : string :=
  match level with Info => "info" | Warn => "warn" | LogError => "error" end.

Record StructuredLogger := mkLogger { service_ : string; server_id_ : string }.

Definition configure (service server_id : string) : StructuredLogger := mkLogger service server_id.

(** A quoted text, as it is and escaped. *)
Definition quoted (s : string) : string := quote ++ s ++ quote.

Definition log_field (key value : string) : string :=
  "," ++ quoted (escape_json key) ++ ":" ++ quoted (escape_json value).

(** The line of [log]; the fields are those of a [std::map], in the order of their keys. *)
Definition log_line (l : StructuredLogger) (timestamp correlation_id : string) (level : LogLevel) (event : string)
    (fields : list (string * string)) : string :=
  "{" ++ quoted "timestamp" ++ ":" ++ quoted timestamp ++
  "," ++ quoted "service" ++ ":" ++ quoted (escape_json (service_ l)) ++
  "," ++ quoted "server_id" ++ ":" ++ quoted (escape_json (server_id_ l)) ++
  "," ++ quoted "level" ++ ":" ++ quoted (level_name level) ++
  "," ++ quoted "event" ++ ":" ++ quoted (escape_json event) ++
  (if negb (is_empty_string correlation_id)
   then "," ++ quoted "correlation_id" ++ ":" ++ quoted (escape_json correlation_id) else "") ++
  String.concat "" ((fun f => log_field f.1 f.2) <$> fields) ++ "}".

(** ** Reading a line back *)

(** The rest of a quoted text, up to the quote that is not escaped. *)
Fixpoint scan_text (s : string) : option (string * string) :=
  match s with
  | EmptyString => None
  | String c rest =>
      if Ascii.eqb c quote_char then Some (EmptyString, rest)
      else if Ascii.eqb c backslash then
        match rest with
        | String d rest' =>
            match scan_text rest' with Some (t, r) => Some (String d t, r) | None => None end
        | EmptyString => None
        end
      else match scan_text rest with Some (t, r) => Some (String c t, r) | None => None end
  end.

Definition expect (c : ascii) (s : string) : option string :=
  match s with String d rest => if Ascii.eqb d c then Some rest else None | EmptyString => None end.

(** A pair of quoted texts. *)
Definition scan_pair (s : string) : option (string * string * string) :=
  s ← expect quote_char s; '(key, s) ← scan_text s; s ← expect ":" s;
  s ← expect quote_char s; '(value, s) ← scan_text s; Some (key, value, s).

(** Pairs after the first one. *)
Fixpoint scan_pairs (fuel : nat) (s : string) : option (list (string * string)) :=
  match fuel with
  | O => None
  | S fuel =>
      match s with
      | String c rest =>
          if Ascii.eqb c "}" then (if is_empty_string rest then Some [] else None)
          else
            s ← expect "," s; '(key, value, s) ← scan_pair s; pairs ← scan_pairs fuel s;
            Some ((key, value) :: pairs)
      | EmptyString => None
      end
  end.

Definition read_line (fuel : nat) (s : string) : option (list (string * string)) :=
  s ← expect "{" s; '(key, value, s) ← scan_pair s; pairs ← scan_pairs fuel s; Some ((key, value) :: pairs).

Lemma scan_escaped s rest : scan_text (escape_json s ++ quote ++ rest) = Some (s, rest).
Proof.
  induction s as [|c s IH]; [done|]. cbn [escape_json].
  destruct (Ascii.eqb_spec c backslash) as [->|Hb].
  { cbn [append scan_text]. change (Ascii.eqb backslash quote_char) with false.
    change (Ascii.eqb backslash backslash) with true. cbv iota. by rewrite IH. }
  destruct (Ascii.eqb_spec c quote_char) as [->|Hq].
  { cbn [append scan_text]. change (Ascii.eqb backslash quote_char) with false.
    change (Ascii.eqb backslash backslash) with true. cbv iota. by rewrite IH. }
  cbn [append scan_text]. rewrite (proj2 (Ascii.eqb_neq _ _) Hq), (proj2 (Ascii.eqb_neq _ _) Hb), IH. done.
Qed.

(** Texts that need no escape. *)
Definition plain (s : string) : Prop := escape_json s = s.

Lemma expect_quote x : expect quote_char (quote ++ x) = Some x.
Proof. done. Qed.

Lemma scan_pair_text key value rest :
  scan_pair (quoted (escape_json key) ++ ":" ++ quoted (escape_json value) ++ rest) = Some (key, value, rest).
Proof.
  unfold scan_pair, quoted. rewrite !app_assoc_string, expect_quote. cbn [mbind option_bind].
  rewrite scan_escaped. cbn [mbind option_bind]. change (expect ":" (":" ++ ?x)) with (Some x). cbn [mbind option_bind].
  rewrite expect_quote. cbn [mbind option_bind]. by rewrite scan_escaped.
Qed.

(** The text of several fields. *)
Definition fields_text (fields : list (string * string)) : string :=
  String.concat "" ((fun f => log_field f.1 f.2) <$> fields).

Lemma concat_cons a l : String.concat "" (a :: l) = a ++ String.concat "" l.
Proof. destruct l; cbn; [by rewrite app_nil_string|done]. Qed.

Lemma scan_fields fields fuel : (List.length fields < fuel)%nat -> scan_pairs fuel (fields_text fields ++ "}") = Some fields.
Proof.
  revert fuel. induction fields as [|[k v] fields IH]; intros [|fuel] Hf; cbn [List.length] in Hf; try lia; [done|].
  unfold fields_text. rewrite fmap_cons, concat_cons. cbn [fst snd]. fold (fields_text fields). unfold log_field.
  rewrite !app_assoc_string.
  match goal with |- scan_pairs _ ("," ++ ?x) = _ =>
    change (scan_pairs (S fuel) ("," ++ x)) with
      ('(key, value, s) ← scan_pair x; pairs ← scan_pairs fuel s; Some ((key, value) :: pairs)) end.
  rewrite scan_pair_text. cbn [mbind option_bind]. rewrite IH by lia. done.
Qed.

Lemma level_plain level : plain (level_name level).
Proof. by destruct level. Qed.

(** A log line is one JSON object of quoted texts that reads back to exactly the
    time stamp, service, server, level, event, correlation id (if there is one) and
    fields it was made from: no quote or backslash in a field can end a text early or
    forge another field. *)
Theorem log_line_roundtrip (l : StructuredLogger) (timestamp correlation_id : string) (level : LogLevel) (event : string)
    (fields : list (string * string)) (Ht : escape_json timestamp = timestamp) :
  read_line (7 + List.length fields) (log_line l timestamp correlation_id level event fields) =
  Some ([("timestamp", timestamp); ("service", service_ l); ("server_id", server_id_ l);
         ("level", level_name level); ("event", event)] ++
        (if negb (is_empty_string correlation_id) then [("correlation_id", correlation_id)] else []) ++ fields)%list.
Proof.
  set (more := ([("service", service_ l); ("server_id", server_id_ l); ("level", level_name level); ("event", event)] ++
    (if negb (is_empty_string correlation_id) then [("correlation_id", correlation_id)] else []) ++ fields)%list).
  assert (log_line l timestamp correlation_id level event fields =
    "{" ++ quoted (escape_json "timestamp") ++ ":" ++ quoted (escape_json timestamp) ++ fields_text more ++ "}") as E.
  { unfold log_line, more, fields_text. rewrite Ht. cbn [app]. rewrite !fmap_cons, !concat_cons, fmap_app.
    unfold log_field. cbn [fst snd]. rewrite level_plain.
    destruct (is_empty_string correlation_id); cbn [negb app fmap list_fmap];
      rewrite ?concat_cons, !app_assoc_string; done. }
  rewrite E. unfold read_line. change (expect "{" ("{" ++ ?x)) with (Some x). cbn [mbind option_bind].
  rewrite scan_pair_text. cbn [mbind option_bind]. rewrite scan_fields; [done|].
  unfold more. rewrite !length_app. destruct (negb _); cbn [List.length]; lia.
Qed.

Lemma log_line_roundtrip_witness :
  read_line 8 (log_line (configure "gateway" "gw-1") "2024-01-01T00:00:00Z" "" Info "login" [("user", quoted "ann\")]) =
  Some [("timestamp", "2024-01-01T00:00:00Z"); ("service", "gateway"); ("server_id", "gw-1"); ("level", "info");
        ("event", "login"); ("user", quoted "ann\")].
Proof. exact (log_line_roundtrip (configure "gateway" "gw-1") "2024-01-01T00:00:00Z" "" Info "login" [("user", quoted "ann\")] eq_refl). Defined.

(** ** Behaviours worth knowing *)

(** Control characters are not escaped: a line feed in a field ends the line of the log,
    and JSON does not allow it inside a text. *)
Example line_feed_not_escaped : escape_json ("a" ++ nl ++ "b") = "a" ++ nl ++ "b".
Proof. reflexivity. Qed.

(** A request is handled in a scope of the id that was extracted just before, which the
    scope therefore restores at its end. *)
Definition handled (header : option string) (st : Correlation) : string * Correlation :=
  let st := extract_correlation_id header st in
  let '(scope, st) := enter_scope (g_correlation_id st) st in
  (g_correlation_id st, leave_scope scope st).

(** So a request without a header is handled under the id of the request before it. *)
Lemma correlation_leaks id st : id <> "" ->
  (handled (Some id) st).1 = id /\ (handled None (handled (Some id) st).2).1 = id.
Proof.
  intros Hid. assert (is_empty_string id = false) as E by (by destruct id). unfold handled, extract_correlation_id.
  cbn. repeat (rewrite E; cbn). done.
Qed.
