(* ===== verification/Http.v ===== *)
(** * HTTP between the servers

    The clients ([src/src/matchmaking/http/matchmaking_http_client.cpp],
    [gateway_notifier_http_client.cpp], [server/game/game_allocation_http_client.cpp]), the
    listeners ([matchmaking_http_server.cpp], [server/gateway/gateway_notification_listener.cpp],
    [server/game/game_creation_listener.cpp], [app/health_http_server.cpp]) and the checks
    of [app/observability/readiness_checker.cpp] and [app/server_health.cpp].

    Requests and responses are values; the network is the class [Network], whose
    [exchange] delivers a request and returns the response, nothing (any exception: no
    such host, refused, reset), or does not return.  A listener is a loop over the results
    of [accept].  [remote_calls_are_local]: over a network that delivers, each client is
    the call of the service behind the listener. *)

From S2P Require Import Prelude Piece BoardModel PathUtils PieceRules CollisionResolver MoveScheduler RealTimeArbiter GameState CppString Sha256 PasswordHash BoardIO GameMessages Codecs Rooms Sessions Users GameLoop RuntimeStore Matchmaking Config GameResult Hosting Allocation MatchService Lobby Observability.
From Stdlib Require Import Ascii String.
Open Scope string_scope.
Open Scope Z_scope.

(** ** Messages *)

Inductive Method := GET | POST | OtherMethod.

#[export] Instance method_eq_dec : EqDecision Method.
Proof. solve_decision. Defined.
#[export] Instance status_eq_dec : EqDecision HttpStatus.
Proof. solve_decision. Defined.

Record HttpReq := mkReq { rq_method : Method; rq_target : string; rq_fields : list (string * string); rq_body : string }.
Record HttpResp := mkResp { rs_status : HttpStatus; rs_content_type : string; rs_body : string }.

(** [basic_fields::find] and [set]: names compare without case. *)
Definition find_field (fields : list (string * string)) (name : string) : option string :=
  snd <$> find_if (fun f => equals_ignore_case f.1 name) fields.

Definition set_field (fields : list (string * string)) (name value : string) : list (string * string) :=
  (filter (fun f => equals_ignore_case f.1 name = false) fields ++ [(name, value)])%list.

Definition text_response (status : HttpStatus) (body : string) : HttpResp := mkResp status "text/plain" body.

(** ** Endpoints *)

Definition http_prefix : string := "http://".

(** The text before the first occurrence of a character, and the text from it on. *)
Definition cut (c : ascii) (s : string) : string * string := span (fun d => negb (Ascii.eqb d c)) s.

Record ParsedEndpoint := mkParsed { pe_host : string; pe_port : string; pe_target : string }.

Definition parse_endpoint (endpoint path : string) : option ParsedEndpoint :=
  if negb (prefix http_prefix endpoint) then None
  else
    let remainder := substr endpoint (slen http_prefix) (slen endpoint) in
    let '(host_port, from_slash) := cut "/" remainder in
    let target := match from_slash with EmptyString => path | _ => from_slash end in
    match cut ":" host_port with
    | (host, EmptyString) => Some (mkParsed host "80" target)
    | (host, String _ port) => Some (mkParsed host port target)
    end.

Definition parse_allocation_endpoint (endpoint : string) : option ParsedEndpoint := parse_endpoint endpoint "/allocate".

(** Without the target. *)
Definition parse_http_endpoint (endpoint : string) : option (string * string) :=
  (fun p => (pe_host p, pe_port p)) <$> parse_endpoint endpoint "".

(** ** The network *)

Class Network (N : Type) := {
  exchange : N -> string -> string -> HttpReq -> res (N * option HttpResp)
}.

Section Clients.
Context {N : Type} `{Network N}.

Definition post_request (parsed : ParsedEndpoint) (correlation_id : string) (extra : list (string * string))
    (body : string) : HttpReq :=
  let fields := set_field (set_field [] "Host" (pe_host parsed)) "Content-Type" "text/plain" in
  let fields := if negb (is_empty_string correlation_id) then set_field fields kCorrelationIdHeader correlation_id
                else fields in
  let fields := foldl (fun fs f => set_field fs f.1 f.2) fields extra in
  mkReq POST (pe_target parsed) fields body.

(** The body of the answer 200 OK. *)
Definition ok_body (answer : option HttpResp) : option string :=
  match answer with
  | Some response => if bool_decide (rs_status response = HttpOk) then Some (rs_body response) else None
  | None => None
  end.

(** The timer is never run, so that the timeout has no effect. *)
Definition post_to (timeout : Z) (parsed : option ParsedEndpoint) (correlation_id : string)
    (extra : list (string * string)) (body : string) (n : N) : res (N * option string) :=
  match parsed with
  | None => Ok (n, None)
  | Some parsed =>
      r ← exchange n (pe_host parsed) (pe_port parsed) (post_request parsed correlation_id extra body);
      Ok (r.1, ok_body r.2)
  end.

Definition post_text (timeout : Z) (endpoint path correlation_id body : string) (n : N) : res (N * option string) :=
  post_to timeout (parse_endpoint endpoint path) correlation_id [] body n.

(** [MatchmakingHttpClient]. *)
Definition http_join (timeout : Z) (endpoint correlation_id : string) (request : MatchRequest) (n : N) :
    res (N * option MatchResponse) :=
  r ← post_text timeout endpoint "/matchmaking/join" correlation_id (encode_match_request request) n;
  Ok (r.1, match r.2 with Some body => decode_match_response body | None => None end).

Definition http_leave (timeout : Z) (endpoint correlation_id : string) (player_id : Z) (region : string) (n : N) : res N :=
  r ← post_text timeout endpoint "/matchmaking/leave" correlation_id
        (encode_match_request (mkMatchRequest player_id 0 0 region)) n;
  Ok r.1.

(** [GatewayNotifierHttpClient]. *)
Definition http_notify_match_found (timeout : Z) (endpoint correlation_id : string) (notification : MatchNotification)
    (n : N) : res (N * bool) :=
  r ← post_text timeout endpoint "/gateway/notify/match" correlation_id (encode_match_notification notification) n;
  Ok (r.1, bool_decide (is_Some r.2)).

Definition http_notify_search_timeout (timeout : Z) (endpoint correlation_id : string) (player_id : Z) (n : N) :
    res (N * bool) :=
  r ← post_text timeout endpoint "/gateway/notify/timeout" correlation_id (encode_timeout_notification player_id) n;
  Ok (r.1, bool_decide (is_Some r.2)).

Definition kServiceTokenHeader : string := "X-KFC-Service-Token".

(** [GameAllocationHttpClient::allocate]. *)
Definition http_allocate (timeout : Z) (service_token correlation_id allocation_endpoint : string)
    (request : GameCreationRequest) (n : N) : res (N * option GameCreationResponse) :=
  let token := if negb (is_empty_string service_token) then [(kServiceTokenHeader, service_token)] else [] in
  r ← post_to timeout (parse_allocation_endpoint allocation_endpoint) correlation_id token
        (encode_game_creation_request request) n;
  Ok (r.1, match r.2 with Some body => decode_game_creation_response body | None => None end).

(** [readiness_checker.cpp]. *)
Definition is_http_endpoint_reachable (endpoint : string) (timeout : Z) (n : N) : res (N * bool) :=
  match parse_http_endpoint endpoint with
  | None => Ok (n, false)
  | Some (host, port) =>
      r ← exchange n host port (mkReq GET "/health" (set_field [] "Host" host) "");
      Ok (r.1, match r.2 with Some response => bool_decide (rs_status response = HttpOk) | None => false end)
  end.

Definition is_redis_ready {S} `{RuntimeStore S} (redis_enabled : bool) (store : S) : bool :=
  if negb redis_enabled then true else is_available store.

Definition is_database_ready (database_connected : bool) : bool := database_connected.

Definition check_gateway_ready {S} `{RuntimeStore S} (database_connected redis_enabled : bool) (store : S)
    (matchmaker_health_endpoint : string) (n : N) : res (N * bool) :=
  if negb (is_database_ready database_connected) then Ok (n, false)
  else if negb (is_redis_ready redis_enabled store) then Ok (n, false)
  else is_http_endpoint_reachable matchmaker_health_endpoint 500 n.

Definition check_matchmaker_ready {S} `{RuntimeStore S} (database_connected redis_enabled : bool) (store : S) : bool :=
  if negb (is_database_ready database_connected) then false
  else if negb (is_redis_ready redis_enabled store) then false
  else match list_game_servers store with [] => false | _ => true end.

Definition check_game_server_ready {S} `{RuntimeStore S} (database_connected redis_enabled : bool) (store : S)
    (allocation_api_active : bool) : bool :=
  if negb (is_database_ready database_connected) then false
  else if negb (is_redis_ready redis_enabled store) then false
  else allocation_api_active.

End Clients.

(** [make_health_status]. *)
Record HealthStatus := mkHealth {
  hs_server_running : bool; hs_database_connected : bool; hs_database_backend : string;
  hs_redis_enabled : bool; hs_redis_connected : bool
}.

Definition make_health_status {S} `{RuntimeStore S} (server_running : bool) (backend : DatabaseBackend)
    (database_connected redis_enabled : bool) (store : S) : HealthStatus :=
  mkHealth server_running database_connected (database_backend_name backend) redis_enabled
    (redis_enabled && is_available store).

(** ** Handling a request *)

(** A request is handled in a scope of its correlation id; a missing response is an
    exception: the connection is dropped. *)
Definition in_scope {St A} (request : HttpReq) (run : St -> res (St * A)) (st : St * Correlation) :
    res (St * Correlation * A) :=
  let c := extract_correlation_id (find_field (rq_fields request) kCorrelationIdHeader) st.2 in
  let '(scope, c) := enter_scope (g_correlation_id c) c in
  r ← run st.1;
  Ok (r.1, leave_scope scope c, r.2).

Section Servers.
Context {S G A : Type} `{RuntimeStore S} `{GameRepository G}.
Context (allocate_game : S -> A -> GameCreationRequest -> S * A * option GameCreationResponse).
Context (config : MatchmakingConfig) (gateway_server_id : string).
Notation Srv := (Service (S := S) (G := G) (A := A)).

(** [MatchmakingHttpServer::handle_connection]. *)
Definition matchmaking_connection (now : Z) (request : HttpReq) :
    Srv * Correlation -> res (Srv * Correlation * option HttpResp) :=
  in_scope request (fun st =>
    r ← handle_request allocate_game config gateway_server_id now (bool_decide (rq_method request = POST))
          (rq_target request) (rq_body request) st;
    Ok (r.1, option_map (fun a => text_response a.1 a.2) r.2)).

End Servers.

(** [GatewayNotificationListener::handle_connection]. *)
Definition notification_connection {C} `{Connection C} (request : HttpReq) (p : Plane (C := C)) :
    res (Plane (C := C) * option HttpResp) :=
  r ← handle_notification (bool_decide (rq_method request = POST)) (rq_target request) (rq_body request) p;
  Ok (r.1, Some (text_response r.2.1 r.2.2)).

(** ** [GameCreationListener] *)

Definition service_token_is_valid (request : HttpReq) (expected_service_token : string) : bool :=
  if is_empty_string expected_service_token then true
  else match find_field (rq_fields request) kServiceTokenHeader with
       | None => false
       | Some value => String.eqb value expected_service_token
       end.

Section Creation.
Context {S M : Type} `{RuntimeStore S}.
Context (game_host : GameCreationRequest -> M -> res (M * GameCreationResponse)).
Context (server_id endpoint expected_service_token : string).

Definition creation_connection (request : HttpReq) :
    (M * S) * Correlation -> res ((M * S) * Correlation * option HttpResp) :=
  in_scope request (fun st =>
    if negb (bool_decide (rq_method request = POST)) || negb (String.eqb (rq_target request) "/allocate") then
      Ok (st, Some (text_response NotFound "Not Found"))
    else if negb (service_token_is_valid request expected_service_token) then
      Ok (st, Some (text_response Unauthorized "Unauthorized"))
    else
      match decode_game_creation_request (rq_body request) with
      | Some decoded =>
          r ← allocate game_host server_id endpoint decoded st;
          Ok (r.1, Some (text_response HttpOk (encode_game_creation_response r.2)))
      | None => Ok (st, Some (text_response BadRequest "Bad Request"))
      end).

End Creation.

(** ** [HealthHttpServer::handle_connection] *)

Definition health_response (metrics_provider : option string) (readiness_provider : option bool) (request : HttpReq) : HttpResp :=
  if bool_decide (rq_method request = GET) then
    if String.eqb (rq_target request) "/health" then text_response HttpOk "OK"
    else if String.eqb (rq_target request) "/ready" then
      let ready := match readiness_provider with None => true | Some b => b end in
      text_response (if ready then HttpOk else ServiceUnavailable) (if ready then "OK" else "Not Ready")
    else
      match String.eqb (rq_target request) "/metrics", metrics_provider with
      | true, Some body => mkResp HttpOk "text/plain; version=0.0.4; charset=utf-8" body
      | _, _ => text_response NotFound "Not Found"
      end
  else text_response MethodNotAllowed "Method Not Allowed".

(** ** The listeners' loop *)

(** [accept]: nobody there, an error, or a connection with the request that was read
    ([None]: the read failed). *)
Inductive Accepted := NoConnection | AcceptError | Incoming (request : option HttpReq).

(** An iteration: is the loop asked to stop, is the acceptor open, what is accepted, and is
    the loop asked to stop after an error. *)
Record LoopInput := mkInput { li_stop : bool; li_open : bool; li_accepted : Accepted; li_stop_after : bool }.

Section Loop.
Context {St : Type} (handle_connection : HttpReq -> St -> res (St * option HttpResp)).

(** The answers that are written, in order; a dropped connection has none. *)
Fixpoint run_loop (inputs : list LoopInput) (st : St) : res (St * list HttpResp) :=
  match inputs with
  | [] => Ok (st, [])
  | i :: rest =>
      if li_stop i then Ok (st, [])
      else if negb (li_open i) then Ok (st, [])
      else
        match li_accepted i with
        | NoConnection => run_loop rest st
        | AcceptError => if li_stop_after i then Ok (st, []) else run_loop rest st
        | Incoming None => run_loop rest st
        | Incoming (Some request) =>
            r ← handle_connection request st;
            r' ← run_loop rest r.1;
            Ok (r'.1, (match r.2 with Some response => [response] | None => [] end ++ r'.2)%list)
        end
  end.

End Loop.

(** The loops of the four listeners. *)
Definition creation_loop {S M : Type} `{RuntimeStore S} (game_host : GameCreationRequest -> M -> res (M * GameCreationResponse))
    (server_id endpoint token : string) :=
  run_loop (creation_connection game_host server_id endpoint token).

(** The requests come at the times [now] of the clock. *)
Definition matchmaking_loop {S G A : Type} `{RuntimeStore S} `{GameRepository G}
    (allocate_game : S -> A -> GameCreationRequest -> S * A * option GameCreationResponse)
    (config : MatchmakingConfig) (gateway_server_id : string) (now : Z) :=
  run_loop (matchmaking_connection (G := G) allocate_game config gateway_server_id now).

Definition notification_loop {C : Type} `{Connection C} := run_loop (notification_connection (C := C)).

(** The providers read the state. *)
Definition health_loop {St : Type} (metrics_provider : option (St -> string)) (readiness_provider : option (St -> bool)) :=
  run_loop (fun request (st : St) =>
    Ok (st, Some (health_response ((fun f => f st) <$> metrics_provider) ((fun f => f st) <$> readiness_provider) request))).

(** The state of a listener that its owner sees: [acceptor_open] is [None] once the
    acceptor is gone. *)
Record Listener := mkListener {
  stop_requested_ : bool; acceptor_open : option bool; configured_port_ : Z; bound_port_ : Z; joined : bool
}.

Definition start_listener (configured_port bound_port : Z) : Listener :=
  mkListener false (Some true) configured_port bound_port false.

Definition stop_listener (l : Listener) : Listener :=
  if stop_requested_ l then l else mkListener true None (configured_port_ l) (bound_port_ l) true.

Definition listener_port (l : Listener) : Z := if negb (bound_port_ l =? 0) then bound_port_ l else configured_port_ l.

Definition is_active (l : Listener) : bool :=
  negb (stop_requested_ l) && match acceptor_open l with Some b => b | None => false end.

(** [HealthHttpServer]: can be started again; [real_port] is the port of the acceptor. *)
Record HealthServer := mkHealthServer { hh_port : Z; hh_running : bool; hh_acceptor : option Z }.

Definition start_health (real_port : Z) (h : HealthServer) : HealthServer :=
  if hh_running h then h else mkHealthServer (hh_port h) true (Some real_port).

Definition stop_health (h : HealthServer) : HealthServer :=
  if negb (hh_running h) then h else mkHealthServer (hh_port h) false None.

Definition health_port (h : HealthServer) : Z := match hh_acceptor h with None => hh_port h | Some p => p end.

(** ** A network that delivers to one listener *)

Definition wired {St : Type} (handle : HttpReq -> St -> res (St * option HttpResp)) (host port : string) : Network St := {|
  exchange st h p request := if String.eqb h host && String.eqb p port then handle request st else Ok (st, None)
|}.

(** Hosts and ports of an endpoint text. *)
Definition host_ok (host : string) : Prop :=
  all_chars (fun c => negb (Ascii.eqb c ":")) host = true /\ all_chars (fun c => negb (Ascii.eqb c "/")) host = true.
Definition port_ok (port : string) : Prop := all_chars (fun c => negb (Ascii.eqb c "/")) port = true.

Definition http_endpoint (host port : string) : string := http_prefix ++ host ++ ":" ++ port.

Lemma parse_http host port path : host_ok host -> port_ok port ->
  parse_endpoint (http_endpoint host port) path = Some (mkParsed host port path).
Proof.
  intros [Hh1 Hh2] Hp. unfold parse_endpoint, http_endpoint.
  replace (prefix http_prefix (http_prefix ++ host ++ ":" ++ port)) with true by (by destruct host).
  cbn [negb]. replace (substr (http_prefix ++ host ++ ":" ++ port) (slen http_prefix) (slen (http_prefix ++ host ++ ":" ++ port)))
    with (host ++ ":" ++ port); [|].
  - unfold cut. rewrite (span_all _ (host ++ ":" ++ port)).
    2:{ rewrite !all_chars_app, Hh2. unfold port_ok in Hp. by rewrite Hp. }
    by rewrite (span_app _ host (":" ++ port) Hh1).
  - unfold substr. cbn. symmetry. apply substring_all. unfold slen. cbn [String.length append http_prefix]. lia.
Qed.

(** What a request of a client carries. *)
Lemma posted parsed correlation_id extra body :
  rq_method (post_request parsed correlation_id extra body) = POST /\
  rq_target (post_request parsed correlation_id extra body) = pe_target parsed /\
  rq_body (post_request parsed correlation_id extra body) = body.
Proof. done. Qed.

Lemma posted_token parsed correlation_id token body :
  find_field (rq_fields (post_request parsed correlation_id [(kServiceTokenHeader, token)] body)) kServiceTokenHeader = Some token /\
  find_field (rq_fields (post_request parsed correlation_id [] body)) kServiceTokenHeader = None.
Proof. unfold post_request. destruct (is_empty_string correlation_id); done. Qed.

Lemma in_scope_eq {St A} request (run : St -> res (St * A)) st : exists c',
  in_scope request run st = (r ← run st.1; Ok (r.1, c', r.2)).
Proof. unfold in_scope. destruct (enter_scope _ _) as [scope c]. eauto. Qed.

(** A post to the endpoint of the listener. *)
Lemma delivered_post {St : Type} (handle : HttpReq -> St -> res (St * option HttpResp)) timeout host port path
    correlation_id extra body st : host_ok host -> port_ok port ->
  post_to (H := wired handle host port) timeout (parse_endpoint (http_endpoint host port) path) correlation_id extra body st =
  (r ← handle (post_request (mkParsed host port path) correlation_id extra body) st;
   Ok (r.1, ok_body r.2)).
Proof.
  intros Hh Hp. unfold post_to. rewrite parse_http by done. cbn [exchange wired pe_host pe_port].
  by rewrite !String.eqb_refl.
Qed.

Section Delivered.
Context {S G A : Type} `{RuntimeStore S} `{GameRepository G}.
Context (allocate_game : S -> A -> GameCreationRequest -> S * A * option GameCreationResponse).
Context (config : MatchmakingConfig) (gateway_server_id : string) (now : Z).
Notation Srv := (Service (S := S) (G := G) (A := A)).

Lemma enter_queue_message request (st st' : Srv) m :
  enter_queue allocate_game config gateway_server_id now request st = Ok (st', Some m) -> no_bar (resp_message m).
Proof.
  unfold enter_queue. intros ([c st1] & _ & Hok)%bind_Ok_inv. apply bind_Ok_inv in Hok as ([[[white black]|] q] & _ & Hok).
  - destruct (finalize_match _ _ _) as [st2 ok]. destruct ok; [|done]. injection Hok as _ Em. by rewrite <- Em.
  - injection Hok as _ Em. by rewrite <- Em.
Qed.

(** The service's answer to a posted request to join, as the client understands it. *)
Lemma join_answers host port correlation_id request (st : Srv * Correlation) :
  fits_u64 (mr_player_id request) -> fits_u64 (mr_user_id request) -> fits_int (mr_elo request) ->
  no_bar (mr_region request) ->
  exists c', (r ← matchmaking_connection allocate_game config gateway_server_id now
      (post_request (mkParsed host port "/matchmaking/join") correlation_id [] (encode_match_request request)) st;
     Ok (r.1, ok_body r.2 ≫= decode_match_response)) =
    (r ← enter_queue allocate_game config gateway_server_id now request st.1; Ok (r.1, c', r.2)).
Proof.
  intros H1 H2 H3 H4.
  set (req := post_request _ _ _ _). destruct (in_scope_eq req (fun st0 : Srv =>
    r ← handle_request allocate_game config gateway_server_id now (bool_decide (rq_method req = POST))
          (rq_target req) (rq_body req) st0;
    Ok (r.1, option_map (fun a => text_response a.1 a.2) r.2)) st) as [c' Ec].
  exists c'. unfold matchmaking_connection. rewrite Ec.
  destruct (posted (mkParsed host port "/matchmaking/join") correlation_id [] (encode_match_request request)) as (E1 & E2 & E3).
  fold req in E1, E2, E3. rewrite E1, E2, E3. rewrite bool_decide_true by done. unfold handle_request. cbn [negb pe_target].
  rewrite String.eqb_refl, (proj1 matchmaking_roundtrip) by done.
  destruct (enter_queue _ _ _ _ _ _) as [[st' [m|]]|] eqn:Eq; [|done..].
  rewrite !bind_ok. cbn [fst snd option_map text_response ok_body rs_status rs_body]. rewrite bool_decide_true by done.
  cbn [mbind option_bind]. apply enter_queue_message in Eq. by rewrite (proj1 (proj2 matchmaking_roundtrip)).
Qed.

(** The call of [join] on the service behind the network. *)
Lemma delivered_join timeout host port correlation_id request (st : Srv * Correlation) :
  host_ok host -> port_ok port -> fits_u64 (mr_player_id request) -> fits_u64 (mr_user_id request) ->
  fits_int (mr_elo request) -> no_bar (mr_region request) ->
  exists c', http_join (H := wired (matchmaking_connection allocate_game config gateway_server_id now) host port)
      timeout (http_endpoint host port) correlation_id request st =
    (r ← enter_queue allocate_game config gateway_server_id now request st.1; Ok (r.1, c', r.2)).
Proof.
  intros Hh Hp H1 H2 H3 H4. destruct (join_answers host port correlation_id request st H1 H2 H3 H4) as [c' Ec].
  exists c'. rewrite <- Ec. unfold http_join, post_text. rewrite delivered_post by done.
  by destruct (matchmaking_connection _ _ _ _ _ _).
Qed.

Lemma delivered_leave timeout host port correlation_id player_id region (st : Srv * Correlation) :
  host_ok host -> port_ok port -> fits_u64 player_id -> no_bar region ->
  exists c', http_leave (H := wired (matchmaking_connection allocate_game config gateway_server_id now) host port)
      timeout (http_endpoint host port) correlation_id player_id region st =
    (st' ← leave_queue config player_id region st.1; Ok (st', c')).
Proof.
  intros Hh Hp H1 H2. unfold http_leave, post_text. rewrite delivered_post by done.
  set (req := post_request _ _ _ _). destruct (in_scope_eq req (fun st0 : Srv =>
    r ← handle_request allocate_game config gateway_server_id now (bool_decide (rq_method req = POST))
          (rq_target req) (rq_body req) st0;
    Ok (r.1, option_map (fun a => text_response a.1 a.2) r.2)) st) as [c' Ec].
  exists c'. unfold matchmaking_connection. rewrite Ec.
  destruct (posted (mkParsed host port "/matchmaking/leave") correlation_id []
    (encode_match_request (mkMatchRequest player_id 0 0 region))) as (E1 & E2 & E3).
  fold req in E1, E2, E3. rewrite E1, E2, E3. rewrite bool_decide_true by done. unfold handle_request. cbn [negb pe_target].
  change (String.eqb "/matchmaking/leave" "/matchmaking/join") with false.
  rewrite String.eqb_refl, (proj1 matchmaking_roundtrip) by done. cbn [mr_player_id mr_region].
  by destruct (leave_queue _ _ _ _).
Qed.

End Delivered.

Lemma delivered_match_found {C} `{Connection C} timeout host port correlation_id n (p : Plane (C := C)) :
  host_ok host -> port_ok port -> fits_u64 (mc_white_player_id n) -> fits_u64 (mc_white_user_id n) ->
  fits_u64 (mc_black_player_id n) -> fits_u64 (mc_black_user_id n) ->
  fits_u64 (mc_room_id n) -> no_bar (mc_server_id n) -> no_bar (mc_endpoint n) ->
  http_notify_match_found (H := wired notification_connection host port) timeout (http_endpoint host port)
    correlation_id n p = (p' ← handle_match_found n p; Ok (p', true)).
Proof.
  intros. unfold http_notify_match_found, post_text. rewrite delivered_post by done.
  unfold notification_connection. cbn [rq_method rq_target rq_body post_request pe_target]. rewrite bool_decide_true by done.
  unfold handle_notification. cbn [negb]. rewrite String.eqb_refl, (proj1 (proj2 (proj2 matchmaking_roundtrip))) by done.
  by destruct (handle_match_found n p).
Qed.

Lemma delivered_search_timeout {C} `{Connection C} timeout host port correlation_id id (p : Plane (C := C)) :
  host_ok host -> port_ok port -> fits_u64 id ->
  http_notify_search_timeout (H := wired notification_connection host port) timeout (http_endpoint host port)
    correlation_id id p = (p' ← handle_search_timeout id p; Ok (p', true)).
Proof.
  intros. unfold http_notify_search_timeout, post_text. rewrite delivered_post by done.
  unfold notification_connection. cbn [rq_method rq_target rq_body post_request pe_target]. rewrite bool_decide_true by done.
  unfold handle_notification. cbn [negb]. change (String.eqb "/gateway/notify/timeout" "/gateway/notify/match") with false.
  rewrite String.eqb_refl, (proj2 (proj2 (proj2 matchmaking_roundtrip))) by done.
  by destruct (handle_search_timeout id p).
Qed.

(** Requests and answers that the codec keeps. *)
Definition creation_request_ok (r : GameCreationRequest) : Prop :=
  fits_u64 (cr_white_user_id r) /\ fits_u64 (cr_black_user_id r) /\
  forall id, cr_db_game_id r = Some id -> fits_int id.
Definition creation_response_ok (r : GameCreationResponse) : Prop :=
  fits_u64 (cp_room_id r) /\ no_bar (cp_game_server_id r) /\
  forall e, cp_endpoint r = Some e -> no_bar e /\ e <> "".

Section DeliveredCreation.
Context {S M : Type} `{RuntimeStore S}.
Context (game_host : GameCreationRequest -> M -> res (M * GameCreationResponse)).
Context (server_id endpoint : string).

(** The fields the allocation client adds. *)
Definition token_fields (token : string) : list (string * string) :=
  if negb (is_empty_string token) then [(kServiceTokenHeader, token)] else [].

(** A posted allocation is carried out if the token is the expected one. *)
Lemma creation_answers host port token expected correlation_id request (st : (M * S) * Correlation) :
  creation_request_ok request ->
  (forall st' r, allocate game_host server_id endpoint request st.1 = Ok (st', r) -> creation_response_ok r) ->
  exists c', (r ← creation_connection game_host server_id endpoint expected
      (post_request (mkParsed host port "/allocate") correlation_id (token_fields token)
         (encode_game_creation_request request)) st;
     Ok (r.1, ok_body r.2 ≫= decode_game_creation_response)) =
    if is_empty_string expected || String.eqb token expected
    then r ← allocate game_host server_id endpoint request st.1; Ok (r.1, c', Some r.2)
    else Ok (st.1, c', None).
Proof.
  intros (Hw & Hb & Hid) Hresp. set (req := post_request _ _ _ _). unfold creation_connection.
  match goal with |- context [in_scope req ?run _] => destruct (in_scope_eq req run st) as [c' Ec] end.
  exists c'. rewrite Ec. clear Ec.
  assert (rq_method req = POST /\ rq_target req = "/allocate" /\ rq_body req = encode_game_creation_request request)
    as (E1 & E2 & E3) by done.
  rewrite E1, E2, E3. rewrite bool_decide_true by done. rewrite String.eqb_refl. cbn [negb orb].
  assert (service_token_is_valid req expected = is_empty_string expected || String.eqb token expected) as ->.
  { unfold service_token_is_valid. destruct (is_empty_string expected) eqn:Ee; [done|]. cbn [orb].
    destruct (posted_token (mkParsed host port "/allocate") correlation_id token (encode_game_creation_request request)) as [F1 F2].
    unfold req, token_fields. destruct (is_empty_string token) eqn:Et; cbn [negb].
    - rewrite F2. destruct token; [|done]. by destruct expected.
    - by rewrite F1. }
  destruct (is_empty_string expected || String.eqb token expected); cbn [negb]; [|done].
  rewrite (proj1 game_creation_roundtrip) by done.
  destruct (allocate _ _ _ _ _) as [[st' r]|] eqn:Ea; [|done]. destruct (Hresp _ _ eq_refl) as (R1 & R2 & R3).
  rewrite !bind_ok. cbn [fst snd text_response ok_body rs_status rs_body]. rewrite bool_decide_true by done.
  cbn [mbind option_bind]. by rewrite (proj2 game_creation_roundtrip).
Qed.

Lemma delivered_allocate timeout host port token expected correlation_id request (st : (M * S) * Correlation) :
  host_ok host -> port_ok port -> creation_request_ok request ->
  (forall st' r, allocate game_host server_id endpoint request st.1 = Ok (st', r) -> creation_response_ok r) ->
  exists c', http_allocate (H := wired (creation_connection game_host server_id endpoint expected) host port)
      timeout token correlation_id (http_endpoint host port) request st =
    if is_empty_string expected || String.eqb token expected
    then r ← allocate game_host server_id endpoint request st.1; Ok (r.1, c', Some r.2)
    else Ok (st.1, c', None).
Proof.
  intros Hh Hp Hreq Hresp. destruct (creation_answers host port token expected correlation_id request st Hreq Hresp)
    as [c' Ec]. exists c'. rewrite <- Ec. unfold http_allocate, parse_allocation_endpoint.
  rewrite delivered_post by done. fold (token_fields token). by destruct (creation_connection _ _ _ _ _ _).
Qed.

End DeliveredCreation.

(** C28: Calls between the servers.  Over a network that delivers the requests for
    [host:port] to the listener there, and for ids, numbers and texts that the codecs keep:
    entering and leaving the queue through the HTTP client are the operations of the
    matchmaking service, with its answer (none if it throws); a notification is the
    operation of the gateway on its sessions, reported as delivered; and an allocation is
    that of the game server with its answer if the client has the expected service token, and
    otherwise changes nothing and has no answer. *)
Theorem remote_calls_are_local {S G A C M : Type} `{RuntimeStore S} `{GameRepository G} `{Connection C}
    (allocate_game : S -> A -> GameCreationRequest -> S * A * option GameCreationResponse)
    (config : MatchmakingConfig) (gateway_server_id : string) (now : Z)
    (game_host : GameCreationRequest -> M -> res (M * GameCreationResponse)) (server_id endpoint expected : string)
    (timeout : Z) (host port correlation_id : string) (Hh : host_ok host) (Hp : port_ok port) :
  let matchmaker := wired (matchmaking_connection allocate_game config gateway_server_id now) host port in
  let gateway := wired (notification_connection (C := C)) host port in
  let game_server := wired (creation_connection game_host server_id endpoint expected) host port in
  let url := http_endpoint host port in
  (forall request (st : Service (S := S) (G := G) (A := A) * Correlation),
     fits_u64 (mr_player_id request) -> fits_u64 (mr_user_id request) -> fits_int (mr_elo request) ->
     no_bar (mr_region request) ->
     exists c', http_join (H := matchmaker) timeout url correlation_id request st =
       (r ← enter_queue allocate_game config gateway_server_id now request st.1; Ok (r.1, c', r.2))) /\
  (forall player_id region (st : Service (S := S) (G := G) (A := A) * Correlation), fits_u64 player_id -> no_bar region ->
     exists c', http_leave (H := matchmaker) timeout url correlation_id player_id region st =
       (st' ← leave_queue config player_id region st.1; Ok (st', c'))) /\
  (forall n (p : Plane (C := C)), fits_u64 (mc_white_player_id n) -> fits_u64 (mc_white_user_id n) ->
     fits_u64 (mc_black_player_id n) -> fits_u64 (mc_black_user_id n) ->
     fits_u64 (mc_room_id n) -> no_bar (mc_server_id n) -> no_bar (mc_endpoint n) ->
     http_notify_match_found (H := gateway) timeout url correlation_id n p =
       (p' ← handle_match_found n p; Ok (p', true))) /\
  (forall id (p : Plane (C := C)), fits_u64 id ->
     http_notify_search_timeout (H := gateway) timeout url correlation_id id p =
       (p' ← handle_search_timeout id p; Ok (p', true))) /\
  (forall token request (st : (M * S) * Correlation), creation_request_ok request ->
     (forall st' r, allocate game_host server_id endpoint request st.1 = Ok (st', r) -> creation_response_ok r) ->
     exists c', http_allocate (H := game_server) timeout token correlation_id url request st =
       if is_empty_string expected || String.eqb token expected
       then r ← allocate game_host server_id endpoint request st.1; Ok (r.1, c', Some r.2)
       else Ok (st.1, c', None)).
Proof.
  intros matchmaker gateway game_server url. split_and!.
  - intros. by apply delivered_join.
  - intros. by apply delivered_leave.
  - intros. by apply delivered_match_found.
  - intros. by apply delivered_search_timeout.
  - intros. by apply delivered_allocate.
Qed.

(** ** The HTTP client as the lobby's join client *)

#[export] Instance http_join_client {C N : Type} `{Connection C} `{Network N} (timeout : Z)
    (endpoint correlation_id : string) : JoinClient C N := {
  join request st :=
    r ← http_join timeout endpoint correlation_id request st.2; Ok (st.1, r.1, r.2);
  leave player_id region st :=
    n ← http_leave timeout endpoint correlation_id player_id region st.2; Ok (st.1, n)
}.

(** The lobby's theorem holds for it over any network whose exchanges end. *)
Class NetworkReturns (N : Type) `{Network N} : Prop := {
  exchange_returns n host port request : exists r, exchange n host port request = Ok r
}.

#[export] Instance http_join_client_ok {C N : Type} `{Connection C} `{NetworkReturns N} (timeout : Z)
    (endpoint correlation_id : string) :
  JoinClientOk (H0 := http_join_client timeout endpoint correlation_id) C N.
Proof.
  refine {| region_ok _ := True; client_inv _ _ _ := True |}; [done|done|].
  intros n p j s uid profile region _ Hp _ Hs _ _ _ p0. cbn [join http_join_client fst snd].
  assert (exists r, http_join timeout endpoint correlation_id (mkMatchRequest (ps_id s) uid (pl_rating profile) region) j = Ok r)
    as [[n' o] ->].
  { unfold http_join, post_text, post_to. destruct (parse_endpoint endpoint _) as [parsed|]; [|rewrite bind_ok; eauto].
    destruct (exchange_returns j (pe_host parsed) (pe_port parsed)
      (post_request parsed correlation_id [] (encode_match_request (mkMatchRequest (ps_id s) uid (pl_rating profile) region))))
      as [r ->]. rewrite !bind_ok. eauto. }
  rewrite bind_ok. apply returns_ok. cbn [fst snd]. split_and!; [|done|by repeat case_match].
  apply matching_refl. unfold p0. eapply (put_ok p s); [apply Hp|done|..]; unfold request_play; by case_match.
Qed.

(** ** The loop answers every request once, in order *)

Definition incoming (i : LoopInput) : list HttpReq :=
  match li_accepted i with Incoming (Some request) => [request] | _ => [] end.

(** While it is not stopped. *)
Definition running (i : LoopInput) : Prop := li_stop i = false /\ li_open i = true /\ li_stop_after i = false.

Lemma run_loop_answers {St : Type} (handle : HttpReq -> St -> res (St * option HttpResp)) inputs st :
  Forall running inputs ->
  run_loop handle inputs st =
  foldM (fun request acc => r ← handle request acc.1;
           Ok (r.1, (acc.2 ++ match r.2 with Some response => [response] | None => [] end)%list))
    (List.concat (incoming <$> inputs)) (st, []).
Proof.
  intros Hrun. assert (forall acc, (r ← run_loop handle inputs st; Ok (r.1, (acc ++ r.2)%list)) =
    foldM (fun request acc => r ← handle request acc.1;
           Ok (r.1, (acc.2 ++ match r.2 with Some response => [response] | None => [] end)%list))
    (List.concat (incoming <$> inputs)) (st, acc)) as Hgen.
  2:{ rewrite <- Hgen. destruct (run_loop handle inputs st) as [[]|]; done. }
  revert st. induction Hrun as [|i inputs (H1 & H2 & H3) _ IH]; intros st acc; [cbn; by rewrite app_nil_r|].
  cbn [run_loop fmap list_fmap List.concat]. unfold incoming at 1. rewrite H1, H2. cbn [negb].
  destruct (li_accepted i) as [| |[request|]]; cbn [app]; rewrite ?H3; [apply IH|apply IH| |apply IH].
  cbn [foldM fst snd]. destruct (handle request st) as [[st' o]|]; [|done]. rewrite !bind_ok. cbn [fst snd].
  rewrite <- IH. destruct (run_loop handle inputs st') as [[st2 rs]|]; [|done]. rewrite !bind_ok. cbn [fst snd].
  by rewrite app_assoc.
Qed.

(** ** Samples *)

#[local] Existing Instance idle_connection.
#[local] Existing Instance counting_games.

Definition sample_game_host : GameCreationRequest -> RoomManager -> res (RoomManager * GameCreationResponse) :=
  host_create_room sample_host (Some sample_plane).

Lemma remote_calls_are_local_witness :
  exists c', http_join (H := wired (matchmaking_connection sample_allocator sample_config "gw" 1055) "127.0.0.1" "8081")
      500 (http_endpoint "127.0.0.1" "8081") "id-1" sample_join (service_on with_servers, mkCorrelation "" 0) =
    (r ← enter_queue sample_allocator sample_config "gw" 1055 sample_join (service_on with_servers); Ok (r.1, c', r.2)).
Proof.
  refine (proj1 (remote_calls_are_local (C := bool) sample_allocator sample_config "gw" 1055
    (fun r (m : unit) => Ok (m, mkCreationResponse 1 "" None)) "game-1" "ws://a" "secret"
    500 "127.0.0.1" "8081" "id-1" (conj eq_refl eq_refl) eq_refl)
    sample_join (service_on with_servers, mkCorrelation "" 0) _ _ _ _); vm_compute; (split; done) || done.
Defined.

(** ** Behaviours worth knowing *)

(** The timeouts of the clients have no effect: the timer belongs to an [io_context] that
    nobody runs.  An exchange that does not end blocks the caller. *)
Lemma timeout_has_no_effect {N : Type} `{Network N} t t' parsed id extra body n :
  post_to t parsed id extra body n = post_to t' parsed id extra body n.
Proof. done. Qed.

Lemma silent_peer_blocks {N : Type} `{Network N} timeout endpoint path id body n parsed :
  parse_endpoint endpoint path = Some parsed ->
  exchange n (pe_host parsed) (pe_port parsed) (post_request parsed id [] body) = Err Diverges ->
  post_text timeout endpoint path id body n = Err Diverges.
Proof. intros Hp He. unfold post_text, post_to. by rewrite Hp, He. Qed.

(** With a slash at the end of the configured endpoint every request goes to the target
    "/", which no listener knows. *)
Example trailing_slash : pe_target <$> parse_endpoint "http://127.0.0.1:8081/" "/matchmaking/join" = Some "/".
Proof. reflexivity. Qed.
