(* ===== verification/LocalMatch.v ===== *)
(** * Matchmaking inside one server

    [src/src/server/matchmaking/matchmaking_queue.cpp], [matchmaking_service.cpp],
    [server/match/match_lifecycle_handler.cpp],
    [src/src/matchmaking/local_matchmaking_join_client.cpp] and
    [server/gateway/monolith_matchmaking_disconnect_handler.cpp], as [GameServer] wires
    them: games are made by the local host of [Hosting].

    The queue holds pointers to sessions; a pointer is the id of its session, and
    following the pointer of a session that is gone is undefined.  Times are
    nanoseconds of the steady clock; the clock is a field of the client. *)

From S2P Require Import Prelude Piece BoardModel PathUtils PieceRules CollisionResolver MoveScheduler RealTimeArbiter GameState CppString Sha256 PasswordHash BoardIO GameMessages Codecs Rooms Sessions Users GameLoop RuntimeStore Matchmaking GameResult Hosting Allocation MatchService Lobby.
From Stdlib Require Import Ascii String.
Open Scope string_scope.
Open Scope Z_scope.

Record WaitingEntry := mkEntry { we_session : Z; we_enqueue_time : Z }.

Section Local.
Context {C S G : Type} `{Connection C} `{RuntimeStore S} `{GameRepository G}.
Context (host : LocalGameHost) (server_id_ : string) (max_difference timeout_ms : Z).
Implicit Types (p : Plane (C := C)) (s : PlayerSession).

(** ** [MatchmakingQueue] *)

Definition is_eligible p s : res bool :=
  if negb (has_user s) then Ok false
  else match ps_connection s with
  | None => Ok false
  | Some addr => c ← load p addr; Ok (is_open c)
  end.

Definition sessions_compatible (a b : PlayerSession) : res bool :=
  ra ← rating a;
  rb ← rating b;
  d ← int_sub ra rb;
  m ← int_abs d;
  Ok (m <=? max_difference).

Definition queue_remove (session : Z) (waiting : list WaitingEntry) : list WaitingEntry :=
  List.filter (fun e => negb (we_session e =? session)) waiting.

(** The loop of [enqueue]: the first eligible and compatible entry, and the rest. *)
Fixpoint find_opponent p s (passed rest : list WaitingEntry) :
    res (option (Z * list WaitingEntry)) :=
  match rest with
  | [] => Ok None
  | e :: rest' =>
      other ← deref (find_session p (we_session e));
      eligible ← is_eligible p other;
      if negb eligible then find_opponent p s (passed ++ [e])%list rest'
      else
        c ← sessions_compatible s other;
        if c : bool then Ok (Some (we_session e, (passed ++ rest')%list))
        else find_opponent p s (passed ++ [e])%list rest'
  end.

(** The pair (white, black), if any, and the queue. *)
Definition queue_enqueue p s (now : Z) (waiting : list WaitingEntry) :
    res (option (Z * Z) * list WaitingEntry) :=
  eligible ← is_eligible p s;
  if negb eligible then Ok (None, waiting)
  else
    r ← find_opponent p s [] waiting;
    Ok (match r with
        | Some (white, waiting) => (Some (white, ps_id s), waiting)
        | None => (None, (waiting ++ [mkEntry (ps_id s) now])%list)
        end).

(** The loop of [check_timeouts]. *)
Definition queue_check_entry p (now : Z) (e : WaitingEntry) (acc : list Z * list WaitingEntry) :
    res (list Z * list WaitingEntry) :=
  other ← deref (find_session p (we_session e));
  eligible ← is_eligible p other;
  if negb eligible then Ok (acc.1, (acc.2 ++ [e])%list)
  else
    waited ← i64_sub now (we_enqueue_time e);
    limit ← i64_mul timeout_ms 1000000;
    Ok (if limit <=? waited then ((acc.1 ++ [we_session e])%list, acc.2)
        else (acc.1, (acc.2 ++ [e])%list)).
Definition queue_check_timeouts p (now : Z) (waiting : list WaitingEntry) :
    res (list Z * list WaitingEntry) :=
  foldM (queue_check_entry p now) waiting ([], []).

(** ** [MatchLifecycleHandler] *)

(** The queue of the service and what the handler refers to. *)
Record LocalClient := mkLocal {
  lc_waiting : list WaitingEntry;
  lc_rooms : RoomManager;
  lc_games : G;
  lc_store : S;
  lc_clock : Z
}.

Definition set_lc_waiting (j : LocalClient) (w : list WaitingEntry) : LocalClient :=
  mkLocal w (lc_rooms j) (lc_games j) (lc_store j) (lc_clock j).

Record ResolvedRouting := mkRouting { rr_room_id : Z; rr_server_id : string; rr_endpoint : string }.

Definition resolve_routing (store : S) (response : GameCreationResponse) (user_id : Z) : ResolvedRouting :=
  let server_id := or_else (cp_game_server_id response) server_id_ in
  match cp_endpoint response with
  | Some (String c e) => mkRouting (cp_room_id response) server_id (String c e)
  | _ =>
      match find_player_location store user_id with
      | Some location =>
          mkRouting (cp_room_id response) (or_else server_id (loc_server_id location))
            (loc_endpoint location)
      | None => mkRouting (cp_room_id response) server_id ""
      end
  end.

Definition send_game_redirects (white black : Z) (white_user : Z) (response : GameCreationResponse)
    (store : S) p : res Plane :=
  let routing := resolve_routing store response white_user in
  p ← send_game_redirect white
        (mkRedirect (rr_room_id routing) (rr_server_id routing) (rr_endpoint routing) White) p;
  send_game_redirect black
    (mkRedirect (rr_room_id routing) (rr_server_id routing) (rr_endpoint routing) Black) p.

(** With the room of the match. *)
Definition create_match (white black : Z) (st : Plane (C := C) * LocalClient) :
    res (Plane * LocalClient * Z) :=
  let '(p, j) := st in
  let p := update_session white set_playing p in
  let p := update_session black set_playing p in
  let p := update_session white (fun s => set_side s White) p in
  let p := update_session black (fun s => set_side s Black) p in
  w ← deref (find_session p white);
  b ← deref (find_session p black);
  white_player ← session_player w;
  black_player ← session_player b;
  let '(g, db_game_id) := create_game (lc_games j) (pl_id white_player) (pl_id black_player) in
  white_user ← user_id w;
  black_user ← user_id b;
  r ← local_allocate_game host (Some p) (mkCreationRequest white_user black_user db_game_id) (lc_rooms j);
  let '(rooms, response) := r in
  let room_id := cp_room_id response in
  let p := update_session white (fun s => assign_room s room_id) p in
  let p := update_session black (fun s => assign_room s room_id) p in
  let store := register_room (lc_store j) room_id (to_u64 (pl_id white_player)) (to_u64 (pl_id black_player))
    (or_else (cp_game_server_id response) server_id_)
    (rr_endpoint (resolve_routing (lc_store j) response white_user)) in
  p ← send_game_redirects white black white_user response store p;
  Ok (p, mkLocal (lc_waiting j) rooms g store (lc_clock j), room_id).

Definition notify_match_created (white black : Z) p : res Plane :=
  p ← notify_match_found white black p;
  notify_game_start white black p.

(** ** [MatchmakingService] *)

Record MatchCreated := mkCreated { md_white : Z; md_black : Z; md_room_id : Z }.

Definition service_finalize_match (white black : Z) (st : Plane (C := C) * LocalClient) :
    res (Plane * LocalClient * MatchCreated) :=
  r ← create_match white black st;
  Ok (r.1, mkCreated white black r.2).

Definition service_enqueue s (now : Z) (st : Plane (C := C) * LocalClient) :
    res (Plane * LocalClient * option MatchCreated) :=
  let '(p, j) := st in
  r ← queue_enqueue p s now (lc_waiting j);
  let j := set_lc_waiting j r.2 in
  match r.1 with
  | Some (white, black) => r ← service_finalize_match white black (p, j); Ok (r.1, Some r.2)
  | None => Ok (p, j, None)
  end.

Definition service_remove s (j : LocalClient) : LocalClient :=
  set_lc_waiting j (queue_remove (ps_id s) (lc_waiting j)).

Definition service_check_timeouts p (now : Z) (j : LocalClient) : res (list Z * LocalClient) :=
  r ← queue_check_timeouts p now (lc_waiting j);
  Ok (r.1, set_lc_waiting j r.2).

(** [process_timeouts]: the timed-out sessions are told and stop searching. *)
Definition process_timeouts (st : Plane (C := C) * LocalClient) : res (Plane * LocalClient) :=
  let '(p, j) := st in
  r ← service_check_timeouts p (lc_clock j) j;
  p ← foldM (fun id p => p ← notify_search_timeout id p; Ok (update_session id cancel_search p)) r.1 p;
  Ok (p, r.2).

(** ** [LocalMatchmakingJoinClient] *)

Definition local_join (request : MatchRequest) (st : Plane (C := C) * LocalClient) :
    res (Plane * LocalClient * option MatchResponse) :=
  let '(p, j) := st in
  match find_session p (mr_player_id request) with
  | None => Ok (p, j, Some (mkMatchResponse JoinError "session_not_found"))
  | Some session =>
      r ← service_enqueue session (lc_clock j) (p, j);
      let '(p, j) := r.1 in
      match r.2 with
      | Some created =>
          p ← notify_match_created (md_white created) (md_black created) p;
          Ok (p, j, Some (mkMatchResponse Queued "matched"))
      | None => Ok (p, j, Some (mkMatchResponse Queued "queued"))
      end
  end.

Definition local_leave (player_id : Z) (region : string) (st : Plane (C := C) * LocalClient) :
    res (Plane * LocalClient) :=
  let '(p, j) := st in
  Ok (p, match find_session p player_id with
         | Some session => service_remove session j
         | None => j
         end).

#[local] Instance local_client : JoinClient C LocalClient := { join := local_join; leave := local_leave }.

(** [MonolithMatchmakingDisconnectHandler]. *)
Definition monolith_on_disconnected (session : PlayerSession) (j : LocalClient) : LocalClient :=
  if bool_decide (ps_state session = Searching)
  then service_remove session j else j.

(** ** Invariant *)

(** A session that may stand in the queue. *)
Definition waits_ok s : Prop :=
  ps_state s = Searching /\ is_Some (ps_user_id s) /\
  exists pl, ps_profile s = Some pl /\ 0 <= pl_rating pl < 2 ^ 31.

(** Every pointer of the queue is the pointer of a searching session, no session waits
    twice, and [n] more rooms can be made. *)
Record local_ok (n : nat) p (j : LocalClient) : Prop := {
  lk_rooms : manager_ok (lc_rooms j);
  lk_ids : Rooms.next_id_ (lc_rooms j) + Z.of_nat n < 2 ^ 64;
  lk_once : NoDup (we_session <$> lc_waiting j);
  lk_waiting : forall e, e ∈ lc_waiting j ->
    exists s, s ∈ sessions_ p /\ ps_id s = we_session e /\ waits_ok s
}.

Lemma local_keeps n p p' j : local_ok n p j -> keeps_searching p p' -> local_ok n p' j.
Proof.
  intros [H1' H2' H3' H4'] Hk. split; [done..|]. intros e He. destruct (H4' e He) as (s & Hs & E & Hw).
  exists s. split_and!; [|done|done]. by apply Hk, Hw.
Qed.

Lemma local_mono n p j : local_ok (1 + n) p j -> local_ok n p j.
Proof. intros [H1' H2' H3' H4']. split; [done|lia|done|done]. Qed.

(** ** Pairing *)

(** [o] can be the opponent of [s]: connected, and of a close rating. *)
Definition close_ratings s (o : PlayerSession) : Prop :=
  exists a b, ps_profile s = Some a /\ ps_profile o = Some b /\
    Z.abs (pl_rating a - pl_rating b) <= max_difference.
Definition opponent p s (o : PlayerSession) : Prop := is_eligible p o = Ok true /\ close_ratings s o.

Lemma is_eligible_ok p s : plane_ok p -> s ∈ sessions_ p -> exists b, is_eligible p s = Ok b.
Proof.
  intros Hp Hs. unfold is_eligible. destruct (negb (has_user s)); [eauto|].
  destruct (po_live p Hp s Hs) as (addr & -> & Hl). destruct (load_live p addr Hl) as [c ->].
  rewrite bind_ok. eauto.
Qed.

Lemma sessions_compatible_ok s o a b : ps_profile s = Some a -> ps_profile o = Some b ->
  0 <= pl_rating a < 2 ^ 31 -> 0 <= pl_rating b < 2 ^ 31 ->
  exists r, sessions_compatible s o = Ok r /\ (r = true <-> close_ratings s o).
Proof.
  intros Ha Hb Hra Hrb. unfold sessions_compatible, rating, session_player. rewrite Ha, Hb.
  cbn [deref]. rewrite !bind_ok. unfold int_sub, int_abs.
  rewrite int_checked_ok, bind_ok by (unfold fits_int; lia).
  rewrite int_checked_ok, bind_ok by (unfold fits_int; lia).
  eexists. split; [done|]. rewrite Z.leb_le. unfold close_ratings. split.
  - intros Hle. exists a, b. done.
  - intros (a' & b' & Ea & Eb & Hle). congruence.
Qed.

(** Nobody of the list is an opponent. *)
Definition no_opponent p s (l : list WaitingEntry) : Prop :=
  Forall (fun e => forall o, find_session p (we_session e) = Some o -> ~ opponent p s o) l.

Lemma find_opponent_spec p s a passed rest : plane_ok p -> ps_profile s = Some a ->
  0 <= pl_rating a < 2 ^ 31 ->
  (forall e, e ∈ rest -> exists o, o ∈ sessions_ p /\ ps_id o = we_session e /\ waits_ok o) ->
  find_opponent p s passed rest ⇓ (fun r => match r with
    | Some (white, w) => exists l1 e l2 o, rest = (l1 ++ e :: l2)%list /\ w = (passed ++ l1 ++ l2)%list /\
        white = we_session e /\ find_session p white = Some o /\ opponent p s o /\ no_opponent p s l1
    | None => no_opponent p s rest
    end).
Proof.
  intros Hp Ha Hra. revert passed. induction rest as [|e rest IH]; intros passed Hw; cbn [find_opponent].
  { apply returns_ok. by constructor. }
  destruct (Hw e) as (o & Ho & Eo & Hst & _ & b & Hb & Hrb); [apply list_elem_of_here|].
  assert (find_session p (we_session e) = Some o) as Hf by (rewrite <- Eo; by apply find_session_in).
  rewrite Hf. cbn [deref]. rewrite bind_ok.
  assert (~ opponent p s o -> find_opponent p s (passed ++ [e])%list rest ⇓ (fun r => match r with
    | Some (white, w) => exists l1 e0 l2 o, e :: rest = (l1 ++ e0 :: l2)%list /\ w = (passed ++ l1 ++ l2)%list /\
        white = we_session e0 /\ find_session p white = Some o /\ opponent p s o /\ no_opponent p s l1
    | None => no_opponent p s (e :: rest)
    end)) as Hskip.
  { intros Hno. assert (forall l, no_opponent p s l -> no_opponent p s (e :: l)) as Hcons.
    { intros l Hl. constructor; [|done]. intros o' Ho'. by simplify_eq. }
    eapply returns_mono; [apply IH; intros e' He'; by apply Hw, list_elem_of_further|].
    intros [[white w]|]; [|by apply Hcons]. intros (l1 & e0 & l2 & o' & -> & -> & Hrest).
    exists (e :: l1), e0, l2, o'. split_and!; [done|by rewrite <- app_assoc|apply Hrest..|].
    apply Hcons, Hrest. }
  destruct (is_eligible_ok p o Hp Ho) as [[] Eel]; rewrite Eel, bind_ok; cbn [negb].
  2:{ apply Hskip. intros [? _]. congruence. }
  destruct (sessions_compatible_ok s o a b Ha Hb Hra Hrb) as ([] & -> & Hc); rewrite bind_ok.
  - apply returns_ok. exists [], e, rest, o. split_and!; [done|done|done|done|split; [done|by apply Hc]|by constructor].
  - apply Hskip. intros [_ Hcl]. by apply Hc in Hcl.
Qed.

(** ** Making the match *)

Section Laws.
Context `{!RuntimeStoreLaws S}.

(** The room of the match: both users are seated, under the ids of their sessions. *)
Definition match_room (white black : PlayerSession) p (j j' : LocalClient) : Prop :=
  let id := Rooms.next_id_ (lc_rooms j) in
  exists wp bp wu bu p1, ps_profile white = Some wp /\ ps_profile black = Some bp /\
    ps_user_id white = Some wu /\ ps_user_id black = Some bu /\ only_matching p p1 /\
    let '(g, db) := create_game (lc_games j) (pl_id wp) (pl_id bp) in
    lc_games j' = g /\ lc_clock j' = lc_clock j /\ rooms_ (lc_rooms j) !! id = None /\
    rooms_ (lc_rooms j') !! id =
      Some (hosted_room (Some p1) (mkCreationRequest wu bu db) id (rm_default_board_ (lc_rooms j))) /\
    (forall id', id' <> id -> rooms_ (lc_rooms j') !! id' = rooms_ (lc_rooms j) !! id') /\
    forall u, find_player_location (lc_store j') u =
      if decide (u = to_u64 (pl_id wp) \/ u = to_u64 (pl_id bp)) then
        Some (mkLocation (or_else (lh_game_server_id host) server_id_)
                (rr_endpoint (resolve_routing (lc_store j)
                   (mkCreationResponse id (lh_game_server_id host) (Some (lh_endpoint host))) wu)) id)
      else find_player_location (lc_store j) u.

Lemma create_match_ok p j (w b : PlayerSession) : plane_ok p -> manager_ok (lc_rooms j) ->
  Rooms.next_id_ (lc_rooms j) < 2 ^ 64 - 1 -> ps_id w <> ps_id b ->
  w ∈ sessions_ p -> b ∈ sessions_ p -> is_Some (ps_user_id w) -> is_Some (ps_user_id b) ->
  is_Some (ps_profile w) -> is_Some (ps_profile b) ->
  create_match (ps_id w) (ps_id b) (p, j) ⇓ (fun '(p', j', room_id) => room_id = Rooms.next_id_ (lc_rooms j) /\
    only_matching p p' /\ both_matched (ps_id w) (ps_id b) (Rooms.next_id_ (lc_rooms j)) p p' /\
    manager_ok (lc_rooms j') /\ Rooms.next_id_ (lc_rooms j') = Rooms.next_id_ (lc_rooms j) + 1 /\
    lc_waiting j' = lc_waiting j /\ match_room w b p j j').
Proof.
  intros Hp Hm Hn Hne Hw Hb [wu Hwu] [bu Hbu] [wp Hwp] [bp Hbp]. unfold create_match.
  pose proof (find_session_in p w Hp Hw) as Fw. pose proof (find_session_in p b Hp Hb) as Fb.
  set (wid := ps_id w) in *. set (bid := ps_id b) in *.
  fold (update_both wid bid set_playing set_playing p).
  destruct (update_both_ok wid bid set_playing set_playing p) as [M1 F1]; [done..|].
  set (p1 := update_both _ _ _ _ p) in *.
  fold (update_both wid bid (fun s => set_side s White) (fun s => set_side s Black) p1).
  destruct (update_both_ok wid bid (fun s => set_side s White) (fun s => set_side s Black) p1)
    as [M2 F2]; [apply M1|done..|].
  set (p2 := update_both _ _ _ _ p1) in *.
  assert (find_session p2 wid = Some (set_side (set_playing w) White)) as G1.
  { by rewrite F2, F1, !Z.eqb_refl, Fw. }
  assert (find_session p2 bid = Some (set_side (set_playing b) Black)) as G2.
  { rewrite F2, F1, !Z.eqb_refl, F1, Z.eqb_refl. destruct (Z.eqb_spec bid wid); [congruence|]. by rewrite Fb. }
  rewrite G1, G2. unfold session_player, user_id. cbn [deref]. rewrite !bind_ok.
  cbn [set_side set_side_opt set_playing set_session_state ps_profile ps_user_id].
  rewrite Hwp, Hbp. cbn [deref]. rewrite !bind_ok. destruct (create_game _ _ _) as [g db] eqn:Eg.
  rewrite Hwu, Hbu. cbn [deref]. rewrite !bind_ok. unfold local_allocate_game.
  destruct (host_create_room_spec host (Some p2) (mkCreationRequest wu bu db) (lc_rooms j) Hm Hn)
    as (m' & -> & Hm' & Hnext & Hnone & Hroom & Hother). rewrite bind_ok. cbn [cp_room_id cp_game_server_id].
  set (id := Rooms.next_id_ (lc_rooms j)) in *.
  fold (update_both wid bid (fun s => assign_room s id) (fun s => assign_room s id) p2).
  destruct (update_both_ok wid bid (fun s => assign_room s id) (fun s => assign_room s id) p2)
    as [M3 F3]; [apply M2|done..|].
  set (p3 := update_both _ _ _ _ p2) in *.
  pose proof (matching_trans _ _ _ M1 M2) as M12. pose proof (matching_trans _ _ _ M12 M3) as M123.
  apply returns_bind. eapply (returns_mono _ (traffic p3)).
  { apply traffic_bind; [apply M3|apply gateway_send_ok, M3|]. intros. by apply gateway_send_ok. }
  intros p4 Ht. apply returns_ok. split_and!; [done| | |done|done|done|].
  - eapply matching_trans; [exact M123|by apply traffic_matching; [apply M3|]].
  - intros i. rewrite (find_traffic _ _ _ Ht), F3, G1, G2, Fw, Fb.
    destruct (Z.eqb_spec i wid) as [->|]; [done|]. destruct (Z.eqb_spec i bid) as [->|]; [done|].
    rewrite F2, !F1. destruct (Z.eqb_spec i wid); [done|]. by destruct (Z.eqb_spec i bid).
  - exists wp, bp, wu, bu, p2. rewrite Eg. split_and!; [done..|]. intros u. apply find_registered.
Qed.

(** ** Joining *)

(** What joining does for the session [s], which has just begun to search in [p]:
    nothing if its connection is closed; a match with the first opponent in the queue;
    or a place at its end. *)
Definition local_outcome p s (j : LocalClient) p' (j' : LocalClient) : Prop :=
  (is_eligible p s = Ok false /\ p' = p /\ j' = j) \/
  (is_eligible p s = Ok true /\ exists l1 e l2 o, lc_waiting j = (l1 ++ e :: l2)%list /\
     find_session p (we_session e) = Some o /\ opponent p s o /\ no_opponent p s l1 /\
     lc_waiting j' = (l1 ++ l2)%list /\
     both_matched (ps_id o) (ps_id s) (Rooms.next_id_ (lc_rooms j)) p p' /\ match_room o s p j j') \/
  (is_eligible p s = Ok true /\ no_opponent p s (lc_waiting j) /\ p' = p /\
     j' = set_lc_waiting j (lc_waiting j ++ [mkEntry (ps_id s) (lc_clock j)])%list).

(** The waiting sessions, seen after [s] has begun to search. *)
Definition waiting_others p s (j : LocalClient) : Prop := forall e, e ∈ lc_waiting j ->
  we_session e <> ps_id s /\ exists o, o ∈ sessions_ p /\ ps_id o = we_session e /\ waits_ok o.

Lemma begin_search n p j s : plane_ok p -> local_ok n p j -> s ∈ sessions_ p -> ps_state s = Connected ->
  is_Some (ps_user_id s) ->
  request_play s = set_session_state s Searching /\
  only_matching p (put_session p (request_play s)) /\
  request_play s ∈ sessions_ (put_session p (request_play s)) /\
  local_ok n (put_session p (request_play s)) j /\
  waiting_others (put_session p (request_play s)) s j.
Proof.
  intros Hp Hok Hs Hst [uid Huid].
  assert (request_play s = set_session_state s Searching) as Ereq.
  { unfold request_play, has_user. rewrite Hst, Huid. done. }
  rewrite Ereq. assert (keeps_searching p (put_session p (set_session_state s Searching))) as Hk.
  { apply (put_keeps p s); [done|done|done|]. by rewrite Hst. }
  split_and!; [done|by apply put_matching with s| |by eapply local_keeps|].
  - apply (elem_of_put p s); [done..|by left].
  - intros e He. destruct (lk_waiting _ _ _ Hok e He) as (o & Ho & Eo & Hw). split.
    + intros E. assert (o = s) as -> by (eapply plane_ids; [done..|congruence]).
      destruct Hw as [Hw _]. congruence.
    + exists o. split_and!; [|done|done]. by apply Hk, Hw.
Qed.

(** The sessions that still wait after a match are untouched. *)
Lemma matched_waiting p p' white black id (w : list WaitingEntry) : plane_ok p ->
  both_matched white black id p p' ->
  (forall e, e ∈ w -> we_session e <> white /\ we_session e <> black /\
     exists o, o ∈ sessions_ p /\ ps_id o = we_session e /\ waits_ok o) ->
  forall e, e ∈ w -> exists o, o ∈ sessions_ p' /\ ps_id o = we_session e /\ waits_ok o.
Proof.
  intros Hp Hboth Hw e He. destruct (Hw e He) as (N1 & N2 & o & Ho & Eo & Hok).
  exists o. split_and!; [|done|done]. specialize (Hboth (we_session e)).
  destruct (Z.eqb_spec (we_session e) white); [done|]. destruct (Z.eqb_spec (we_session e) black); [done|].
  rewrite <- Eo, (find_session_in p o) in Hboth by done. by apply find_session_id in Hboth as [? _].
Qed.

(** The entries that are left when one is taken out. *)
Lemma others_left n p j l1 e l2 : local_ok n p j -> lc_waiting j = (l1 ++ e :: l2)%list ->
  NoDup (we_session <$> (l1 ++ l2)%list) /\
  forall e', e' ∈ (l1 ++ l2)%list -> e' ∈ lc_waiting j /\ we_session e' <> we_session e.
Proof.
  intros Hok El. pose proof (lk_once _ _ _ Hok) as Hnd. rewrite El in *. split.
  { eapply sublist_NoDup; [exact Hnd|]. apply fmap_sublist, sublist_app; [done|by apply sublist_cons]. }
  intros e' He'. split; [set_solver|]. intros E.
  rewrite fmap_app, fmap_cons in Hnd. apply NoDup_app in Hnd as (_ & Hd & [Hd' _]%NoDup_cons).
  apply elem_of_app in He' as [He'|He'].
  - apply (Hd (we_session e')); [by apply list_elem_of_fmap_2|]. rewrite E. apply list_elem_of_here.
  - apply Hd'. rewrite <- E. by apply list_elem_of_fmap_2.
Qed.

(** A session that may wait is put at the end of the queue. *)
Lemma queue_up n p j (s : PlayerSession) now : local_ok n p j -> s ∈ sessions_ p -> waits_ok s ->
  (forall e, e ∈ lc_waiting j -> we_session e <> ps_id s) ->
  local_ok n p (set_lc_waiting j (lc_waiting j ++ [mkEntry (ps_id s) now])%list).
Proof.
  intros [A1 A2 A3 A4] Hs Hw Hothers. split; [exact A1|exact A2| |]; cbn [set_lc_waiting lc_waiting].
  - rewrite fmap_app. apply NoDup_app. split_and!; [done| |apply NoDup_singleton].
    intros x (e & -> & He)%list_elem_of_fmap E%list_elem_of_singleton. by apply (Hothers e He).
  - intros e [He| ->%list_elem_of_singleton]%elem_of_app; [by apply A4|]. by exists s.
Qed.

Lemma local_join_spec n p j s uid profile region : lobby_ok p -> local_ok (1 + n) p j -> s ∈ sessions_ p ->
  ps_state s = Connected -> ps_user_id s = Some uid -> ps_profile s = Some profile ->
  let p0 := put_session p (request_play s) in
  local_join (mkMatchRequest (ps_id s) uid (pl_rating profile) region) (p0, j) ⇓ (fun '(p', j', response) =>
    only_matching p0 p' /\ local_ok n p' j' /\
    (exists message, response = Some (mkMatchResponse Queued message)) /\
    local_outcome p0 (request_play s) j p' j').
Proof.
  intros Hl Hok Hs Hst Huid Hpl p0. pose proof (lo_plane _ Hl) as Hp.
  destruct (begin_search (1 + n) p j s Hp Hok Hs Hst) as (Ereq & Hm0 & Hs0 & Hok0 & Hothers); [by eexists|].
  fold p0 in Hm0, Hs0, Hok0, Hothers. pose proof (om_plane _ _ Hm0) as Hp0.
  pose proof (lo_rating _ Hl s profile Hs Hpl) as Hr. rewrite Ereq in *.
  set (s0 := set_session_state s Searching) in *.
  assert (waits_ok s0) as Hws by (split_and!; [done|by eexists|by exists profile]).
  unfold local_join. cbn [mr_player_id]. change (ps_id s) with (ps_id s0).
  rewrite (find_session_in p0 s0 Hp0 Hs0). unfold service_enqueue, queue_enqueue. apply returns_bind, returns_bind.
  destruct (is_eligible_ok p0 s0 Hp0 Hs0) as [[] Eel]; rewrite Eel, bind_ok; cbn [negb].
  2:{ apply returns_ok. cbn [fst snd]. apply returns_ok. cbn [fst snd]. apply returns_ok. split_and!.
      - by apply matching_refl.
      - destruct j. by apply local_mono.
      - by eexists.
      - left. by destruct j. }
  apply returns_bind. eapply returns_mono.
  { apply (find_opponent_spec p0 s0 profile [] (lc_waiting j) Hp0 Hpl Hr). intros e He. by apply Hothers. }
  intros [[white w]|] Hfound; apply returns_ok; cbn [fst snd].
  - destruct Hfound as (l1 & e & l2 & o & El & -> & -> & Hf & Hopp & Hno). cbn [app].
    destruct (Hothers e) as [Hne (o' & Ho & Eo & Hwo)]; [rewrite El; set_solver|].
    assert (o' = o) as -> by (rewrite <- Eo, find_session_in in Hf by done; congruence).
    destruct (others_left _ _ _ l1 e l2 Hok El) as [Honce Hleft].
    rewrite <- Eo. unfold service_finalize_match. apply returns_bind, returns_bind. eapply returns_mono.
    { pose proof (lk_ids _ _ _ Hok). destruct Hwo as (_ & Huo & pl & Hplo & _).
      apply (create_match_ok p0 (set_lc_waiting j (l1 ++ l2)%list) o s0);
        [done|apply Hok|cbn; lia|by rewrite Eo|done|done|done|by exists uid|by exists pl|by exists profile]. }
    intros [[p1 j1] room_id] (_ & Hm1 & Hboth & Hmgr & Hnext & Ew & Hroom). apply returns_ok, returns_ok.
    cbn [fst snd md_white md_black]. apply returns_bind. unfold notify_match_created.
    eapply (returns_mono _ (traffic p1)).
    { apply traffic_bind; [apply Hm1|apply notify_match_found_ok, Hm1|]. intros. by apply notify_game_start_ok. }
    intros p2 Ht. apply returns_ok.
    assert (both_matched (ps_id o) (ps_id s0) (Rooms.next_id_ (lc_rooms j)) p0 p2) as Hboth2.
    { intros id. rewrite (find_traffic _ _ _ Ht). apply Hboth. }
    split_and!.
    + eapply matching_trans; [exact Hm1|by apply traffic_matching; [apply Hm1|]].
    + split; [done|rewrite Hnext; pose proof (lk_ids _ _ _ Hok); cbn in *; lia| |]; rewrite Ew; cbn [set_lc_waiting lc_waiting].
      * exact Honce.
      * eapply (matched_waiting p0 p2); [done|exact Hboth2|]. intros e' He'.
        destruct (Hleft e' He') as [Hin Hne']. rewrite Eo. split; [done|by apply Hothers].
    + by eexists.
    + right; left. split; [done|]. exists l1, e, l2, o. by split_and!.
  - apply returns_ok. cbn [fst snd]. apply returns_ok. split_and!; [by apply matching_refl| |by eexists|by right; right].
    apply queue_up; [by apply local_mono|done|done|]. intros e He. by destruct (Hothers e He) as [? _].
Qed.

(** ** Timeouts *)

(** The entry's session is connected and has waited for the configured time. *)
Definition waited_out_entry p (now : Z) (e : WaitingEntry) : bool :=
  match find_session p (we_session e) with
  | Some o => match is_eligible p o with
              | Ok true => timeout_ms * 1000000 <=? now - we_enqueue_time e
              | _ => false
              end
  | None => false
  end.

Lemma queue_check_eq p now l acc : plane_ok p -> fits_i64 (timeout_ms * 1000000) -> 0 <= now < 2 ^ 62 ->
  (forall e, e ∈ l -> 0 <= we_enqueue_time e < 2 ^ 62 /\ is_Some (find_session p (we_session e))) ->
  foldM (queue_check_entry p now) l acc =
  Ok ((acc.1 ++ (we_session <$> List.filter (waited_out_entry p now) l))%list,
      (acc.2 ++ List.filter (fun e => negb (waited_out_entry p now e)) l)%list).
Proof.
  intros Hp Hfit Hnow. revert acc. induction l as [|e l IH]; intros acc Hl; cbn [foldM].
  { simpl. rewrite !app_nil_r. by destruct acc. }
  destruct (Hl e) as [Ht [o Ho]]; [apply list_elem_of_here|].
  assert (queue_check_entry p now e acc =
    Ok (if waited_out_entry p now e then ((acc.1 ++ [we_session e])%list, acc.2)
        else (acc.1, (acc.2 ++ [e])%list))) as ->.
  { unfold queue_check_entry, waited_out_entry. rewrite Ho. cbn [deref]. rewrite bind_ok.
    destruct (is_eligible_ok p o) as [[] ->]; [done|by apply find_session_id in Ho as [? _]|..];
      rewrite bind_ok; [|done]. cbn [negb]. unfold i64_sub, i64_mul.
    rewrite (i64_checked_ok (now - _)), bind_ok by (unfold fits_i64; lia). by rewrite i64_checked_ok, bind_ok. }
  rewrite bind_ok, IH by (intros e' He'; by apply Hl, list_elem_of_further).
  cbn [List.filter]. destruct (waited_out_entry p now e); simpl; by rewrite <- app_assoc.
Qed.

Lemma cancel_same s : same_user s (cancel_search s).
Proof. unfold cancel_search. by destruct (bool_decide _). Qed.

Lemma cancel_twice s : cancel_search (cancel_search s) = cancel_search s.
Proof.
  unfold cancel_search at 2 3. destruct (bool_decide (ps_state s = Searching)) eqn:E; [done|].
  unfold cancel_search. by rewrite E.
Qed.

Lemma cancel_all_ok ids p : plane_ok p ->
  foldM (fun id p => p ← notify_search_timeout id p; Ok (update_session id cancel_search p)) ids p ⇓ (fun p' =>
    only_matching p p' /\ forall id, find_session p' id =
      if bool_decide (id ∈ ids) then cancel_search <$> find_session p id else find_session p id).
Proof.
  revert p. induction ids as [|x ids IH]; intros p Hp; cbn [foldM].
  { apply returns_ok. split; [by apply matching_refl|]. intros id. by rewrite bool_decide_eq_false_2 by set_solver. }
  apply returns_bind, returns_bind. eapply returns_mono; [by apply gateway_send_ok|]. intros p1 Ht.
  pose proof (traffic_matching _ _ Hp Ht) as M1. apply returns_ok.
  pose proof (update_matching x cancel_search p1 (om_plane _ _ M1) cancel_same) as M2.
  eapply returns_mono; [apply IH, M2|]. intros p2 [M3 F]. split.
  { eapply matching_trans; [exact M1|by eapply matching_trans]. }
  intros id. rewrite F, find_update, (find_traffic p p1 id Ht), (find_traffic p p1 x Ht);
    [|apply M1|intros s; apply cancel_same].
  destruct (Z.eqb_spec id x) as [->|Hne].
  - rewrite (bool_decide_eq_true_2 (x ∈ x :: ids)) by set_solver. case_bool_decide; [|done].
    destruct (find_session p x) as [s|]; [|done]. simpl. by rewrite cancel_twice.
  - destruct (decide (id ∈ ids)).
    + by rewrite !bool_decide_eq_true_2 by set_solver.
    + by rewrite !bool_decide_eq_false_2 by set_solver.
Qed.

(** Timeouts take exactly the connected sessions out of the queue that have waited for
    the configured time; these stop searching, and everybody else waits on. *)
Lemma process_timeouts_ok n p j : plane_ok p -> local_ok n p j -> fits_i64 (timeout_ms * 1000000) ->
  0 <= lc_clock j < 2 ^ 62 -> (forall e, e ∈ lc_waiting j -> 0 <= we_enqueue_time e < 2 ^ 62) ->
  process_timeouts (p, j) ⇓ (fun '(p', j') => only_matching p p' /\ local_ok n p' j' /\
    let out := we_session <$> List.filter (waited_out_entry p (lc_clock j)) (lc_waiting j) in
    j' = set_lc_waiting j (List.filter (fun e => negb (waited_out_entry p (lc_clock j) e)) (lc_waiting j)) /\
    forall id, find_session p' id =
      if bool_decide (id ∈ out) then cancel_search <$> find_session p id else find_session p id).
Proof.
  intros Hp [A1 A2 A3 A4] Hfit Hnow Ht. unfold process_timeouts, service_check_timeouts, queue_check_timeouts.
  rewrite queue_check_eq, !bind_ok; [|done..|].
  2:{ intros e He. split; [by apply Ht|]. destruct (A4 e He) as (o & Ho & <- & _).
      exists o. by apply find_session_in. }
  cbn [fst snd app]. set (out := we_session <$> _). set (stay := List.filter _ (lc_waiting j)).
  apply returns_bind. eapply returns_mono; [by apply cancel_all_ok|]. intros p' [M F]. apply returns_ok.
  split_and!; [done| |done|done]. split; [exact A1|exact A2| |]; cbn [set_lc_waiting lc_waiting].
  - eapply sublist_NoDup; [exact A3|]. apply fmap_sublist. unfold stay. clear.
    induction (lc_waiting j) as [|e l IH]; simpl; [done|]. destruct (negb _); by constructor.
  - intros e [He Hno]%list_elem_of_In%filter_In. apply list_elem_of_In in He.
    destruct (A4 e He) as (o & Ho & Eo & Hw). exists o. split_and!; [|done|done].
    specialize (F (we_session e)). rewrite bool_decide_eq_false_2 in F.
    + rewrite <- Eo, (find_session_in p o) in F by done. by apply find_session_id in F as [? _].
    + intros (e' & E & [He' Hyes]%list_elem_of_In%filter_In)%list_elem_of_fmap.
      apply list_elem_of_In in He'. assert (e' = e) as ->; [|by rewrite Hyes in Hno].
      apply list_elem_of_lookup in He as [k Hk]. apply list_elem_of_lookup in He' as [k' Hk'].
      assert (k' = k) as ->; [|congruence]. apply (NoDup_lookup _ k' k (we_session e) A3).
      * by rewrite list_lookup_fmap, Hk', E.
      * by rewrite list_lookup_fmap, Hk.
Qed.

(** The local client obeys the interface of the lobby. *)
#[local] Instance local_client_ok : JoinClientOk C LocalClient.
Proof.
  refine {| region_ok _ := True; client_inv := local_ok |}.
  - intros n p j. apply local_mono.
  - intros n p p' j Hok _ Hk _. by eapply local_keeps.
  - intros n p j s uid profile region _ Hl Hok Hs Hst Hu Hpl p0.
    eapply returns_mono; [by apply (local_join_spec n)|].
    intros [[p' j'] response] (Hm & Hj & (message & ->) & _). done.
Defined.


End Laws.
End Local.

(** ** Samples *)

#[local] Existing Instance asking_connection.
#[local] Existing Instance counting_games.

(** Ann is searching, Bob asks to play. *)
Definition ann_session : PlayerSession :=
  set_session_state (assign_user (new_session 0 (Some 4096)) 10 "ann" 1000) Searching.
Definition bob_session : PlayerSession := assign_user (new_session 1 (Some 8192)) 20 "bob" 1040.
Definition two_plane : Plane (C := option string) :=
  mkPlane [(4096, None); (8192, Some "play")] 2 [ann_session; bob_session] 2 {["ann"; "bob"]}.
Definition ann_waits : LocalClient (S := InMemoryRuntimeStore) (G := Z) :=
  mkLocal [mkEntry 0 5] sample_manager 3 new_memory_store 10.

Lemma two_sessions_ok {C} `{Connection C} (c1 c2 : C) : lobby_ok
  (mkPlane [(4096, c1); (8192, c2)] 2 [ann_session; bob_session] 2 {["ann"; "bob"]}).
Proof.
  split; cbn [sessions_ registry_].
  - split; cbn [sessions_ next_session_id_].
    + intros s [->|[->|Hs]%elem_of_cons]%elem_of_cons; [eexists..|set_solver];
        (split; [done|]); unfold live; simpl; set_solver.
    + apply NoDup_cons. split; [set_solver|apply NoDup_singleton].
    + intros s [->|[->|Hs]%elem_of_cons]%elem_of_cons; simpl; [lia..|set_solver].
  - intros s [->|[->|Hs]%elem_of_cons]%elem_of_cons; [| |set_solver]; split; eauto.
  - intros s pl [->|[->|Hs]%elem_of_cons]%elem_of_cons; [| |set_solver]; intros [= <-]; simpl; set_solver.
  - intros s1 s2 l1 l2 [->|[->|Hs]%elem_of_cons]%elem_of_cons [->|[->|Hs']%elem_of_cons]%elem_of_cons;
      try set_solver; intros [= <-] [= <-]; done.
  - intros s pl [->|[->|Hs]%elem_of_cons]%elem_of_cons; [| |set_solver]; intros [= <-]; simpl; lia.
  - intros s u [->|[->|Hs]%elem_of_cons]%elem_of_cons; [| |set_solver]; intros [= <-]; by unfold fits_u64.
Qed.

Lemma two_plane_ok : lobby_ok two_plane.
Proof. apply two_sessions_ok. Qed.

Lemma ann_waits_ok n : (n <= 2)%nat -> local_ok n two_plane ann_waits.
Proof.
  intros Hn. split; cbn [ann_waits lc_rooms lc_waiting].
  - apply sample_manager_ok.
  - cbn [sample_manager Rooms.next_id_]. lia.
  - apply NoDup_singleton.
  - intros e ->%list_elem_of_singleton. exists ann_session. split_and!; [set_solver|done|].
    split_and!; [done|by eexists|]. eexists. split; [done|]. simpl. lia.
Qed.

#[local] Instance sample_client : JoinClient (option string) (LocalClient (S := InMemoryRuntimeStore) (G := Z)) :=
  local_client sample_host "srv" 100.
#[local] Instance sample_client_ok : JoinClientOk (option string) (LocalClient (S := InMemoryRuntimeStore) (G := Z)) :=
  local_client_ok sample_host "srv" 100.

Definition sample_profile : Player := mkPlayer 20 "bob" 1040.


(** Ann and Bob are matched in the room with the next id. *)
Example ann_and_bob_matched :
  match local_join sample_host "srv" 100 (mkMatchRequest 1 20 1040 "eu")
    (put_session two_plane (request_play bob_session), ann_waits) with
  | Ok (p', j', _) => (ps_side <$> sessions_ p') = [Some White; Some Black] /\
      (ps_room_id <$> sessions_ p') = [Some 2; Some 2] /\ lc_waiting j' = []
  | Err _ => False
  end.
Proof. vm_compute. done. Qed.

Definition sample_lobby : LobbyState (C := option string) (U := InMemoryUserRepository) :=
  mkLobby two_plane sample_users ann_waits.

Lemma sample_accounts_ok : accounts_ok sample_users.
Proof.
  split; [split; [apply sample_users_ok|done]|]. intros name c (st & E & _ & ->)%mem_credentials_Some;
    [|apply sample_users_ok]. revert E. cbn [sample_users users_].
  rewrite lookup_insert_Some, lookup_singleton_Some. intros [[_ <-] | [_ [_ <-]]]; simpl; lia.
Qed.

Lemma sample_lobby_inv :
  lobby_inv 2 sample_lobby.
Proof.
  split; cbn [sample_lobby lb_plane lb_client lb_users].
  - apply two_plane_ok.
  - by apply ann_waits_ok.
  - apply sample_accounts_ok.
  - simpl. lia.
Qed.

