(* ===== verification/ClientInput.v ===== *)
(** * The mouse of the networked client

    [NetworkGuiInputSink] of [src/src/main_gui.cpp] and the helpers above it: clicks
    on the picture of a board that the client received become messages for the
    server.  The input handler it writes to only formats texts
    ([network_input_handler.cpp], modelled in [GameMessages.v]), so that the result
    of an operation is the list of texts handed to the connection, in order.

    The theorem relates the two ways to play: a click in the networked client,
    transported as a snapshot one way and as messages the other, does to the game
    what the same click does through [GameInputHandler] in a local game. *)

From S2P Require Import Prelude Piece BoardModel PathUtils PieceRules CollisionResolver MoveScheduler RealTimeArbiter GameState CppString BoardIO GameInput GameMessages BoardView Snapshot.
From Stdlib Require Import String.
Open Scope Z_scope.

(** ** Queries of a view *)

Definition view_is_in_bounds (view : BoardViewModel) (row col : Z) : bool :=
  (row <? v_height view) && (col <? v_width view).

Definition has_piece (view : BoardViewModel) (row col : Z) : bool :=
  match board_view_piece_at view row col with Some _ => true | None => false end.

(** The three tests that stop a piece from acting. *)
Definition view_is_busy (view : BoardViewModel) (row col : Z) : bool :=
  board_view_is_move_origin view row col || board_view_is_jump_origin view row col
  || board_view_is_resting_cell view row col.

Definition view_is_selectable_piece (view : BoardViewModel) (row col : Z) : bool :=
  if negb (has_piece view row col) then false
  else if board_view_is_move_origin view row col then false
  else if board_view_is_jump_origin view row col then false
  else negb (board_view_is_resting_cell view row col).

Definition view_is_friendly_to_selection (view : BoardViewModel) (row col : Z) : bool :=
  match v_selection view with
  | None => false
  | Some (selected_row, selected_col) =>
      if negb (view_is_selectable_piece view row col) then false
      else
        match board_view_piece_at view selected_row selected_col,
              board_view_piece_at view row col with
        | Some selected_piece, Some cell_piece =>
            color_eqb (pv_color selected_piece) (pv_color cell_piece)
        | _, _ => false
        end
  end.

(** ** The sink *)

Record NetworkGuiInputSink := mkSink {
  sink_view : BoardViewModel;
  sink_layout : BoardLayout;
  sink_local_side : option PieceColor
}.

Definition update_view (s : NetworkGuiInputSink) (v : BoardViewModel) : NetworkGuiInputSink :=
  mkSink v (sink_layout s) (sink_local_side s).
Definition set_layout (s : NetworkGuiInputSink) (l : BoardLayout) : NetworkGuiInputSink :=
  mkSink (sink_view s) l (sink_local_side s).
Definition set_local_side (s : NetworkGuiInputSink) (o : option PieceColor) : NetworkGuiInputSink :=
  mkSink (sink_view s) (sink_layout s) o.

Definition sink_pixel_to_cell (s : NetworkGuiInputSink) (x y : Z) : res (option Cell) :=
  if (v_height (sink_view s) =? 0) || (v_width (sink_view s) =? 0) then Ok None
  else try_pixel_to_cell (sink_layout s) x y (v_width (sink_view s)) (v_height (sink_view s)).

Definition is_actionable_piece (s : NetworkGuiInputSink) (row col : Z) : bool :=
  if negb (view_is_selectable_piece (sink_view s) row col) then false
  else match sink_local_side s with
  | None => true
  | Some side =>
      match board_view_piece_at (sink_view s) row col with
      | Some piece => color_eqb (pv_color piece) side
      | None => false
      end
  end.

Definition sink_handle_friendly_click (s : NetworkGuiInputSink) (row col : Z) : res (list string) :=
  selected ← deref (v_selection (sink_view s));
  let '(selected_row, selected_col) := selected : Cell in
  if (selected_row =? row) && (selected_col =? col) then
    Ok (if is_actionable_piece s row col then [send_jump row col; send_clear] else [])
  else Ok (if is_actionable_piece s row col then [send_select row col] else []).

Definition sink_handle_move_attempt (s : NetworkGuiInputSink) (row col : Z) : list string :=
  match v_selection (sink_view s) with
  | None => []
  | Some (from_row, from_col) =>
      if board_view_is_move_origin (sink_view s) from_row from_col
         || board_view_is_jump_origin (sink_view s) from_row from_col
         || board_view_is_resting_cell (sink_view s) from_row from_col
      then [] else [send_move row col]
  end.

Definition sink_handle_click (s : NetworkGuiInputSink) (x y : Z) : res (list string) :=
  if v_game_over (sink_view s) then Ok []
  else
    cell ← sink_pixel_to_cell s x y;
    match cell with
    | None => Ok []
    | Some (row, col) =>
        if negb (view_is_in_bounds (sink_view s) row col) then Ok []
        else match v_selection (sink_view s) with
        | None => Ok (if is_actionable_piece s row col then [send_select row col] else [])
        | Some _ =>
            if view_is_friendly_to_selection (sink_view s) row col then
              sink_handle_friendly_click s row col
            else Ok (sink_handle_move_attempt s row col)
        end
    end.

Definition sink_handle_jump (s : NetworkGuiInputSink) (x y : Z) : res (list string) :=
  if v_game_over (sink_view s) then Ok []
  else
    cell ← sink_pixel_to_cell s x y;
    match cell with
    | None => Ok []
    | Some (row, col) =>
        if negb (view_is_in_bounds (sink_view s) row col) then Ok []
        else if negb (has_piece (sink_view s) row col) then Ok []
        else if negb (is_actionable_piece s row col) then Ok []
        else if board_view_is_move_origin (sink_view s) row col
                || board_view_is_jump_origin (sink_view s) row col
                || board_view_is_resting_cell (sink_view s) row col
        then Ok []
        else Ok [send_jump row col; send_clear]
    end.

(** [on_pixel_click] and [on_pixel_jump]. *)
Definition on_pixel_click : NetworkGuiInputSink -> Z -> Z -> res (list string) := sink_handle_click.
Definition on_pixel_jump : NetworkGuiInputSink -> Z -> Z -> res (list string) := sink_handle_jump.

(** ** Specification *)

(** What the server does with a text of the player of a side while no time passes
    (the reading of [poll_player_input] and the test of [apply_room_inputs]); a
    text that it takes for a resignation has no game to result in. *)
Definition serve (side : PieceColor) (message : string) (g : GameState) : res GameState :=
  if parse_resign_message message then Err RuntimeError
  else
    action ← parse_message message;
    match action with
    | None => Ok g
    | Some a =>
        allowed ← is_action_allowed side g a;
        if allowed : bool then apply_action g a else Ok g
    end.

Definition serve_all (side : PieceColor) (messages : list string) (g : GameState) : res GameState :=
  foldM (serve side) messages g.

(** The player's own piece stands on the cell. *)
Definition owned_at (side : PieceColor) (g : GameState) (r c : Z) : bool :=
  match occupant (board_ g) r c with Some p => color_eqb (p_color p) side | None => false end.

Definition owned (side : PieceColor) (g : GameState) (cell : option Cell) : bool :=
  match cell with Some (r, c) => owned_at side g r c | None => false end.

(** The cell a click acts on: the selection, or the clicked cell without one. *)
Definition click_actor (g : GameState) (clicked : option Cell) : option Cell :=
  match selected_ g with Some cell => Some cell | None => clicked end.

(** Every rest that is not over belongs to the piece on the cell it is noted for. *)
Definition rests_in_place (g : GameState) : Prop :=
  forall id rest, active_rests_ (scheduler_ (arbiter_ g)) !! id = Some rest ->
    clock_ms g < ar_end_time_ms rest ->
    exists p, occupant (board_ g) (ar_row rest) (ar_col rest) = Some p /\ p_id p = id.

(** The view tells the truth about the game, as far as the client asks. *)
Record shows (v : BoardViewModel) (g : GameState) : Prop := {
  sh_height : v_height v = gs_rows g;
  sh_width : v_width v = gs_cols g;
  sh_over : v_game_over v = game_over_ g;
  sh_selection : v_selection v = selected_ g;
  sh_pieces : forall r c, inside (board_ g) r c ->
    board_view_piece_at v r c = picture <$> occupant (board_ g) r c;
  sh_busy : forall r c, inside (board_ g) r c -> is_busy g r c = Ok (view_is_busy v r c)
}.

(** ** The view of a game shows it *)

Section Shown.
Context (g : GameState) (Hg : game_inv g).

Let Hwf : board_wf (board_ g) := fi_wf _ _ (gi_flights g Hg).

Lemma existsb_elem {A} (f : A -> bool) l : existsb f l = true <-> exists x, x ∈ l /\ f x = true.
Proof. rewrite existsb_exists. by setoid_rewrite <- list_elem_of_In. Qed.

Lemma move_origin_eq v r c : v_animations v = gs_animations_for_render g ->
  board_view_is_move_origin v r c = is_piece_moving g r c.
Proof.
  intros Hv. apply eq_true_iff_eq. rewrite is_piece_moving_iff by done.
  unfold board_view_is_move_origin. rewrite Hv, existsb_elem. cbn.
  setoid_rewrite list_elem_of_omap. split.
  - intros (s & (m & Hm & E) & Hs). fold (clock_ms g) in E. case_match; [done|]. injection E as <-.
    cbn in Hs. zbool. exists m. destruct (pm_start_pos m). simpl in *. by subst.
  - intros (m & Hm & Ht & Hs). eexists. split.
    + exists m. fold (clock_ms g). by rewrite (proj2 (Z.leb_gt _ _)) by lia.
    + simpl. rewrite Hs. simpl. by rewrite !Z.eqb_refl.
Qed.

Lemma find_if_is_Some {A} (f : A -> bool) l :
  match find_if f l with Some _ => true | None => false end = existsb f l.
Proof. induction l as [|x l IH]; [done|]. simpl. by destruct (f x). Qed.

Lemma jump_origin_eq v r c : v_animations v = gs_animations_for_render g ->
  board_view_is_jump_origin v r c = is_piece_jumping g r c.
Proof.
  intros Hv. apply eq_true_iff_eq. rewrite is_piece_jumping_iff by done.
  unfold board_view_is_jump_origin, find_jump_at. rewrite Hv, find_if_is_Some, existsb_elem. cbn.
  setoid_rewrite list_elem_of_omap. split.
  - intros (s & (j & Hj & E) & Hs). fold (clock_ms g) in E. case_match; [done|]. injection E as <-.
    cbn in Hs. zbool. exists j. destruct (j_cell j). simpl in *. by subst.
  - intros (j & Hj & Ht & Hs). eexists. split.
    + exists j. fold (clock_ms g). by rewrite (proj2 (Z.leb_gt _ _)) by lia.
    + simpl. rewrite Hs. simpl. by rewrite !Z.eqb_refl.
Qed.

Lemma resting_cell_iff v r c : v_animations v = gs_animations_for_render g ->
  board_view_is_resting_cell v r c = true <->
  exists id rest, active_rests_ (scheduler_ (arbiter_ g)) !! id = Some rest /\
    clock_ms g < ar_end_time_ms rest /\ ar_row rest = r /\ ar_col rest = c.
Proof.
  intros Hv. unfold board_view_is_resting_cell, find_rest_at.
  rewrite Hv, find_if_is_Some, existsb_elem. cbn. setoid_rewrite list_elem_of_omap. split.
  - intros (s & ([id rest] & Hr & E) & Hs). fold (clock_ms g) in E. case_match; [done|].
    injection E as <-. cbn in Hs. zbool. exists id, rest. by apply elem_of_map_to_list in Hr.
  - intros (id & rest & Hr & Ht & <- & <-). eexists. split.
    + exists (id, rest). split; [by apply elem_of_map_to_list|]. fold (clock_ms g).
      by rewrite (proj2 (Z.leb_gt _ _)) by lia.
    + simpl. by rewrite !Z.eqb_refl.
Qed.

(** A cell shows a rest exactly when the piece on it is resting. *)
Lemma resting_cell_eq v r c : v_animations v = gs_animations_for_render g -> rests_in_place g ->
  inside (board_ g) r c -> is_piece_resting g r c = Ok (board_view_is_resting_cell v r c).
Proof.
  intros Hv Hin [Hr Hc]. rewrite is_piece_resting_eq by (done || lia). f_equal.
  apply eq_true_iff_eq. rewrite (resting_cell_iff _ _ _ Hv).
  destruct (occupant (board_ g) r c) as [p|] eqn:Hp.
  - rewrite is_resting_iff by done. split.
    + intros (rest & H1 & H2). exists (p_id p), rest.
      destruct (Hin _ _ H1 H2) as (q & Hq & Hid).
      apply occupant_Some in Hp as (_ & Hf & Hcell & _), Hq as (_ & Hf' & Hcell' & _); [|done..].
      rewrite Hid in Hf'. rewrite Hf in Hf'. injection Hf' as <-.
      rewrite Hcell in Hcell'. by injection Hcell' as <- <-.
    + intros (id & rest & H1 & H2 & <- & <-). destruct (Hin _ _ H1 H2) as (q & Hq & Hid).
      exists rest. split; [|done]. congruence.
  - split; [done|]. intros (id & rest & H1 & H2 & <- & <-).
    destruct (Hin _ _ H1 H2) as (q & Hq & _). congruence.
Qed.

Lemma build_shows v : rests_in_place g -> rows (board_ g) * cols (board_ g) < 2 ^ 64 ->
  build g = Ok v -> shows v g.
Proof.
  intros Hin Hsz Hb. pose proof (build_pieces g v Hg Hsz Hb) as Hp.
  rewrite build_eq in Hb by done. injection Hb as Ev.
  assert (v_animations v = gs_animations_for_render g) as Ha by (by rewrite <- Ev).
  split; try (by rewrite <- Ev).
  - intros r c [? ?]. apply Hp; lia.
  - intros r c Hrc. unfold is_busy, view_is_busy.
    rewrite (resting_cell_eq v) by done. rewrite (move_origin_eq v), (jump_origin_eq v) by done.
    by destruct (is_piece_moving g r c), (is_piece_jumping g r c).
Qed.

End Shown.

Lemma existsb_fmap_same {A} (f : A -> bool) (q : A -> A) l : (forall x, f (q x) = f x) ->
  existsb f (q <$> l) = existsb f l.
Proof. intros Hf. induction l as [|x l IH]; [done|]. cbn. by rewrite Hf, <- IH. Qed.

(** The rounding of progress values on the wire is not seen by these queries. *)
Lemma received_shows v g : shows v g -> shows (received v) g.
Proof.
  intros [H1 H2 H3 H4 H5 H6]. split; try done. intros r c Hrc. rewrite (H6 r c Hrc). f_equal.
  unfold view_is_busy, board_view_is_move_origin, board_view_is_jump_origin,
    board_view_is_resting_cell, find_jump_at, find_rest_at. rewrite !find_if_is_Some.
  unfold received, set_animations, quantize_animations. cbn [v_animations snap_moves snap_jumps snap_rests].
  by rewrite !existsb_fmap_same.
Qed.

(** ** The texts of the client at the server *)

Section Remote.
Context (g : GameState) `{!RulesOk (rules_ g)} (Hg : game_inv g) (side : PieceColor).

Let Hwf : board_wf (board_ g) := fi_wf _ _ (gi_flights g Hg).

(** A message with two numbers is no resignation, and is parsed to its action. *)
Lemma serve_two cmd r c action : is_word cmd -> cmd <> "clear" -> cmd <> "resign" ->
  fits_u64 r -> fits_u64 c ->
  parse_message (cmd ++ " " ++ to_string r ++ " " ++ to_string c) = Ok (Some action) ->
  serve side (cmd ++ " " ++ to_string r ++ " " ++ to_string c) g =
    (allowed ← is_action_allowed side g action;
     if allowed : bool then apply_action g action else Ok g).
Proof.
  intros Hw Hc1 Hc2 Hr Hc Hp. unfold serve. rewrite Hp, bind_ok.
  destruct (parse_two_numbers cmd r c Hw Hr Hc) as (E1 & E2 & _).
  unfold parse_resign_message, parse_keyword. rewrite E1, not_empty_word_app, E2 by done.
  by rewrite (proj2 (String.eqb_neq _ _) Hc2).
Qed.

Lemma allowed_eq action (b : bool) : action_ok g action -> (authorised side g action <-> b = true) ->
  is_action_allowed side g action = Ok b.
Proof.
  intros Hok Hb. destruct (proj1 (returns_eq _ _) (is_action_allowed_spec side g action Hg Hok)) as (x & -> & Hx).
  f_equal. apply eq_true_iff_eq. tauto.
Qed.

(** An action on a cell is authorised when the player's piece stands there. *)
Lemma owned_authorised action : action <> ClearSelection ->
  authorised side g action <-> owned side g (actor_cell g action) = true.
Proof.
  intros Hne. unfold authorised, owned, owned_at. split.
  - intros [?|(r & c & p & -> & -> & Hp)]; [done|]. by rewrite color_eqb_true.
  - right. destruct (actor_cell g action) as [[r c]|]; [|done].
    destruct (occupant (board_ g) r c) as [p|] eqn:E; [|done]. rewrite color_eqb_true in *. eauto 10.
Qed.

Lemma serve_action cmd r c action : is_word cmd -> cmd <> "clear" -> cmd <> "resign" ->
  inside (board_ g) r c -> action_ok g action -> action <> ClearSelection ->
  parse_message (cmd ++ " " ++ to_string r ++ " " ++ to_string c) = Ok (Some action) ->
  serve side (cmd ++ " " ++ to_string r ++ " " ++ to_string c) g =
    if owned side g (actor_cell g action) then apply_action g action else Ok g.
Proof.
  intros Hw Hc1 Hc2 [Hr Hc]%(inside_u64 g Hg) Hok Hne Hp. rewrite (serve_two _ _ _ action) by done.
  by rewrite (allowed_eq _ _ Hok (owned_authorised action Hne)), bind_ok.
Qed.

Lemma serve_select r c : inside (board_ g) r c ->
  serve side (send_select r c) g = if owned_at side g r c then Ok (select g r c) else Ok g.
Proof.
  intros Hin. pose proof (inside_u64 g Hg r c Hin) as [Hr Hc].
  apply (serve_action "select" r c (Select r c)); try done. by rewrite parse_message_two.
Qed.

Lemma serve_move r c : inside (board_ g) r c ->
  serve side (send_move r c) g = if owned side g (selected_ g) then move_selected_to g r c else Ok g.
Proof.
  intros Hin. pose proof (inside_u64 g Hg r c Hin) as [Hr Hc].
  apply (serve_action "move" r c (MoveSelected r c)); try done. by rewrite parse_message_two.
Qed.

Lemma serve_jump r c : inside (board_ g) r c -> owned_at side g r c = true ->
  serve_all side [send_jump r c; send_clear] g = (g' ← jump_at g r c; Ok (clear_selection g')).
Proof.
  intros Hin Hown. pose proof (inside_u64 g Hg r c Hin) as [Hr Hc]. unfold serve_all. cbn [foldM].
  replace (serve side (send_jump r c) g) with (jump_at g r c).
  - by destruct (jump_at g r c).
  - symmetry. etransitivity;
      [apply (serve_action "jump" r c (JumpAt r c)); try done; by rewrite parse_message_two|].
    cbn [actor_cell owned]. by rewrite Hown.
Qed.

(** ** The client's queries are the game's *)

Context (v : BoardViewModel) (Hv : shows v g).

Lemma has_piece_eq r c : inside (board_ g) r c ->
  has_piece v r c = bool_decide (occupant (board_ g) r c <> None).
Proof.
  intros Hin. unfold has_piece. rewrite (sh_pieces _ _ Hv) by done.
  by destruct (occupant (board_ g) r c).
Qed.

Lemma view_selectable_busy r c :
  view_is_selectable_piece v r c = has_piece v r c && negb (view_is_busy v r c).
Proof.
  unfold view_is_selectable_piece, view_is_busy.
  by destruct (has_piece v r c), (board_view_is_move_origin v r c), (board_view_is_jump_origin v r c).
Qed.

Lemma selectable_eq r c : inside (board_ g) r c ->
  is_selectable_piece g r c = Ok (view_is_selectable_piece v r c).
Proof.
  intros Hin. pose proof (sh_busy _ _ Hv r c Hin) as Hb. unfold is_busy in Hb.
  rewrite view_selectable_busy, has_piece_eq by done.
  unfold is_selectable_piece, is_piece, gs_is_in_bounds. rewrite (inside_bounds _ _ _ Hin). cbn [negb].
  rewrite is_empty_inside, !bind_ok by done.
  destruct (occupant (board_ g) r c); [|done]. rewrite bool_decide_false, bool_decide_true by done.
  destruct (is_piece_moving g r c); [by injection Hb as <-|].
  destruct (is_piece_jumping g r c); [by injection Hb as <-|]. cbn [negb andb]. by rewrite Hb.
Qed.

Lemma actionable_eq l r c : inside (board_ g) r c ->
  is_actionable_piece (mkSink v l (Some side)) r c =
  view_is_selectable_piece v r c && owned_at side g r c.
Proof.
  intros Hin. unfold is_actionable_piece, owned_at. cbn [sink_view sink_local_side].
  rewrite (sh_pieces _ _ Hv) by done. destruct (view_is_selectable_piece v r c); [|done].
  by destruct (occupant (board_ g) r c).
Qed.

Lemma friendly_eq r c : inside (board_ g) r c ->
  is_friendly_to_selection g r c = Ok (view_is_friendly_to_selection v r c).
Proof.
  intros Hin. unfold is_friendly_to_selection, view_is_friendly_to_selection.
  rewrite (sh_selection _ _ Hv). destruct (selected_ g) as [[sr sc]|] eqn:Hs; [|done].
  pose proof (gi_selected g Hg sr sc Hs) as Hsel. rewrite selectable_eq, bind_ok by done.
  destruct (view_is_selectable_piece v r c); [|done]. cbn [negb].
  rewrite !piece_at_inside, !bind_ok by (done || apply Hwf). rewrite !(sh_pieces _ _ Hv) by done.
  destruct (occupant (board_ g) sr sc) as [sp|] eqn:E1; [|done].
  destruct (occupant (board_ g) r c) as [cp|] eqn:E2; [|done]. cbn. f_equal.
  apply occupant_Some in E1 as (_ & H1 & _), E2 as (_ & H2 & _); [|done..].
  apply find_id_valid in H1, H2; [|apply Hwf..]. unfold is_same_color_as.
  rewrite !(proj2 (Z.eqb_neq _ _)) by done. cbn. unfold color_eqb. apply bool_decide_ext. naive_solver.
Qed.

(** A friendly cell belongs to the player who owns the selection. *)
Lemma friendly_owned r c sel : inside (board_ g) r c -> selected_ g = Some sel ->
  view_is_friendly_to_selection v r c = true ->
  view_is_selectable_piece v r c = true /\ owned_at side g r c = owned side g (Some sel).
Proof.
  intros Hin Hs. unfold view_is_friendly_to_selection, owned, owned_at. rewrite (sh_selection _ _ Hv), Hs.
  destruct sel as [sr sc]. pose proof (gi_selected g Hg sr sc Hs) as Hsel.
  destruct (view_is_selectable_piece v r c); [|done]. cbn [negb].
  rewrite !(sh_pieces _ _ Hv) by done.
  destruct (occupant (board_ g) sr sc); [|done]. destruct (occupant (board_ g) r c); [|done]. cbn.
  rewrite color_eqb_true. by intros ->.
Qed.

(** ** Clicks and jumps *)

Context (l : BoardLayout) (Hl : layout_ok g l) (x y : Z) (Hx : fits_int x) (Hy : fits_int y).

Let sink : NetworkGuiInputSink := mkSink v l (Some side).

Lemma sink_cell_eq : sink_pixel_to_cell sink x y = pixel_to_cell l g x y.
Proof.
  unfold sink_pixel_to_cell, pixel_to_cell. cbn. by rewrite (sh_height _ _ Hv), (sh_width _ _ Hv).
Qed.

Lemma view_in_bounds r c : inside (board_ g) r c -> view_is_in_bounds v r c = true.
Proof.
  intros Hin. unfold view_is_in_bounds. rewrite (sh_height _ _ Hv), (sh_width _ _ Hv).
  destruct Hin. unfold gs_rows, gs_cols. by rewrite !(proj2 (Z.ltb_lt _ _)) by lia.
Qed.

(** A click on a cell when something is selected. *)
Lemma remote_selected_click r c sel : inside (board_ g) r c -> selected_ g = Some sel ->
  exists messages,
    (if view_is_friendly_to_selection v r c then sink_handle_friendly_click sink r c
     else Ok (sink_handle_move_attempt sink r c)) = Ok messages /\
    serve_all side messages g =
    if owned side g (Some sel) then
      friendly ← is_friendly_to_selection g r c;
      if friendly : bool then handle_friendly_click g r c else handle_move_attempt g r c
    else Ok g.
Proof.
  intros Hin Hs. rewrite friendly_eq, bind_ok by done. destruct sel as [sr sc].
  pose proof (gi_selected g Hg sr sc Hs) as Hsel.
  destruct (view_is_friendly_to_selection v r c) eqn:Hf.
  - destruct (friendly_owned r c _ Hin Hs Hf) as [Hselect <-].
    unfold sink_handle_friendly_click, handle_friendly_click, selection. cbn [sink sink_view].
    rewrite (sh_selection _ _ Hv), Hs. cbn [deref]. rewrite bind_ok. cbv beta iota.
    unfold sink. rewrite actionable_eq, Hselect by done. cbn [andb].
    destruct (_ && _) eqn:Esame; [zbool; subst sr sc|].
    + eexists. split; [done|]. destruct (owned_at side g r c) eqn:Hown; [|done].
      rewrite serve_jump by done. rewrite (sh_busy _ _ Hv), bind_ok by done.
      rewrite view_selectable_busy in Hselect. zbool.
      unfold jump_selected. rewrite Hs. by replace (view_is_busy v r c) with false.
    + eexists. split; [done|]. destruct (owned_at side g r c) eqn:Hown; [|done].
      unfold serve_all. cbn [foldM]. rewrite serve_select, Hown by done. done.
  - eexists. split; [done|]. unfold sink_handle_move_attempt, handle_move_attempt, selection.
    cbn [sink sink_view]. rewrite (sh_selection _ _ Hv), Hs, (sh_busy _ _ Hv), bind_ok by done.
    fold (view_is_busy v sr sc). destruct (view_is_busy v sr sc); [by destruct (owned _ _ _)|].
    unfold serve_all. cbn [foldM]. rewrite serve_move, Hs by done.
    cbn [owned]. by destruct (owned_at side g sr sc), (move_selected_to g r c).
Qed.

Lemma remote_click : exists cell messages,
  pixel_to_cell l g x y = Ok cell /\ on_pixel_click sink x y = Ok messages /\
  serve_all side messages g =
    if owned side g (click_actor g cell) then handle_click l g x y else Ok g.
Proof.
  destruct (proj1 (returns_eq _ _) (pixel_to_cell_total g l x y Hl Hx Hy)) as (cell & E & Hin).
  exists cell. unfold on_pixel_click, sink_handle_click, handle_click, is_game_over.
  rewrite sink_cell_eq, E, !bind_ok. cbn [sink sink_view]. rewrite (sh_over _ _ Hv).
  destruct (game_over_ g); [eexists; split_and!; [done..|]; by destruct (owned _ _ _)|].
  destruct cell as [[r c]|]; [|eexists; split_and!; [done..|]; by destruct (owned _ _ _)].
  specialize (Hin r c eq_refl). unfold gs_is_in_bounds.
  rewrite (inside_bounds _ _ _ Hin), view_in_bounds, (sh_selection _ _ Hv) by done. cbn [negb].
  unfold has_selection, click_actor. destruct (selected_ g) as [sel|] eqn:Hs; cbn [negb].
  - destruct (remote_selected_click r c sel Hin Hs) as (messages & H1 & H2). by exists messages.
  - eexists. split_and!; [done..|]. unfold sink, handle_select.
    rewrite actionable_eq, selectable_eq, bind_ok by done. cbn [owned].
    destruct (view_is_selectable_piece v r c), (owned_at side g r c) eqn:Hown; try done.
    unfold serve_all. cbn [andb foldM]. by rewrite serve_select, Hown.
Qed.

Lemma remote_jump : exists cell messages,
  pixel_to_cell l g x y = Ok cell /\ on_pixel_jump sink x y = Ok messages /\
  serve_all side messages g = if owned side g cell then handle_jump l g x y else Ok g.
Proof.
  destruct (proj1 (returns_eq _ _) (pixel_to_cell_total g l x y Hl Hx Hy)) as (cell & E & Hin).
  exists cell. unfold on_pixel_jump, sink_handle_jump, handle_jump, is_game_over.
  rewrite sink_cell_eq, E, !bind_ok. cbn [sink sink_view]. rewrite (sh_over _ _ Hv).
  destruct (game_over_ g); [eexists; split_and!; [done..|]; by destruct (owned _ _ _)|].
  destruct cell as [[r c]|]; [|eexists; split_and!; done].
  specialize (Hin r c eq_refl). unfold gs_is_in_bounds.
  rewrite (inside_bounds _ _ _ Hin), view_in_bounds, (sh_busy _ _ Hv), bind_ok by done. cbn [negb].
  unfold sink. rewrite actionable_eq, view_selectable_busy by done. fold (view_is_busy v r c).
  destruct (has_piece v r c) eqn:Hp; cbn [negb andb].
  2: { eexists. split_and!; [done..|]. rewrite has_piece_eq in Hp by done. unfold owned, owned_at.
       destruct (occupant (board_ g) r c); [done|]. done. }
  destruct (view_is_busy v r c); cbn [negb andb]; [eexists; split_and!; [done..|]; by destruct (owned _ _ _)|].
  cbn [owned]. destruct (owned_at side g r c) eqn:Hown; cbn [negb]; [|eexists; by split_and!].
  eexists. split_and!; [done..|]. by rewrite serve_jump.
Qed.

End Remote.

(** ** Properties *)


(** The view of a game that can be shown. *)
Definition view_of (g : GameState) : BoardViewModel :=
  match build g with Ok v => v | Err _ => empty_view end.

Lemma sample_view_wf : view_wf 1000 (view_of sample_game).
Proof.
  split.
  - change (0 < 4). lia.
  - change (0 <= 4 < 2 ^ 63). lia.
  - change (4 < 2 ^ 63). lia.
  - change (4 * 4 < 2 ^ 64 /\ 4 * 4 <= 1000). lia.
  - vm_compute. reflexivity.
  - vm_compute. repeat (apply Forall_cons; split; [by intros ? [= <-]|]). by apply Forall_nil.
  - change (wire 0). unfold wire. lia.
  - done.
  - apply Forall_nil_2.
  - apply Forall_nil_2.
  - apply Forall_nil_2.
Qed.


(** ** Behaviours worth knowing *)

(** The selection is shared by the players: while Black's rook is selected, White's
    click on a piece of White is sent as a move of that selection, which the server
    refuses, so that White cannot select. *)
Example opponents_selection_blocks :
  let g := select sample_game 0 3 in
  on_pixel_click (mkSink (view_of g) (mkLayout 0 0 100 400 400) (Some White)) 350 350
    = Ok [send_move 3 3] /\ serve_all White [send_move 3 3] g = Ok g.
Proof.
  cbv zeta. split; [vm_compute; reflexivity|]. unfold serve_all. cbn [foldM].
  rewrite serve_move.
  - reflexivity.
  - apply (set_selected_inv sample_game sample_game_inv (Some (0, 3))). by intros ? ? [= <- <-].
  - by split.
Qed.

(** A jumper that lands on a resting piece leaves the rest of that piece in the
    table: the jumper's own rest is over, the game lets it be selected, and the client
    still shows the cell as resting and sends nothing. *)
Example rest_of_a_ghost :
  run [JumpAt 0 1; Select 0 0; MoveSelected 0 1; AdvanceClock 1000; AdvanceClock 2600]
    (new_game (board_of [["wR"; "wN"]; ["wK"; "bK"]]%string)) ⇓ (fun g =>
    is_selectable_piece g 0 1 = Ok true /\
    on_pixel_click (mkSink (view_of g) (mkLayout 0 0 100 200 200) (Some White)) 150 50 = Ok []).
Proof. vm_compute. auto. Qed.
