(* ===== verification/Client.v ===== *)
(** * The networked client

    [src/src/network/]: the readers of the server's texts
    ([login_message_reader.cpp], [matchmaking_message_reader.cpp],
    [game_redirect_message_reader.cpp], [game_result_message_reader.cpp],
    [websocket_endpoint.cpp]), the login handshake ([network_login_session.cpp]), the
    byte accounting of [websocket_client.cpp] and the change of servers
    ([network_game_redirect_flow.cpp]); of [src/src/main_gui.cpp] the state of the
    networked GUI and its reaction to messages.

    Sockets are the environment: [reachable] says which servers answer, [write]
    how a write ends and [deliver] whether a text of the handshake was taken.  The snapshot reader is [Snapshot.v]'s. *)

From S2P Require Import Prelude Piece BoardModel PathUtils PieceRules CollisionResolver MoveScheduler RealTimeArbiter GameState CppString BoardIO GameInput GameMessages BoardView Snapshot Codecs Config Rooms Sessions GameLoop GameResult Lobby.
From Stdlib Require Import Ascii String.
Open Scope Z_scope.

(** ** Tokens of the first line *)

Fixpoint first_line (text : string) : string :=
  match text with
  | EmptyString => EmptyString
  | String ch rest =>
      if code ch =? 13 then first_line rest
      else if code ch =? 10 then EmptyString
      else String ch (first_line rest)
  end.

Definition line_tokens (text : string) : list string := split_words (first_line text).

(** ** [login_message_reader.cpp] *)

Inductive LoginResultStatus := LoginResultOk | LoginResultFailed.

Record LoginResult := mkLoginResult {
  lr_status : LoginResultStatus; lr_rating : Z; lr_failure_reason : string
}.

(** The loop that joins the words of a reason. *)
Definition join_reason (tokens : list string) (reason : string) : string :=
  foldl (fun reason token => reason ++ " " ++ token) reason tokens.

Definition read_login_message (text : string) : option LoginResult :=
  match line_tokens text with
  | [] => None
  | command :: args =>
      match args with
      | arg :: rest =>
          if String.eqb command "login_ok" then
            match stoi arg with
            | Some rating => Some (mkLoginResult LoginResultOk rating "")
            | None => None
            end
          else if String.eqb command "login_failed" then
            Some (mkLoginResult LoginResultFailed 0 (join_reason rest arg))
          else None
      | [] => None
      end
  end.

(** ** [matchmaking_message_reader.cpp] *)

Inductive MatchmakingState :=
| MIdle | MSearching | MatchedWhite | MatchedBlack | GameStartingWhite | GameStartingBlack
| MPlaying | MTimeout.

#[export] Instance matchmaking_state_eq_dec : EqDecision MatchmakingState.
Proof. solve_decision. Defined.

Definition read_matchmaking_message (text : string) : option MatchmakingState :=
  match line_tokens text with
  | [] => None
  | command :: args =>
      if String.eqb command "searching" then Some MSearching
      else if String.eqb command "search_timeout" then Some MTimeout
      else
        match args with
        | arg :: _ =>
            if String.eqb command "match_found" && String.eqb arg "white" then Some MatchedWhite
            else if String.eqb command "match_found" && String.eqb arg "black" then Some MatchedBlack
            else if String.eqb command "game_start" && String.eqb arg "white" then
              Some GameStartingWhite
            else if String.eqb command "game_start" && String.eqb arg "black" then
              Some GameStartingBlack
            else None
        | [] => None
        end
  end.

(** ** [game_redirect_message_reader.cpp] *)

Record GameRedirectInfo := mkRedirectInfo {
  gr_endpoint : string; gr_room_id : Z; gr_side : PieceColor
}.

Definition parse_side_token (token : string) : option PieceColor :=
  if String.eqb token "white" then Some White
  else if String.eqb token "black" then Some Black
  else None.

(** The loop of [parse_room_id_token]: the value wraps around at 64 bits. *)
Fixpoint room_id_loop (value : Z) (token : string) : option Z :=
  match token with
  | EmptyString => Some value
  | String ch rest =>
      if negb (isdigit ch) then None else room_id_loop (to_u64 (value * 10 + digit_value ch)) rest
  end.

Definition parse_room_id_token (token : string) : option Z :=
  if is_empty_string token then None else room_id_loop 0 token.

Definition read_game_redirect_message (text : string) : option GameRedirectInfo :=
  match line_tokens text with
  | [command; endpoint; room; side_text] =>
      if negb (String.eqb command "game_redirect") then None
      else
        match parse_side_token side_text, parse_room_id_token room with
        | Some side, Some room_id =>
            if is_empty_string endpoint then None else Some (mkRedirectInfo endpoint room_id side)
        | _, _ => None
        end
  | _ => None
  end.

(** ** [game_result_message_reader.cpp] *)

Record ClientGameResult := mkClientResult {
  cg_won : bool; cg_reason : string; cg_rating : Z
}.

Definition read_game_result_message (text : string) : option ClientGameResult :=
  match line_tokens text with
  | [command; outcome; reason; rating_text] =>
      if negb (String.eqb command "game_result") then None
      else
        let result won :=
          match stoi rating_text with
          | Some rating => Some (mkClientResult won reason rating)
          | None => None
          end in
        if String.eqb outcome "win" then result true
        else if String.eqb outcome "loss" then result false
        else None
  | _ => None
  end.

(** ** [websocket_endpoint.cpp] *)

Record WebSocketEndpoint := mkEndpoint { we_host : string; we_port : Z }.

Definition strip_scheme (endpoint : string) : string :=
  if prefix "ws://" endpoint then substr endpoint 5 (slen endpoint)
  else if prefix "wss://" endpoint then substr endpoint 6 (slen endpoint)
  else endpoint.

(** [rfind] of a character: the text before and after its last occurrence. *)
Fixpoint split_last (c : ascii) (s : string) : option (string * string) :=
  match s with
  | EmptyString => None
  | String ch rest =>
      match split_last c rest with
      | Some (before, after) => Some (String ch before, after)
      | None => if Ascii.eqb ch c then Some (EmptyString, rest) else None
      end
  end.

Fixpoint port_loop (port_value : Z) (port_text : string) : option Z :=
  match port_text with
  | EmptyString => Some port_value
  | String ch rest =>
      if negb (isdigit ch) then None
      else
        let port_value := port_value * 10 + digit_value ch in
        if 65535 <? port_value then None else port_loop port_value rest
  end.

Definition parse_websocket_endpoint (endpoint : string) : option WebSocketEndpoint :=
  match split_last ":" (strip_scheme endpoint) with
  | None => None
  | Some (host, port_text) =>
      if is_empty_string host || is_empty_string port_text then None
      else
        match port_loop 0 port_text with
        | None => None
        | Some port_value => if port_value =? 0 then None else Some (mkEndpoint host port_value)
        end
  end.

(** ** [network_login_session.cpp] *)

Inductive NetworkLoginPhase := PhaseConnected | LoginSent | LoginOk | PlayRequested | LoginFailed.

#[export] Instance phase_eq_dec : EqDecision NetworkLoginPhase.
Proof. solve_decision. Defined.

Record NetworkLoginSession := mkLoginSession {
  phase_ : NetworkLoginPhase; failure_reason_ : string; rating_ : Z
}.

Definition new_login_session : NetworkLoginSession := mkLoginSession PhaseConnected "" 0.

(** [getpid] is the environment's. *)
Definition resolve_username (process_id : Z) (username_input : string) : string :=
  if negb (is_empty_string username_input) then username_input
  else "Player" ++ to_string process_id.

(** What is sent is the text the connection is asked to deliver, if any. *)
Definition session_send_login (deliver : string -> bool) (process_id : Z) (username_input : string)
    (s : NetworkLoginSession) : bool * option string * NetworkLoginSession :=
  if negb (bool_decide (phase_ s = PhaseConnected)) then (false, None, s)
  else
    let login_name := resolve_username process_id username_input in
    let text := send_login login_name login_name in
    if negb (deliver text) then (false, Some text, s)
    else (true, Some text, mkLoginSession LoginSent (failure_reason_ s) (rating_ s)).

Definition session_handle_message (message : string) (s : NetworkLoginSession) : NetworkLoginSession :=
  if negb (bool_decide (phase_ s = LoginSent)) then s
  else
    match read_login_message message with
    | None => s
    | Some (mkLoginResult LoginResultOk rating _) =>
        mkLoginSession LoginOk (failure_reason_ s) rating
    | Some (mkLoginResult LoginResultFailed _ reason) =>
        mkLoginSession LoginFailed reason (rating_ s)
    end.

Definition try_send_play (deliver : string -> bool) (s : NetworkLoginSession) :
    bool * option string * NetworkLoginSession :=
  if negb (bool_decide (phase_ s = LoginOk)) then (false, None, s)
  else if negb (deliver send_play) then (false, Some send_play, s)
  else (true, Some send_play, mkLoginSession PlayRequested (failure_reason_ s) (rating_ s)).

Definition login_reset (_ : NetworkLoginSession) : NetworkLoginSession :=
  mkLoginSession PhaseConnected "" 0.

(** ** [websocket_client.cpp] *)

(** [size_t] arithmetic without the wrap, which needs messages of 2^64 bytes. *)
Definition unmasked_frame_size (payload_size : Z) : Z :=
  let header_size :=
    if 65535 <? payload_size then 10 else if 125 <? payload_size then 4 else 2 in
  header_size + payload_size.

(** [remaining]: what [available] answers after the read, [None] for an error. *)
Definition update_buffered_bytes (buffered available_before_read consumed_bytes : Z)
    (remaining : option Z) : Z :=
  let moved_into_beast :=
    match remaining with
    | Some after => if after <? available_before_read then available_before_read - after else 0
    | None => 0
    end in
  let reachable := buffered + moved_into_beast in
  if consumed_bytes <? reachable then reachable - consumed_bytes else 0.

(** What the rest of the client sees of a [WebSocketClient]. *)
Record WebSocketClient := mkWsClient { ws_host : string; ws_port : Z; ws_connected : bool }.

Definition ws_disconnect (c : WebSocketClient) : WebSocketClient :=
  mkWsClient (ws_host c) (ws_port c) false.

(** How a write ends: a transient error, a closed connection, any other error. *)
Inductive WriteOutcome := Written | Transient | Closed | Broken.

Section Network.
Context (reachable : string -> Z -> bool) (write : string -> WriteOutcome).

Definition ws_connect (c : WebSocketClient) : res WebSocketClient :=
  if ws_connected c then Ok c
  else if reachable (ws_host c) (ws_port c) then Ok (mkWsClient (ws_host c) (ws_port c) true)
  else Err RuntimeError.

Definition connect_to_game_server (endpoint : string) (c : WebSocketClient) : res WebSocketClient :=
  match parse_websocket_endpoint endpoint with
  | None => Err InvalidArgument
  | Some parsed => ws_connect (mkWsClient (we_host parsed) (we_port parsed) false)
  end.

(** The result of [try_send], the client, and what was handed to the socket. *)
Definition ws_try_send (c : WebSocketClient) (message : string) :
    res (bool * WebSocketClient * list string) :=
  if negb (ws_connected c) then Ok (false, c, [])
  else
    match write message with
    | Written => Ok (true, c, [message])
    | Transient => Ok (false, c, [message])
    | Closed => Ok (false, mkWsClient (ws_host c) (ws_port c) false, [message])
    | Broken => Err RuntimeError
    end.

(** ** [network_game_redirect_flow.cpp] *)

(** The clients, the texts handed to the game server, and the result. *)
Definition redirect_execute (redirect : GameRedirectInfo) (lobby game : WebSocketClient) :
    res (WebSocketClient * WebSocketClient * list string * bool) :=
  let lobby := if ws_connected lobby then ws_disconnect lobby else lobby in
  game ← connect_to_game_server (gr_endpoint redirect) game;
  if negb (ws_connected game) then Ok (lobby, game, [], false)
  else
    r ← ws_try_send game (send_join_game (gr_room_id redirect));
    let '(join_game_sent, game, sent) := r : bool * WebSocketClient * list string in
    Ok (lobby, game, sent, join_game_sent).

(** ** The GUI's state ([main_gui.cpp]) *)

Record NetworkGuiState := mkGui {
  gui_matchmaking : MatchmakingState;
  gui_local_side : option PieceColor;
  gui_redirect : option GameRedirectInfo;
  using_game_connection : bool
}.

Definition new_gui_state : NetworkGuiState := mkGui MIdle None None false.

Definition matchmaking_local_side (state : MatchmakingState) : option PieceColor :=
  match state with
  | MatchedWhite | GameStartingWhite => Some White
  | MatchedBlack | GameStartingBlack => Some Black
  | MIdle | MSearching | MPlaying | MTimeout => None
  end.

Definition matchmaking_overlay_text (state : MatchmakingState) : option string :=
  match state with
  | MIdle => None
  | MSearching => Some "Searching for opponent..."
  | MatchedWhite => Some "Match found - You are White"
  | MatchedBlack => Some "Match found - You are Black"
  | GameStartingWhite => Some "Game starting - You are White"
  | GameStartingBlack => Some "Game starting - You are Black"
  | MPlaying => None
  | MTimeout => Some "No players available"
  end.

(** The view of 8 by 8 empty cells shown before the game. *)
Definition empty_waiting_board_view : BoardViewModel :=
  mkView 8 8 0 false None (repeat None 64) (mkAnimation [] [] []).

Context (max_size : Z).

Definition handle_network_message (message : string)
    (st : option BoardViewModel * NetworkGuiState) : res (option BoardViewModel * NetworkGuiState) :=
  let '(latest_view, gui) := st in
  snapshot ← read_snapshot max_size message;
  match snapshot with
  | Some view =>
      Ok (Some view, mkGui MPlaying (gui_local_side gui) (gui_redirect gui) (using_game_connection gui))
  | None =>
      match read_matchmaking_message message with
      | Some matchmaking =>
          Ok (latest_view,
              mkGui matchmaking
                (match matchmaking_local_side matchmaking with
                 | Some side => Some side
                 | None => gui_local_side gui
                 end) (gui_redirect gui) (using_game_connection gui))
      | None =>
          match read_game_redirect_message message with
          | Some redirect =>
              Ok (latest_view,
                  mkGui (gui_matchmaking gui)
                    (match gui_local_side gui with
                     | None => Some (gr_side redirect)
                     | Some side => Some side
                     end) (Some redirect) (using_game_connection gui))
          | None => Ok (latest_view, gui)
          end
      end
  end.

(** The texts that wait at the client, until none is left. *)
Definition drain_network_messages (waiting : list string)
    (st : option BoardViewModel * NetworkGuiState) : res (option BoardViewModel * NetworkGuiState) :=
  foldM handle_network_message waiting st.

Definition maybe_switch_to_game_connection (lobby game : WebSocketClient) (gui : NetworkGuiState) :
    res (WebSocketClient * WebSocketClient * list string * NetworkGuiState * bool) :=
  match gui_redirect gui with
  | None => Ok (lobby, game, [], gui, false)
  | Some redirect =>
      if using_game_connection gui then Ok (lobby, game, [], gui, false)
      else
        r ← redirect_execute redirect lobby game;
        let '(lobby, game, sent, done) := r : WebSocketClient * WebSocketClient * list string * bool in
        if negb done then Ok (lobby, game, sent, gui, false)
        else Ok (lobby, game, sent,
                 mkGui (gui_matchmaking gui) (gui_local_side gui) (gui_redirect gui) true, true)
  end.

End Network.

(** ** Lemmas: texts *)

Lemma first_line_plain a s : all_chars plain_char a = true -> first_line (a ++ s) = a ++ first_line s.
Proof.
  induction a as [|c a IH]; intros Ha; [done|]. cbn in *.
  apply andb_true_iff in Ha as [[H1 H2]%andb_true_iff Ha].
  apply negb_true_iff in H1 as ->. apply negb_true_iff in H2 as ->. by rewrite IH.
Qed.

(** The tokens of a line of words, with or without an end of line. *)
Lemma line_tokens_words ws : Forall is_word ws -> line_tokens (CppString.join " " ws) = ws.
Proof.
  intros Hws. unfold line_tokens. rewrite <- (app_nil_string (CppString.join " " ws)).
  rewrite first_line_plain, app_nil_string by (by apply words_plain). by apply split_words_join.
Qed.

Lemma line_tokens_line ws : Forall is_word ws -> line_tokens (CppString.join " " ws ++ nl) = ws.
Proof.
  intros Hws. unfold line_tokens. rewrite first_line_plain by (by apply words_plain).
  cbn. rewrite app_nil_string. by apply split_words_join.
Qed.

(** Such a line is no snapshot. *)
Lemma read_snapshot_words max_size w ws : Forall is_word (w :: ws) ->
  CppString.join " " (w :: ws) <> "snapshot" ->
  read_snapshot max_size (CppString.join " " (w :: ws)) = Ok None.
Proof.
  intros Hws Hne. unfold read_snapshot, split_lines.
  rewrite <- (app_nil_string (CppString.join " " (w :: ws))).
  rewrite split_lines_line by (by apply words_plain). cbn [split_lines_from].
  destruct ("" ++ CppString.join " " (w :: ws)) as [|c t] eqn:E; [done|].
  change ("" ++ CppString.join " " (w :: ws)) with (CppString.join " " (w :: ws)) in E.
  rewrite <- E. by rewrite (proj2 (String.eqb_neq _ _) Hne).
Qed.

Lemma join_reason_join w ws : join_reason ws w = CppString.join " " (w :: ws).
Proof.
  unfold join_reason. revert w. induction ws as [|w' ws IH]; intros w; [done|]. cbn [foldl].
  rewrite IH. destruct ws as [|w'' ws]; cbn; rewrite ?app_assoc_string; done.
Qed.

(** ** Lemmas: numbers *)

Lemma room_id_loop_value v s : all_chars isdigit s = true -> 0 <= v ->
  dec_value_from v s < 2 ^ 64 -> room_id_loop v s = Some (dec_value_from v s).
Proof.
  revert v. induction s as [|c s IH]; intros v Hd Hv Hlt; [done|]. cbn in *.
  apply andb_true_iff in Hd as [Hc Hd]. rewrite Hc. cbn [negb]. rewrite (Z.mul_comm 10) in *.
  pose proof (digit_value_range c Hc). pose proof (dec_value_from_ge (v * 10 + digit_value c) s Hd ltac:(lia)).
  replace (to_u64 (v * 10 + digit_value c)) with (v * 10 + digit_value c).
  - apply IH; [done|lia|done].
  - symmetry. apply wrap_u_id. lia.
Qed.

Lemma parse_room_id_to_string id : fits_u64 id -> parse_room_id_token (to_string id) = Some id.
Proof.
  intros Hid. unfold fits_u64 in Hid. destruct (to_string_digits id) as [Hd Hne]; [lia|].
  pose proof (dec_value_to_string id ltac:(lia)) as Hv. unfold dec_value in Hv. unfold parse_room_id_token.
  rewrite room_id_loop_value by (done || lia). rewrite Hv. by destruct (to_string id).
Qed.

Lemma port_loop_value v s : all_chars isdigit s = true -> 0 <= v ->
  dec_value_from v s <= 65535 -> port_loop v s = Some (dec_value_from v s).
Proof.
  revert v. induction s as [|c s IH]; intros v Hd Hv Hlt; [done|]. cbn in *.
  apply andb_true_iff in Hd as [Hc Hd]. rewrite Hc. cbn [negb]. rewrite (Z.mul_comm 10) in *.
  pose proof (digit_value_range c Hc). pose proof (dec_value_from_ge (v * 10 + digit_value c) s Hd ltac:(lia)).
  rewrite (proj2 (Z.ltb_ge _ _)) by lia. apply IH; [done|lia|done].
Qed.

(** The last separator is the one before a text without separators. *)
Lemma split_last_app c a b : all_chars (fun x => negb (Ascii.eqb x c)) b = true ->
  split_last c (a ++ String c b) = Some (a, b).
Proof.
  intros Hb. assert (split_last c b = None) as Hn.
  { induction b as [|x b IH]; [done|]. cbn in *. apply andb_true_iff in Hb as [Hx Hb].
    rewrite IH by done. by apply negb_true_iff in Hx as ->. }
  induction a as [|x a IH]; cbn; [|by rewrite IH]. by rewrite Hn, Ascii.eqb_refl.
Qed.

Lemma parse_ws_endpoint host port : host <> "" -> 0 < port <= 65535 ->
  parse_websocket_endpoint ("ws://" ++ host ++ ":" ++ to_string port) = Some (mkEndpoint host port).
Proof.
  intros Hh Hp. destruct (to_string_digits port) as [Hd Hne]; [lia|].
  pose proof (dec_value_to_string port ltac:(lia)) as Hv. unfold dec_value in Hv.
  assert (forall t, strip_scheme ("ws://" ++ t) = t) as Hs.
  { intros t. unfold strip_scheme. replace (prefix "ws://" ("ws://" ++ t)) with true by (by destruct t).
    unfold substr. cbn [Z.to_nat Pos.to_nat Pos.iter_op Nat.add String.append String.substring].
    apply substring_all. unfold slen. rewrite Nat2Z.id. cbn. lia. }
  unfold parse_websocket_endpoint.
  rewrite Hs. change (host ++ ":" ++ to_string port) with (host ++ String ":" (to_string port)).
  rewrite split_last_app.
  2: { eapply all_chars_impl; [|exact Hd]. intros c Hc. apply negb_true_iff, Ascii.eqb_neq.
       intros ->. done. }
  rewrite port_loop_value by (done || lia). rewrite Hv, (proj2 (Z.eqb_neq _ _)) by lia.
  by destruct host, (to_string port).
Qed.

(** ** The login handshake as a state machine *)

(** What a connection sees of the handshake since it began. *)
Inductive Exchange := Sent (text : string) | Received (message : string).

(** The sessions that the operations of [NetworkLoginSession] lead to, with the texts
    exchanged since the last reset; [deliver] may take or refuse any text. *)
Inductive handshake : list Exchange -> NetworkLoginSession -> Prop :=
| hs_new : handshake [] new_login_session
| hs_login h s deliver pid name ok sent s' : handshake h s ->
    session_send_login deliver pid name s = (ok, sent, s') ->
    handshake (h ++ if ok then match sent with Some t => [Sent t] | None => [] end else [])%list s'
| hs_message h s m : handshake h s ->
    handshake (h ++ [Received m])%list (session_handle_message m s)
| hs_play h s deliver ok sent s' : handshake h s -> try_send_play deliver s = (ok, sent, s') ->
    handshake (h ++ if ok then match sent with Some t => [Sent t] | None => [] end else [])%list s'
| hs_reset h s : handshake h s -> handshake [] (login_reset s).

Definition login_sent (h : list Exchange) : Prop := exists name, Sent (send_login name name) ∈ h.

Definition login_accepted (h : list Exchange) (rating : Z) : Prop :=
  exists h1 m h2 reason, h = (h1 ++ Received m :: h2)%list /\ login_sent h1 /\
    read_login_message m = Some (mkLoginResult LoginResultOk rating reason).

Definition login_refused (h : list Exchange) (reason : string) : Prop :=
  exists h1 m h2 rating, h = (h1 ++ Received m :: h2)%list /\ login_sent h1 /\
    read_login_message m = Some (mkLoginResult LoginResultFailed rating reason).

(** What each phase says about the exchange. *)
Definition phase_meaning (h : list Exchange) (s : NetworkLoginSession) : Prop :=
  match phase_ s with
  | PhaseConnected => failure_reason_ s = "" /\ rating_ s = 0
  | LoginSent => failure_reason_ s = "" /\ rating_ s = 0 /\ login_sent h
  | LoginOk => failure_reason_ s = "" /\ login_accepted h (rating_ s)
  | PlayRequested => failure_reason_ s = "" /\ login_accepted h (rating_ s)
  | LoginFailed => rating_ s = 0 /\ login_refused h (failure_reason_ s)
  end.

Lemma login_sent_app h h' : login_sent h -> login_sent (h ++ h').
Proof. intros [name Hn]. exists name. set_solver. Qed.

Lemma login_accepted_app h h' r : login_accepted h r -> login_accepted (h ++ h') r.
Proof.
  intros (h1 & m & h2 & reason & -> & Hs & Hm). exists h1, m, (h2 ++ h')%list, reason.
  by rewrite <- app_assoc.
Qed.

Lemma login_refused_app h h' r : login_refused h r -> login_refused (h ++ h') r.
Proof.
  intros (h1 & m & h2 & rating & -> & Hs & Hm). exists h1, m, (h2 ++ h')%list, rating.
  by rewrite <- app_assoc.
Qed.

Create HintDb client.
#[local] Hint Resolve login_sent_app login_accepted_app login_refused_app : client.

Lemma phase_meaning_app h h' s : phase_meaning h s -> phase_meaning (h ++ h') s.
Proof. unfold phase_meaning. destruct (phase_ s); intuition auto with client. Qed.

(** Play has been sent only after the server accepted the login. *)
Definition play_after_login (h : list Exchange) : Prop :=
  forall h1 h2, h = (h1 ++ Sent send_play :: h2)%list -> exists rating, login_accepted h1 rating.

Lemma play_after_login_snoc h e : play_after_login h -> (e = Sent send_play -> exists r, login_accepted h r) ->
  play_after_login (h ++ [e]).
Proof.
  intros Hh He h1 h2 Heq. destruct h2 as [|e' h2 _] using rev_ind.
  - apply app_inj_tail in Heq as [-> ->]. by apply He.
  - rewrite app_comm_cons, app_assoc in Heq. apply app_inj_tail in Heq as [-> _]. by eapply Hh.
Qed.

Lemma handshake_meaning h s : handshake h s -> phase_meaning h s /\ play_after_login h.
Proof.
  induction 1 as [|h s deliver pid name ok sent s' _ [IH1 IH2] E|h s m _ [IH1 IH2]
    |h s deliver ok sent s' _ [IH1 IH2] E|h s _ [IH1 IH2]].
  - split; [done|]. by intros [|? ?] ? ?.
  - unfold session_send_login in E. destruct (bool_decide _) eqn:Ep; cbn [negb] in E.
    2: { injection E as <- <- <-. by rewrite app_nil_r. }
    apply bool_decide_eq_true in Ep. unfold phase_meaning in IH1. rewrite Ep in IH1.
    destruct (deliver _); injection E as <- <- <-; [|rewrite app_nil_r; split; [unfold phase_meaning; by rewrite Ep|done]].
    split; [split_and!; [apply IH1..|]; exists (resolve_username pid name); set_solver|].
    apply play_after_login_snoc; [done|]. intros [= E]. unfold send_login in E. by case_match.
  - split; [|by apply play_after_login_snoc]. unfold session_handle_message.
    destruct (bool_decide _) eqn:Ep; cbn [negb]; [|by apply phase_meaning_app].
    apply bool_decide_eq_true in Ep. destruct (read_login_message m) as [[[] r reason]|] eqn:Em;
      [| |by apply phase_meaning_app]; unfold phase_meaning in *; rewrite Ep in IH1;
      destruct IH1 as (H1 & H2 & H3); cbn; (split; [done|]); by exists h, m, [], reason || by exists h, m, [], r.
  - unfold try_send_play in E. destruct (bool_decide _) eqn:Ep; cbn [negb] in E.
    2: { injection E as <- <- <-. by rewrite app_nil_r. }
    apply bool_decide_eq_true in Ep. unfold phase_meaning in IH1. rewrite Ep in IH1.
    destruct (deliver _); injection E as <- <- <-; [|rewrite app_nil_r; split; [unfold phase_meaning; by rewrite Ep|done]].
    destruct IH1 as [H1 H2]. split; [split; [done|]; by apply login_accepted_app|].
    apply play_after_login_snoc; [done|]. eauto.
  - split; [done|]. by intros [|? ?] ? ?.
Qed.

(** The login handshake keeps its promises: whatever operations the client calls
    and whatever texts arrive, delivered or refused, the phase, rating and failure
    reason of the session are those the exchange since the last reset justifies
    (accepted only by a login_ok that followed a login that was sent, with its rating;
    failed only by a login_failed, with its reason), and play is sent only after the
    server accepted the login. *)
Theorem login_handshake_correct h s : handshake h s -> phase_meaning h s /\ play_after_login h.
Proof. apply handshake_meaning. Qed.

Lemma login_handshake_correct_witness :
  exists h s, handshake h s /\ phase_ s = PlayRequested /\ rating_ s = 1234 /\
    phase_meaning h s /\ play_after_login h.
Proof.
  pose (deliver := fun _ : string => true).
  pose (s1 := (session_send_login deliver 7 "ann" new_login_session).2).
  pose (s2 := session_handle_message "login_ok 1234" s1).
  pose (s3 := (try_send_play deliver s2).2).
  assert (handshake [Sent "login ann ann"; Received "login_ok 1234"; Sent "play"] s3) as H.
  { apply (hs_play [Sent "login ann ann"; Received "login_ok 1234"] s2 deliver true (Some "play") s3);
      [|vm_compute; reflexivity].
    apply (hs_message [Sent "login ann ann"] s1 "login_ok 1234").
    apply (hs_login [] new_login_session deliver 7 "ann" true (Some "login ann ann") s1 hs_new).
    vm_compute. reflexivity. }
  eexists _, s3. split; [exact H|]. split; [vm_compute; reflexivity|].
  split; [vm_compute; reflexivity|]. apply (login_handshake_correct _ _ H).
Defined.

(** ** Lemmas: what the readers make of the server's texts *)

Lemma redirect_message_words info : is_word (ri_endpoint info) -> exists ws,
  redirect_message info = CppString.join " " ("game_redirect" :: ws) /\
  Forall is_word ("game_redirect" :: ws) /\
  ws = [ri_endpoint info; to_string (ri_room_id info); side_token (ri_side info)].
Proof.
  intros He. eexists. split_and!; [| |done]; [done|].
  repeat (apply Forall_cons_2; [first [done|apply to_string_word_int|by destruct (ri_side info)]|]).
  apply Forall_nil_2.
Qed.

Lemma read_redirect info : is_word (ri_endpoint info) -> fits_u64 (ri_room_id info) ->
  read_game_redirect_message (redirect_message info) =
  Some (mkRedirectInfo (ri_endpoint info) (ri_room_id info) (ri_side info)).
Proof.
  intros He Hr. destruct (redirect_message_words info He) as (ws & -> & Hw & Ews).
  unfold read_game_redirect_message. rewrite line_tokens_words, Ews by done.
  change (negb (String.eqb "game_redirect" "game_redirect")) with false. cbv iota.
  rewrite parse_room_id_to_string by done. destruct (word_cons _ He) as (c & t & -> & _).
  by destruct (ri_side info).
Qed.

(** A redirect is neither a snapshot nor a matchmaking message. *)
Lemma redirect_only max_size info : is_word (ri_endpoint info) ->
  read_snapshot max_size (redirect_message info) = Ok None /\
  read_matchmaking_message (redirect_message info) = None.
Proof.
  intros He. destruct (redirect_message_words info He) as (ws & -> & Hw & Ews).
  split; [apply read_snapshot_words; [done|by rewrite Ews]|].
  unfold read_matchmaking_message. by rewrite line_tokens_words, Ews.
Qed.

(** The GUI after a redirect. *)
Lemma handle_redirect max_size info view gui :
  is_word (ri_endpoint info) -> fits_u64 (ri_room_id info) ->
  handle_network_message max_size (redirect_message info) (view, gui) =
  Ok (view, mkGui (gui_matchmaking gui)
    (match gui_local_side gui with None => Some (ri_side info) | Some side => Some side end)
    (Some (mkRedirectInfo (ri_endpoint info) (ri_room_id info) (ri_side info)))
    (using_game_connection gui)).
Proof.
  intros He Hr. destruct (redirect_only max_size info He) as [H1 H2]. unfold handle_network_message.
  by rewrite H1, bind_ok, H2, read_redirect.
Qed.

(** The GUI after a snapshot. *)
Lemma handle_snapshot max_size v view gui : view_wf max_size v ->
  handle_network_message max_size (write_snapshot v) (view, gui) =
  Ok (Some (received v),
      mkGui MPlaying (gui_local_side gui) (gui_redirect gui) (using_game_connection gui)).
Proof. intros Hv. unfold handle_network_message. by rewrite read_write_snapshot. Qed.

(** The server of a configured endpoint is found again by the client. *)
Lemma endpoint_found server : sc_endpoint server = "" -> sc_bind_address server <> "" ->
  0 < sc_game_port server <= 65535 ->
  parse_websocket_endpoint (resolve_game_endpoint server) =
  Some (mkEndpoint (sc_bind_address server) (sc_game_port server)).
Proof. intros He Hh Hp. unfold resolve_game_endpoint. rewrite He. by apply parse_ws_endpoint. Qed.

(** The accounting of received bytes never promises bytes that Beast does not hold:
    [held] bytes were in its buffer, [moved] came from the socket during the read,
    [arrived] reached the socket meanwhile. *)
Lemma buffered_never_overestimates buffered held before moved arrived consumed :
  0 <= buffered <= held -> 0 <= moved <= before -> 0 <= arrived -> consumed <= held + moved ->
  0 <= update_buffered_bytes buffered before consumed (Some (before - moved + arrived))
    <= held + moved - consumed.
Proof.
  intros Hb Hm Ha Hc. unfold update_buffered_bytes.
  destruct (Z.ltb_spec (before - moved + arrived) before);
    destruct (Z.ltb_spec consumed (buffered + (before - (before - moved + arrived))));
    destruct (Z.ltb_spec consumed (buffered + 0)); lia.
Qed.

Lemma endpoint_word server : sc_endpoint server = "" -> is_word (sc_bind_address server) ->
  is_word (resolve_game_endpoint server).
Proof.
  intros He [_ Hh]. unfold resolve_game_endpoint. rewrite He. split; [done|].
  cbn [is_empty_string negb]. rewrite !all_chars_app, Hh.
  by destruct (to_string_word_int (sc_game_port server)) as [_ ->].
Qed.

(** The notices a matched player gets, in the order of the gateway
    ([Lobby.handle_match_found]). *)
Definition match_texts (side : PieceColor) (info : GatewayGameRedirectInfo) : list string :=
  ["match_found " ++ side_token side; "game_start " ++ side_token side; redirect_message info].

Lemma handle_notice max_size text state side view gui : read_snapshot max_size text = Ok None ->
  read_matchmaking_message text = Some state -> matchmaking_local_side state = Some side ->
  handle_network_message max_size text (view, gui) =
  Ok (view, mkGui state (Some side) (gui_redirect gui) (using_game_connection gui)).
Proof. intros H1 H2 H3. unfold handle_network_message. by rewrite H1, bind_ok, H2, H3. Qed.

Lemma drain_match_texts max_size info view gui :
  is_word (ri_endpoint info) -> fits_u64 (ri_room_id info) ->
  drain_network_messages max_size (match_texts (ri_side info) info) (view, gui) =
  Ok (view, mkGui (match ri_side info with White => GameStartingWhite | Black => GameStartingBlack end)
    (Some (ri_side info)) (Some (mkRedirectInfo (ri_endpoint info) (ri_room_id info) (ri_side info)))
    (using_game_connection gui)).
Proof.
  intros He Hr. unfold drain_network_messages, match_texts. cbn [foldM].
  destruct (ri_side info) eqn:Hs; cbn [side_token].
  - rewrite (handle_notice _ _ MatchedWhite White), bind_ok by done.
    rewrite (handle_notice _ _ GameStartingWhite White), bind_ok by done.
    rewrite handle_redirect, bind_ok by done. by rewrite Hs.
  - rewrite (handle_notice _ _ MatchedBlack Black), bind_ok by done.
    rewrite (handle_notice _ _ GameStartingBlack Black), bind_ok by done.
    rewrite handle_redirect, bind_ok by done. by rewrite Hs.
Qed.

(** ** Properties *)

(** The client reads what the server writes: login answers give the rating or the
    reason, the four notices about a match give the state and side they name, the
    redirect gives endpoint, room and side, the result of a game gives outcome, reason
    and rating, and the endpoint that a server derives from its configuration is parsed
    to the address and port it listens on. *)
Theorem client_reads_server :
  (forall rating, fits_int rating ->
     read_login_message ("login_ok " ++ to_string rating) = Some (mkLoginResult LoginResultOk rating "")) /\
  (forall reason, is_word reason ->
     read_login_message ("login_failed " ++ reason) = Some (mkLoginResult LoginResultFailed 0 reason)) /\
  (forall side, matchmaking_local_side <$> read_matchmaking_message ("match_found " ++ side_token side)
       = Some (Some side) /\
     matchmaking_local_side <$> read_matchmaking_message ("game_start " ++ side_token side)
       = Some (Some side)) /\
  read_matchmaking_message "searching" = Some MSearching /\
  read_matchmaking_message "search_timeout" = Some MTimeout /\
  (forall info, is_word (ri_endpoint info) -> fits_u64 (ri_room_id info) ->
     read_game_redirect_message (redirect_message info) =
     Some (mkRedirectInfo (ri_endpoint info) (ri_room_id info) (ri_side info))) /\
  (forall won reason rating, fits_int rating ->
     read_game_result_message (create_game_result_message won reason rating) =
     Some (mkClientResult won (finish_reason_token reason) rating)) /\
  (forall server, sc_endpoint server = "" -> sc_bind_address server <> "" ->
     0 < sc_game_port server <= 65535 ->
     parse_websocket_endpoint (resolve_game_endpoint server) =
     Some (mkEndpoint (sc_bind_address server) (sc_game_port server))).
Proof.
  split_and!; [| |by intros []|done|done|apply read_redirect| |apply endpoint_found].
  - intros r Hr. unfold read_login_message.
    change ("login_ok " ++ to_string r) with (CppString.join " " ["login_ok"; to_string r]).
    rewrite line_tokens_words by (repeat constructor; [done..|apply to_string_word_int|apply to_string_word_int]).
    cbn. by rewrite stoi_to_string.
  - intros reason Hw. unfold read_login_message.
    change ("login_failed " ++ reason) with (CppString.join " " ["login_failed"; reason]).
    by rewrite line_tokens_words by (repeat (apply Forall_cons_2; [done|]); apply Forall_nil_2).
  - intros won reason rating Hr. unfold read_game_result_message.
    replace (create_game_result_message won reason rating) with (CppString.join " "
      ["game_result"; if won then "win" else "loss"; finish_reason_token reason; to_string rating] ++ nl)
      by (by destruct won, reason).
    rewrite line_tokens_line.
    + change (negb (String.eqb "game_result" "game_result")) with false. cbv zeta iota.
      rewrite stoi_to_string by done. by destruct won.
    + repeat (apply Forall_cons_2; [first [done|by destruct won|by destruct reason|apply to_string_word_int]|]).
      apply Forall_nil_2.
Qed.

(** C34: A matched player gets to the right table: the notices that the gateway sends
    to the player of a side leave the client knowing that side; the client then leaves
    the lobby, connects to the address and port the game server was configured with
    and asks for exactly the room of the match; the first snapshot it is sent is the
    view it shows, and the side is kept. *)
Theorem client_follows_match reachable write max_size server id room side v lobby game view gui :
  sc_endpoint server = "" -> is_word (sc_bind_address server) -> 0 < sc_game_port server <= 65535 ->
  fits_u64 room -> view_wf max_size v -> using_game_connection gui = false ->
  reachable (sc_bind_address server) (sc_game_port server) = true ->
  write (send_join_game room) = Written ->
  let info := mkRedirect room id (resolve_game_endpoint server) side in
  exists gui1 gui2 gui3,
    drain_network_messages max_size (match_texts side info) (view, gui) = Ok (view, gui1) /\
    gui_local_side gui1 = Some side /\
    maybe_switch_to_game_connection reachable write lobby game gui1 =
      Ok (ws_disconnect lobby, mkWsClient (sc_bind_address server) (sc_game_port server) true,
          [send_join_game room], gui2, true) /\
    parse_join_game_message (send_join_game room) = Some room /\
    drain_network_messages max_size [write_snapshot v] (view, gui2) = Ok (Some (received v), gui3) /\
    gui_matchmaking gui3 = MPlaying /\ gui_local_side gui3 = Some side /\
    using_game_connection gui3 = true.
Proof.
  intros He Hh Hp Hr Hv Hu Hreach Hdel info. pose proof (endpoint_word server He Hh) as Hw.
  pose proof (drain_match_texts max_size info view gui Hw Hr) as Hd. cbn [info ri_side] in Hd.
  eexists _, _, _. split; [exact Hd|]. split; [done|]. split; [|split; [by apply parse_send_join_game|]].
  - unfold maybe_switch_to_game_connection. cbn [gui_redirect using_game_connection]. rewrite Hu.
    unfold redirect_execute, connect_to_game_server. cbn [gr_endpoint info ri_endpoint].
    rewrite endpoint_found by (done || apply Hh). unfold ws_connect.
    cbn [ws_connected ws_host ws_port we_host we_port]. rewrite Hreach, bind_ok.
    cbn [ws_connected negb ws_try_send gr_room_id info ri_room_id]. unfold ws_try_send.
    cbn [ws_connected negb]. rewrite Hdel, !bind_ok. cbn [negb]. by destruct lobby as [? ? []].
  - unfold drain_network_messages. cbn [foldM]. by rewrite handle_snapshot.
Qed.

Lemma client_follows_match_witness :
  let server := cfg_server make_default_config in
  let info := mkRedirect 7 "game-1" (resolve_game_endpoint server) Black in
  let lobby := mkWsClient "127.0.0.1" 8765 true in
  let game := mkWsClient "127.0.0.1" 8765 false in
  exists gui1 gui2 gui3,
    drain_network_messages 1000 (match_texts Black info) (None, new_gui_state) = Ok (None, gui1) /\
    gui_local_side gui1 = Some Black /\
    maybe_switch_to_game_connection (fun _ _ => true) (fun _ => Written) lobby game gui1 =
      Ok (ws_disconnect lobby, mkWsClient (sc_bind_address server) (sc_game_port server) true,
          [send_join_game 7], gui2, true) /\
    parse_join_game_message (send_join_game 7) = Some 7 /\
    drain_network_messages 1000 [write_snapshot sample_view] (None, gui2)
      = Ok (Some (received sample_view), gui3) /\
    gui_matchmaking gui3 = MPlaying /\ gui_local_side gui3 = Some Black /\
    using_game_connection gui3 = true.
Proof.
  apply (client_follows_match (fun _ _ => true) (fun _ => Written) 1000 (cfg_server make_default_config)
    "game-1" 7 Black sample_view); try done.
  apply sample_snapshot_wf.
Defined.

(** ** Behaviours worth knowing *)

(** In the single server the answer to a play request that is matched at once comes
    after the notices about the match: the GUI falls back to searching. *)
Example searching_hides_match :
  let info := mkRedirect 7 "" "ws://host:9002" White in
  match drain_network_messages 1000
    [redirect_message info; "match_found white"; "game_start white"; "searching"] (None, new_gui_state) with
  | Ok (_, gui) => gui_matchmaking gui = MSearching /\ gui_local_side gui = Some White
  | Err _ => False
  end.
Proof. vm_compute. auto. Qed.

(** The answer to a play request that failed is not recognised. *)
Example search_failed_ignored :
  handle_network_message 1000 "search_failed" (None, new_gui_state) = Ok (None, new_gui_state).
Proof. vm_compute. reflexivity. Qed.

(** A room number of more than 64 bits wraps around. *)
Example redirect_room_wraps :
  read_game_redirect_message "game_redirect ws://host:9002 18446744073709551617 white" =
  Some (mkRedirectInfo "ws://host:9002" 1 White).
Proof. vm_compute. reflexivity. Qed.
