(* ===== verification/Float32.v ===== *)
(** * Single-precision arithmetic

    The drawing code computes positions in [float] and casts them to [int]; the cast is
    undefined behaviour when the value does not fit.  This file bounds the results of the
    operations of Corelib's [SpecFloat] (IEEE 754, rounding to nearest even): a sum, a
    product or a difference whose exact value lies between two integers below [2^24] is
    rounded to a float between the same integers.

    Values are compared as integers, scaled by [unit]: [fval x] is the value of [x] times
    [unit]. *)

From S2P Require Import Prelude MoveScheduler.
From Stdlib Require Import Floats.SpecFloat.
Open Scope Z_scope.

Definition fadd : spec_float -> spec_float -> spec_float := SFadd 24 128.
Definition fsub : spec_float -> spec_float -> spec_float := SFsub 24 128.
Definition fmul : spec_float -> spec_float -> spec_float := SFmul 24 128.
Definition flt : spec_float -> spec_float -> bool := SFltb.

(** [std::clamp]: a NaN is returned as it is. *)
Definition fclamp (v lo hi : spec_float) : spec_float :=
  if flt v lo then lo else if flt hi v then hi else v.

(** [static_cast<int>]: truncation, undefined for values out of range. *)
Definition float_to_int (x : spec_float) : res Z :=
  match x with
  | S754_zero _ => Ok 0
  | S754_finite s m e => int_checked (cond_Zopp s (Z.shiftl (Zpos m) e))
  | _ => Err Undefined
  end.

(** [std::ceil]. *)
Definition fceil (x : spec_float) : spec_float :=
  match x with
  | S754_finite s m e =>
      if 0 <=? e then x
      else binary_normalize 24 128 (- ((- cond_Zopp s (Zpos m)) / 2 ^ (- e))) 0 s
  | _ => x
  end.

(** ** Shifting and rounding *)

Notation fexp32 := (fexp 24 128).

Lemma fexp32_eq z : fexp32 z = Z.max (z - 24) (-149).
Proof. reflexivity. Qed.

Lemma digits2_pos_bounds p : 2 ^ (Zpos (digits2_pos p) - 1) <= Zpos p < 2 ^ Zpos (digits2_pos p).
Proof.
  induction p as [p IH|p IH|]; cbn [digits2_pos]; [| |done];
    rewrite Pos2Z.inj_succ; replace (Z.succ (Zpos (digits2_pos p)) - 1) with (Z.succ (Zpos (digits2_pos p) - 1)) by lia;
    rewrite !Z.pow_succ_r by lia; lia.
Qed.

Lemma Zdigits2_bounds m : 0 < m -> 1 <= Zdigits2 m /\ 2 ^ (Zdigits2 m - 1) <= m < 2 ^ Zdigits2 m.
Proof. destruct m as [|p|p]; [lia| |lia]. intros _. cbn [Zdigits2]. split; [lia|apply digits2_pos_bounds]. Qed.

Lemma Zdigits2_le m n : 0 < m -> 0 <= n -> m < 2 ^ n -> Zdigits2 m <= n.
Proof.
  intros Hm Hn Hlt. destruct (Zdigits2_bounds m Hm) as (Hd & Hlo & _).
  assert (Zdigits2 m - 1 < n); [|lia]. apply (Z.pow_lt_mono_r_iff 2); lia.
Qed.

Lemma iter_pos_iter {A} (f : A -> A) p x : iter_pos f p x = Nat.iter (Pos.to_nat p) f x.
Proof.
  revert x. induction p as [p IH|p IH|]; intros x; cbn [iter_pos].
  - rewrite !IH, Pos2Nat.inj_xI, <- Nat.iter_add.
    replace (S (2 * Pos.to_nat p)) with ((Pos.to_nat p + Pos.to_nat p) + 1)%nat by lia.
    by rewrite (Nat.iter_add _ 1).
  - rewrite !IH, Pos2Nat.inj_xO, <- Nat.iter_add. f_equal. lia.
  - done.
Qed.

Lemma shr_1_m mrs : 0 <= shr_m mrs -> shr_m (shr_1 mrs) = shr_m mrs / 2 /\
  (loc_of_shr_record mrs = loc_Exact -> shr_m mrs mod 2 = 0 -> loc_of_shr_record (shr_1 mrs) = loc_Exact).
Proof.
  destruct mrs as [m r s]. cbn [shr_m]. intros Hm.
  assert (forall p, Zpos p~1 / 2 = Zpos p /\ Zpos p~1 mod 2 = 1) as H1.
  { intros p. rewrite Pos2Z.inj_xI. split; symmetry; [apply (Z.div_unique_pos _ _ _ 1)|apply (Z.mod_unique_pos _ _ (Zpos p))]; lia. }
  assert (forall p, Zpos p~0 / 2 = Zpos p) as H0.
  { intros p. rewrite Pos2Z.inj_xO. symmetry. apply (Z.div_unique_pos _ _ _ 0); lia. }
  destruct m as [|[p|p|]|p]; [| | | |lia]; cbn [shr_1 shr_m].
  - split; [done|]. by destruct r, s.
  - destruct (H1 p) as [-> ->]. split; [done|]. by destruct r, s.
  - rewrite H0. split; [done|]. by destruct r, s.
  - split; [done|]. by destruct r, s.
Qed.

Lemma shr_iter n mrs : 0 <= shr_m mrs -> shr_m (Nat.iter n shr_1 mrs) = shr_m mrs / 2 ^ Z.of_nat n /\
  (loc_of_shr_record mrs = loc_Exact -> shr_m mrs mod 2 ^ Z.of_nat n = 0 ->
   loc_of_shr_record (Nat.iter n shr_1 mrs) = loc_Exact).
Proof.
  intros Hm. induction n as [|n [IH1 IH2]]; [by rewrite Z.div_1_r|]. rewrite Nat.iter_succ.
  assert (0 < 2 ^ Z.of_nat n) as Hpos by lia.
  assert (0 <= shr_m (Nat.iter n shr_1 mrs)) as Hm' by (rewrite IH1; by apply Z.div_pos).
  destruct (shr_1_m _ Hm') as [E1 E2]. rewrite Nat2Z.inj_succ, Z.pow_succ_r by lia.
  split.
  - rewrite E1, IH1, Z.div_div by lia. f_equal. lia.
  - intros Hl Hmod. rewrite (Z.mul_comm 2), Z.rem_mul_r in Hmod by lia.
    pose proof (Z.mod_pos_bound (shr_m mrs) (2 ^ Z.of_nat n) ltac:(lia)).
    pose proof (Z.mod_pos_bound (shr_m mrs / 2 ^ Z.of_nat n) 2 ltac:(lia)).
    apply E2; [apply IH2; [done|nia]|rewrite IH1; nia].
Qed.

(** The exponent after the shift. *)
Definition shifted (m e : Z) : Z := Z.max e (fexp32 (Zdigits2 m + e)).

Lemma shr_fexp_spec m e l : 0 <= m -> exists mrs, shr_fexp 24 128 m e l = (mrs, shifted m e) /\
  shr_m mrs = m / 2 ^ (shifted m e - e) /\
  (l = loc_Exact -> m mod 2 ^ (shifted m e - e) = 0 -> loc_of_shr_record mrs = loc_Exact).
Proof.
  intros Hm. unfold shr_fexp, shifted. set (k := fexp32 (Zdigits2 m + e) - e).
  assert (shr_m (shr_record_of_loc m l) = m) as Em by (by destruct l as [|[]]).
  assert (l = loc_Exact -> loc_of_shr_record (shr_record_of_loc m l) = loc_Exact) as El by (by intros ->).
  assert (k <= 0 -> exists mrs, (shr_record_of_loc m l, e) = (mrs, Z.max e (e + k)) /\
    shr_m mrs = m / 2 ^ (Z.max e (e + k) - e) /\
    (l = loc_Exact -> m mod 2 ^ (Z.max e (e + k) - e) = 0 -> loc_of_shr_record mrs = loc_Exact)) as Hle.
  { intros Hk. rewrite Z.max_l by lia. rewrite Z.sub_diag, Z.div_1_r. eauto. }
  replace (fexp32 (Zdigits2 m + e)) with (e + k) by (unfold k; lia).
  destruct k as [|p|p] eqn:Ek; cbn [shr]; [by apply Hle| |by apply Hle].
  rewrite Z.max_r by lia. eexists. split; [done|]. rewrite iter_pos_iter.
  replace (e + Zpos p - e) with (Z.of_nat (Pos.to_nat p)) by lia.
  destruct (shr_iter (Pos.to_nat p) (shr_record_of_loc m l)) as [H1 H2]; [by rewrite Em|].
  rewrite Em in H1, H2. split; [done|]. intros Hl. by apply H2, El.
Qed.

Lemma shifted_small m e : 0 <= m -> m / 2 ^ (shifted m e - e) < 2 ^ 24.
Proof.
  intros Hm. unfold shifted. rewrite fexp32_eq. destruct (decide (m = 0)) as [->|]; [by rewrite Zdiv_0_l|].
  destruct (Zdigits2_bounds m) as (Hd & _ & Hlt); [lia|].
  apply Z.div_lt_upper_bound; [lia|]. eapply Z.lt_le_trans; [exact Hlt|].
  rewrite <- Z.pow_add_r by lia. apply Z.pow_le_mono_r; lia.
Qed.

Lemma round_even_bounds m l : m <= round_nearest_even m l <= m + 1 /\
  (l = loc_Exact -> round_nearest_even m l = m).
Proof. destruct l as [|[]]; cbn [round_nearest_even]; (split; [destruct (Z.even m); lia|done]). Qed.

(** ** Values *)

(** Products of two floats have exponents down to [-298]. *)
Definition scale : Z := 300.
Definition unit : Z := 2 ^ scale.
#[global] Opaque unit.

Lemma unit_pos : 0 < unit.
Proof. vm_compute. reflexivity. Qed.

Lemma unit_eq : unit = 2 ^ scale.
Proof. reflexivity. Qed.

(** A finite float of the format. *)
Definition finite (x : spec_float) : Prop :=
  match x with
  | S754_zero _ => True
  | S754_finite _ m e => Zpos m < 2 ^ 24 /\ -149 <= e
  | _ => False
  end.

Definition fval (x : spec_float) : Z :=
  match x with
  | S754_finite s m e => cond_Zopp s (Zpos m * 2 ^ (e + scale))
  | _ => 0
  end.

Lemma pow2_scale a b : 0 <= a -> 0 <= b -> 2 ^ a * 2 ^ b = 2 ^ (a + b).
Proof. intros. by rewrite Z.pow_add_r. Qed.

(** The result of rounding: the mantissa [M] at the exponent [shifted m e]. *)
Lemma round_aux_spec s m e l : 0 < m -> shifted m e <= 100 ->
  exists M, m / 2 ^ (shifted m e - e) <= M <= m / 2 ^ (shifted m e - e) + 1 /\
    (l = loc_Exact -> m mod 2 ^ (shifted m e - e) = 0 -> M = m / 2 ^ (shifted m e - e)) /\
    finite (binary_round_aux 24 128 s m e l) /\
    fval (binary_round_aux 24 128 s m e l) = cond_Zopp s (M * 2 ^ (shifted m e + scale)).
Proof.
  intros Hm He. unfold binary_round_aux.
  destruct (shr_fexp_spec m e l) as (mrs & -> & Eq & Hex); [lia|].
  pose proof (shifted_small m e ltac:(lia)) as Hq. pose proof (Z.div_pos m (2 ^ (shifted m e - e)) ltac:(lia) ltac:(unfold shifted; lia)) as Hq0.
  rewrite Eq. set (q := m / 2 ^ (shifted m e - e)) in *.
  destruct (round_even_bounds q (loc_of_shr_record mrs)) as [HM HMe].
  set (M := round_nearest_even q (loc_of_shr_record mrs)) in *.
  exists M. split; [done|]. split; [by intros ? ?; apply HMe, Hex|].
  assert (-149 <= shifted m e) as Hmin by (unfold shifted; rewrite fexp32_eq; lia).
  set (e' := shifted m e) in *.
  destruct (shr_fexp_spec M e' loc_Exact) as (mrs2 & -> & Eq2 & _); [lia|].
  assert (M = 0 \/ 0 < M < 2 ^ 24 \/ M = 2 ^ 24) as [E0|[Hs|E24]] by lia.
  - rewrite E0 in *. rewrite Zdiv_0_l in Eq2. rewrite Eq2. by destruct s.
  - assert (shifted M e' = e') as Es.
    { unfold shifted. rewrite fexp32_eq. pose proof (Zdigits2_le M 24 ltac:(lia) ltac:(lia) ltac:(lia)). lia. }
    rewrite Es in *. rewrite Z.sub_diag, Z.div_1_r in Eq2. rewrite Eq2.
    destruct M as [|p|p]; [lia| |lia]. rewrite (proj2 (Z.leb_le _ _)) by lia. cbn [finite fval]. split; [lia|done].
  - assert (shifted M e' = e' + 1) as Es by (rewrite E24; unfold shifted; rewrite fexp32_eq; cbn [Zdigits2]; change (Zdigits2 (2 ^ 24)) with 25; lia).
    rewrite Es in *. replace (e' + 1 - e') with 1 in Eq2 by lia. rewrite E24 in Eq2. change (2 ^ 24 / 2 ^ 1) with 8388608 in Eq2.
    rewrite Eq2. rewrite (proj2 (Z.leb_le _ _)) by lia. cbn [finite fval]. split; [lia|]. rewrite E24. f_equal.
    replace (e' + 1 + scale) with (1 + (e' + scale)) by lia. rewrite Z.pow_add_r by (unfold scale; lia). lia.
Qed.

(** Rounding to nearest keeps a value between the integers that enclose it. *)
Lemma round_between s m e lo hi : 0 < m -> - scale <= e -> 0 <= lo -> hi < 2 ^ 24 ->
  lo * unit <= m * 2 ^ (e + scale) <= hi * unit ->
  exists V, finite (binary_round_aux 24 128 s m e loc_Exact) /\
    fval (binary_round_aux 24 128 s m e loc_Exact) = cond_Zopp s V /\ lo * unit <= V <= hi * unit.
Proof.
  intros Hm He Hlo Hhi Hb. set (e' := shifted m e).
  assert (Zdigits2 m + e <= 24) as Hmag.
  { destruct (Zdigits2_bounds m Hm) as (Hd & Hl & _). assert (Zdigits2 m - 1 + (e + scale) < 24 + scale); [|lia].
    apply (Z.pow_lt_mono_r_iff 2); [lia|unfold scale; lia|]. rewrite (Z.pow_add_r 2 (Zdigits2 m - 1)), (Z.pow_add_r 2 24) by (unfold scale in *; lia).
    rewrite unit_eq in Hb. assert (0 < 2 ^ (e + scale)) by lia. assert (0 < 2 ^ scale) by (unfold scale; lia).
    set (a := 2 ^ (e + scale)) in *. set (b := 2 ^ scale) in *. nia. }
  assert (e' = e \/ e <= e' <= 0) as He' by (unfold e', shifted; rewrite fexp32_eq; lia).
  assert (-149 <= e') as Hmin by (unfold e', shifted; rewrite fexp32_eq; lia).
  assert (e' <= 100) as Hmax.
  { unfold e', shifted. rewrite fexp32_eq. destruct (Zdigits2_bounds m Hm). lia. }
  destruct (round_aux_spec s m e loc_Exact Hm Hmax) as (M & HM & Hex & Hf & Hv). fold e' in HM, Hex, Hv.
  exists (M * 2 ^ (e' + scale)). split; [done|]. split; [done|]. rewrite unit_eq in *.
  destruct He' as [E|[Hle H0]].
  { rewrite E in *. rewrite Z.sub_diag, Z.div_1_r, Z.mod_1_r in *. by rewrite (Hex eq_refl eq_refl). }
  set (k := e' - e) in *. assert (m * 2 ^ (e + scale) <= hi * 2 ^ scale /\ lo * 2 ^ scale <= m * 2 ^ (e + scale)) as [Hu Hl] by lia.
  assert (2 ^ scale = 2 ^ (- e') * 2 ^ (e' + scale)) as Es by (rewrite pow2_scale by (unfold scale; lia); f_equal; lia).
  assert (2 ^ (e' + scale) = 2 ^ k * 2 ^ (e + scale)) as Ek by (unfold k; rewrite pow2_scale by lia; f_equal; lia).
  assert (0 < 2 ^ (e + scale) /\ 0 < 2 ^ k /\ 0 < 2 ^ (- e')) as (P1 & P2 & P3) by (unfold k; lia).
  assert (lo * 2 ^ (- e') * 2 ^ k <= m <= hi * 2 ^ (- e') * 2 ^ k) as [Hl' Hu'] by (rewrite Es, Ek in Hu, Hl; split; nia).
  pose proof (Z.div_mod m (2 ^ k) ltac:(lia)) as Hdm. pose proof (Z.mod_pos_bound m (2 ^ k) P2) as Hmod.
  set (q := m / 2 ^ k) in *. set (r := m mod 2 ^ k) in *.
  assert (lo * 2 ^ (- e') <= M <= hi * 2 ^ (- e')) as [H1 H2].
  { split; [nia|]. destruct (decide (r = 0)) as [E|E]; [rewrite (Hex eq_refl E); nia|]. nia. }
  rewrite Es. split; nia.
Qed.

(** ** The operations *)

Definition between (lo hi : Z) (x : spec_float) : Prop := finite x /\ lo * unit <= fval x <= hi * unit.

Lemma between_mono lo hi lo' hi' x : lo' <= lo -> hi <= hi' -> between lo hi x -> between lo' hi' x.
Proof. intros ? ? [Hf Hb]. pose proof unit_pos. split; [done|nia]. Qed.

Lemma pos_iter_xO m d : Zpos (Pos.iter xO m d) = Zpos m * 2 ^ Zpos d.
Proof.
  induction d as [|d IH] using Pos.peano_ind; [cbn; lia|].
  rewrite Pos.iter_succ, Pos2Z.inj_succ, Z.pow_succ_r, Pos2Z.inj_xO, IH by lia. lia.
Qed.

Lemma shl_align_val m e e' : - scale <= e -> - scale <= e' ->
  - scale <= (shl_align m e e').2 <= e /\
  Zpos (shl_align m e e').1 * 2 ^ ((shl_align m e e').2 + scale) = Zpos m * 2 ^ (e + scale).
Proof.
  intros He He'. unfold shl_align. destruct (e' - e) as [|d|d] eqn:E; cbn [fst snd]; [split; [lia|done]..|].
  rewrite pos_iter_xO. split; [lia|].
  replace (e + scale) with (Zpos d + (e' + scale)) by lia. rewrite (Z.pow_add_r 2 (Zpos d)) by lia. ring.
Qed.

Lemma fexp32_scale z : - scale <= fexp32 z.
Proof. rewrite fexp32_eq. unfold scale. lia. Qed.

Lemma normalize_between m e b lo hi : - scale <= e -> - 2 ^ 24 < lo -> hi < 2 ^ 24 ->
  lo * unit <= m * 2 ^ (e + scale) <= hi * unit -> between lo hi (binary_normalize 24 128 m e b).
Proof.
  intros He Hlo Hhi Hb. pose proof unit_pos as Hu. unfold between, binary_normalize.
  destruct m as [|p|p]; [by split; [|cbn; lia]| |]; unfold binary_round;
    pose proof (shl_align_val p e (fexp32 (Zpos (digits2_pos p) + e)) He ltac:(apply fexp32_scale)) as [Ha Hv];
    destruct (shl_align p e (fexp32 (Zpos (digits2_pos p) + e))) as [mz ez]; cbn [fst snd] in Ha, Hv.
  - destruct (round_between false (Zpos mz) ez (Z.max 0 lo) hi) as (V & Hf & -> & HV); [lia..| |].
    { rewrite Hv. split; [|lia]. apply Z.max_case_strong; [lia|]. intros; lia. }
    split; [done|]. cbn [cond_Zopp]. nia.
  - destruct (round_between true (Zpos mz) ez (Z.max 0 (- hi)) (- lo)) as (V & Hf & -> & HV); [lia..| |].
    { rewrite Hv. rewrite <- Pos2Z.opp_pos in Hb. split; [|lia]. apply Z.max_case_strong; lia. }
    split; [done|]. cbn [cond_Zopp]. nia.
Qed.

Lemma of_int_between z : - 2 ^ 24 < z < 2 ^ 24 -> between z z (float32_of_int z).
Proof. intros Hz. apply normalize_between; [by vm_compute|lia|lia|]. rewrite unit_eq, Z.add_0_l. lia. Qed.

Lemma between_exact z x : between z z x -> fval x = z * unit.
Proof. intros [_ ?]. lia. Qed.

(** The exact sum of two finite floats, at the smaller exponent. *)
Lemma aligned_val s m e e' : e' <= e -> - scale <= e' ->
  cond_Zopp s (Zpos (shl_align m e e').1) * 2 ^ (e' + scale) = cond_Zopp s (Zpos m * 2 ^ (e + scale)).
Proof.
  intros Hle Hs. pose proof (shl_align_val m e e' ltac:(lia) Hs) as [_ Hv].
  assert ((shl_align m e e').2 = e' \/ (e' = e)) as [E|E].
  { unfold shl_align. destruct (e' - e) eqn:Ed; cbn [snd]; lia. }
  - rewrite E in Hv. destruct s; cbn [cond_Zopp]; lia.
  - subst e'. unfold shl_align. rewrite Z.sub_diag. cbn [fst]. destruct s; cbn [cond_Zopp]; lia.
Qed.

Lemma fadd_between x y lo hi : finite x -> finite y -> - 2 ^ 24 < lo -> hi < 2 ^ 24 ->
  lo * unit <= fval x + fval y <= hi * unit -> between lo hi (fadd x y).
Proof.
  intros Hx Hy Hlo Hhi Hb. unfold fadd. destruct x as [sx| | |sx mx ex], y as [sy| | |sy my ey]; try done; cbn [SFadd].
  - unfold between. destruct sx, sy; cbn in *; (split; [done|lia]).
  - split; [exact Hx || exact Hy|]. cbn [fval] in *. lia.
  - destruct Hx as [_ Hx], Hy as [_ Hy]. apply normalize_between; [unfold scale; lia|done|done|].
    rewrite Z.mul_add_distr_r, !aligned_val by (unfold scale; lia). done.
Qed.

Lemma fsub_between x y lo hi : finite x -> finite y -> - 2 ^ 24 < lo -> hi < 2 ^ 24 ->
  lo * unit <= fval x - fval y <= hi * unit -> between lo hi (fsub x y).
Proof.
  intros Hx Hy Hlo Hhi Hb. unfold fsub. destruct x as [sx| | |sx mx ex], y as [sy| | |sy my ey]; try done; cbn [SFsub].
  - unfold between. destruct sx, sy; cbn in *; (split; [done|lia]).
  - split; [exact Hx || exact Hy|]. cbn [fval] in *. destruct sy; cbn [negb cond_Zopp] in *; lia.
  - split; [exact Hx || exact Hy|]. cbn [fval] in *. lia.
  - destruct Hx as [_ Hx], Hy as [_ Hy]. apply normalize_between; [unfold scale; lia|done|done|].
    rewrite Z.mul_sub_distr_r, !aligned_val by (unfold scale; lia). done.
Qed.

Lemma fmul_between x y lo hi : finite x -> finite y -> - 2 ^ 24 < lo -> hi < 2 ^ 24 ->
  lo * unit * unit <= fval x * fval y <= hi * unit * unit -> between lo hi (fmul x y).
Proof.
  intros Hx Hy Hlo Hhi Hb. pose proof unit_pos as Hu. unfold fmul, between.
  destruct x as [sx| | |sx mx ex], y as [sy| | |sy my ey]; try done; cbn [SFmul];
    try (split; [done|]; cbn [fval] in *; nia).
  destruct Hx as [_ Hx], Hy as [_ Hy]. cbn [fval] in Hb. set (P := Zpos (mx * my) * 2 ^ (ex + ey + scale)).
  assert (Zpos mx * 2 ^ (ex + scale) * (Zpos my * 2 ^ (ey + scale)) = P * unit) as EP.
  { unfold P. rewrite unit_eq, Pos2Z.inj_mul.
    assert (2 ^ (ex + scale) * 2 ^ (ey + scale) = 2 ^ (ex + ey + scale) * 2 ^ scale) as E
      by (rewrite !pow2_scale by (unfold scale; lia); f_equal; lia).
    transitivity (Zpos mx * Zpos my * (2 ^ (ex + scale) * 2 ^ (ey + scale))); [ring|rewrite E; ring]. }
  assert (lo * unit <= cond_Zopp (xorb sx sy) P <= hi * unit) as HP by (destruct sx, sy; cbn [cond_Zopp xorb] in *; nia).
  assert (0 < P) as Pp by (unfold P; apply Z.mul_pos_pos; [lia|apply Z.pow_pos_nonneg; unfold scale; lia]).
  destruct (xorb sx sy); cbn [cond_Zopp] in HP.
  - destruct (round_between true (Zpos (mx * my)) (ex + ey) (Z.max 0 (- hi)) (- lo)) as (V & Hf & -> & HV);
      [lia|unfold scale; lia|lia|lia| |].
    { fold P. split; [|lia]. apply Z.max_case_strong; lia. }
    split; [done|]. cbn [cond_Zopp]. nia.
  - destruct (round_between false (Zpos (mx * my)) (ex + ey) (Z.max 0 lo) hi) as (V & Hf & -> & HV);
      [lia|unfold scale; lia|lia|lia| |].
    { fold P. split; [|lia]. apply Z.max_case_strong; lia. }
    split; [done|]. cbn [cond_Zopp]. nia.
Qed.

(** ** Clamping and casting *)

(** A number or an infinity of the format, not a NaN. *)
Definition number (x : spec_float) : Prop :=
  match x with
  | S754_zero _ | S754_infinity _ => True
  | S754_finite _ m e => Zpos m < 2 ^ 24 /\ -149 <= e
  | S754_nan => False
  end.

Lemma fval_one : float32_of_int 1 = S754_finite false 8388608 (-23).
Proof. reflexivity. Qed.

Lemma small_value m e k : -149 <= e -> 0 <= k <= - e -> Zpos m <= 2 ^ k ->
  0 * unit <= Zpos m * 2 ^ (e + scale) <= 1 * unit.
Proof.
  intros He Hk Hm. rewrite unit_eq.
  assert (0 < 2 ^ (e + scale)) by (apply Z.pow_pos_nonneg; unfold scale; lia).
  assert (2 ^ (- e) * 2 ^ (e + scale) = 2 ^ scale) as <- by (rewrite pow2_scale by (unfold scale; lia); f_equal; lia).
  assert (2 ^ k <= 2 ^ (- e)) by (apply Z.pow_le_mono_r; lia). nia.
Qed.

Lemma clamp_between x : number x -> between 0 1 (fclamp x (float32_of_int 0) (float32_of_int 1)).
Proof.
  pose proof unit_pos as Hu.
  assert (between 0 1 (float32_of_int 0)) as H0 by (by eapply between_mono, of_int_between).
  assert (between 0 1 (float32_of_int 1)) as H1 by (by eapply between_mono, of_int_between).
  assert (float32_of_int 0 = S754_zero false) as E0 by done.
  unfold fclamp, flt, SFltb. destruct x as [s|[]| |[] m e]; intros Hn; rewrite ?E0, ?fval_one in *; try done.
  - cbn [SFcompare]. destruct (Z.compare_spec (-23) e) as [E|E|E]; [|done|].
    + subst e. change (Pos.compare_cont Eq 8388608 m) with (8388608 ?= m)%positive.
      destruct (Pos.compare_spec 8388608 m) as [E'|E'|E']; [subst m; done|done|].
      split; [done|]. cbn [fval cond_Zopp]. clear - E'. apply (small_value m (-23) 23); [done|done|]. by apply Pos2Z.pos_le_pos, Pos.lt_le_incl.
    + destruct Hn as [Hm He]. split; [done|]. cbn [fval cond_Zopp]. clear - E Hm He. apply (small_value m e 24); [done|lia|lia].
Qed.

(** The integer part of the scaled value. *)
Lemma trunc_bounds m e lo hi : -149 <= e -> lo * unit <= Zpos m * 2 ^ (e + scale) <= hi * unit ->
  lo <= Z.shiftl (Zpos m) e <= hi.
Proof.
  intros He Hb. rewrite unit_eq in Hb. destruct (Z.leb_spec 0 e) as [Hp|Hn].
  - rewrite Z.shiftl_mul_pow2 by done. rewrite Z.pow_add_r in Hb by (unfold scale; lia).
    assert (0 < 2 ^ scale) by (unfold scale; lia). nia.
  - rewrite <- (Z.opp_involutive e), Z.shiftl_opp_r, Z.shiftr_div_pow2 by lia.
    assert (2 ^ scale = 2 ^ (- e) * 2 ^ (e + scale)) as Es by (rewrite pow2_scale by (unfold scale; lia); f_equal; lia).
    assert (0 < 2 ^ (e + scale) /\ 0 < 2 ^ (- e)) as [P1 P2] by (unfold scale; lia). rewrite Es in Hb.
    split; [apply Z.div_le_lower_bound; nia|]. apply Z.div_le_upper_bound; nia.
Qed.

Lemma float_to_int_between x lo hi : fits_int lo -> fits_int hi -> between lo hi x ->
  float_to_int x ⇓ (fun n => lo <= n <= hi).
Proof.
  intros Hlo Hhi [Hf Hb]. pose proof unit_pos. destruct x as [s| | |s m e]; try done; cbn [float_to_int].
  - apply returns_ok. cbn [fval] in Hb. nia.
  - destruct Hf as [_ He].
    assert (lo <= cond_Zopp s (Z.shiftl (Zpos m) e) <= hi) as Ht.
    { destruct s; cbn [fval cond_Zopp] in *.
      - pose proof (trunc_bounds m e (- hi) (- lo) He ltac:(lia)). lia.
      - by apply trunc_bounds. }
    rewrite int_checked_ok by (unfold fits_int in *; lia). by apply returns_ok.
Qed.

Lemma fceil_between x lo hi : - 2 ^ 24 < lo -> hi < 2 ^ 24 -> between lo hi x -> between lo hi (fceil x).
Proof.
  intros Hlo Hhi [Hf Hb]. destruct x as [s| | |s m e]; try done. cbn [fceil].
  destruct (Z.leb_spec 0 e) as [He|He]; [done|]. destruct Hf as [_ He']. cbn [fval] in Hb. rewrite unit_eq in Hb.
  assert (2 ^ scale = 2 ^ (- e) * 2 ^ (e + scale)) as Es by (rewrite pow2_scale by (unfold scale; lia); f_equal; lia).
  assert (0 < 2 ^ (e + scale) /\ 0 < 2 ^ (- e)) as [P1 P2] by (unfold scale; lia). rewrite Es in Hb.
  assert (lo * 2 ^ (- e) <= cond_Zopp s (Zpos m) <= hi * 2 ^ (- e)) as Hm by (destruct s; cbn [cond_Zopp] in *; nia).
  apply normalize_between; [by vm_compute|done|done|]. rewrite unit_eq, Z.add_0_l.
  assert (0 < 2 ^ scale) by (unfold scale; lia).
  assert (- hi <= (- cond_Zopp s (Zpos m)) / 2 ^ (- e) <= - lo); [|nia].
  split; [apply Z.div_le_lower_bound; nia|apply Z.div_le_upper_bound; nia].
Qed.

(** ** The progress of an animation is a number *)

Lemma round_aux_number s m e l : 0 <= m -> number (binary_round_aux 24 128 s m e l).
Proof.
  intros Hm. unfold binary_round_aux. destruct (shr_fexp_spec m e l Hm) as (mrs & -> & Eq & _).
  pose proof (round_even_bounds (shr_m mrs) (loc_of_shr_record mrs)) as [HM _].
  assert (0 <= shr_m mrs) as H0 by (rewrite Eq; apply Z.div_pos; [done|unfold shifted; lia]).
  set (M := round_nearest_even _ _) in *.
  destruct (shr_fexp_spec M (shifted m e) loc_Exact) as (mrs2 & -> & Eq2 & _); [lia|].
  pose proof (shifted_small M (shifted m e) ltac:(lia)) as Hs.
  assert (0 <= shr_m mrs2) as H2 by (rewrite Eq2; apply Z.div_pos; [lia|unfold shifted; lia]).
  rewrite <- Eq2 in Hs. destruct (shr_m mrs2) as [|p|p]; [done| |lia].
  destruct (_ <=? _); [|done]. split; [done|]. unfold shifted. rewrite !fexp32_eq. lia.
Qed.

Lemma of_positive z : 0 < z < 2 ^ 64 -> exists m e, float32_of_int z = S754_finite false m e.
Proof.
  intros Hz. unfold float32_of_int, binary_normalize. destruct z as [|p|p]; [lia| |lia]. unfold binary_round.
  pose proof (shl_align_val p 0 (fexp32 (Zpos (digits2_pos p) + 0)) ltac:(by vm_compute) ltac:(apply fexp32_scale)) as [Ha Hv].
  destruct (shl_align p 0 _) as [mz ez] eqn:E; cbn [fst snd] in Ha, Hv.
  destruct (Zdigits2_bounds (Zpos mz)) as (Hd & Hlo & Hhi); [lia|].
  assert (Zdigits2 (Zpos mz) + ez <= 64) as Hmag.
  { assert (Zdigits2 (Zpos mz) - 1 + (ez + scale) < 64 + scale); [|lia].
    apply (Z.pow_lt_mono_r_iff 2); [lia|unfold scale; lia|].
    rewrite (Z.pow_add_r 2 (Zdigits2 _ - 1)), (Z.pow_add_r 2 64) by (unfold scale in *; lia).
    rewrite Z.add_0_l in Hv. assert (0 < 2 ^ (ez + scale)) by lia. assert (0 < 2 ^ scale) by (unfold scale; lia). nia. }
  destruct (round_aux_spec false (Zpos mz) ez loc_Exact) as (M & HM & _ & Hf & Hval); [lia|unfold shifted; rewrite fexp32_eq; lia|].
  destruct (binary_round_aux _ _ _ _ _ _) as [s| | |s m e] eqn:Eb; try done.
  - cbn [fval cond_Zopp] in Hval. exfalso.
    assert (1 <= Zpos mz / 2 ^ (shifted (Zpos mz) ez - ez)) as H1; [|
      assert (0 < 2 ^ (shifted (Zpos mz) ez + scale)) by (unfold shifted, scale; rewrite fexp32_eq; lia); nia].
    apply Z.div_le_lower_bound; [unfold shifted; lia|]. rewrite Z.mul_1_r. eapply Z.le_trans; [|exact Hlo].
    apply Z.pow_le_mono_r; [lia|]. unfold shifted. rewrite fexp32_eq.
    enough (-149 <= Zdigits2 (Zpos mz) - 1 + ez) by lia. revert E. unfold shl_align. rewrite fexp32_eq.
    destruct (Z.max _ _ - 0) eqn:Em; intros [= <- <-]; lia.
  - assert (s = false) as ->; [|eauto]. destruct s; [|done]. cbn [fval cond_Zopp] in Hval.
    assert (0 < Zpos m * 2 ^ (e + scale)) by (destruct Hf; apply Z.mul_pos_pos; [lia|apply Z.pow_pos_nonneg; unfold scale; lia]).
    assert (0 <= Zpos mz / 2 ^ (shifted (Zpos mz) ez - ez)) by (apply Z.div_pos; [lia|unfold shifted; lia]).
    assert (0 < 2 ^ (shifted (Zpos mz) ez + scale)) by (unfold shifted, scale; rewrite fexp32_eq; lia). nia.
Qed.

Lemma progress_number clock start arrival :
  fits_i64 clock -> fits_i64 start -> fits_i64 arrival ->
  number (compute_animation_progress clock start arrival).
Proof.
  unfold fits_i64. intros Hc Hs Ha. unfold compute_animation_progress.
  destruct (Z.leb_spec arrival clock) as [E|E]; [by vm_compute|].
  destruct (Z.leb_spec clock start) as [E'|E']; [by vm_compute|].
  destruct (of_positive (clock - start)) as (m1 & e1 & ->); [lia|].
  destruct (of_positive (arrival - start)) as (m2 & e2 & ->); [lia|].
  unfold float32_div. cbn [SFdiv]. destruct (SFdiv_core_binary _ _ _ _ _ _) as [[q e] l] eqn:Ed.
  apply round_aux_number. revert Ed. unfold SFdiv_core_binary.
  set (m' := match _ with Z0 => _ | _ => _ end).
  assert (0 <= m') as Hm' by (unfold m'; repeat case_match; [lia|apply Z.shiftl_nonneg; lia|lia]).
  pose proof (Z_div_mod m' (Zpos m2) ltac:(lia)) as Hdm. destruct (Z.div_eucl m' (Zpos m2)) as [q' r].
  intros [= <- _ _]. nia.
Qed.
