(* ===== verification/Renderer.v ===== *)
(** * Drawing

    [src/src/ui/rendering/ctd26_renderer.cpp] with the sprite selector
    ([ui/view/piece_sprite_selector.cpp]), the asset paths ([ui/assets]) and the metrics of
    the board layout ([ui/layout/board_layout.h]).

    The image library is the environment: the class [Graphics] performs drawing commands,
    polls the keyboard and reads image files; any call that draws may throw.  [present]
    computes the commands of a frame: [present_correct] states which, item by item, for
    every view of a board; positions and animation frames are computed in single precision
    and cast to [int], which is undefined behaviour out of range.  [std::sin] is a
    parameter with values between -1 and 1.  Diagnostic output is left out. *)

From S2P Require Import Prelude Piece BoardModel PathUtils PieceRules CollisionResolver MoveScheduler RealTimeArbiter GameState CppString BoardIO GameInput BoardView Snapshot Float32.
From Stdlib Require Import Floats.SpecFloat Ascii String.
Open Scope string_scope.
Open Scope Z_scope.

(** ** Sprites *)

Definition kSpriteAnimationFrameCount : Z := 5.
Definition kSpriteIdleFrame : Z := 1.
Definition kSpriteStateIdle : string := "idle".
Definition kSpriteStateMove : string := "move".
Definition kSpriteStateJump : string := "jump".
Definition kSpriteStateShortRest : string := "short_rest".
Definition kSpriteStateLongRest : string := "long_rest".

Record PieceSpriteContext := mkContext {
  sc_piece : PieceView;
  sc_moving : bool;
  sc_jumping : bool;
  sc_resting : bool;
  sc_rest_kind : RestKind;
  sc_progress : spec_float
}.

Record PieceSpriteSelection := mkSelection { sel_state : string; sel_frame : Z }.

Definition frame_from_progress (progress : spec_float) : res Z :=
  let clamped := fclamp progress (float32_of_int 0) (float32_of_int 1) in
  frame ← float_to_int (fmul clamped (float32_of_int kSpriteAnimationFrameCount));
  Ok (Z.min frame (kSpriteAnimationFrameCount - 1) + 1).

Definition select (context : PieceSpriteContext) : res PieceSpriteSelection :=
  if sc_moving context then
    frame ← frame_from_progress (sc_progress context); Ok (mkSelection kSpriteStateMove frame)
  else if sc_jumping context then
    frame ← frame_from_progress (sc_progress context); Ok (mkSelection kSpriteStateJump frame)
  else if sc_resting context then
    let state := match sc_rest_kind context with
                 | Long => kSpriteStateLongRest | Short => kSpriteStateShortRest end in
    frame ← frame_from_progress (sc_progress context); Ok (mkSelection state frame)
  else Ok (mkSelection kSpriteStateIdle kSpriteIdleFrame).

(** ** Asset paths *)

Record ThemeConfig := mkThemeConfig { board_image : string; pieces_directory : string }.

Definition kDefaultCtd26ThemeConfig : ThemeConfig :=
  mkThemeConfig "third_party/CTD26/board_classic.png" "third_party/CTD26/pieces3".

(** [operator/] of [std::filesystem::path], for a relative right operand. *)
Fixpoint ends_with_slash (s : string) : bool :=
  match s with
  | EmptyString => false
  | String c EmptyString => Ascii.eqb c "/"
  | String _ s => ends_with_slash s
  end.

Definition path_join (a b : string) : string :=
  if (a =? "")%string || ends_with_slash a then a ++ b else a ++ "/" ++ b.

Definition piece_directory (theme : ThemeConfig) (color : PieceColor) (kind : PieceKind) : string :=
  let token := String (color_to_char color) (String (kind_to_char kind) EmptyString) in
  path_join (path_join (pieces_directory theme) token) "states".

Definition piece_sprite (theme : ThemeConfig) (color : PieceColor) (kind : PieceKind) (state : string)
    (frame : Z) : string :=
  path_join (path_join (path_join (piece_directory theme color kind) state) "sprites") (to_string frame ++ ".png").

(** ** Metrics of the layout *)

Definition double_of_int (z : Z) : spec_float := binary_normalize 53 1024 z 0 false.

(** 1.2, 1.0 and 1.4 in double precision. *)
Definition kReferencePieceFontScale : spec_float := S754_finite false 5404319552844595 (-52).
Definition kReferenceGameOverFontScale : spec_float := double_of_int 1.
Definition kTitleScale : spec_float := S754_finite false 6305039478318694 (-52).

Definition kReferencePieceFontThickness : Z := 2.
Definition kReferenceSelectionBorderThickness : Z := 3.
Definition kReferenceJumpBorderThickness : Z := 2.
Definition kReferenceGameOverFontThickness : Z := 2.
Definition kReferenceGameOverMarginX : Z := 20.
Definition kReferenceGameOverMarginY : Z := 40.

Definition scaled_font_size (l : BoardLayout) (reference_scale : spec_float) : spec_float :=
  if cell_size l <=? 0 then reference_scale
  else SFdiv 53 1024 (SFmul 53 1024 reference_scale (double_of_int (cell_size l)))
         (double_of_int kReferenceCellSizePixels).

Definition scaled_size (l : BoardLayout) (reference_pixels : Z) : res Z :=
  if cell_size l <=? 0 then Ok reference_pixels
  else p ← int_mul reference_pixels (cell_size l); Ok (Z.max 1 (Z.quot p kReferenceCellSizePixels)).

Definition piece_text_x (l : BoardLayout) (cell_x : Z) : res Z := int_add cell_x (Z.quot (cell_size l) 6).
Definition piece_text_y (l : BoardLayout) (cell_y : Z) : res Z :=
  p ← int_mul (cell_size l) 2; int_add cell_y (Z.quot p 3).
Definition piece_font_scale (l : BoardLayout) : spec_float := scaled_font_size l kReferencePieceFontScale.
Definition piece_font_thickness (l : BoardLayout) : res Z := scaled_size l kReferencePieceFontThickness.
Definition selection_border_thickness (l : BoardLayout) : res Z := scaled_size l kReferenceSelectionBorderThickness.
Definition jump_border_thickness (l : BoardLayout) : res Z := scaled_size l kReferenceJumpBorderThickness.
Definition jump_lift_pixels (l : BoardLayout) (lift_ratio : spec_float) : res Z :=
  float_to_int (fmul (float32_of_int (cell_size l)) lift_ratio).
Definition game_over_text_x (l : BoardLayout) : res Z := scaled_size l kReferenceGameOverMarginX.
Definition game_over_text_y (l : BoardLayout) : res Z := scaled_size l kReferenceGameOverMarginY.
Definition game_over_font_scale (l : BoardLayout) : spec_float := scaled_font_size l kReferenceGameOverFontScale.
Definition game_over_font_thickness (l : BoardLayout) : res Z := scaled_size l kReferenceGameOverFontThickness.

(** ** Theme *)

Record UiColor := mkColor { c_b : Z; c_g : Z; c_r : Z }.

Record UiTheme := mkTheme {
  frame_background : UiColor;
  selection_border : UiColor;
  jump_border : UiColor;
  white_token : UiColor;
  black_token : UiColor;
  game_over_text : UiColor;
  jump_lift_ratio : spec_float
}.

(** A quarter. *)
Definition kDefaultJumpLiftRatio : spec_float := S754_finite false 8388608 (-25).

Definition kDefaultUiTheme : UiTheme :=
  mkTheme (mkColor 30 30 30) (mkColor 255 220 0) (mkColor 255 180 0) (mkColor 20 20 20)
    (mkColor 240 240 240) (mkColor 255 0 0) kDefaultJumpLiftRatio.

(** [cv::Scalar] of three channels. *)
Definition Scalar : Type := Z * Z * Z.
Definition to_scalar (color : UiColor) : Scalar := (c_b color, c_g color, c_r color).

(** [3.14159265f]. *)
Definition kPi : spec_float := S754_finite false 13176795 (-22).

Example kPi_literal : parse_float "3.14159265" = Some kPi.
Proof. vm_compute. reflexivity. Qed.

Example kDefaultJumpLiftRatio_literal : parse_float "0.25" = Some kDefaultJumpLiftRatio.
Proof. vm_compute. reflexivity. Qed.

(** ** The image library *)

(** Calls that draw or change the window. *)
Inductive Command (I : Type) :=
| NamedWindow (name : string)
| ResizeWindow (name : string) (width height : Z)
| SetMouseCallback (name : string) (sink : option Z)
| CreateFrame (width height : Z) (color : Scalar)
| PutText (text : string) (x y : Z) (scale : spec_float) (color : Scalar) (thickness : Z)
| Rectangle (x y width height : Z) (color : Scalar) (thickness : Z)
| DrawOn (image : I) (x y : Z)
| ShowIn (name : string)
| CloseWindow (name : string).
Arguments NamedWindow {I} _.
Arguments ResizeWindow {I} _ _ _.
Arguments SetMouseCallback {I} _ _.
Arguments CreateFrame {I} _ _ _.
Arguments PutText {I} _ _ _ _ _ _.
Arguments Rectangle {I} _ _ _ _ _ _.
Arguments DrawOn {I} _ _ _.
Arguments ShowIn {I} _.
Arguments CloseWindow {I} _.

(** [F] is the state of the library with the frame, [I] an image; [read_image] is [None]
    when [Img::read] throws. *)
Class Graphics (F I : Type) := {
  perform : Command I -> F -> res F;
  poll_key : F -> F * Z;
  read_image : F -> string -> Z * Z -> option I;
  is_loaded : I -> bool
}.

(** ** [PieceSpriteCacheKey] *)

Record SpriteKey := mkKey { key_color : PieceColor; key_kind : PieceKind; key_state : string; key_frame : Z }.

#[export] Instance sprite_key_eq_dec : EqDecision SpriteKey.
Proof. solve_decision. Defined.

#[export] Instance piece_color_countable : Countable PieceColor.
Proof.
  refine (inj_countable' (fun c => match c with White => true | Black => false end)
    (fun b => if b : bool then White else Black) _). by intros [].
Defined.

#[export] Instance piece_kind_countable : Countable PieceKind.
Proof.
  refine (inj_countable (fun k => match k with King => 0 | Queen => 1 | Rook => 2 | Bishop => 3 | Knight => 4
      | Pawn => 5 | Count => 6 end)%nat
    (fun n => [King; Queen; Rook; Bishop; Knight; Pawn; Count] !! n) _). by intros [].
Defined.

#[export] Instance sprite_key_countable : Countable SpriteKey.
Proof.
  refine (inj_countable' (fun k => (key_color k, key_kind k, key_state k, key_frame k))
    (fun '(c, k, s, f) => mkKey c k s f) _). by intros [].
Defined.

(** ** [Ctd26Renderer] *)

Definition kWindowName : string := "Kung Fu Chess".

(** Mouse events: the two buttons that the callback knows. *)
Inductive MouseEvent := LButtonDown | RButtonDown | OtherEvent.
Inductive SinkCall := PixelClick (sink x y : Z) | PixelJump (sink x y : Z).

Definition on_mouse (event : MouseEvent) (x y : Z) (userdata : option Z) : option SinkCall :=
  match userdata with
  | None => None
  | Some input_sink =>
      match event with
      | LButtonDown => Some (PixelClick input_sink x y)
      | RButtonDown => Some (PixelJump input_sink x y)
      | OtherEvent => None
      end
  end.

(** The members; [rn_frame] says that the frame exists, its contents are part of
    [rn_world]. *)
Record Ctd26Renderer (F I : Type) := mkRenderer {
  rn_theme_config : ThemeConfig;
  rn_theme : UiTheme;
  rn_layout : BoardLayout;
  window_width_ : Z;
  window_height_ : Z;
  board_width_cells_ : Z;
  board_height_cells_ : Z;
  initialized_ : bool;
  input_sink_ : option Z;
  overlay_text_ : option string;
  rn_frame : bool;
  board_background : option I;
  piece_sprites : gmap SpriteKey (option I);
  rn_world : F
}.
Arguments mkRenderer {F I} _ _ _ _ _ _ _ _ _ _ _ _ _ _.
Arguments rn_theme_config {F I} _.
Arguments rn_theme {F I} _.
Arguments rn_layout {F I} _.
Arguments window_width_ {F I} _.
Arguments window_height_ {F I} _.
Arguments board_width_cells_ {F I} _.
Arguments board_height_cells_ {F I} _.
Arguments initialized_ {F I} _.
Arguments input_sink_ {F I} _.
Arguments overlay_text_ {F I} _.
Arguments rn_frame {F I} _.
Arguments board_background {F I} _.
Arguments piece_sprites {F I} _.
Arguments rn_world {F I} _.

Record LoginScreenLayout := mkLogin {
  input_x : Z; input_y : Z; input_w : Z; input_h : Z;
  button_x : Z; button_y : Z; button_w : Z; button_h : Z
}.

Section Renderer.
Context {F I : Type} `{Graphics F I}.
(** [std::sin] on [float]. *)
Context (sinf : spec_float -> spec_float).
Notation R := (Ctd26Renderer F I).
Implicit Type r : R.

Definition new_renderer (theme_config : ThemeConfig) (ui_theme : UiTheme) (world : F) : R :=
  mkRenderer theme_config ui_theme empty_layout 0 0 0 0 false None None false None ∅ world.

Definition set_world r (f : F) : R :=
  mkRenderer (rn_theme_config r) (rn_theme r) (rn_layout r) (window_width_ r) (window_height_ r)
    (board_width_cells_ r) (board_height_cells_ r) (initialized_ r) (input_sink_ r) (overlay_text_ r)
    (rn_frame r) (board_background r) (piece_sprites r) f.

Definition set_sprites r (sprites : gmap SpriteKey (option I)) : R :=
  mkRenderer (rn_theme_config r) (rn_theme r) (rn_layout r) (window_width_ r) (window_height_ r)
    (board_width_cells_ r) (board_height_cells_ r) (initialized_ r) (input_sink_ r) (overlay_text_ r)
    (rn_frame r) (board_background r) sprites (rn_world r).

Definition set_layout r (l : BoardLayout) : R :=
  mkRenderer (rn_theme_config r) (rn_theme r) l (window_width_ r) (window_height_ r)
    (board_width_cells_ r) (board_height_cells_ r) (initialized_ r) (input_sink_ r) (overlay_text_ r)
    (rn_frame r) (board_background r) (piece_sprites r) (rn_world r).

Definition set_background r (image : option I) : R :=
  mkRenderer (rn_theme_config r) (rn_theme r) (rn_layout r) (window_width_ r) (window_height_ r)
    (board_width_cells_ r) (board_height_cells_ r) (initialized_ r) (input_sink_ r) (overlay_text_ r)
    true image (piece_sprites r) (rn_world r).

Definition set_initialized r (b : bool) : R :=
  mkRenderer (rn_theme_config r) (rn_theme r) (rn_layout r) (window_width_ r) (window_height_ r)
    (board_width_cells_ r) (board_height_cells_ r) b (input_sink_ r) (overlay_text_ r)
    (rn_frame r) (board_background r) (piece_sprites r) (rn_world r).

Definition set_sink r (sink : option Z) : R :=
  mkRenderer (rn_theme_config r) (rn_theme r) (rn_layout r) (window_width_ r) (window_height_ r)
    (board_width_cells_ r) (board_height_cells_ r) (initialized_ r) sink (overlay_text_ r)
    (rn_frame r) (board_background r) (piece_sprites r) (rn_world r).

Definition set_overlay_text r (text : option string) : R :=
  mkRenderer (rn_theme_config r) (rn_theme r) (rn_layout r) (window_width_ r) (window_height_ r)
    (board_width_cells_ r) (board_height_cells_ r) (initialized_ r) (input_sink_ r) text
    (rn_frame r) (board_background r) (piece_sprites r) (rn_world r).

Definition set_window r (window_width window_height rows cols : Z) : R :=
  mkRenderer (rn_theme_config r) (rn_theme r) (rn_layout r) window_width window_height
    (to_int cols) (to_int rows) (initialized_ r) (input_sink_ r) (overlay_text_ r)
    (rn_frame r) (board_background r) (piece_sprites r) (rn_world r).

Definition performed r (c : Command I) : res R := f ← perform c (rn_world r); Ok (set_world r f).

(** ** Loading *)

Definition load_board r (size : Z * Z) : res I :=
  match read_image (rn_world r) (board_image (rn_theme_config r)) size with
  | Some image => Ok image
  | None => Err RuntimeError
  end.

Definition load_piece_sprite r (color : PieceColor) (kind : PieceKind) (state : string) (frame : Z)
    (size : Z * Z) : option I :=
  read_image (rn_world r) (piece_sprite (rn_theme_config r) color kind state frame) size.

Definition reload_board_background r : res R :=
  image ← load_board r (board_width_pixels (rn_layout r), board_height_pixels (rn_layout r));
  Ok (set_background r (Some image)).

Definition load_and_cache r (color : PieceColor) (kind : PieceKind) (state : string) (frame : Z)
    (sprites : gmap SpriteKey (option I)) : gmap SpriteKey (option I) :=
  <[mkKey color kind state frame :=
      load_piece_sprite r color kind state frame (cell_size (rn_layout r), cell_size (rn_layout r))]> sprites.

Definition load_frames r (color : PieceColor) (kind : PieceKind) (sprites : gmap SpriteKey (option I)) :
    gmap SpriteKey (option I) :=
  foldl (fun s frame =>
      load_and_cache r color kind kSpriteStateLongRest frame
        (load_and_cache r color kind kSpriteStateShortRest frame
          (load_and_cache r color kind kSpriteStateJump frame
            (load_and_cache r color kind kSpriteStateMove frame s))))
    (load_and_cache r color kind kSpriteStateIdle kSpriteIdleFrame sprites)
    ((fun i => i + 1) <$> zrange kSpriteAnimationFrameCount).

Definition kColors : list PieceColor := [White; Black].

(** The kinds below [PieceKind::Count]. *)
Definition sprite_kinds : list PieceKind := [King; Queen; Rook; Bishop; Knight; Pawn].

Definition reload_piece_sprites r : R :=
  if cell_size (rn_layout r) <=? 0 then set_sprites r ∅
  else set_sprites r
    (foldl (fun s color => foldl (fun s kind => load_frames r color kind s) s sprite_kinds) ∅ kColors).

Definition recalculate_layout r : res R :=
  let previous_cell_size := cell_size (rn_layout r) in
  layout ← calculate (window_width_ r) (window_height_ r) (board_width_cells_ r) (board_height_cells_ r);
  let r := set_layout r layout in
  Ok (if initialized_ r && negb (cell_size layout =? previous_cell_size) then reload_piece_sprites r else r).

Definition init r (window_width window_height rows cols : Z) : res R :=
  r ← recalculate_layout (set_window r window_width window_height rows cols);
  r ← reload_board_background r;
  let r := reload_piece_sprites r in
  r ← performed r (NamedWindow kWindowName);
  r ← performed r (ResizeWindow kWindowName (window_width_ r) (window_height_ r));
  r ← performed r (SetMouseCallback kWindowName (input_sink_ r));
  r ← performed r (CreateFrame (window_width_ r) (window_height_ r) (to_scalar (frame_background (rn_theme r))));
  r ← performed r (ShowIn kWindowName);
  Ok (set_initialized (set_world r (poll_key (rn_world r)).1) true).

Definition attach_input_sink r (sink : option Z) : res R :=
  let r := set_sink r sink in
  if initialized_ r then performed r (SetMouseCallback kWindowName sink) else Ok r.

Definition shutdown r : res R :=
  if initialized_ r then r ← performed r (CloseWindow kWindowName); Ok (set_initialized r false) else Ok r.

(** ** Drawing: functions on the state of the library *)

Definition draw_board_background r (f : F) : res F :=
  match board_background r with
  | Some image => perform (DrawOn image (board_x (rn_layout r)) (board_y (rn_layout r))) f
  | None => Err Undefined
  end.

Definition draw_selection_highlight r (x y : Z) (f : F) : res F :=
  let size := cell_size (rn_layout r) in
  thickness ← selection_border_thickness (rn_layout r);
  perform (Rectangle x y size size (to_scalar (selection_border (rn_theme r))) thickness) f.

Definition draw_jump_effect r (x y : Z) (jump_progress : spec_float) (f : F) : res F :=
  let size := cell_size (rn_layout r) in
  lift_pixels ← jump_lift_pixels (rn_layout r) (jump_lift_ratio (rn_theme r));
  lift ← float_to_int (fmul (sinf (fmul jump_progress kPi)) (float32_of_int lift_pixels));
  top ← int_sub y lift;
  thickness ← jump_border_thickness (rn_layout r);
  perform (Rectangle x top size size (to_scalar (jump_border (rn_theme r))) thickness) f.

Definition rest_color (rest_kind : RestKind) (intensity : Z) : Scalar :=
  match rest_kind with
  | Long => (intensity + 15, intensity - 10, intensity - 30)
  | Short => (intensity + 25, intensity + 8, intensity - 15)
  end.

Definition draw_rest_cooldown_overlay r (x y : Z) (progress : spec_float) (rest_kind : RestKind) (f : F) : res F :=
  let remaining := fsub (float32_of_int 1) (fclamp progress (float32_of_int 0) (float32_of_int 1)) in
  if SFleb remaining (float32_of_int 0) then Ok f
  else
    let size := cell_size (rn_layout r) in
    let inset := Z.max 1 (Z.quot size 16) in
    inner_size ← int_sub size (2 * inset);
    if inner_size <=? 0 then Ok f
    else
      height ← float_to_int (fceil (fmul (float32_of_int inner_size) remaining));
      let overlay_height := Z.max 1 height in
      overlay_x ← int_add x inset;
      bottom ← int_add y size;
      above ← int_sub bottom inset;
      overlay_y ← int_sub above overlay_height;
      intensity ← float_to_int (fadd (float32_of_int 40) (fmul (float32_of_int 70) remaining));
      perform (Rectangle overlay_x overlay_y inner_size overlay_height (rest_color rest_kind intensity) (-1)) f.

Definition draw_piece r (context : PieceSpriteContext) (x y : Z) (f : F) : res F :=
  selection ← select context;
  let piece := sc_piece context in
  let key := mkKey (pv_color piece) (pv_kind piece) (sel_state selection) (sel_frame selection) in
  let label :=
    text_x ← piece_text_x (rn_layout r) x;
    text_y ← piece_text_y (rn_layout r) y;
    thickness ← piece_font_thickness (rn_layout r);
    let color := match pv_color piece with
                 | White => to_scalar (white_token (rn_theme r)) | Black => to_scalar (black_token (rn_theme r)) end in
    perform (PutText (String (color_to_char (pv_color piece)) (String (kind_to_char (pv_kind piece)) EmptyString))
      text_x text_y (piece_font_scale (rn_layout r)) color thickness) f in
  match piece_sprites r !! key with
  | Some (Some image) => if is_loaded (F := F) image then perform (DrawOn image x y) f else label
  | _ => label
  end.

Definition idle_context (piece : PieceView) : PieceSpriteContext :=
  mkContext piece false false false Short (float32_of_int 0).

Definition selected_at (view : BoardViewModel) (row col : Z) : bool :=
  match v_selection view with Some (r, c) => (r =? row) && (c =? col) | None => false end.

(** The body of the loop over the cells. *)
Definition draw_cell r (view : BoardViewModel) (row col : Z) (f : F) : res F :=
  x ← cell_origin_x (rn_layout r) col;
  y ← cell_origin_y (rn_layout r) row;
  f ← (if selected_at view row col then draw_selection_highlight r x y f else Ok f);
  f ← (if board_view_is_resting_cell view row col then
         draw_rest_cooldown_overlay r x y (board_view_rest_progress_at view row col)
           (board_view_rest_kind_at view row col) f
       else Ok f);
  if board_view_is_move_origin view row col || board_view_is_jump_origin view row col then Ok f
  else
    match board_view_piece_at view row col with
    | None => Ok f
    | Some piece =>
        if board_view_is_resting_cell view row col then
          draw_piece r (mkContext piece false false true (board_view_rest_kind_at view row col)
            (board_view_rest_progress_at view row col)) x y f
        else draw_piece r (idle_context piece) x y f
    end.

Definition draw_static_board r (view : BoardViewModel) (f : F) : res F :=
  f ← draw_board_background r f;
  foldM (fun row f => foldM (fun col f => draw_cell r view row col f) (zrange (v_width view)) f)
    (zrange (v_height view)) f.

Definition draw_jump r (jump : ActiveJumpSnapshot) (f : F) : res F :=
  let progress := fclamp (ajs_progress jump) (float32_of_int 0) (float32_of_int 1) in
  x ← cell_origin_x (rn_layout r) (ajs_col jump);
  y ← cell_origin_y (rn_layout r) (ajs_row jump);
  f ← draw_jump_effect r x y progress f;
  draw_piece r (mkContext (mkPieceView (ajs_kind jump) (ajs_color jump)) false true false Short progress) x y f.

Definition draw_jumping_pieces r (view : BoardViewModel) (f : F) : res F :=
  foldM (draw_jump r) (snap_jumps (v_animations view)) f.

(** The linear interpolation of a coordinate. *)
Definition interpolate (from to : Z) (progress : spec_float) : res Z :=
  let from := float32_of_int from in
  let to := float32_of_int to in
  float_to_int (fadd from (fmul (fsub to from) progress)).

Definition draw_move r (move : ActiveMoveSnapshot) (f : F) : res F :=
  let progress := fclamp (ams_progress move) (float32_of_int 0) (float32_of_int 1) in
  from_x ← cell_origin_x (rn_layout r) (ams_from_col move);
  from_y ← cell_origin_y (rn_layout r) (ams_from_row move);
  to_x ← cell_origin_x (rn_layout r) (ams_to_col move);
  to_y ← cell_origin_y (rn_layout r) (ams_to_row move);
  draw_x ← interpolate from_x to_x progress;
  draw_y ← interpolate from_y to_y progress;
  draw_piece r (mkContext (mkPieceView (ams_kind move) (ams_color move)) true false false Short progress)
    draw_x draw_y f.

Definition draw_moving_pieces r (view : BoardViewModel) (f : F) : res F :=
  foldM (draw_move r) (snap_moves (v_animations view)) f.

(** A line of text in the corner. *)
Definition put_banner r (text : string) (color : UiColor) (f : F) : res F :=
  x ← game_over_text_x (rn_layout r);
  y ← game_over_text_y (rn_layout r);
  thickness ← game_over_font_thickness (rn_layout r);
  perform (PutText text x y (game_over_font_scale (rn_layout r)) (to_scalar color) thickness) f.

Definition draw_game_over_banner r (game_over : bool) (f : F) : res F :=
  if negb game_over then Ok f else put_banner r "GAME OVER" (game_over_text (rn_theme r)) f.

Definition draw_status_overlay r (f : F) : res F :=
  match overlay_text_ r with
  | None => Ok f
  | Some text => put_banner r text (black_token (rn_theme r)) f
  end.

(** The second component is [should_continue]. *)
Definition present r (view : BoardViewModel) : res (R * bool) :=
  match board_background r with
  | Some _ =>
      if negb (initialized_ r) || negb (rn_frame r) then Ok (r, true)
      else
        f ← perform (CreateFrame (window_width_ r) (window_height_ r)
               (to_scalar (frame_background (rn_theme r)))) (rn_world r);
        f ← draw_static_board r view f;
        f ← draw_moving_pieces r view f;
        f ← draw_jumping_pieces r view f;
        f ← draw_game_over_banner r (v_game_over view) f;
        f ← draw_status_overlay r f;
        f ← perform (ShowIn kWindowName) f;
        let '(f, key) := poll_key f in
        Ok (set_world r f, negb (key =? 27))
  | None => Ok (r, true)
  end.

(** ** The login screen *)

Definition compute_login_screen_layout r : res LoginScreenLayout :=
  let w := window_width_ r in
  let h := window_height_ r in
  let in_w := Z.max 200 (Z.quot w 2) in
  let in_h := Z.max 28 (Z.quot h 20) in
  dx ← int_sub w in_w;
  let in_y := Z.quot h 2 in
  let bt_w := Z.max 100 (Z.quot w 6) in
  bx ← int_sub w bt_w;
  below ← int_add in_y in_h;
  bt_y ← int_add below (Z.max 20 (Z.quot h 15));
  Ok (mkLogin (Z.quot dx 2) in_y in_w in_h (Z.quot bx 2) bt_y bt_w in_h).

(** [std::string::pop_back]. *)
Fixpoint pop_back (s : string) : string :=
  match s with
  | EmptyString => EmptyString
  | String _ EmptyString => EmptyString
  | String c s => String c (pop_back s)
  end.

Definition handle_login_key (key : Z) (username : string) : string :=
  if key <? 0 then username
  else
    let ascii_key := Z.land key 255 in
    if (ascii_key =? 8) || (ascii_key =? 127) then
      if (username =? "")%string then username else pop_back username
    else if (32 <=? ascii_key) && (ascii_key <=? 126) && (slen username <? 32) then
      username ++ String (ascii_of_N (Z.to_N ascii_key)) EmptyString
    else username.

Definition draw_login_screen r (username : string) (f : F) : res F :=
  layout ← compute_login_screen_layout r;
  let l := rn_layout r in
  let label_scale := game_over_font_scale l in
  label_thickness ← game_over_font_thickness l;
  let label_color := to_scalar (black_token (rn_theme r)) in
  let border_color := to_scalar (black_token (rn_theme r)) in
  let title_y := Z.max 40 (Z.quot (window_height_ r) 6) in
  title_x ← game_over_text_x l;
  f ← perform (PutText "Kung Fu Chess" title_x title_y (SFmul 53 1024 label_scale kTitleScale) label_color
         label_thickness) f;
  username_label_y ← int_sub (input_y layout) (Z.max 8 (Z.quot (input_h layout) 4));
  f ← perform (PutText "Username:" (input_x layout) username_label_y label_scale label_color label_thickness) f;
  f ← perform (Rectangle (input_x layout) (input_y layout) (input_w layout) (input_h layout) border_color 2) f;
  text_x ← int_add (input_x layout) (Z.max 8 (Z.quot (input_w layout) 30));
  bottom ← int_add (input_y layout) (input_h layout);
  text_y ← int_sub bottom (Z.max 8 (Z.quot (input_h layout) 5));
  f ← (if (username =? "")%string then
         perform (PutText "Player1" text_x text_y label_scale (140, 140, 140) label_thickness) f
       else perform (PutText username text_x text_y label_scale label_color label_thickness) f);
  f ← perform (Rectangle (button_x layout) (button_y layout) (button_w layout) (button_h layout) (70, 130, 70) (-1)) f;
  f ← perform (Rectangle (button_x layout) (button_y layout) (button_w layout) (button_h layout) border_color 2) f;
  play_text_x ← int_add (button_x layout) (Z.quot (button_w layout) 4);
  button_bottom ← int_add (button_y layout) (button_h layout);
  play_text_y ← int_sub button_bottom (Z.max 8 (Z.quot (button_h layout) 5));
  perform (PutText "PLAY" play_text_x play_text_y label_scale label_color label_thickness) f.

Definition present_login_screen r (username : string) : res (R * string * bool) :=
  if negb (initialized_ r) || negb (rn_frame r) then Ok (r, username, true)
  else
    f ← perform (CreateFrame (window_width_ r) (window_height_ r)
           (to_scalar (frame_background (rn_theme r)))) (rn_world r);
    f ← draw_login_screen r username f;
    f ← perform (ShowIn kWindowName) f;
    let '(f, key) := poll_key f in
    if key =? 27 then Ok (set_world r f, username, false)
    else Ok (set_world r f, handle_login_key key username, true).

End Renderer.

(** ** What a frame shows *)

Inductive Item :=
| Background
| SelectionBox (row col : Z)
| Cooldown (row col : Z)
| Standing (row col : Z) (piece : PieceView)
| Resting (row col : Z) (piece : PieceView) (rest_kind : RestKind)
| InFlight (move : ActiveMoveSnapshot)
| JumpBox (jump : ActiveJumpSnapshot)
| Jumper (jump : ActiveJumpSnapshot)
| GameOverBanner
| Status (text : string).

Definition cell_items (view : BoardViewModel) (row col : Z) : list Item :=
  (if selected_at view row col then [SelectionBox row col] else []) ++
  (if board_view_is_resting_cell view row col then [Cooldown row col] else []) ++
  (if board_view_is_move_origin view row col || board_view_is_jump_origin view row col then []
   else match board_view_piece_at view row col with
        | None => []
        | Some piece =>
            if board_view_is_resting_cell view row col
            then [Resting row col piece (board_view_rest_kind_at view row col)]
            else [Standing row col piece]
        end).

(** The items of a view, from the back to the front. *)
Definition items (overlay : option string) (view : BoardViewModel) : list Item :=
  [Background] ++
  List.concat ((fun row => List.concat (cell_items view row <$> zrange (v_width view))) <$> zrange (v_height view)) ++
  (InFlight <$> snap_moves (v_animations view)) ++
  List.concat ((fun j => [JumpBox j; Jumper j]) <$> snap_jumps (v_animations view)) ++
  (if v_game_over view then [GameOverBanner] else []) ++
  (match overlay with Some text => [Status text] | None => [] end).

Definition origin_x (l : BoardLayout) (col : Z) : Z := board_x l + cell_size l * col.
Definition origin_y (l : BoardLayout) (row : Z) : Z := board_y l + cell_size l * row.
Definition pixels (l : BoardLayout) (reference : Z) : Z :=
  if cell_size l <=? 0 then reference else Z.max 1 (reference * cell_size l / kReferenceCellSizePixels).
Definition on_segment (a b x : Z) : Prop := Z.min a b <= x <= Z.max a b.

(** A position on the way from [a] to [b]: the ends at progress 0 and 1. *)
Definition on_the_way (a b : Z) (progress : spec_float) (x : Z) : Prop :=
  on_segment a b x /\ (fval progress = 0 -> x = a) /\ (fval progress = unit -> x = b).

Section Scene.
Context {F I : Type} `{Graphics F I}.
Notation R := (Ctd26Renderer F I).
Implicit Type r : R.

(** The image of a piece: the file of its colour, kind, state and frame, as it was when
    the sprites were loaded, in the state [f0] of the library. *)
Definition sprite_of (f0 : F) r (piece : PieceView) (state : string) (frame : Z) : option I :=
  let size := cell_size (rn_layout r) in
  if (size <=? 0) || bool_decide (pv_kind piece = Count) then None
  else match read_image f0 (piece_sprite (rn_theme_config r) (pv_color piece) (pv_kind piece) state frame)
               (size, size) with
       | Some image => if is_loaded (F := F) image then Some image else None
       | None => None
       end.

(** The call that draws it, or the two letters of the piece when there is no image. *)
Definition piece_command (f0 : F) r (piece : PieceView) (state : string) (frame x y : Z) : Command I :=
  let size := cell_size (rn_layout r) in
  match sprite_of f0 r piece state frame with
  | Some image => DrawOn image x y
  | None =>
      PutText (String (color_to_char (pv_color piece)) (String (kind_to_char (pv_kind piece)) EmptyString))
        (x + size / 6) (y + size * 2 / 3) (piece_font_scale (rn_layout r))
        (to_scalar (match pv_color piece with White => white_token | Black => black_token end (rn_theme r)))
        (pixels (rn_layout r) kReferencePieceFontThickness)
  end.

Definition shows (f0 : F) r (piece : PieceView) (state : string) (x y : Z) (cmds : list (Command I)) : Prop :=
  exists frame, 1 <= frame <= kSpriteAnimationFrameCount /\ cmds = [piece_command f0 r piece state frame x y].

Definition banner r (text : string) (color : UiColor) : Command I :=
  let l := rn_layout r in
  PutText text (pixels l kReferenceGameOverMarginX) (pixels l kReferenceGameOverMarginY) (game_over_font_scale l)
    (to_scalar color) (pixels l kReferenceGameOverFontThickness).

Definition item_draws (f0 : F) r (item : Item) (cmds : list (Command I)) : Prop :=
  let l := rn_layout r in
  let size := cell_size l in
  match item with
  | Background => exists image, board_background r = Some image /\ cmds = [DrawOn image (board_x l) (board_y l)]
  | SelectionBox row col =>
      cmds = [Rectangle (origin_x l col) (origin_y l row) size size (to_scalar (selection_border (rn_theme r)))
                (pixels l kReferenceSelectionBorderThickness)]
  | Cooldown row col =>
      cmds = [] \/
      exists x y width height b g c, cmds = [Rectangle x y width height (b, g, c) (-1)] /\
        origin_x l col < x /\ x + width < origin_x l (col + 1) /\ 0 < width /\
        origin_y l row < y /\ y + height < origin_y l (row + 1) /\ 0 < height /\
        0 <= b < 256 /\ 0 <= g < 256 /\ 0 <= c < 256
  | Standing row col piece =>
      cmds = [piece_command f0 r piece kSpriteStateIdle kSpriteIdleFrame (origin_x l col) (origin_y l row)]
  | Resting row col piece rest_kind =>
      shows f0 r piece (match rest_kind with Long => kSpriteStateLongRest | Short => kSpriteStateShortRest end)
        (origin_x l col) (origin_y l row) cmds
  | InFlight move => exists x y,
      let progress := fclamp (ams_progress move) (float32_of_int 0) (float32_of_int 1) in
      on_the_way (origin_x l (ams_from_col move)) (origin_x l (ams_to_col move)) progress x /\
      on_the_way (origin_y l (ams_from_row move)) (origin_y l (ams_to_row move)) progress y /\
      shows f0 r (mkPieceView (ams_kind move) (ams_color move)) kSpriteStateMove x y cmds
  | JumpBox jump => exists lift, Z.abs lift <= size /\
      cmds = [Rectangle (origin_x l (ajs_col jump)) (origin_y l (ajs_row jump) - lift) size size
                (to_scalar (jump_border (rn_theme r))) (pixels l kReferenceJumpBorderThickness)]
  | Jumper jump =>
      shows f0 r (mkPieceView (ajs_kind jump) (ajs_color jump)) kSpriteStateJump
        (origin_x l (ajs_col jump)) (origin_y l (ajs_row jump)) cmds
  | GameOverBanner => cmds = [banner r "GAME OVER" (game_over_text (rn_theme r))]
  | Status text => cmds = [banner r text (black_token (rn_theme r))]
  end.

Definition draws (f0 : F) r (its : list Item) (cmds : list (Command I)) : Prop :=
  exists parts, Forall2 (item_draws f0 r) its parts /\ cmds = List.concat parts.

(** The renderer after [init]. *)
Record renderer_ok (f0 : F) (w h rows cols : Z) r : Prop := {
  ro_window : 0 < w < 2 ^ 24 /\ 0 < h < 2 ^ 24;
  ro_cells : 0 < rows < 2 ^ 31 /\ 0 < cols < 2 ^ 31;
  ro_layout : layout_fits w h cols rows (rn_layout r);
  ro_dims : window_width_ r = w /\ window_height_ r = h;
  ro_initialized : initialized_ r = true /\ rn_frame r = true;
  ro_background : is_Some (board_background r);
  ro_ratio : between 0 1 (jump_lift_ratio (rn_theme r));
  ro_sprites color kind state frame : kind <> Count ->
    (state = kSpriteStateIdle /\ frame = kSpriteIdleFrame \/
     state ∈ [kSpriteStateMove; kSpriteStateJump; kSpriteStateShortRest; kSpriteStateLongRest] /\
     1 <= frame <= kSpriteAnimationFrameCount) ->
    piece_sprites r !! mkKey color kind state frame =
      (if cell_size (rn_layout r) <=? 0 then None
       else Some (read_image f0 (piece_sprite (rn_theme_config r) color kind state frame)
                    (cell_size (rn_layout r), cell_size (rn_layout r))));
  ro_no_count color state frame : piece_sprites r !! mkKey color Count state frame = None
}.

(** A view of a board of the size of the window: cells of animations on the board, no NaN. *)
Record view_ok (rows cols : Z) (view : BoardViewModel) : Prop := {
  vo_size : v_height view = rows /\ v_width view = cols;
  vo_rests : Forall (fun a => number (ars_progress a)) (snap_rests (v_animations view));
  vo_moves : Forall (fun m => 0 <= ams_from_row m < rows /\ 0 <= ams_from_col m < cols /\
    0 <= ams_to_row m < rows /\ 0 <= ams_to_col m < cols /\ number (ams_progress m)) (snap_moves (v_animations view));
  vo_jumps : Forall (fun j => 0 <= ajs_row j < rows /\ 0 <= ajs_col j < cols /\ number (ajs_progress j))
    (snap_jumps (v_animations view))
}.

(** ** Functions that draw a list of commands *)

Definition paints (draw : F -> res F) (P : list (Command I) -> Prop) : Prop :=
  exists cmds, P cmds /\ forall f, draw f = foldM perform cmds f.

Lemma paints_one c : paints (perform c) (eq [c]).
Proof. exists [c]. split; [done|]. intros f. cbn. by destruct (perform c f). Qed.

Lemma paints_none (P : list (Command I) -> Prop) : P [] -> paints Ok P.
Proof. intros HP. by exists []. Qed.

Lemma paints_mono draw (P Q : list (Command I) -> Prop) : (forall cmds, P cmds -> Q cmds) -> paints draw P -> paints draw Q.
Proof. intros HPQ (cmds & HP & E). exists cmds. eauto. Qed.

Lemma paints_ext draw draw' P : (forall f, draw f = draw' f) -> paints draw' P -> paints draw P.
Proof. intros Hd (cmds & HP & E). exists cmds. split; [done|]. intros f. by rewrite Hd. Qed.

Lemma paints_bind {A} (m : res A) (Q : A -> Prop) (draw : A -> F -> res F) P :
  m ⇓ Q -> (forall a, Q a -> paints (draw a) P) -> paints (fun f => a ← m; draw a f) P.
Proof. intros Hm Hd. destruct m as [a|]; [|done]. by apply Hd. Qed.

Lemma paints_ok {A} (m : res A) a (draw : A -> F -> res F) P :
  m = Ok a -> paints (draw a) P -> paints (fun f => a ← m; draw a f) P.
Proof. by intros ->. Qed.

Lemma draws_nil f0 r : draws f0 r [] [].
Proof. by exists []. Qed.

Lemma draws_one f0 r it cmds : item_draws f0 r it cmds -> draws f0 r [it] cmds.
Proof. intros Hd. exists [cmds]. split; [by repeat constructor|]. cbn. by rewrite app_nil_r. Qed.

Lemma paints_seq f0 r d1 d2 its1 its2 : paints d1 (draws f0 r its1) -> paints d2 (draws f0 r its2) ->
  paints (fun f => f ← d1 f; d2 f) (draws f0 r (its1 ++ its2)).
Proof.
  intros (c1 & (p1 & H1 & ->) & E1) (c2 & (p2 & H2 & ->) & E2). exists (List.concat p1 ++ List.concat p2)%list. split.
  - exists (p1 ++ p2)%list. split; [by apply Forall2_app|]. by rewrite List.concat_app.
  - intros f. rewrite foldM_app, <- E1. destruct (d1 f); [apply E2|done].
Qed.

Lemma concat_singletons {A B} (g : A -> B) l : List.concat ((fun a => [g a]) <$> l) = g <$> l.
Proof. induction l as [|a l IH]; [done|]. cbn. by f_equal. Qed.

Lemma paints_list {A} f0 r (draw : A -> F -> res F) (its : A -> list Item) l :
  (forall a, a ∈ l -> paints (draw a) (draws f0 r (its a))) ->
  paints (foldM draw l) (draws f0 r (List.concat (its <$> l))).
Proof.
  induction l as [|a l IH]; intros Hall; [by apply paints_none, draws_nil|].
  eapply paints_ext; [|apply paints_seq; [apply Hall, list_elem_of_here|apply IH]]; [done|].
  intros b Hb. by apply Hall, list_elem_of_further.
Qed.

End Scene.

(** ** Numbers *)

Lemma clamped x : number x -> between 0 1 (fclamp x (float32_of_int 0) (float32_of_int 1)).
Proof. apply clamp_between. Qed.

(** The product of an integer with a fraction. *)
Lemma fraction_of n p : 0 <= n < 2 ^ 24 -> between 0 1 p ->
  between 0 n (fmul p (float32_of_int n)) /\ between 0 n (fmul (float32_of_int n) p).
Proof.
  intros Hn [Hf Hp]. destruct (of_int_between n) as [Hnf Hnv]; [lia|].
  pose proof unit_pos as Hu. rewrite Z.mul_0_l, Z.mul_1_l in Hp.
  assert (fval (float32_of_int n) = n * unit) as En by lia.
  split; apply fmul_between; try done; try lia; rewrite En; nia.
Qed.

Lemma frame_from_progress_spec p : number p -> frame_from_progress p ⇓ (fun f => 1 <= f <= kSpriteAnimationFrameCount).
Proof.
  intros Hp. unfold frame_from_progress, kSpriteAnimationFrameCount. apply returns_bind.
  eapply returns_mono; [apply (float_to_int_between _ 0 5); [done|done|apply fraction_of; [lia|by apply clamped]]|].
  intros n Hn. cbv beta in Hn. apply returns_ok. cbv beta. lia.
Qed.

Lemma interpolate_spec a b p : 0 <= a < 2 ^ 24 -> 0 <= b < 2 ^ 24 -> between 0 1 p ->
  interpolate a b p ⇓ on_the_way a b p.
Proof.
  intros Ha Hb [Hf Hp]. pose proof unit_pos as Hu. rewrite Z.mul_0_l, Z.mul_1_l in Hp.
  destruct (of_int_between a) as [Haf Hav]; [lia|]. destruct (of_int_between b) as [Hbf Hbv]; [lia|].
  assert (between (b - a) (b - a) (fsub (float32_of_int b) (float32_of_int a))) as [Hdf Hdv]
    by (apply fsub_between; [done|done|lia|lia|lia]).
  unfold interpolate. set (d := fsub _ _) in *.
  assert (fval d = (b - a) * unit) as Ed by lia.
  assert (forall lo hi, 0 <= a + lo -> a + hi < 2 ^ 24 -> lo * unit <= (b - a) * fval p <= hi * unit ->
    float_to_int (fadd (float32_of_int a) (fmul d p)) ⇓ (fun x => a + lo <= x <= a + hi)) as Hgen.
  { intros lo hi Hlo Hhi Hex. assert (between lo hi (fmul d p)) as [Hmf Hmv].
    { apply fmul_between; [done|done|lia|lia|]. rewrite Ed. nia. }
    eapply returns_mono; [apply (float_to_int_between _ (a + lo) (a + hi))|done]; [unfold fits_int; nia..|].
    apply fadd_between; [done|done|nia|lia|lia]. }
  pose proof (Hgen (Z.min (b - a) 0) (Z.max (b - a) 0) ltac:(lia) ltac:(lia) ltac:(nia)) as Hseg.
  destruct (float_to_int _) as [x|]; [|done]. cbn [returns] in Hseg, Hgen. apply returns_ok. unfold on_the_way, on_segment.
  split_and!; [lia|lia| |]; intros Ep; rewrite Ep in Hgen.
  - specialize (Hgen 0 0). lia.
  - specialize (Hgen (b - a) (b - a)). lia.
Qed.

(** ** Every drawing function paints its item *)

(** The next step is a sum of [int]s in range. *)
Ltac paint_int := eapply paints_ok; [apply int_checked_ok; unfold fits_int; lia|].

Definition coordinate (x : Z) : Prop := 0 <= x < 2 ^ 24.

Definition sprite_range (state : string) (frame : Z) : Prop :=
  state = kSpriteStateIdle /\ frame = kSpriteIdleFrame \/
  state ∈ [kSpriteStateMove; kSpriteStateJump; kSpriteStateShortRest; kSpriteStateLongRest] /\
  1 <= frame <= kSpriteAnimationFrameCount.

Section Correct.
Context {F I : Type} `{Graphics F I}.
Context (sinf : spec_float -> spec_float).
Hypothesis sinf_range : forall x, finite x -> between (-1) 1 (sinf x).
Context (f0 : F) (w h rows cols : Z) (r : Ctd26Renderer F I).
Hypothesis Hr : renderer_ok f0 w h rows cols r.
Notation l := (rn_layout r).
Notation size := (cell_size l).

Lemma size_range : 0 <= size /\ size * cols <= w /\ size * rows <= h /\ size <= w /\ size <= h.
Proof using Hr.
  destruct Hr as [Hw [Hrows Hcols] Hl]. pose proof (lf_size _ _ _ _ _ Hl). pose proof (lf_x _ _ _ _ _ Hl). pose proof (lf_y _ _ _ _ _ Hl).
  rewrite (lf_width _ _ _ _ _ Hl) in *. rewrite (lf_height _ _ _ _ _ Hl) in *. split_and!; nia.
Qed.

Lemma origin_x_ok col : 0 <= col < cols ->
  cell_origin_x l col = Ok (origin_x l col) /\ 0 <= origin_x l col <= w - size.
Proof using Hr.
  intros Hc. pose proof size_range as Hs. destruct Hr as [Hw [Hrows Hcols] Hl].
  pose proof (lf_x _ _ _ _ _ Hl) as Hx. rewrite (lf_width _ _ _ _ _ Hl) in Hx.
  assert (0 <= size * col <= w - size - board_x l) as Hp by nia.
  unfold cell_origin_x, origin_x, int_mul, int_add. rewrite to_int_id by (unfold fits_int; lia).
  rewrite (Z.mul_comm col), int_checked_ok, bind_ok, int_checked_ok by (unfold fits_int; lia). split; [done|lia].
Qed.

Lemma origin_y_ok row : 0 <= row < rows ->
  cell_origin_y l row = Ok (origin_y l row) /\ 0 <= origin_y l row <= h - size.
Proof using Hr.
  intros Hc. pose proof size_range as Hs. destruct Hr as [Hw [Hrows Hcols] Hl].
  pose proof (lf_y _ _ _ _ _ Hl) as Hy. rewrite (lf_height _ _ _ _ _ Hl) in Hy.
  assert (0 <= size * row <= h - size - board_y l) as Hp by nia.
  unfold cell_origin_y, origin_y, int_mul, int_add. rewrite to_int_id by (unfold fits_int; lia).
  rewrite (Z.mul_comm row), int_checked_ok, bind_ok, int_checked_ok by (unfold fits_int; lia). split; [done|lia].
Qed.

Lemma scaled_size_ok reference : 0 <= reference <= 100 -> scaled_size l reference = Ok (pixels l reference).
Proof using Hr.
  intros Href. pose proof size_range as Hs. destruct Hr as [Hw _ _]. unfold scaled_size, pixels, int_mul.
  destruct (Z.leb_spec size 0); [done|]. rewrite int_checked_ok, bind_ok by (unfold fits_int; nia).
  rewrite Z.quot_div_nonneg by (unfold kReferenceCellSizePixels; nia). done.
Qed.

Lemma cached_sprite piece state frame : sprite_range state frame ->
  match piece_sprites r !! mkKey (pv_color piece) (pv_kind piece) state frame with
  | Some (Some image) => if is_loaded (F := F) image then Some image else None
  | _ => None
  end = sprite_of f0 r piece state frame.
Proof using Hr.
  intros Hs. unfold sprite_of. destruct (decide (pv_kind piece = Count)) as [E|E].
  - rewrite E, (ro_no_count _ _ _ _ _ _ Hr), bool_decide_true, orb_true_r by done. done.
  - rewrite (ro_sprites _ _ _ _ _ _ Hr), (bool_decide_false _ E), orb_false_r by done. by destruct (size <=? 0).
Qed.

Lemma draw_piece_paints context state frame x y :
  select context = Ok (mkSelection state frame) -> sprite_range state frame -> coordinate x -> coordinate y ->
  paints (draw_piece r context x y) (eq [piece_command f0 r (sc_piece context) state frame x y]).
Proof using Hr.
  intros Esel Hrange Hx Hy. pose proof size_range as Hs. destruct (ro_window _ _ _ _ _ _ Hr) as [Hw Hh].
  unfold coordinate in *. eapply paints_ext; [|apply paints_one]. intros f. unfold draw_piece, piece_command.
  rewrite Esel, bind_ok. cbn [sel_state sel_frame]. rewrite <- cached_sprite by done.
  unfold piece_text_x, piece_text_y, int_add, int_mul, piece_font_thickness.
  rewrite !Z.quot_div_nonneg by lia. rewrite (int_checked_ok (size * 2)), bind_ok by (unfold fits_int; lia).
  assert (0 <= size / 6 <= size) by (split; [apply Z.div_pos|apply Z.div_le_upper_bound]; lia).
  assert (0 <= size * 2 / 3 <= size) by (split; [apply Z.div_pos|apply Z.div_le_upper_bound]; lia).
  rewrite Z.quot_div_nonneg by lia.
  rewrite !int_checked_ok, !bind_ok, scaled_size_ok, bind_ok by (unfold fits_int, kReferencePieceFontThickness; lia).
  destruct (piece_sprites r !! _) as [[image|]|]; [destruct (is_loaded _)|..]; try done; by destruct (pv_color _).
Qed.

(** An animated piece. *)
Lemma draw_animated_paints context state x y : number (sc_progress context) ->
  (forall frame, frame_from_progress (sc_progress context) = Ok frame ->
     select context = Ok (mkSelection state frame)) ->
  state ∈ [kSpriteStateMove; kSpriteStateJump; kSpriteStateShortRest; kSpriteStateLongRest] ->
  coordinate x -> coordinate y ->
  paints (draw_piece r context x y) (shows f0 r (sc_piece context) state x y).
Proof using Hr.
  intros Hn Hsel Hst Hx Hy. pose proof (frame_from_progress_spec _ Hn) as Hf.
  destruct (frame_from_progress (sc_progress context)) as [frame|]; [|done]. cbn [returns] in Hf.
  eapply paints_mono; [|by apply draw_piece_paints; [by apply Hsel|right|..]]. intros cmds <-. by exists frame.
Qed.

Lemma selection_paints row col : 0 <= row < rows -> 0 <= col < cols ->
  paints (draw_selection_highlight r (origin_x l col) (origin_y l row)) (item_draws f0 r (SelectionBox row col)).
Proof using Hr.
  intros. unfold draw_selection_highlight, selection_border_thickness.
  rewrite scaled_size_ok by (unfold kReferenceSelectionBorderThickness; lia).
  eapply paints_mono; [|apply paints_one]. by intros cmds <-.
Qed.

Lemma background_paints : paints (draw_board_background r) (item_draws f0 r Background).
Proof using Hr.
  unfold draw_board_background. destruct (ro_background _ _ _ _ _ _ Hr) as [image E]. rewrite E.
  eapply paints_mono; [|apply paints_one]. intros cmds <-. by exists image.
Qed.

Lemma banner_paints text color : paints (put_banner r text color) (eq [banner r text color]).
Proof using Hr.
  unfold put_banner, game_over_text_x, game_over_text_y, game_over_font_thickness.
  rewrite !scaled_size_ok by (unfold kReferenceGameOverMarginX, kReferenceGameOverMarginY, kReferenceGameOverFontThickness; lia).
  apply paints_one.
Qed.

Lemma jump_box_paints jump : 0 <= ajs_row jump < rows -> 0 <= ajs_col jump < cols -> number (ajs_progress jump) ->
  paints (draw_jump_effect sinf r (origin_x l (ajs_col jump)) (origin_y l (ajs_row jump))
            (fclamp (ajs_progress jump) (float32_of_int 0) (float32_of_int 1)))
    (item_draws f0 r (JumpBox jump)).
Proof using Hr sinf_range.
  intros Hrow Hcol Hn. pose proof size_range as Hs. destruct (ro_window _ _ _ _ _ _ Hr) as [Hw Hh].
  destruct (origin_y_ok _ Hrow) as [_ Hy]. pose proof unit_pos as Hu. pose proof (clamped _ Hn) as [Hpf Hpv].
  set (p := fclamp _ _ _) in *. unfold draw_jump_effect.
  eapply paints_bind; [unfold jump_lift_pixels; apply (float_to_int_between _ 0 size); [unfold fits_int; lia..|];
    apply fraction_of; [lia|apply (ro_ratio _ _ _ _ _ _ Hr)]|].
  intros lp Hlp. cbv beta in Hlp.
  assert (finite (sinf (fmul p kPi)) /\ - unit <= fval (sinf (fmul p kPi)) <= unit) as [Hsf Hsv].
  { assert (finite kPi /\ 3 * unit <= fval kPi <= 4 * unit) as [Hkf Hkv] by (vm_compute; done).
    destruct (sinf_range (fmul p kPi)) as [Hf Hv]; [|split; [done|lia]].
    apply (fmul_between _ _ 0 4); [done|done|lia|lia|nia]. }
  destruct (of_int_between lp) as [Hlf Hlv]; [lia|]. assert (fval (float32_of_int lp) = lp * unit) as Elp by lia.
  eapply paints_bind; [apply (float_to_int_between _ (- lp) lp); [unfold fits_int; lia..|];
    apply fmul_between; [done|done|lia|lia|rewrite Elp; nia]|].
  intros lift Hlift. cbv beta in Hlift.
  unfold int_sub. rewrite int_checked_ok by (unfold fits_int; lia). unfold jump_border_thickness.
  rewrite scaled_size_ok by (unfold kReferenceJumpBorderThickness; lia).
  eapply paints_mono; [|apply paints_one]. intros cmds <-. exists lift. split; [lia|done].
Qed.

Lemma rest_colors rest_kind n : 40 <= n <= 110 ->
  let '(b, g, c) := rest_color rest_kind n in 0 <= b < 256 /\ 0 <= g < 256 /\ 0 <= c < 256.
Proof using. intros Hn. destruct rest_kind; cbn [rest_color]; lia. Qed.

Lemma cooldown_paints row col progress rest_kind : 0 <= row < rows -> 0 <= col < cols -> number progress ->
  paints (draw_rest_cooldown_overlay r (origin_x l col) (origin_y l row) progress rest_kind)
    (item_draws f0 r (Cooldown row col)).
Proof using Hr.
  intros Hrow Hcol Hn. pose proof size_range as Hs. destruct (ro_window _ _ _ _ _ _ Hr) as [Hw Hh].
  destruct (origin_x_ok _ Hcol) as [_ Hx]. destruct (origin_y_ok _ Hrow) as [_ Hy].
  pose proof (clamped _ Hn) as [Hpf Hpv]. destruct (of_int_between 1) as [H1f H1v]; [lia|].
  unfold draw_rest_cooldown_overlay. set (p := fclamp _ _ _) in *.
  assert (between 0 1 (fsub (float32_of_int 1) p)) as Hrem by (apply fsub_between; [done|done|lia|lia|lia]).
  set (remaining := fsub _ _) in *. destruct (SFleb _ _); [by apply paints_none; left|].
  rewrite Z.quot_div_nonneg by lia. assert (0 <= size / 16 <= size) by (split; [apply Z.div_pos|apply Z.div_le_upper_bound]; lia).
  set (inset := Z.max 1 (size / 16)) in *. assert (1 <= inset) as Hi by lia.
  unfold int_sub, int_add. paint_int.
  destruct (Z.leb_spec (size - 2 * inset) 0) as [Hle|Hgt]; [by apply paints_none; left|].
  eapply paints_bind; [apply (float_to_int_between _ 0 (size - 2 * inset)); [unfold fits_int; lia..|];
    apply fceil_between; [lia|lia|apply fraction_of; [lia|done]]|].
  intros height Hht. cbv beta in Hht. do 4 paint_int.
  destruct (fraction_of 70 remaining ltac:(lia) Hrem) as [_ [Hmf Hmv]]. destruct (of_int_between 40) as [H4f H4v]; [lia|].
  eapply paints_bind; [apply (float_to_int_between _ 40 110); [done|done|];
    apply fadd_between; [done|done|lia|lia|lia]|].
  intros n Hn'. cbv beta in Hn'. pose proof (rest_colors rest_kind n Hn') as Hc.
  destruct (rest_color rest_kind n) as [[b g] c]. eapply paints_mono; [|apply paints_one]. intros cmds <-. right.
  eexists _, _, _, _, b, g, c. split; [done|]. unfold origin_x, origin_y in *. rewrite !Z.mul_add_distr_l, !Z.mul_1_r.
  split_and!; lia.
Qed.

Lemma draw_cell_paints view row col : view_ok rows cols view -> 0 <= row < rows -> 0 <= col < cols ->
  paints (draw_cell r view row col) (draws f0 r (cell_items view row col)).
Proof using Hr.
  clear sinf sinf_range. intros Hv Hrow Hcol. pose proof size_range as Hs. destruct (ro_window _ _ _ _ _ _ Hr) as [Hw Hh].
  destruct (origin_x_ok _ Hcol) as [Ex Hx]. destruct (origin_y_ok _ Hrow) as [Ey Hy]. unfold draw_cell, cell_items.
  eapply paints_ok; [exact Ex|]. eapply paints_ok; [exact Ey|].
  assert (number (board_view_rest_progress_at view row col)) as Hn.
  { unfold board_view_rest_progress_at, find_rest_at. destruct (find_if _ _) as [a|] eqn:Ef; [|done].
    apply find_if_elem in Ef as [Hin _]. pose proof (vo_rests _ _ _ Hv) as Hall. rewrite Forall_forall in Hall. by apply Hall. }
  apply paints_seq; [|apply paints_seq].
  - destruct (selected_at view row col); [|by apply paints_none, draws_nil].
    eapply paints_mono; [apply draws_one|by apply selection_paints].
  - destruct (board_view_is_resting_cell view row col); [|by apply paints_none, draws_nil].
    eapply paints_mono; [apply draws_one|by apply cooldown_paints].
  - destruct (_ || _); [by apply paints_none, draws_nil|].
    destruct (board_view_piece_at view row col) as [piece|]; [|by apply paints_none, draws_nil].
    destruct (board_view_is_resting_cell view row col).
    + eapply paints_mono; [apply draws_one|].
      apply (draw_animated_paints (mkContext piece false false true _ _)); [done| | |unfold coordinate; lia..].
      * intros frame E. cbn [select sc_moving sc_jumping sc_resting sc_progress sc_rest_kind] in *. by rewrite E.
      * destruct (board_view_rest_kind_at view row col); set_solver.
    + eapply paints_mono; [|apply (draw_piece_paints (idle_context piece) kSpriteStateIdle kSpriteIdleFrame);
        [done|by left|unfold coordinate; lia..]].
      intros cmds <-. by apply draws_one.
Qed.

Lemma draw_static_board_paints view : view_ok rows cols view ->
  paints (draw_static_board r view)
    (draws f0 r ([Background] ++
      List.concat ((fun row => List.concat (cell_items view row <$> zrange (v_width view))) <$> zrange (v_height view)))).
Proof using Hr.
  intros Hv. apply paints_seq; [eapply paints_mono; [apply draws_one|apply background_paints]|].
  destruct (vo_size _ _ _ Hv) as [-> ->].
  apply paints_list. intros row Hrow%elem_of_zrange. apply paints_list. intros col Hcol%elem_of_zrange.
  by apply draw_cell_paints.
Qed.

Lemma draw_move_paints rows' cols' move : rows' = rows -> cols' = cols ->
  0 <= ams_from_row move < rows' /\ 0 <= ams_from_col move < cols' /\
  0 <= ams_to_row move < rows' /\ 0 <= ams_to_col move < cols' /\ number (ams_progress move) ->
  paints (draw_move r move) (draws f0 r [InFlight move]).
Proof using Hr.
  clear sinf sinf_range. intros -> -> (H1 & H2 & H3 & H4 & Hn). pose proof size_range as Hs. destruct (ro_window _ _ _ _ _ _ Hr) as [Hw Hh].
  destruct (origin_x_ok _ H2) as [Ex Hx]. destruct (origin_y_ok _ H1) as [Ey Hy].
  destruct (origin_x_ok _ H4) as [Ex' Hx']. destruct (origin_y_ok _ H3) as [Ey' Hy'].
  unfold draw_move. pose proof (clamped _ Hn) as Hp. set (p := fclamp _ _ _) in *.
  do 4 (eapply paints_ok; [eassumption|]).
  eapply paints_bind; [apply interpolate_spec; [lia|lia|done]|]. intros x Hwx.
  eapply paints_bind; [apply interpolate_spec; [lia|lia|done]|]. intros y Hwy.
  eapply paints_mono; [|apply (draw_animated_paints (mkContext (mkPieceView (ams_kind move) (ams_color move)) true false false Short p)
    kSpriteStateMove x y)].
  - intros cmds Hsh. apply draws_one. by exists x, y.
  - destruct Hp as [Hf _]. by destruct p.
  - intros frame E. cbn [select sc_moving sc_progress] in *. by rewrite E.
  - set_solver.
  - destruct Hwx as [Hwx _]. unfold coordinate, on_segment in *. lia.
  - destruct Hwy as [Hwy _]. unfold coordinate, on_segment in *. lia.
Qed.

Lemma draw_jump_paints jump : 0 <= ajs_row jump < rows /\ 0 <= ajs_col jump < cols /\ number (ajs_progress jump) ->
  paints (draw_jump sinf r jump) (draws f0 r [JumpBox jump; Jumper jump]).
Proof using Hr sinf_range.
  intros (H1 & H2 & Hn). pose proof size_range as Hs. destruct (ro_window _ _ _ _ _ _ Hr) as [Hw Hh].
  destruct (origin_x_ok _ H2) as [Ex Hx]. destruct (origin_y_ok _ H1) as [Ey Hy].
  unfold draw_jump. eapply paints_ok; [exact Ex|]. eapply paints_ok; [exact Ey|].
  apply (paints_seq f0 r _ _ [JumpBox jump] [Jumper jump]).
  - eapply paints_mono; [apply draws_one|by apply jump_box_paints].
  - eapply paints_mono; [apply draws_one|].
    apply (draw_animated_paints (mkContext (mkPieceView (ajs_kind jump) (ajs_color jump)) false true false Short _));
      [| |set_solver|unfold coordinate; lia..].
    + destruct (clamped _ Hn) as [Hf _]. cbn [sc_progress]. by destruct (fclamp _ _ _).
    + intros frame E. cbn [select sc_moving sc_jumping sc_progress] in *. by rewrite E.
Qed.

Lemma scene_paints view : view_ok rows cols view ->
  paints (fun f =>
    f ← draw_static_board r view f;
    f ← draw_moving_pieces r view f;
    f ← draw_jumping_pieces sinf r view f;
    f ← draw_game_over_banner r (v_game_over view) f;
    draw_status_overlay r f) (draws f0 r (items (overlay_text_ r) view)).
Proof using Hr sinf_range.
  intros Hv. unfold items. rewrite app_assoc. apply paints_seq; [by apply draw_static_board_paints|].
  apply paints_seq; [|apply paints_seq; [|apply paints_seq]].
  - eapply paints_mono; [|apply (paints_list f0 r (draw_move r) (fun m => [InFlight m]))].
    { intros cmds. by rewrite concat_singletons. }
    intros m Hm. pose proof (vo_moves _ _ _ Hv) as Hall. rewrite Forall_forall in Hall.
    by apply (draw_move_paints rows cols); [..|apply Hall].
  - apply paints_list. intros j Hj. pose proof (vo_jumps _ _ _ Hv) as Hall. rewrite Forall_forall in Hall.
    by apply draw_jump_paints, Hall.
  - unfold draw_game_over_banner. destruct (v_game_over view); cbn [negb]; [|by apply paints_none, draws_nil].
    eapply paints_mono; [|apply banner_paints]. intros cmds <-. by apply draws_one.
  - unfold draw_status_overlay. destruct (overlay_text_ r); [|by apply paints_none, draws_nil].
    eapply paints_mono; [|apply banner_paints]. intros cmds <-. by apply draws_one.
Qed.

End Correct.

(** ** Loading the sprites *)

Section Loading.
Context {F I : Type} `{Graphics F I}.
Implicit Type r : Ctd26Renderer F I.
Notation Sprites := (gmap SpriteKey (option I)).

Definition wanted r (k : SpriteKey) : option I :=
  load_piece_sprite r (key_color k) (key_kind k) (key_state k) (key_frame k)
    (cell_size (rn_layout r), cell_size (rn_layout r)).

(** Sprites are only added. *)
Definition grows r (s s' : Sprites) : Prop :=
  (forall k, s !! k = Some (wanted r k) -> s' !! k = Some (wanted r k)) /\
  (forall k, key_kind k = Count -> s !! k = None -> s' !! k = None).

#[local] Instance grows_preorder r : PreOrder (grows r).
Proof. split; [done|]. intros s1 s2 s3 [H1 H2] [H3 H4]. split; auto. Qed.

Lemma cache_grows r c k st fr s : k <> Count -> grows r s (load_and_cache r c k st fr s).
Proof.
  intros Hk. unfold load_and_cache. split; intros key Hkey.
  - destruct (decide (mkKey c k st fr = key)) as [<-|Hne]; [by rewrite lookup_insert_eq|by rewrite lookup_insert_ne].
  - intros E. rewrite lookup_insert_ne; [done|]. intros <-. done.
Qed.

Lemma cache_has r c k st fr s : load_and_cache r c k st fr s !! mkKey c k st fr = Some (wanted r (mkKey c k st fr)).
Proof. unfold load_and_cache. by rewrite lookup_insert_eq. Qed.

Lemma fold_grows {A} r (step : Sprites -> A -> Sprites) l s : (forall a s, a ∈ l -> grows r s (step s a)) ->
  grows r s (foldl step s l) /\
  forall a k, a ∈ l -> (forall s, step s a !! k = Some (wanted r k)) -> foldl step s l !! k = Some (wanted r k).
Proof.
  revert s. induction l as [|b l IH]; intros s Hall; [split; [done|]; intros a k Ha%not_elem_of_nil; done|].
  destruct (IH (step s b)) as [IH1 IH2]; [intros a s' Ha; by apply Hall, list_elem_of_further|]. split; cbn [foldl].
  - etrans; [apply Hall, list_elem_of_here|done].
  - intros a k [->|Ha]%elem_of_cons Hk; [|by eapply IH2]. apply IH1, Hk.
Qed.

Definition animated_states : list string := [kSpriteStateMove; kSpriteStateJump; kSpriteStateShortRest; kSpriteStateLongRest].

(** One frame of each animation. *)
Lemma load_frame_spec r c k fr s : k <> Count ->
  let s' := load_and_cache r c k kSpriteStateLongRest fr (load_and_cache r c k kSpriteStateShortRest fr
    (load_and_cache r c k kSpriteStateJump fr (load_and_cache r c k kSpriteStateMove fr s))) in
  grows r s s' /\ forall st, st ∈ animated_states -> s' !! mkKey c k st fr = Some (wanted r (mkKey c k st fr)).
Proof.
  intros Hk s'. assert (forall st s, grows r s (load_and_cache r c k st fr s)) as Hg by (intros; by apply cache_grows).
  split; [unfold s'; by repeat (etrans; [|apply Hg])|].
  intros st Hst. unfold animated_states in Hst. repeat apply elem_of_cons in Hst as [->|Hst]; [..|by apply not_elem_of_nil in Hst];
    unfold s'; repeat first [apply cache_has | apply Hg].
Qed.

Lemma load_frames_spec r c k s : k <> Count ->
  grows r s (load_frames r c k s) /\
  (forall s, load_frames r c k s !! mkKey c k kSpriteStateIdle kSpriteIdleFrame =
     Some (wanted r (mkKey c k kSpriteStateIdle kSpriteIdleFrame))) /\
  forall s st fr, st ∈ animated_states -> 1 <= fr <= kSpriteAnimationFrameCount ->
    load_frames r c k s !! mkKey c k st fr = Some (wanted r (mkKey c k st fr)).
Proof.
  intros Hk. pose proof (fun s => fold_grows r _ ((fun i => i + 1) <$> zrange kSpriteAnimationFrameCount) s
    (fun fr s _ => proj1 (load_frame_spec r c k fr s Hk))) as Hf.
  split_and!.
  - etrans; [apply cache_grows, Hk|apply Hf].
  - intros s0. apply Hf, cache_has.
  - intros s0 st fr Hst Hfr. eapply Hf; [|intros s1; by apply load_frame_spec].
    apply list_elem_of_fmap. exists (fr - 1). split; [lia|]. apply elem_of_zrange. lia.
Qed.

Lemma performed_inv r c r' : performed r c = Ok r' -> exists f, r' = set_world r f.
Proof. intros (f & _ & [= <-])%bind_Ok_inv. by exists f. Qed.

Lemma color_listed c : c ∈ kColors.
Proof. destruct c; [apply list_elem_of_here|apply list_elem_of_further, list_elem_of_here]. Qed.

Lemma kind_listed k : k <> Count -> k ∈ sprite_kinds.
Proof. intros Hk. unfold sprite_kinds. rewrite !elem_of_cons. destruct k; tauto. Qed.

Lemma reload_spec r : cell_size (rn_layout r) <= 0 \/
  forall c k st fr, piece_sprites (reload_piece_sprites r) !! mkKey c k st fr =
    (if bool_decide (k = Count) then None else piece_sprites (reload_piece_sprites r) !! mkKey c k st fr) /\
    (k <> Count -> sprite_range st fr ->
     piece_sprites (reload_piece_sprites r) !! mkKey c k st fr = Some (wanted r (mkKey c k st fr))).
Proof.
  destruct (Z.leb_spec (cell_size (rn_layout r)) 0) as [Hle|Hgt]; [by left|]. right. intros c k st fr.
  unfold reload_piece_sprites. rewrite (proj2 (Z.leb_gt _ _) Hgt). cbn [piece_sprites set_sprites].
  assert (forall kind, kind ∈ sprite_kinds -> kind <> Count) as Hne by (intros kind; unfold sprite_kinds; set_solver).
  pose proof (fun c s => fold_grows r (fun s kind => load_frames r c kind s) sprite_kinds s
    (fun kind s Hin => proj1 (load_frames_spec r c kind s (Hne kind Hin)))) as Hkinds.
  destruct (fold_grows r (fun s c => foldl (fun s kind => load_frames r c kind s) s sprite_kinds) kColors ∅
    (fun c s _ => proj1 (Hkinds c s))) as [[_ Hnone] Hhas].
  split.
  - case_bool_decide as E; [|done]. by apply Hnone; [|apply lookup_empty].
  - intros Hk Hrange. refine (Hhas c _ (color_listed c) _). intros s.
    refine (proj2 (Hkinds c s) k _ (kind_listed k Hk) _). intros s'.
    destruct (load_frames_spec r c k s' Hk) as (_ & Hidle & Hanim).
    destruct Hrange as [[-> ->]|[Hst Hfr]]; [apply Hidle|by apply Hanim].
Qed.

(** [init], when no call throws, leaves the renderer ready. *)
Lemma init_ok r0 w h rows cols r : 0 < w < 2 ^ 24 -> 0 < h < 2 ^ 24 -> 0 < rows < 2 ^ 31 -> 0 < cols < 2 ^ 31 ->
  between 0 1 (jump_lift_ratio (rn_theme r0)) -> init r0 w h rows cols = Ok r ->
  renderer_ok (rn_world r0) w h rows cols r.
Proof.
  intros Hw Hh Hrows Hcols Hratio. unfold init, recalculate_layout.
  cbn [set_window window_width_ window_height_ board_width_cells_ board_height_cells_].
  rewrite !to_int_id by (unfold fits_int; lia).
  pose proof (calculate_fits w h cols rows ltac:(lia) ltac:(lia) Hcols Hrows) as Hl.
  destruct (calculate w h cols rows) as [l|]; [|done]. cbn [returns] in Hl. rewrite !bind_ok.
  set (r1 := if _ : bool then _ else _).
  assert (rn_theme_config r1 = rn_theme_config r0 /\ rn_theme r1 = rn_theme r0 /\ rn_layout r1 = l /\
    window_width_ r1 = w /\ window_height_ r1 = h /\ rn_world r1 = rn_world r0) as (E1 & E2 & E3 & E4 & E5 & E6).
  { unfold r1, reload_piece_sprites. repeat case_match; done. }
  unfold reload_board_background. destruct (load_board _ _) as [image|]; [|done]. rewrite !bind_ok.
  set (r2 := set_background r1 (Some image)). pose proof (reload_spec r2) as Hs.
  set (r3 := reload_piece_sprites r2) in *.
  assert (rn_theme_config r3 = rn_theme_config r0 /\ rn_theme r3 = rn_theme r0 /\ rn_layout r3 = l /\
    window_width_ r3 = w /\ window_height_ r3 = h /\ rn_frame r3 = true /\ board_background r3 = Some image)
    as (F1 & F2 & F3 & F4 & F5 & F6 & F7).
  { unfold r3, reload_piece_sprites. by destruct (_ <=? _). }
  assert (cell_size l <= 0 -> piece_sprites r3 = ∅) as Hempty.
  { intros Hle. unfold r3, reload_piece_sprites. cbn [r2 set_background rn_layout]. rewrite E3.
    by rewrite (proj2 (Z.leb_le _ _) Hle). }
  assert (rn_layout r2 = l /\ rn_theme_config r2 = rn_theme_config r0 /\ rn_world r2 = rn_world r0) as (G1 & G2 & G3) by done.
  clearbody r3 r2. intros Hok.
  repeat (apply bind_Ok_inv in Hok as (? & [? ->]%performed_inv & Hok)). injection Hok as <-.
  split; cbn [set_initialized set_world rn_layout window_width_ window_height_ initialized_ rn_frame board_background
    rn_theme rn_theme_config piece_sprites]; rewrite ?F1, ?F2, ?F3, ?F7; try done.
  - intros color kind state frame Hk Hrange. destruct Hs as [Hle|Hs].
    + rewrite G1 in Hle. by rewrite Hempty, (proj2 (Z.leb_le _ _) Hle).
    + destruct (Z.leb_spec (cell_size l) 0) as [Hle|Hgt]; [by rewrite Hempty|].
      rewrite (proj2 (Hs color kind state frame) Hk Hrange). unfold wanted, load_piece_sprite. cbn.
      by rewrite G1, G2, G3.
  - intros color state frame. destruct Hs as [Hle|Hs]; [rewrite G1 in Hle; by rewrite Hempty|].
    rewrite (proj1 (Hs color Count state frame)). by rewrite bool_decide_true.
Qed.

End Loading.


(** The renderer stays ready between frames. *)
Lemma present_keeps {F I : Type} `{Graphics F I} f0 w h rows cols (r : Ctd26Renderer F I) f :
  renderer_ok f0 w h rows cols r -> renderer_ok f0 w h rows cols (set_world r f).
Proof. intros []. by split. Qed.

(** A library that records the calls; images are their file names. *)
Module Trace.

#[export] Instance trace_graphics : Graphics (list (Command string)) string := {
  perform c f := Ok (f ++ [c])%list;
  poll_key f := (f, -1);
  read_image _ path _ := Some path;
  is_loaded _ := true
}.

End Trace.

#[local] Existing Instance Trace.trace_graphics.

(** A picture with a rook half-way on a move, a jumping knight and a resting king. *)
Definition sample_view : BoardViewModel :=
  mkView 2 2 500 false (Some (0, 0)) [Some (mkPieceView King White); Some (mkPieceView Rook Black); None; Some (mkPieceView Knight White)]
    (mkAnimation [mkMoveSnapshot 2 Rook Black 0 1 1 1 (float32_div (float32_of_int 1) (float32_of_int 2))]
       [mkJumpSnapshot 3 Knight White 1 1 (float32_of_int 0)]
       [mkRestSnapshot 1 0 0 Long (float32_div (float32_of_int 1) (float32_of_int 4))]).

Definition fresh_renderer : Ctd26Renderer (list (Command string)) string :=
  new_renderer kDefaultCtd26ThemeConfig kDefaultUiTheme [].

Definition sample_renderer : Ctd26Renderer (list (Command string)) string :=
  match init fresh_renderer 200 200 2 2 with Ok r => set_world r [] | Err _ => fresh_renderer end.

Lemma sample_renderer_ok : renderer_ok ([] : list (Command string)) 200 200 2 2 sample_renderer.
Proof.
  assert (is_ok (init fresh_renderer 200 200 2 2) = true) as Hok by (vm_compute; reflexivity).
  unfold sample_renderer. destruct (init fresh_renderer 200 200 2 2) as [r|] eqn:E; [|done].
  apply present_keeps. by apply (init_ok fresh_renderer).
Qed.

Lemma sample_view_ok : view_ok 2 2 sample_view.
Proof. split; [done|by repeat constructor..]. Qed.

(** A sine that is 0 everywhere obeys the assumption. *)
Definition flat_sine (x : spec_float) : spec_float := S754_zero false.

Lemma flat_sine_range x : finite x -> between (-1) 1 (flat_sine x).
Proof. intros _. split; [done|]. pose proof unit_pos. cbn [flat_sine fval]. lia. Qed.


(** The pieces of the frame, evaluated: the king rests on its cell, the rook is half-way. *)
Example sample_frame :
  match present flat_sine sample_renderer sample_view with
  | Ok (r, _) => omap (fun c => match c with DrawOn path x y => Some (path, x, y) | _ => None end) (rn_world r)
  | Err _ => []
  end =
  [("third_party/CTD26/board_classic.png", 0, 0);
      ("third_party/CTD26/pieces3/wK/states/long_rest/sprites/2.png", 0, 0);
      ("third_party/CTD26/pieces3/bR/states/move/sprites/3.png", 100, 50);
      ("third_party/CTD26/pieces3/wN/states/jump/sprites/1.png", 100, 100)].
Proof. vm_compute. reflexivity. Qed.

(** A NaN, which the snapshot reader accepts ([strtof] reads "nan"), passes through the clamp, and the
    cast to an animation frame is undefined behaviour. *)
Example nan_progress_undefined : frame_from_progress S754_nan = Err Undefined /\ parse_float "nan" = Some S754_nan.
Proof. split; vm_compute; reflexivity. Qed.

(** The login name has at most 32 characters, all printable. *)
Fixpoint printable (s : string) : bool :=
  match s with
  | EmptyString => true
  | String c s => (32 <=? Z.of_N (N_of_ascii c)) && (Z.of_N (N_of_ascii c) <=? 126) && printable s
  end.

Lemma pop_back_printable s : printable s = true -> printable (pop_back s) = true /\ slen (pop_back s) <= slen s.
Proof.
  unfold slen. induction s as [|c s IH]; [done|]. cbn [pop_back printable]. intros [Hc Hs]%andb_true_iff.
  destruct s as [|c' s]; [split; [done|cbn; lia]|]. destruct (IH Hs) as [H1 H2]. cbn [printable]. rewrite Hc, H1.
  split; [done|]. cbn [String.length] in *. lia.
Qed.

Lemma printable_app s s' : printable (s ++ s') = printable s && printable s'.
Proof. induction s as [|c s IH]; [done|]. cbn [printable append]. rewrite IH. by rewrite andb_assoc. Qed.

Lemma login_name_ok key name : printable name = true -> slen name <= 32 ->
  printable (handle_login_key key name) = true /\ slen (handle_login_key key name) <= 32.
Proof.
  intros Hp Hl. unfold handle_login_key. destruct (key <? 0); [done|].
  assert (0 <= Z.land key 255 < 256) as Hk.
  { change 255 with (Z.ones 8). rewrite Z.land_ones by lia. apply Z.mod_pos_bound. lia. }
  set (k := Z.land key 255) in *. destruct (_ || _).
  { destruct (_ =? _)%string; [done|]. destruct (pop_back_printable name Hp). split; [done|lia]. }
  destruct (_ && _ && _) eqn:E; [|done]. zbool.
  split.
  - rewrite printable_app, Hp. cbn [printable andb]. rewrite N_ascii_embedding by lia.
    rewrite Z2N.id by lia. rewrite !(proj2 (Z.leb_le _ _)) by lia. done.
  - rewrite slen_app. unfold slen at 2. cbn [String.length]. lia.
Qed.
