(* ===== verification/UiController.v ===== *)
(** * The controller of the graphical client

    [src/src/ui/controller/ui_controller.cpp] over the interface of renderers
    ([ui/rendering/i_ui_renderer.h]), here the class [UiRenderer] with laws, and its two
    implementations: the renderer of [Renderer.v] and the headless one
    ([ui/rendering/headless_renderer.cpp]).  [ui_refines_game]: frames, clicks and jumps of
    the mouse act on the game exactly as the clock and the input handler do on the layout
    that is drawn. *)

From S2P Require Import Prelude Piece BoardModel PathUtils PieceRules CollisionResolver MoveScheduler RealTimeArbiter GameState CppString BoardIO GameInput BoardView Snapshot Float32 Renderer.
From Stdlib Require Import Floats.SpecFloat String.
Open Scope Z_scope.

(** ** [IUiRenderer] *)

(** A sink is named by its address; a frame returns [should_continue]. *)
Class UiRenderer (R : Type) := {
  ui_init : R -> Z -> Z -> Z -> Z -> res R;
  ui_attach : R -> option Z -> res R;
  ui_layout : R -> BoardLayout;
  ui_present : R -> BoardViewModel -> res (R * bool);
  ui_shutdown : R -> res R
}.

(** What the controller relies on: [ready w h rows cols r] after [init], and the layout is
    that of the calculator. *)
Class UiRendererLaws (R : Type) `{UiRenderer R} (ready : Z -> Z -> Z -> Z -> R -> Prop) : Prop := {
  init_ready r w h rows cols r' : 0 < w < 2 ^ 24 -> 0 < h < 2 ^ 24 -> 0 < rows < 2 ^ 31 -> 0 < cols < 2 ^ 31 ->
    ui_init r w h rows cols = Ok r' -> ready w h rows cols r';
  ready_layout r w h rows cols : ready w h rows cols r -> calculate w h cols rows = Ok (ui_layout r);
  present_ready r w h rows cols view r' b : ready w h rows cols r -> ui_present r view = Ok (r', b) ->
    ready w h rows cols r'
}.

(** ** [UiController] *)

(** [processor_] is the input handler, which owns a layout. *)
Record UiController (R : Type) := mkController {
  uc_state : option GameState;
  uc_processor : option BoardLayout;
  uc_renderer : R
}.
Arguments mkController {R} _ _ _.
Arguments uc_state {R} _.
Arguments uc_processor {R} _.
Arguments uc_renderer {R} _.

Section Controller.
Context {R : Type} `{UiRenderer R}.
Implicit Type c : UiController R.

Definition sync_input_layout c : UiController R :=
  mkController (uc_state c)
    (match uc_processor c with Some _ => Some (ui_layout (uc_renderer c)) | None => None end) (uc_renderer c).

(** The controller of a local game; [self] is its address. *)
Definition local_controller (self : Z) (g : GameState) (renderer : R) : res (UiController R) :=
  layout ← bootstrap_default_layout g;
  renderer ← ui_attach renderer (Some self);
  window ← default_initial_window_size (gs_rows g) (gs_cols g);
  renderer ← ui_init renderer window.1 window.2 (gs_rows g) (gs_cols g);
  Ok (sync_input_layout (mkController (Some g) (Some layout) renderer)).

(** The controller of a remote game only draws. *)
Definition remote_controller (rows cols : Z) (renderer : R) : res (UiController R) :=
  window ← default_initial_window_size rows cols;
  renderer ← ui_init renderer window.1 window.2 rows cols;
  Ok (sync_input_layout (mkController None None renderer)).

Definition ui_frame c (delta_ms : Z) : res (UiController R * bool) :=
  let c := sync_input_layout c in
  match uc_state c with
  | None => Err Undefined
  | Some g =>
      g ← add_clock g delta_ms;
      view ← build g;
      r ← ui_present (uc_renderer c) view;
      Ok (mkController (Some g) (uc_processor c) r.1, r.2)
  end.

Definition controller_present c (view : BoardViewModel) : res (UiController R * bool) :=
  let c := sync_input_layout c in
  r ← ui_present (uc_renderer c) view;
  Ok (mkController (uc_state c) (uc_processor c) r.1, r.2).

Definition with_processor c (handle : BoardLayout -> GameState -> res GameState) : res (UiController R) :=
  match uc_processor c, uc_state c with
  | Some layout, Some g => g ← handle layout g; Ok (mkController (Some g) (Some layout) (uc_renderer c))
  | _, _ => Ok c
  end.

Definition on_pixel_click c (x y : Z) : res (UiController R) :=
  with_processor c (fun layout g => handle_click layout g x y).

Definition on_pixel_jump c (x y : Z) : res (UiController R) :=
  with_processor c (fun layout g => handle_jump layout g x y).

Definition controller_shutdown c : res (UiController R) :=
  renderer ← ui_shutdown (uc_renderer c); Ok (mkController (uc_state c) (uc_processor c) renderer).

(** A run: frames and mouse buttons. *)
Inductive UiEvent := EvFrame (delta_ms : Z) | EvClick (x y : Z) | EvJump (x y : Z).

Definition ui_event (e : UiEvent) c : res (UiController R) :=
  match e with
  | EvFrame delta_ms => r ← ui_frame c delta_ms; Ok r.1
  | EvClick x y => on_pixel_click c x y
  | EvJump x y => on_pixel_jump c x y
  end.

End Controller.

(** The same events on the game alone. *)
Definition game_event (layout : BoardLayout) (e : UiEvent) (g : GameState) : res GameState :=
  match e with
  | EvFrame delta_ms => add_clock g delta_ms
  | EvClick x y => handle_click layout g x y
  | EvJump x y => handle_jump layout g x y
  end.

(** ** The implementations *)

(** [Ctd26Renderer]. *)
#[export] Instance ctd26_ui {F I : Type} `{Graphics F I} (sinf : spec_float -> spec_float) :
    UiRenderer (Ctd26Renderer F I) := {
  ui_init := init;
  ui_attach := attach_input_sink;
  ui_layout := rn_layout;
  ui_present := present sinf;
  ui_shutdown := shutdown
}.

Module Headless.

Record HeadlessRenderer := mkHeadless {
  hl_layout : BoardLayout;
  hl_rows : Z;
  hl_cols : Z;
  hl_window_width : Z;
  hl_window_height : Z;
  hl_initialized : bool;
  shutdown_called_ : bool;
  should_continue_ : bool;
  present_count_ : Z;
  hl_input_sink : option Z;
  last_view_ : BoardViewModel
}.

Definition empty_headless : HeadlessRenderer :=
  mkHeadless empty_layout 0 0 0 0 false false true 0 None empty_view.

Definition headless_init (r : HeadlessRenderer) (window_width window_height rows cols : Z) : res HeadlessRenderer :=
  layout ← calculate window_width window_height (to_int cols) (to_int rows);
  Ok (mkHeadless layout rows cols window_width window_height true (shutdown_called_ r) (should_continue_ r)
        (present_count_ r) (hl_input_sink r) (last_view_ r)).

Definition headless_attach (r : HeadlessRenderer) (sink : option Z) : res HeadlessRenderer :=
  Ok (mkHeadless (hl_layout r) (hl_rows r) (hl_cols r) (hl_window_width r) (hl_window_height r) (hl_initialized r)
        (shutdown_called_ r) (should_continue_ r) (present_count_ r) sink (last_view_ r)).

Definition headless_present (r : HeadlessRenderer) (view : BoardViewModel) : res (HeadlessRenderer * bool) :=
  Ok (mkHeadless (hl_layout r) (hl_rows r) (hl_cols r) (hl_window_width r) (hl_window_height r) (hl_initialized r)
        (shutdown_called_ r) (should_continue_ r) (to_size (present_count_ r + 1)) (hl_input_sink r) view,
      should_continue_ r).

Definition headless_shutdown (r : HeadlessRenderer) : res HeadlessRenderer :=
  Ok (mkHeadless (hl_layout r) (hl_rows r) (hl_cols r) (hl_window_width r) (hl_window_height r) false
        true (should_continue_ r) (present_count_ r) (hl_input_sink r) (last_view_ r)).

#[export] Instance headless_ui : UiRenderer HeadlessRenderer := {
  ui_init := headless_init;
  ui_attach := headless_attach;
  ui_layout := hl_layout;
  ui_present := headless_present;
  ui_shutdown := headless_shutdown
}.

Definition headless_ready (w h rows cols : Z) (r : HeadlessRenderer) : Prop := calculate w h cols rows = Ok (hl_layout r).

#[export] Instance headless_laws : UiRendererLaws HeadlessRenderer headless_ready.
Proof.
  split.
  - intros r w h rows cols r' Hw Hh Hr Hc (l & E & [= <-])%bind_Ok_inv.
    by rewrite !to_int_id in E by (unfold fits_int; lia).
  - done.
  - intros r w h rows cols view r' b Hr [= <- _]. done.
Qed.

End Headless.

#[export] Existing Instance Headless.headless_ui.
#[export] Existing Instance Headless.headless_laws.

(** The drawing renderer keeps the layout of its window. *)
Definition ctd26_ready {F I : Type} (w h rows cols : Z) (r : Ctd26Renderer F I) : Prop :=
  calculate w h cols rows = Ok (rn_layout r).

Lemma present_set_world {F I : Type} `{Graphics F I} sinf (r : Ctd26Renderer F I) view r' b :
  present sinf r view = Ok (r', b) -> r' = r \/ exists f, r' = set_world r f.
Proof.
  unfold present. destruct (board_background r); [|intros [= <- <-]; by left]. destruct (_ || _); [intros [= <- <-]; by left|].
  intros Hok. right. repeat (apply bind_Ok_inv in Hok as (? & _ & Hok)).
  destruct (poll_key _) as [f key]. injection Hok as <- _. eauto.
Qed.

Lemma recalculate_layout_ok {F I : Type} `{Graphics F I} (r r' : Ctd26Renderer F I) :
  recalculate_layout r = Ok r' ->
  calculate (window_width_ r) (window_height_ r) (board_width_cells_ r) (board_height_cells_ r) = Ok (rn_layout r').
Proof.
  intros (l & E & [= <-])%bind_Ok_inv. rewrite E. f_equal. unfold reload_piece_sprites. by repeat case_match.
Qed.

#[export] Instance ctd26_laws {F I : Type} `{Graphics F I} (sinf : spec_float -> spec_float) :
  UiRendererLaws (H := ctd26_ui sinf) (Ctd26Renderer F I) ctd26_ready.
Proof.
  split.
  - intros r w h rows cols r' Hw Hh Hr Hc Hok. cbn [ui_init ctd26_ui] in Hok. unfold init in Hok.
    apply bind_Ok_inv in Hok as (r1 & Hl%recalculate_layout_ok & Hok). cbn in Hl.
    rewrite !to_int_id in Hl by (unfold fits_int; lia). unfold ctd26_ready. rewrite Hl. f_equal.
    apply bind_Ok_inv in Hok as (r2 & (image & _ & [= <-])%bind_Ok_inv & Hok).
    repeat (apply bind_Ok_inv in Hok as (? & [? ->]%performed_inv & Hok)). injection Hok as <-.
    cbn. unfold reload_piece_sprites. by case_match.
  - done.
  - intros r w h rows cols view r' b Hr [->|[f ->]]%present_set_world; done.
Qed.

(** ** The controller refines the game *)

Section Refinement.
Context {R : Type} {rd_ok : Z -> Z -> Z -> Z -> R -> Prop} `{UiRendererLaws R rd_ok}.
Implicit Type c : UiController R.

(** The layout of the handler is the one that is drawn. *)
Definition controller_ok (w h rows cols : Z) (l : BoardLayout) (g : GameState) c : Prop :=
  rd_ok w h rows cols (uc_renderer c) /\ calculate w h cols rows = Ok l /\
  uc_state c = Some g /\ uc_processor c = Some l.

Lemma with_processor_refines w h rows cols l g c handle c' : controller_ok w h rows cols l g c ->
  with_processor c handle = Ok c' -> exists g', handle l g = Ok g' /\ controller_ok w h rows cols l g' c'.
Proof.
  intros (Hrd & Hl & Hs & Hp). unfold with_processor. rewrite Hs, Hp. intros (g' & E & [= <-])%bind_Ok_inv.
  by exists g'.
Qed.

Lemma ui_event_refines w h rows cols l g c e c' : controller_ok w h rows cols l g c ->
  ui_event e c = Ok c' -> exists g', game_event l e g = Ok g' /\ controller_ok w h rows cols l g' c'.
Proof.
  intros Hc. destruct e as [d|x y|x y]; cbn [ui_event game_event];
    [|intros E; exact (with_processor_refines _ _ _ _ _ _ _ _ _ Hc E)..].
  destruct Hc as (Hrd & Hl & Hs & Hp). unfold ui_frame, sync_input_layout. rewrite Hs, Hp. cbn [uc_state uc_renderer uc_processor].
  intros ([c1 b] & E & [= <-])%bind_Ok_inv. apply bind_Ok_inv in E as (g' & Eg & E).
  apply bind_Ok_inv in E as (view & _ & E). apply bind_Ok_inv in E as ([rd b'] & Ep & [= <- <-]).
  exists g'. split; [done|]. split_and!; try done; [by eapply present_ready|].
  cbn. f_equal. pose proof (ready_layout _ _ _ _ _ Hrd). congruence.
Qed.

Lemma ui_run_refines w h rows cols l events : forall g c c', controller_ok w h rows cols l g c ->
  foldM ui_event events c = Ok c' -> exists g', foldM (game_event l) events g = Ok g' /\ controller_ok w h rows cols l g' c'.
Proof.
  induction events as [|e events IH]; intros g c c' Hc; cbn [foldM]; [intros [= <-]; eauto|].
  intros (c1 & E1 & E2)%bind_Ok_inv. destruct (ui_event_refines _ _ _ _ _ _ _ _ _ Hc E1) as (g1 & Eg & Hc1).
  destruct (IH _ _ _ Hc1 E2) as (g' & Eg' & Hc'). exists g'. by rewrite Eg, bind_ok.
Qed.

End Refinement.

(** The default window of a board has cells of 100 pixels and no margin. *)
Lemma default_layout rows cols : 0 < rows < 100000 -> 0 < cols < 100000 ->
  default_initial_window_size rows cols = Ok (cols * 100, rows * 100) /\
  calculate (cols * 100) (rows * 100) cols rows = Ok (mkLayout 0 0 100 (100 * cols) (100 * rows)).
Proof.
  intros Hr Hc. unfold default_initial_window_size, int_mul, kReferenceCellSizePixels.
  rewrite !to_int_id by (unfold fits_int; lia). rewrite !int_checked_ok, !bind_ok by (unfold fits_int; lia).
  split; [done|]. unfold calculate, int_mul, int_sub.
  destruct (Z.leb_spec (cols * 100) 0), (Z.leb_spec (rows * 100) 0), (Z.leb_spec cols 0), (Z.leb_spec rows 0); try lia.
  cbn [orb]. rewrite (Z.mul_comm cols 100), (Z.mul_comm rows 100), !Z.quot_mul, Z.min_id by lia.
  rewrite !int_checked_ok, !bind_ok by (unfold fits_int; lia). rewrite !int_checked_ok, !bind_ok by (unfold fits_int; lia).
  by rewrite !Z.sub_diag.
Qed.

Lemma ui_run_game {R : Type} {rd_ok : Z -> Z -> Z -> Z -> R -> Prop} `{UiRendererLaws R rd_ok} (self : Z) (g : GameState) (renderer : R)
    (c c' : UiController R) (events : list UiEvent)
    (Hrows : 0 < gs_rows g < 100000) (Hcols : 0 < gs_cols g < 100000)
    (Hc : local_controller self g renderer = Ok c) (Hrun : foldM ui_event events c = Ok c') :
  let l := mkLayout 0 0 100 (100 * gs_cols g) (100 * gs_rows g) in
  ui_layout (uc_renderer c') = l /\
  exists g', foldM (game_event l) events g = Ok g' /\ uc_state c' = Some g'.
Proof.
  intros l. destruct (default_layout (gs_rows g) (gs_cols g) Hrows Hcols) as [Ew El]. fold l in El.
  apply bind_Ok_inv in Hc as (l0 & _ & Hc). apply bind_Ok_inv in Hc as (rd1 & _ & Hc).
  rewrite Ew, bind_ok in Hc. apply bind_Ok_inv in Hc as (rd2 & Hi & [= <-]). cbn [fst snd] in Hi.
  apply init_ready in Hi; [|lia..]. pose proof (ready_layout _ _ _ _ _ Hi) as Hl.
  assert (controller_ok (rd_ok := rd_ok) (gs_cols g * 100) (gs_rows g * 100) (gs_rows g) (gs_cols g) l g
    (sync_input_layout (mkController (Some g) (Some l0) rd2))) as Hok.
  { split_and!; try done. cbn. f_equal. congruence. }
  destruct (ui_run_refines _ _ _ _ _ _ _ _ _ Hok Hrun) as (g' & Eg & Hrd & Hl' & Hs & Hp).
  split; [|by exists g']. pose proof (ready_layout _ _ _ _ _ Hrd). congruence.
Qed.

(** C30: A local graphical game, with any renderer that keeps the layout of its window
    (both renderers do): whatever sequence of frames, left and right clicks it runs
    through, the game is exactly the one that the clock and the input handler produce
    from the same events, with clicks read on a grid of 100-pixel cells; that is the
    layout that is drawn. *)
Theorem ui_refines_game {R : Type} {rd_ok : Z -> Z -> Z -> Z -> R -> Prop} `{UiRendererLaws R rd_ok} (self : Z) (g : GameState) (renderer : R)
    (c c' : UiController R) (events : list UiEvent)
    (Hrows : 0 < gs_rows g < 100000) (Hcols : 0 < gs_cols g < 100000)
    (Hc : local_controller self g renderer = Ok c) (Hrun : foldM ui_event events c = Ok c') :
  let l := mkLayout 0 0 100 (100 * gs_cols g) (100 * gs_rows g) in
  ui_layout (uc_renderer c') = l /\
  exists g', foldM (game_event l) events g = Ok g' /\ uc_state c' = Some g'.
Proof. by eapply ui_run_game. Qed.

Definition sample_events : list UiEvent := [EvClick 350 350; EvClick 350 50; EvFrame 16; EvJump 10 10; EvFrame 1000].

Definition sample_controller : UiController Headless.HeadlessRenderer :=
  match local_controller 4096 sample_game Headless.empty_headless with
  | Ok c => c
  | Err _ => mkController None None Headless.empty_headless
  end.

Definition sample_result : UiController Headless.HeadlessRenderer :=
  match foldM ui_event sample_events sample_controller with Ok c => c | Err _ => sample_controller end.

Lemma ui_refines_game_witness :
  let l := mkLayout 0 0 100 (100 * gs_cols sample_game) (100 * gs_rows sample_game) in
  ui_layout (uc_renderer sample_result) = l /\
  exists g', foldM (game_event l) sample_events sample_game = Ok g' /\ uc_state sample_result = Some g'.
Proof.
  refine (ui_refines_game (rd_ok := Headless.headless_ready) 4096 sample_game Headless.empty_headless
    sample_controller sample_result sample_events _ _ _ _).
  - vm_compute. split; reflexivity.
  - vm_compute. split; reflexivity.
  - apply ok_or. vm_compute. reflexivity.
  - apply ok_or. vm_compute. reflexivity.
Defined.

(** ** The picture of a running game is drawable *)

(** Start and end times are [int64_t] values. *)
Definition times_fit (s : MoveScheduler) : Prop :=
  (forall m, m ∈ pending_moves_ s -> fits_i64 (pm_start_time m)) /\
  (forall j, j ∈ active_jumps_ s -> fits_i64 (j_start_time j)) /\
  (forall id a, active_rests_ s !! id = Some a -> fits_i64 (ar_start_time_ms a) /\ fits_i64 (ar_end_time_ms a)).

(** The view of a game meets the assumptions of [present_correct]. *)
Lemma view_of_game_ok g view : game_inv g -> times_fit (scheduler_ (arbiter_ g)) -> build g = Ok view ->
  view_ok (gs_rows g) (gs_cols g) view.
Proof.
  intros Hg (Hm & Hj & Ha) Hb. rewrite build_eq in Hb by apply (fi_wf _ _ (gi_flights g Hg)). injection Hb as <-.
  pose proof (gi_clock g Hg) as Hclk. pose proof (fi_ok _ _ (gi_flights g Hg)) as Hok. unfold clock_ms in Hclk.
  assert (fits_i64 (clock_ms_ (arbiter_ g))) as Hc by (unfold fits_i64; lia).
  split; [done| | |]; apply Forall_forall; cbn; intros x (y & Hy & E)%list_elem_of_omap.
  - destruct y as [id a]. apply elem_of_map_to_list in Hy. destruct (_ <=? _); [done|]. injection E as <-.
    destruct (Ha _ _ Hy). by apply progress_number.
  - destruct (_ <=? _); [done|]. injection E as <-.
    destruct (Hok (move_flight y)) as [_ Hf Ht Htm]; [apply elem_of_app; left; by apply list_elem_of_fmap_2|].
    cbn in *. unfold inside, gs_rows, gs_cols in *. split_and!; try lia. apply progress_number; [done|by apply Hm|unfold fits_i64; lia].
  - destruct (_ <=? _); [done|]. injection E as <-.
    destruct (Hok (jump_flight y)) as [_ Hf Ht Htm]; [apply elem_of_app; right; by apply list_elem_of_fmap_2|].
    cbn in *. unfold inside, gs_rows, gs_cols in *. split_and!; try lia. apply progress_number; [done|by apply Hj|unfold fits_i64; lia].
Qed.
