(* ===== verification/Threads.v ===== *)
(** * Listener threads

    [src/src/matchmaking/http/matchmaking_http_server.cpp],
    [server/gateway/gateway_notification_listener.cpp] and
    [server/game/game_creation_listener.cpp] have the same shape: the constructor opens an
    acceptor and starts a thread that accepts and handles connections until the atomic
    flag [stop_requested_] is set; [stop], called by the owner's thread, sets the flag,
    closes the acceptor, joins the thread and resets the acceptor.
    ([app/health_http_server.cpp] has the same loop, and can be started again.)

    The two threads and the clients are a step relation on one state.  A call of the
    handler and an operation of the owner have a beginning and an end, and take effect at
    the end; what they do to the shared service is a parameter, and exceptions of the
    handler, which the loop catches, are among its results.  [listener_safe] holds for
    every interleaving, [stop_returns] for every run after [stop] was called.  The
    examples at the end are schedules with conflicting accesses, for which C++
    defines no behaviour. *)

From S2P Require Import Prelude Piece BoardModel PathUtils PieceRules CollisionResolver MoveScheduler RealTimeArbiter GameState CppString BoardIO GameMessages Codecs Rooms Sessions Users GameLoop RuntimeStore Matchmaking GameResult Hosting Allocation MatchService Lobby Observability Http.
From stdpp Require Import relations.
From Stdlib Require Import String.
Open Scope Z_scope.

(** Who takes a step. *)
Inductive Actor := Owner | Loop | Client.

Section Machine.
(** Requests, operations of the owner, the service both work on, and the requests and
    operations there can be. *)
Context {R W St : Type} (handle : R -> St -> res St) (work : W -> St -> res St).
Context (arrives : R -> Prop) (asked : W -> Prop).

(** Where the listener's thread is in [run_loop]: at the test of the flag, at the test of
    the acceptor, at [accept], at the test after an error of [accept], reading a request,
    in the handler, or at its end. *)
Inductive LoopPc := AtTest | AtOpen | AtAccept | AtError | Reading | Handling (request : R) | LoopDone.

(** Where the owner is: between operations, in one, at the steps of [stop], or finished. *)
Inductive OwnerPc := Idle | Working (op : W) | AtStop | AtClose | AtJoin | AtReset | Stopped.

(** [th_acceptor] is [None] once the acceptor is reset, and otherwise says if it is open;
    [th_calls] counts the calls of [stop] that follow the current one (the destructor
    calls it again). *)
Record Threads := mkThreads {
  th_stop_requested : bool;
  th_acceptor : option bool;
  th_loop : LoopPc;
  th_owner : OwnerPc;
  th_calls : nat;
  th_service : St
}.

Definition set_loop (m : Threads) (pc : LoopPc) : Threads :=
  mkThreads (th_stop_requested m) (th_acceptor m) pc (th_owner m) (th_calls m) (th_service m).
Definition set_owner (m : Threads) (pc : OwnerPc) : Threads :=
  mkThreads (th_stop_requested m) (th_acceptor m) (th_loop m) pc (th_calls m) (th_service m).
Definition set_service (m : Threads) (s : St) : Threads :=
  mkThreads (th_stop_requested m) (th_acceptor m) (th_loop m) (th_owner m) (th_calls m) s.

(** After the constructor. *)
Definition started (calls : nat) (s : St) : Threads := mkThreads false (Some true) AtTest Idle calls s.

(** [run_loop] of the listener's thread.  Dereferencing an acceptor that was reset has no
    step. *)
Inductive loop_step : Threads -> Threads -> Prop :=
| loop_test m : th_loop m = AtTest ->
    loop_step m (set_loop m (if th_stop_requested m then LoopDone else AtOpen))
| loop_open m : th_loop m = AtOpen ->
    loop_step m (set_loop m (match th_acceptor m with Some true => AtAccept | _ => LoopDone end))
| loop_would_block m : th_loop m = AtAccept -> th_acceptor m = Some true -> loop_step m (set_loop m AtTest)
| loop_accept_error m o : th_loop m = AtAccept -> th_acceptor m = Some o -> loop_step m (set_loop m AtError)
| loop_accepted m : th_loop m = AtAccept -> th_acceptor m = Some true -> loop_step m (set_loop m Reading)
| loop_after_error m : th_loop m = AtError ->
    loop_step m (set_loop m (if th_stop_requested m then LoopDone else AtTest))
| loop_handled m request s : th_loop m = Handling request -> handle request (th_service m) = Ok s ->
    loop_step m (set_loop (set_service m s) AtTest).

(** The client of the accepted connection sends a request, or closes. *)
Inductive client_step : Threads -> Threads -> Prop :=
| client_sends m request : th_loop m = Reading -> arrives request -> client_step m (set_loop m (Handling request))
| client_closes m : th_loop m = Reading -> client_step m (set_loop m AtTest).

(** The return of a call of [stop]. *)
Definition stop_return (m : Threads) : Threads :=
  match th_calls m with
  | O => set_owner m Stopped
  | S calls => mkThreads (th_stop_requested m) (th_acceptor m) (th_loop m) AtStop calls (th_service m)
  end.

(** The owner: its operations, then [stop]. *)
Inductive owner_step : Threads -> Threads -> Prop :=
| owner_begins m op : th_owner m = Idle -> asked op -> owner_step m (set_owner m (Working op))
| owner_ends m op s : th_owner m = Working op -> work op (th_service m) = Ok s ->
    owner_step m (set_owner (set_service m s) Idle)
| owner_calls_stop m : th_owner m = Idle -> owner_step m (set_owner m AtStop)
| stop_exchange m : th_owner m = AtStop -> th_stop_requested m = false ->
    owner_step m (mkThreads true (th_acceptor m) (th_loop m) AtClose (th_calls m) (th_service m))
| stop_again m : th_owner m = AtStop -> th_stop_requested m = true -> owner_step m (stop_return m)
| stop_close m : th_owner m = AtClose ->
    owner_step m (mkThreads (th_stop_requested m) (match th_acceptor m with Some _ => Some false | None => None end)
      (th_loop m) AtJoin (th_calls m) (th_service m))
| stop_join m : th_owner m = AtJoin -> th_loop m = LoopDone -> owner_step m (set_owner m AtReset)
| stop_reset m : th_owner m = AtReset ->
    owner_step m (stop_return (mkThreads (th_stop_requested m) None (th_loop m) AtReset (th_calls m) (th_service m))).

Definition actor_step (a : Actor) : Threads -> Threads -> Prop :=
  match a with Owner => owner_step | Loop => loop_step | Client => client_step end.
Definition step (m m' : Threads) : Prop := exists a, actor_step a m m'.

Definition reachable (calls : nat) (s : St) (m : Threads) : Prop := rtc step (started calls s) m.

(** ** Schedules *)

(** Results of [accept], and what a schedule picks at a step. *)
Inductive AcceptResult := WouldBlock | AcceptFails | Connects.
Inductive Choice :=
| LoopRuns (accept : AcceptResult)
| OwnerBegins (op : W)
| OwnerRuns
| ClientSends (request : R)
| ClientCloses.

Definition exec_accept (accept : AcceptResult) (m : Threads) : option Threads :=
  match th_acceptor m, accept with
  | Some true, WouldBlock => Some (set_loop m AtTest)
  | Some true, Connects => Some (set_loop m Reading)
  | Some _, AcceptFails => Some (set_loop m AtError)
  | _, _ => None
  end.

Definition exec_loop (accept : AcceptResult) (m : Threads) : option Threads :=
  match th_loop m with
  | AtTest => Some (set_loop m (if th_stop_requested m then LoopDone else AtOpen))
  | AtOpen => Some (set_loop m (match th_acceptor m with Some true => AtAccept | _ => LoopDone end))
  | AtAccept => exec_accept accept m
  | AtError => Some (set_loop m (if th_stop_requested m then LoopDone else AtTest))
  | Handling request =>
      match handle request (th_service m) with Ok s => Some (set_loop (set_service m s) AtTest) | Err _ => None end
  | Reading | LoopDone => None
  end.

Definition exec_owner (m : Threads) : option Threads :=
  match th_owner m with
  | Idle => Some (set_owner m AtStop)
  | Working op =>
      match work op (th_service m) with Ok s => Some (set_owner (set_service m s) Idle) | Err _ => None end
  | AtStop =>
      Some (if th_stop_requested m then stop_return m
            else mkThreads true (th_acceptor m) (th_loop m) AtClose (th_calls m) (th_service m))
  | AtClose =>
      Some (mkThreads (th_stop_requested m) (match th_acceptor m with Some _ => Some false | None => None end)
        (th_loop m) AtJoin (th_calls m) (th_service m))
  | AtJoin => match th_loop m with LoopDone => Some (set_owner m AtReset) | _ => None end
  | AtReset =>
      Some (stop_return (mkThreads (th_stop_requested m) None (th_loop m) AtReset (th_calls m) (th_service m)))
  | Stopped => None
  end.

Definition exec (c : Choice) (m : Threads) : option Threads :=
  match c, th_owner m, th_loop m with
  | LoopRuns accept, _, _ => exec_loop accept m
  | OwnerBegins op, Idle, _ => Some (set_owner m (Working op))
  | OwnerRuns, _, _ => exec_owner m
  | ClientSends request, _, Reading => Some (set_loop m (Handling request))
  | ClientCloses, _, Reading => Some (set_loop m AtTest)
  | _, _, _ => None
  end.

Definition choice_ok (c : Choice) : Prop :=
  match c with ClientSends request => arrives request | OwnerBegins op => asked op | _ => True end.

Fixpoint run_schedule (cs : list Choice) (m : Threads) : option Threads :=
  match cs with [] => Some m | c :: cs => m' ← exec c m; run_schedule cs m' end.

Lemma exec_loop_step accept m m' : exec_loop accept m = Some m' -> loop_step m m'.
Proof.
  unfold exec_loop, exec_accept. intros E.
  destruct (th_loop m) eqn:El; simplify_eq; try (by constructor); repeat case_match; simplify_eq; by econstructor.
Qed.

Lemma exec_owner_step m m' : exec_owner m = Some m' -> owner_step m m'.
Proof.
  unfold exec_owner. intros E.
  destruct (th_owner m) eqn:Eo; simplify_eq; try (by constructor); repeat case_match; simplify_eq; by econstructor.
Qed.

(** The schedules are the runs of the step relation. *)
Lemma exec_step m m' : step m m' <-> exists c, choice_ok c /\ exec c m = Some m'.
Proof.
  split.
  - intros ([] & Hs); cbn in Hs.
    + destruct Hs as [m op E Ha|m op s E Hw|m E|m E E'|m E E'|m E|m E E'|m E]; [by exists (OwnerBegins op); cbn; rewrite E| ..];
        exists OwnerRuns; (split; [done|]); cbn; unfold exec_owner; rewrite E, ?Hw, ?E'; done.
    + destruct Hs as [m E|m E|m E Ea|m o E Ea|m E Ea|m E|m request s E Eh];
        [exists (LoopRuns WouldBlock)|exists (LoopRuns WouldBlock)|exists (LoopRuns WouldBlock)
        |exists (LoopRuns AcceptFails)|exists (LoopRuns Connects)|exists (LoopRuns WouldBlock)|exists (LoopRuns WouldBlock)];
        (split; [done|]); cbn; unfold exec_loop, exec_accept; rewrite E, ?Ea, ?Eh; try done. by destruct o.
    + destruct Hs as [m request E Ha|m E]; [exists (ClientSends request)|exists ClientCloses]; cbn; rewrite E;
        split; by destruct (th_owner m).
  - intros ([accept|op| |request|] & Hc & E); cbn in Hc, E.
    + exists Loop. by apply (exec_loop_step accept).
    + exists Owner. destruct (th_owner m) eqn:Eo; simplify_eq. by constructor.
    + exists Owner. by apply exec_owner_step.
    + exists Client. destruct (th_owner m), (th_loop m) eqn:El; simplify_eq; by constructor.
    + exists Client. destruct (th_owner m), (th_loop m) eqn:El; simplify_eq; by constructor.
Qed.

Lemma schedule_steps cs m m' : Forall choice_ok cs -> run_schedule cs m = Some m' -> nsteps step (List.length cs) m m'.
Proof.
  intros Hcs. revert m. induction Hcs as [|c cs Hc Hcs IH]; intros m E; cbn in E; [simplify_eq; constructor|].
  destruct (exec c m) as [m1|] eqn:E1; [|done]. econstructor; [apply exec_step; by exists c|by apply IH].
Qed.

(** ** Invariant *)

Definition in_stop (pc : OwnerPc) : bool :=
  match pc with AtClose | AtJoin | AtReset => true | _ => false end.

Record threads_inv (m : Threads) : Prop := {
  (** The acceptor is reset only when the thread has ended. *)
  ti_reset : th_acceptor m = None -> th_loop m = LoopDone;
  (** Before the call of [stop] the flag is clear and the acceptor open. *)
  ti_before : th_stop_requested m = false -> th_acceptor m = Some true /\ th_loop m <> LoopDone /\
    in_stop (th_owner m) = false /\ th_owner m <> Stopped;
  (** After the first call has returned the thread has ended. *)
  ti_after : th_stop_requested m = true -> in_stop (th_owner m) = false ->
    (th_owner m = AtStop \/ th_owner m = Stopped) /\ th_acceptor m = None;
  ti_joined : th_owner m = AtReset -> th_loop m = LoopDone;
  ti_closed : th_stop_requested m = true -> th_owner m <> AtClose -> th_acceptor m <> Some true
}.

Lemma started_inv calls s : threads_inv (started calls s).
Proof. by split. Qed.

(** A step of the thread that does not end it early. *)
Lemma set_loop_inv m pc s : threads_inv m -> th_loop m <> LoopDone ->
  (th_stop_requested m = false -> pc <> LoopDone) -> threads_inv (set_loop (set_service m s) pc).
Proof.
  intros [I1 I2 I3 I4 I5] Hl Hpc. split; cbn.
  - intros Ha. by destruct (Hl (I1 Ha)).
  - intros Hf. destruct (I2 Hf) as (?&?&?&?). auto.
  - done.
  - intros Ho. by destruct (Hl (I4 Ho)).
  - done.
Qed.

Lemma set_loop_inv' m pc : threads_inv m -> th_loop m <> LoopDone ->
  (th_stop_requested m = false -> pc <> LoopDone) -> threads_inv (set_loop m pc).
Proof. intros Hi Hl Hpc. pose proof (set_loop_inv m pc (th_service m) Hi Hl Hpc). by destruct m. Qed.

Lemma loop_step_inv m m' : threads_inv m -> loop_step m m' -> threads_inv m'.
Proof.
  intros Hi Hs. destruct Hs; first [apply set_loop_inv|apply set_loop_inv']; try congruence; try done.
  - intros Hf. by rewrite Hf.
  - intros Hf. destruct (ti_before _ Hi Hf) as (-> & _). done.
  - intros Hf. by rewrite Hf.
Qed.

Lemma client_step_inv m m' : threads_inv m -> client_step m m' -> threads_inv m'.
Proof. intros Hi Hs. destruct Hs; apply set_loop_inv'; congruence. Qed.

Lemma stop_return_inv m : th_stop_requested m = true -> th_acceptor m = None -> th_loop m = LoopDone ->
  threads_inv (stop_return m).
Proof.
  intros Hf Ha Hl. unfold stop_return. destruct (th_calls m); split; cbn; try done; try congruence; auto.
Qed.

(** The flag tells on which side of the call of [stop] the owner is. *)
Lemma before_stop m : threads_inv m -> in_stop (th_owner m) = false -> th_owner m <> AtStop -> th_owner m <> Stopped ->
  th_stop_requested m = false.
Proof.
  intros Hi H1 H2 H3. destruct (th_stop_requested m) eqn:E; [|done]. by destruct (ti_after _ Hi E H1) as [[?|?] _].
Qed.

Lemma within_stop m : threads_inv m -> in_stop (th_owner m) = true -> th_stop_requested m = true.
Proof.
  intros Hi H1. destruct (th_stop_requested m) eqn:E; [done|].
  destruct (ti_before _ Hi E) as (_ & _ & H & _). congruence.
Qed.

(** Moves of the owner among its own places before the flag is set. *)
Lemma set_owner_inv m pc s : threads_inv m -> th_stop_requested m = false -> in_stop pc = false -> pc <> Stopped ->
  threads_inv (set_owner (set_service m s) pc).
Proof.
  intros Hi Hf Hpc Hs. destruct (ti_before _ Hi Hf) as (H1 & H2 & H3 & H4). split; cbn; try congruence; try done.
  intros ->. done.
Qed.

Lemma set_owner_inv' m pc : threads_inv m -> th_stop_requested m = false -> in_stop pc = false -> pc <> Stopped ->
  threads_inv (set_owner m pc).
Proof. intros Hi Hf Hp Hs. pose proof (set_owner_inv m pc (th_service m) Hi Hf Hp Hs). by destruct m. Qed.

Lemma owner_step_inv m m' : threads_inv m -> owner_step m m' -> threads_inv m'.
Proof.
  intros Hi Hs. destruct Hs as [m op Ho Ha|m op s Ho Hw|m Ho|m Ho Hf|m Ho Hf|m Ho|m Ho Hl|m Ho].
  - apply set_owner_inv'; try done. apply before_stop; by rewrite ?Ho.
  - apply set_owner_inv; try done. apply before_stop; by rewrite ?Ho.
  - apply set_owner_inv'; try done. apply before_stop; by rewrite ?Ho.
  - destruct (ti_before _ Hi Hf) as (H1 & H2 & H3 & H4). split; cbn; congruence || done.
  - destruct (ti_after _ Hi Hf) as [_ Ha]; [by rewrite Ho|]. apply stop_return_inv; [done|done|by apply Hi].
  - assert (th_stop_requested m = true) as Hf by (apply within_stop; by rewrite ?Ho).
    pose proof (ti_reset _ Hi). split; cbn; try congruence; try done; destruct (th_acceptor m); try done; auto.
  - assert (th_stop_requested m = true) as Hf by (apply within_stop; by rewrite ?Ho).
    split; cbn; try congruence; try done. intros _ _. apply (ti_closed _ Hi); congruence.
  - assert (th_stop_requested m = true) as Hf by (apply within_stop; by rewrite ?Ho).
    apply stop_return_inv; [done|done|by apply (ti_joined _ Hi)].
Qed.

Lemma step_inv m m' : threads_inv m -> step m m' -> threads_inv m'.
Proof.
  intros Hi ([] & Hs); [by eapply owner_step_inv|by eapply loop_step_inv|by eapply client_step_inv].
Qed.

Lemma reachable_inv calls s m : reachable calls s m -> threads_inv m.
Proof.
  intros Hr. unfold reachable in Hr. pattern m. eapply rtc_ind_r; [| |exact Hr]; [apply started_inv|].
  intros x y _ Hxy Hx. by eapply step_inv.
Qed.

(** ** Properties *)

(** What the handler and the owner's operations keep, run one at a time. *)
Context (I : St -> Prop).
Context (Hhandle : forall request s, arrives request -> I s -> handle request s ⇓ I).
Context (Hwork : forall op s, asked op -> I s -> work op s ⇓ I).

Record service_inv (m : Threads) : Prop := {
  si_service : I (th_service m);
  si_request : forall request, th_loop m = Handling request -> arrives request;
  si_work : forall op, th_owner m = Working op -> asked op
}.

Lemma step_service m m' : service_inv m -> step m m' -> service_inv m'.
Proof.
  intros [H1 H2 H3] ([] & Hs); cbn in Hs; destruct Hs; try (split; cbn; by repeat case_match || naive_solver).
  - split; cbn; [|done|done]. eapply returns_elim; [|done]. auto.
  - unfold stop_return. case_match; split; cbn; naive_solver.
  - unfold stop_return. case_match; split; cbn; naive_solver.
  - split; cbn; [|done|done]. eapply returns_elim; [|done]. auto.
Qed.

Lemma reachable_service calls s m : I s -> reachable calls s m -> service_inv m.
Proof.
  intros Hs Hr. unfold reachable in Hr. pattern m. eapply rtc_ind_r; [| |exact Hr]; [by split|].
  intros x y _ Hxy Hx. by eapply step_service.
Qed.

(** The thread is at its end, waits for a client, or has a step. *)
Lemma loop_progress m : threads_inv m -> service_inv m ->
  th_loop m = LoopDone \/ th_loop m = Reading \/ exists m', loop_step m m'.
Proof.
  intros Hi Hs. destruct (th_loop m) as [| | | | |request|] eqn:El; auto; right; right.
  - eexists. by apply loop_test.
  - eexists. by apply loop_open.
  - destruct (th_acceptor m) as [o|] eqn:Ea; [eexists; by eapply loop_accept_error|].
    by rewrite (ti_reset _ Hi Ea) in El.
  - eexists. by apply loop_after_error.
  - destruct (proj1 (returns_eq _ _) (Hhandle request _ (si_request _ Hs _ El) (si_service _ Hs))) as (s & E & _).
    eexists. by eapply loop_handled.
Qed.

(** The owner is finished, waits for the thread, or has a step. *)
Lemma owner_progress m : service_inv m ->
  th_owner m = Stopped \/ (th_owner m = AtJoin /\ th_loop m <> LoopDone) \/ exists m', owner_step m m'.
Proof.
  intros Hs. destruct (th_owner m) as [|op| | | | |] eqn:Eo; auto; right.
  - right. eexists. by apply owner_calls_stop.
  - right. destruct (proj1 (returns_eq _ _) (Hwork op _ (si_work _ Hs _ Eo) (si_service _ Hs))) as (s & E & _).
    eexists. by eapply owner_ends.
  - right. destruct (th_stop_requested m) eqn:Ef; eexists; [by apply stop_again|by apply stop_exchange].
  - right. eexists. by apply stop_close.
  - destruct (th_loop m) eqn:El; auto. right. eexists. by apply stop_join.
  - right. eexists. by apply stop_reset.
Qed.

(** The steps that are left once the flag is set. *)
Definition loop_rank (pc : LoopPc) : nat :=
  match pc with
  | LoopDone => 0 | AtTest => 1 | AtError => 1 | Handling _ => 2 | Reading => 3 | AtAccept => 4 | AtOpen => 5
  end.

Definition owner_rank (pc : OwnerPc) (calls : nat) : nat :=
  match pc with
  | Stopped => 0 | AtStop => 1 + calls | AtReset => 2 + calls | AtJoin => 3 + calls | AtClose => 4 + calls
  | Idle | Working _ => 5 + calls
  end.

Definition rank (m : Threads) : nat := loop_rank (th_loop m) + owner_rank (th_owner m) (th_calls m).

Lemma stop_return_rank m : (rank (stop_return m) <= loop_rank (th_loop m) + th_calls m)%nat.
Proof. unfold stop_return, rank. destruct (th_calls m); cbn; lia. Qed.

Lemma step_rank m m' : threads_inv m -> th_stop_requested m = true -> step m m' ->
  (rank m' < rank m)%nat /\ th_stop_requested m' = true.
Proof.
  intros Hi Hf (a & Hs).
  assert (th_owner m <> Idle /\ forall op, th_owner m <> Working op) as [Ho Hw].
  { split; [|intros op]; intros E; destruct (ti_after _ Hi Hf) as [[?|?] _]; rewrite ?E; done || congruence. }
  destruct a; cbn in Hs;
    [destruct Hs as [m op E _|m op s E _|m E|m E E'|m E _|m E|m E _|m E]
    |destruct Hs as [m E|m E|m E _|m o E _|m E _|m E|m request s E _]
    |destruct Hs as [m request E _|m E]]; try congruence; try by destruct (Hw op).
  all: try (split; [|done]; unfold rank; cbn; rewrite ?E, ?Hf; cbn; repeat case_match; cbn; lia).
  - split; [|by unfold stop_return; case_match]. pose proof (stop_return_rank m). unfold rank at 2. rewrite E. cbn. lia.
  - split; [|by unfold stop_return; case_match].
    eapply Nat.le_lt_trans; [apply stop_return_rank|]. unfold rank. rewrite E. cbn. lia.
Qed.

Lemma nsteps_rank n m m' : threads_inv m -> th_stop_requested m = true -> nsteps step n m m' ->
  threads_inv m' /\ th_stop_requested m' = true /\ (n + rank m' <= rank m)%nat.
Proof.
  intros Hi Hf Hn. induction Hn as [m|n m m1 m' Hs Hn IH]; [by split_and!|].
  destruct (step_rank m m1 Hi Hf Hs) as [Hr Hf1]. destruct (IH (step_inv _ _ Hi Hs) Hf1) as (?&?&?).
  split_and!; [done|done|lia].
Qed.


(** C17: Once [stop] has set the flag, whatever the schedule, the threads and the client
    take at most nine steps and one for every further call of [stop]; when neither
    thread can go on, all calls of [stop] have returned, or [stop] waits in [join] for
    a client that has connected and sends nothing. *)
Theorem stop_returns calls s m m' n : I s -> reachable calls s m -> th_stop_requested m = true ->
  nsteps step n m m' ->
  (n <= 9 + th_calls m)%nat /\
  ((forall m'', ~ loop_step m' m'' /\ ~ owner_step m' m'') ->
    th_owner m' = Stopped \/ (th_owner m' = AtJoin /\ th_loop m' = Reading)).
Proof.
  intros Hs Hr Hf Hn. pose proof (reachable_inv _ _ _ Hr) as Hi.
  destruct (nsteps_rank _ _ _ Hi Hf Hn) as (Hi' & Hf' & Hle). split.
  - assert (rank m <= 9 + th_calls m)%nat; [|lia]. unfold rank.
    destruct (th_owner m) eqn:Eo, (th_loop m); cbn; try lia; exfalso.
    all: destruct (ti_after _ Hi Hf) as [[?|?] _]; rewrite ?Eo; done || congruence.
  - intros Hstuck. assert (reachable calls s m') as Hr'.
    { unfold reachable in *. etrans; [exact Hr|]. apply rtc_nsteps. by eexists. }
    pose proof (reachable_service _ _ _ Hs Hr') as Hv.
    destruct (owner_progress m' Hv) as [?|[[Ho Hl]|[m'' Hm]]]; [by left| |by destruct (proj2 (Hstuck m'') Hm)].
    destruct (loop_progress m' Hi' Hv) as [?|[?|[m'' Hm]]]; [done|by right|by destruct (proj1 (Hstuck m'') Hm)].
Qed.

End Machine.

(** ** The sequential listener

    [Http] has the loop as a function of what its iterations read, and [stop] as one step. *)

Section Sequential.
Context {St : Type} (handle_connection : HttpReq -> St -> res (St * option HttpResp)).

(** A listener whose owner only stops it. *)
Definition serve_only (request : HttpReq) (s : St) : res St := r ← handle_connection request s; Ok r.1.
Definition no_work (w : Empty_set) (s : St) : res St := Ok s.
Definition any_request (request : HttpReq) : Prop := True.
Definition nothing_asked (w : Empty_set) : Prop := True.

Definition served (s : St) (m : Threads (R := HttpReq) (W := Empty_set)) : Prop :=
  exists inputs answers, Forall running inputs /\ run_loop handle_connection inputs s = Ok (th_service m, answers).

Lemma served_more s s1 s2 inputs answers request answer : Forall running inputs ->
  run_loop handle_connection inputs s = Ok (s1, answers) -> handle_connection request s1 = Ok (s2, answer) ->
  exists inputs' answers', Forall running inputs' /\ run_loop handle_connection inputs' s = Ok (s2, answers').
Proof.
  intros Hi E Eh. set (i := mkInput false true (Incoming (Some request)) false).
  assert (Forall running (inputs ++ [i])%list) as Hi' by (apply Forall_app_2; [done|by repeat constructor]).
  exists (inputs ++ [i])%list. eexists. split; [exact Hi'|]. rewrite run_loop_answers in * by done.
  rewrite fmap_app, concat_app. cbn [fmap list_fmap List.concat incoming li_accepted i app].
  rewrite foldM_app, E, bind_ok. cbn [foldM fst snd]. rewrite Eh, !bind_ok. reflexivity.
Qed.

(** The owner's view of the listener. *)
Definition owner_view (configured_port bound_port : Z) (m : Threads (R := HttpReq) (W := Empty_set) (St := St)) : Listener :=
  mkListener (th_stop_requested m) (th_acceptor m) configured_port bound_port
    (match th_loop m with LoopDone => true | _ => false end).

(** Whatever the schedule, what the thread has done to the service is a run of the
    sequential loop, and the listener that [stop] leaves behind is the one of its
    sequential version. *)
Theorem threads_refine_loop calls s m configured_port bound_port :
  reachable serve_only no_work any_request nothing_asked calls s m ->
  served s m /\
  (th_owner m = Stopped ->
    owner_view configured_port bound_port m = stop_listener (start_listener configured_port bound_port)).
Proof.
  intros Hr. pose proof (reachable_inv _ _ _ _ _ _ _ Hr) as Hi. split.
  - unfold reachable in Hr. pattern m. eapply rtc_ind_r; [| |exact Hr]; [by exists [], []|].
    intros x y _ (a & Hs) (inputs & answers & Hin & E). unfold served.
    assert (th_service y = th_service x \/
      exists request, serve_only request (th_service x) = Ok (th_service y)) as [->|[request Hreq]].
    { destruct a; cbn in Hs; destruct Hs; eauto.
      - by destruct op.
      - left. unfold stop_return. by case_match.
      - left. unfold stop_return. by case_match. }
    + by exists inputs, answers.
    + unfold serve_only in Hreq. apply bind_Ok_inv in Hreq as ([s' answer] & Eh & [= E']). cbn in E'. subst s'.
      by eapply served_more.
  - intros Ho. assert (th_stop_requested m = true) as Hf.
    { destruct (th_stop_requested m) eqn:Ef; [done|]. by destruct (ti_before _ Hi Ef) as (_ & _ & _ & ?). }
    destruct (ti_after _ Hi Hf) as [_ Ha]; [by rewrite Ho|]. unfold owner_view.
    by rewrite Hf, Ha, (ti_reset _ Hi Ha).
Qed.

End Sequential.

(** ** The matchmaker's listener *)

(** A request and the time of its arrival; a round of timeouts of a region. *)
Record TimedRequest := mkTimed { tr_now : Z; tr_is_post : bool; tr_target : string; tr_body : string }.
Record Round := mkRound { ro_now : Z; ro_region : string }.

Definition as_event (r : TimedRequest) : ServiceEvent := HttpRequest (tr_now r) (tr_is_post r) (tr_target r) (tr_body r).
Definition as_round (w : Round) : ServiceEvent := ProcessQueue (ro_now w) (ro_region w).

Section Matchmaker.
Context {S G A : Type} `{RuntimeStore S} `{GameRepository G} `{!RuntimeStoreLaws S}.
Context (allocate_game : S -> A -> GameCreationRequest -> S * A * option GameCreationResponse).
Context (config : MatchmakingConfig) (gateway_server_id : string).
Context (Hconfig : fits_i64 (queue_timeout config * 1000)).
Context (Halloc : forall s a request region,
  list_matchmaking_queue (allocate_game s a request).1.1 region = list_matchmaking_queue s region).

(** [handle_connection] on the listener's thread, [process_queue] on the main one. *)
Definition serve (r : TimedRequest) (st : Service) : res Service :=
  service_event (G := G) allocate_game config gateway_server_id (as_event r) st.
Definition round (w : Round) (st : Service) : res Service :=
  service_event (G := G) allocate_game config gateway_server_id (as_round w) st.
Definition timely (r : TimedRequest) : Prop := event_ok (as_event r).
Definition timely_round (w : Round) : Prop := event_ok (as_round w).

(** In every interleaving of requests, rounds and the shutdown, each of which takes effect
    at once, the queues in memory are the stored ones and nobody waits twice. *)
Theorem matchmaker_interleavings calls st m : service_ok config st ->
  reachable serve round timely timely_round calls st m ->
  service_ok config (th_service m) /\ forall region, NoDup (qp_player_id <$> queue_at (th_service m) region).
Proof.
  intros Hst Hr.
  assert (service_ok config (th_service m)) as Hok.
  { apply (reachable_service serve round timely timely_round (service_ok config)) in Hr; [by destruct Hr| | |done];
      intros x s Hx Hs; by apply service_event_ok. }
  split; [done|]. intros region. apply (so_stored _ _ Hok).
Qed.

End Matchmaker.

(** ** Schedules of the matchmaker *)

#[local] Existing Instance counting_games.

Definition sample_serve := serve (G := Z) sample_allocator sample_config "gw".
Definition sample_rounds := round (G := Z) sample_allocator sample_config "gw".
Definition sample_start (calls : nat) := started (R := TimedRequest) (W := Round) calls (service_on with_servers).
Definition schedule_run := run_schedule (W := Round) sample_serve sample_rounds.

Definition join_request : TimedRequest := mkTimed 1055 true "/matchmaking/join" "4|14|1250|".

(** A client joins while the owner works, the owner stops the listener, and the destructor
    calls [stop] again. *)
Definition to_request : list (@Choice TimedRequest Round) :=
  [LoopRuns Connects; LoopRuns Connects; LoopRuns Connects; ClientSends join_request].
Definition to_stop : list (@Choice TimedRequest Round) := [OwnerRuns; OwnerRuns].
Definition shutdown : list (@Choice TimedRequest Round) :=
  [OwnerRuns; LoopRuns WouldBlock; LoopRuns WouldBlock; OwnerRuns; OwnerRuns; OwnerRuns].

Lemma sample_choices cs : cs = to_request \/ cs = to_stop \/ cs = shutdown ->
  Forall (choice_ok timely timely_round) cs.
Proof.
  intros [->|[->| ->]]; repeat apply Forall_cons_2; try (by constructor); try done.
  split; [cbn; lia|]. intros request Hr. vm_compute in Hr. injection Hr as <-. cbn. lia.
Qed.

Lemma sample_kept : service_ok sample_config (service_on with_servers) /\
  (forall request s, timely request -> service_ok sample_config s -> sample_serve request s ⇓ service_ok sample_config) /\
  (forall op s, timely_round op -> service_ok sample_config s -> sample_rounds op s ⇓ service_ok sample_config).
Proof.
  split_and!; [apply sample_service_ok| |]; intros x s Hx Hs; apply service_event_ok; done || apply _.
Qed.

Lemma sample_reachable calls cs m : Forall (choice_ok timely timely_round) cs ->
  schedule_run cs (sample_start calls) = Some m ->
  reachable sample_serve sample_rounds timely timely_round calls (service_on with_servers) m.
Proof. intros Hcs E. apply rtc_nsteps. eexists. by eapply schedule_steps. Qed.

(** The state after a schedule; [started] again if it is not one. *)
Definition after (calls : nat) (cs : list Choice) : Threads :=
  default (sample_start calls) (schedule_run cs (sample_start calls)).

Lemma sample_after calls cs : Forall (choice_ok timely timely_round) cs -> is_Some (schedule_run cs (sample_start calls)) ->
  reachable sample_serve sample_rounds timely timely_round calls (service_on with_servers) (after calls cs).
Proof. intros Hcs [m E]. eapply sample_reachable; [done|]. unfold after. by rewrite E. Qed.


Lemma stop_returns_witness :
  let m := after 1 (to_request ++ to_stop)%list in
  let m' := after 1 (to_request ++ to_stop ++ shutdown)%list in
  (6 <= 9 + th_calls m)%nat /\
  ((forall m'', ~ loop_step sample_serve m' m'' /\ ~ owner_step sample_rounds timely_round m' m'') ->
    th_owner m' = Stopped \/ (th_owner m' = AtJoin /\ th_loop m' = Reading)).
Proof.
  intros m m'. destruct sample_kept as (H1 & H2 & H3).
  apply (stop_returns sample_serve sample_rounds timely timely_round (service_ok sample_config) H2 H3 1
    (service_on with_servers) m m' 6 H1).
  - apply sample_after; [|vm_compute; eauto]. apply Forall_app_2; apply sample_choices; auto.
  - vm_compute. reflexivity.
  - change 6%nat with (List.length shutdown). apply schedule_steps; [apply sample_choices; auto|].
    vm_compute. reflexivity.
Defined.

(** After that shutdown the request has been served, both calls of [stop] have returned
    and the thread has ended. *)
Example shutdown_complete :
  let m := after 1 (to_request ++ to_stop ++ shutdown)%list in
  th_owner m = Stopped /\ th_loop m = LoopDone /\ th_acceptor m = None /\
  qp_player_id <$> queue_at (th_service m) "local" = [1; 3].
Proof. vm_compute. by split_and!. Qed.

(** ** Observations *)

(** A client that connects and sends nothing: [http::read] has no timeout, so the listener
    serves nobody else, and [stop] waits in [join] for ever. *)
Example silent_client_blocks_stop :
  let m := after 0 (take 3 to_request ++ to_stop ++ [OwnerRuns])%list in
  reachable sample_serve sample_rounds timely timely_round 0 (service_on with_servers) m /\
  th_owner m = AtJoin /\ th_loop m = Reading /\
  forall accept, exec sample_serve sample_rounds (LoopRuns accept) m = None /\
    exec sample_serve sample_rounds (OwnerRuns (R := TimedRequest) (W := Round)) m = None.
Proof.
  intros m. split_and!; [|by vm_compute|by vm_compute|by intros []; vm_compute].
  apply sample_after; [|vm_compute; eauto].
  repeat apply Forall_app_2; [apply Forall_take| |by repeat constructor]; apply sample_choices; auto.
Qed.

(** No lock orders the two threads: a request can be in the handler while the owner is in
    a round of timeouts on the same queues, *)
Example service_race :
  let m := after 0 (to_request ++ [OwnerBegins (mkRound 1090 "local")])%list in
  reachable sample_serve sample_rounds timely timely_round 0 (service_on with_servers) m /\
  th_loop m = Handling join_request /\ th_owner m = Working (mkRound 1090 "local").
Proof.
  intros m. split_and!; [|by vm_compute|by vm_compute]. apply sample_after; [|vm_compute; eauto].
  apply Forall_app_2; [apply sample_choices; auto|]. repeat constructor; cbn; lia.
Qed.

(** and the thread can be in [accept] while [stop] closes the acceptor. *)
Example acceptor_race :
  let m := after 0 (take 2 to_request ++ to_stop)%list in
  reachable sample_serve sample_rounds timely timely_round 0 (service_on with_servers) m /\
  th_loop m = AtAccept /\ th_owner m = AtClose.
Proof.
  intros m. split_and!; [|by vm_compute|by vm_compute]. apply sample_after; [|vm_compute; eauto].
  apply Forall_app_2; [apply Forall_take|]; apply sample_choices; auto.
Qed.
