(* ===== verification/Transport.v ===== *)
(** * WebSocket connections

    [src/src/server/client_connection.cpp]: a connection of the server, and the receiving
    half of [network/websocket_client.cpp]: the connection of the client.  Both read from a
    blocking socket without blocking, by keeping account of the bytes that the WebSocket
    library has taken from the socket and not yet delivered.

    The library is the environment: [Stream] holds the calls that the code makes, each of
    which may let time pass, and [StreamLaws] what the code assumes about it (one frame per
    message, no control frames between them, whole frames on the wire).  A read on a
    connection without pending bytes does not return: it is the fault [Diverges].
    [server_connection] makes the server's connection an instance of the interface
    [Connection] of [Sessions.v]. *)

From S2P Require Import Prelude CppString Sessions GameMessages Client.
From Stdlib Require Import Ascii String.
Open Scope string_scope.
Open Scope Z_scope.

(** ** The environment *)

Inductive ErrorCode :=
| WouldBlock | OperationAborted | Canceled | Eof | ConnectionReset | WsClosed | OtherError.

#[export] Instance error_code_eq_dec : EqDecision ErrorCode.
Proof. solve_decision. Defined.

(** Error codes are [None] for success.  [st_peek] is a receive of one byte with
    [message_peek]; [st_read] and [st_write] are those of the WebSocket stream, exceptions
    caught ([websocket_read], [websocket_write]). *)
Class Stream (W : Type) := {
  st_accept : W -> W * option ErrorCode;
  st_available : W -> W * option ErrorCode * Z;
  st_non_blocking : W -> bool;
  st_set_non_blocking : W -> bool -> W * option ErrorCode;
  st_peek : W -> W * option ErrorCode * Z;
  st_read : W -> res (W * option ErrorCode * string);
  st_write : W -> string -> W * option ErrorCode;
  st_close : W -> W
}.

Definition has_code (ec : option ErrorCode) (e : ErrorCode) : bool := bool_decide (ec = Some e).
Definition failed (ec : option ErrorCode) : bool := match ec with Some _ => true | None => false end.

(** ** [ClientConnection] *)

Definition masked_frame_size (payload_size : Z) : Z :=
  let header_size := 2 + 4 in
  let header_size :=
    if 65535 <? payload_size then header_size + 8
    else if 125 <? payload_size then header_size + 2 else header_size in
  header_size + payload_size.

Record ClientConnection (W : Type) := mkConn { ws_ : W; buffered_bytes_ : Z; open_ : bool }.
Arguments mkConn {W} _ _ _.
Arguments ws_ {W} _.
Arguments buffered_bytes_ {W} _.
Arguments open_ {W} _.

Section Server.
Context {W : Type} `{Stream W}.
Notation Conn := (ClientConnection W).
Implicit Type c : Conn.

Definition set_ws c (w : W) : Conn := mkConn w (buffered_bytes_ c) (open_ c).
Definition set_open c (b : bool) : Conn := mkConn (ws_ c) (buffered_bytes_ c) b.
Definition set_buffered c (n : Z) : Conn := mkConn (ws_ c) n (open_ c).

Definition accept_connection (w : W) : res Conn :=
  let '(w, handshake_ec) := st_accept w in
  if failed handshake_ec then Err RuntimeError else Ok (mkConn w 0 true).

(** The peek of a byte, in non-blocking mode: [None] when the mode cannot be set. *)
Definition peek_non_blocking (w : W) : W * option (option ErrorCode * Z) :=
  let was_non_blocking := st_non_blocking w in
  let '(w, nb_ec) := if negb was_non_blocking then st_set_non_blocking w true else (w, None) in
  if failed nb_ec then (w, None)
  else
    let '(w, peek_ec, peeked) := st_peek w in
    let w := if negb was_non_blocking then (st_set_non_blocking w false).1 else w in
    (w, Some (peek_ec, peeked)).

Definition detect_peer_disconnect c : bool * Conn :=
  if negb (open_ c) then (true, c)
  else
    let '(w, avail_ec, available_bytes) := st_available (ws_ c) in
    let c := set_ws c w in
    if failed avail_ec then (true, set_open c false)
    else if (0 <? available_bytes) || (0 <? buffered_bytes_ c) then (false, c)
    else
      let '(w, peek) := peek_non_blocking (ws_ c) in
      let c := set_ws c w in
      match peek with
      | None => (true, set_open c false)
      | Some (peek_ec, peeked) =>
          if has_code peek_ec WouldBlock then (false, c)
          else if has_code peek_ec Eof || has_code peek_ec ConnectionReset
                  || ((peeked =? 0) && negb (failed peek_ec)) then (true, set_open c false)
          else if failed peek_ec then (true, set_open c false)
          else (false, c)
      end.

Definition probe c : Conn := (detect_peer_disconnect c).2.

(** [update_buffered_bytes], with the accounting shared with the client. *)
Definition account c (available_before_read consumed_bytes : Z) : Conn :=
  let '(w, remaining_ec, available_after_read) := st_available (ws_ c) in
  let remaining := if failed remaining_ec then None else Some available_after_read in
  mkConn w (update_buffered_bytes (buffered_bytes_ c) available_before_read consumed_bytes remaining) (open_ c).

Definition conn_try_read c : res (option string * Conn) :=
  if negb (open_ c) then Ok (None, c)
  else
    let '(w, avail_ec, available_bytes) := st_available (ws_ c) in
    let c := set_ws c w in
    if failed avail_ec then Ok (None, set_open (set_buffered c 0) false)
    else if (available_bytes =? 0) && (buffered_bytes_ c =? 0) then
      Ok (None, (detect_peer_disconnect c).2)
    else
      r ← st_read (ws_ c);
      let '(w, read_ec, message) := r : W * option ErrorCode * string in
      let c := set_ws c w in
      if has_code read_ec WouldBlock then Ok (None, c)
      else if has_code read_ec WsClosed then Ok (None, set_open (set_buffered c 0) false)
      else if failed read_ec then Ok (None, set_open (set_buffered c 0) false)
      else Ok (Some message, account c available_bytes (masked_frame_size (slen message))).

Definition conn_try_send c (message : string) : bool * Conn :=
  let '(gone, c) := detect_peer_disconnect c in
  if gone : bool then (false, c)
  else
    let '(w, write_ec) := st_write (ws_ c) message in
    let c := set_ws c w in
    if has_code write_ec WouldBlock then (false, c)
    else if has_code write_ec WsClosed || has_code write_ec Eof || has_code write_ec ConnectionReset then
      (false, set_open c false)
    else if failed write_ec then (false, set_open c false)
    else (true, c).

Definition conn_send_message c (message : string) : bool * Conn :=
  let '(w, write_ec) := st_write (ws_ c) message in
  let c := set_ws c w in
  if has_code write_ec WouldBlock then (false, c)
  else if has_code write_ec WsClosed || has_code write_ec Eof || has_code write_ec ConnectionReset then
    (false, set_open c false)
  else if failed write_ec then (false, set_open c false)
  else (true, set_open c true).

Definition conn_close c : Conn :=
  if negb (open_ c) then c else set_open (set_ws c (st_close (ws_ c))) false.

(** The read that does not return is excluded by [connection_fifo]. *)
#[export] Instance server_connection : Connection Conn := {
  is_open := open_;
  try_read c := match conn_try_read c with Ok r => r | Err _ => (None, c) end;
  try_send := conn_try_send;
  send_message := conn_send_message;
  probe_disconnect := probe
}.

End Server.

(** [WebSocketServer::broadcast]. *)
Definition broadcast {C} `{Connection C} (message : string) (p : Plane (C := C)) : Plane :=
  set_clients p ((fun e => (e.1, (try_send e.2 message).2)) <$> clients_ p).

(** ** [WebSocketClient], receiving *)

Record NetClient (W : Type) := mkNet { nc_ws : option W; nc_buffered : Z; nc_connected : bool }.
Arguments mkNet {W} _ _ _.
Arguments nc_ws {W} _.
Arguments nc_buffered {W} _.
Arguments nc_connected {W} _.

Section ClientSide.
Context {W : Type} `{Stream W}.

Definition is_transient_io_error (ec : option ErrorCode) : bool :=
  has_code ec WouldBlock || has_code ec OperationAborted || has_code ec Canceled.

(** The read at the end of [try_receive_snapshot]. *)
Definition receive_message (w : W) (buffered available_bytes : Z) : res (option string * NetClient W) :=
  r ← st_read w;
  let '(w, read_ec, message) := r : W * option ErrorCode * string in
  if is_transient_io_error read_ec then Ok (None, mkNet (Some w) buffered true)
  else if has_code read_ec WsClosed || has_code read_ec Eof || has_code read_ec ConnectionReset then
    Ok (None, mkNet (Some w) 0 false)
  else if failed read_ec then Err RuntimeError
  else
    let '(w, remaining_ec, available_after_read) := st_available w in
    let remaining := if failed remaining_ec then None else Some available_after_read in
    Ok (Some message,
        mkNet (Some w) (update_buffered_bytes buffered available_bytes (unmasked_frame_size (slen message)) remaining)
          true).

Definition try_receive_snapshot (c : NetClient W) : res (option string * NetClient W) :=
  match nc_ws c with
  | None => Ok (None, c)
  | Some w =>
      if negb (nc_connected c) then Ok (None, c)
      else
        let '(w, avail_ec, available_bytes) := st_available w in
        if failed avail_ec then Ok (None, mkNet (Some w) 0 false)
        else if (available_bytes =? 0) && (nc_buffered c =? 0) then
          let '(w, peek) := peek_non_blocking w in
          match peek with
          | None => Ok (None, mkNet (Some w) (nc_buffered c) false)
          | Some (peek_ec, peeked) =>
              if has_code peek_ec WouldBlock then Ok (None, mkNet (Some w) (nc_buffered c) true)
              else if has_code peek_ec Eof || has_code peek_ec ConnectionReset
                      || ((peeked =? 0) && negb (failed peek_ec)) then
                Ok (None, mkNet (Some w) (nc_buffered c) false)
              else if failed peek_ec then Ok (None, mkNet (Some w) (nc_buffered c) false)
              else receive_message w (nc_buffered c) available_bytes
          end
        else receive_message w (nc_buffered c) available_bytes
  end.

End ClientSide.

(** ** What the code assumes about the stream *)

(** [sock] are the bytes in the socket, [held] those in the library's buffer, [inbox] the
    messages that are on their way or here, in order; [frame_size] is the size on the wire
    of a message of the peer. *)
Class StreamView (W : Type) := { sock : W -> Z; held : W -> Z; inbox : W -> list string }.

(** Time passes: bytes and messages may arrive. *)
Definition passes {W} `{StreamView W} (w w' : W) : Prop :=
  held w' = held w /\ sock w <= sock w' /\ exists later, inbox w' = (inbox w ++ later)%list.

Class StreamLaws (W : Type) `{Stream W} `{StreamView W} (frame_size : Z -> Z) : Prop := {
  bytes_nonneg w : 0 <= sock w /\ 0 <= held w;
  available_law w : let '(w', ec, n) := st_available w in passes w w' /\ (ec = None -> n = sock w');
  mode_law w b : passes w (st_set_non_blocking w b).1;
  peek_law w : let '(w', ec, n) := st_peek w in passes w w' /\ 0 <= n /\ (ec = None -> 0 < n -> 0 < sock w');
  write_law w m : passes w (st_write w m).1;
  close_law w : passes w (st_close w);
  (** With bytes pending a read returns: the next message, whose frame is consumed, or
      with an error. *)
  read_law w : 0 < held w + sock w -> st_read w ⇓ (fun '(w', ec, m) =>
    match ec with
    | Some _ => held w <= held w' /\ exists later, inbox w' = (inbox w ++ later)%list
    | None => exists moved arrived later,
        0 <= arrived /\ 0 <= moved <= sock w + arrived /\
        sock w' = sock w + arrived - moved /\ held w' = held w + moved - frame_size (slen m) /\
        (inbox w ++ later = m :: inbox w')%list
    end)
}.

Section Passes.
Context {W : Type} `{StreamView W}.

#[export] Instance passes_preorder : PreOrder passes.
Proof.
  split.
  - intros w. split_and!; [done|lia|]. exists []. by rewrite app_nil_r.
  - intros w1 w2 w3 (E1 & L1 & l1 & I1) (E2 & L2 & l2 & I2). split_and!; [congruence|lia|].
    exists (l1 ++ l2)%list. by rewrite I2, I1, app_assoc.
Qed.

(** Messages received from [w] before [w']: the inbox loses them in order. *)
Definition delivers (w : W) (received : list string) (w' : W) : Prop :=
  exists later, (inbox w ++ later = received ++ inbox w')%list.

Lemma passes_delivers w w' : passes w w' -> delivers w [] w'.
Proof. intros (_ & _ & later & E). exists later. by rewrite E. Qed.

Lemma delivers_trans w1 r1 w2 r2 w3 : delivers w1 r1 w2 -> delivers w2 r2 w3 ->
  delivers w1 (r1 ++ r2) w3.
Proof.
  intros [l1 E1] [l2 E2]. exists (l1 ++ l2)%list. by rewrite app_assoc, E1, <- app_assoc, E2, app_assoc.
Qed.

End Passes.

(** The account stays below what the library holds. *)
Lemma account_below buffered held0 held1 sock0 before moved arrived after consumed remaining :
  0 <= buffered <= held0 -> before = sock0 -> 0 <= arrived -> 0 <= moved <= sock0 + arrived ->
  held1 = held0 + moved - consumed -> 0 <= held1 -> sock0 + arrived - moved <= after ->
  (remaining = None \/ remaining = Some after) ->
  0 <= update_buffered_bytes buffered before consumed remaining <= held1.
Proof.
  intros Hb -> Ha Hm -> Hh Hs [->| ->]; unfold update_buffered_bytes.
  - destruct (Z.ltb_spec consumed (buffered + 0)); lia.
  - destruct (Z.ltb_spec after sock0); destruct (Z.ltb_spec consumed (buffered + (sock0 - after)));
      destruct (Z.ltb_spec consumed (buffered + 0)); lia.
Qed.

Section ServerCorrect.
Context {W : Type} `{StreamLaws W masked_frame_size}.
Notation Conn := (ClientConnection W).
Implicit Type c : Conn.

(** The account never exceeds the bytes that the library holds. *)
Definition conn_inv c : Prop := 0 <= buffered_bytes_ c <= held (ws_ c).

Lemma conn_inv_passes c w b : conn_inv c -> passes (ws_ c) w -> conn_inv (mkConn w (buffered_bytes_ c) b).
Proof. intros Hc (E & _). unfold conn_inv in *. cbn. lia. Qed.

Lemma peek_passes w : passes w (peek_non_blocking w).1.
Proof.
  unfold peek_non_blocking.
  destruct (st_non_blocking w); cbn [negb].
  - pose proof (peek_law w) as Hp. destruct (st_peek w) as [[w1 ec] n]. by destruct Hp.
  - pose proof (mode_law w true) as Hm. destruct (st_set_non_blocking w true) as [w0 nb]. cbn [fst] in Hm.
    destruct (failed nb); [done|]. pose proof (peek_law w0) as Hp. destruct (st_peek w0) as [[w1 ec] n].
    destruct Hp as (Hp & _). cbn [fst]. etrans; [exact Hm|]. etrans; [exact Hp|]. apply mode_law.
Qed.

(** The shape of a result of a test or a write: time has passed, and the account is the same. *)
Definition same_account c c' : Prop := passes (ws_ c) (ws_ c') /\ buffered_bytes_ c' = buffered_bytes_ c.

Lemma detect_same c : same_account c (detect_peer_disconnect c).2.
Proof.
  unfold detect_peer_disconnect, same_account. destruct (open_ c); cbn [negb]; [|done].
  pose proof (available_law (ws_ c)) as Ha. destruct (st_available (ws_ c)) as [[w ec] n]. destruct Ha as [Ha _].
  destruct (failed ec); [done|]. cbn [buffered_bytes_ set_ws]. destruct (_ || _); [done|].
  cbn [ws_ set_ws]. pose proof (peek_passes w) as Hp. destruct (peek_non_blocking w) as [w1 peek]. cbn [fst] in Hp.
  assert (passes (ws_ c) w1) as Hw by (by etrans).
  destruct peek as [[pec pk]|]; [|done]. by repeat case_match.
Qed.

Lemma same_inv c c' : conn_inv c -> same_account c c' -> conn_inv c'.
Proof. intros Hc [(E & _) Eb]. unfold conn_inv in *. rewrite E, Eb. done. Qed.

Lemma send_same c m : same_account c (conn_send_message c m).2.
Proof.
  unfold conn_send_message, same_account. pose proof (write_law (ws_ c) m) as Hw.
  destruct (st_write (ws_ c) m) as [w ec]. by repeat case_match.
Qed.

Lemma try_send_same c m : same_account c (conn_try_send c m).2.
Proof.
  unfold conn_try_send. pose proof (detect_same c) as Hd. destruct (detect_peer_disconnect c) as [[] c1]; [done|].
  cbn [snd] in Hd. destruct Hd as [Hd Hb]. pose proof (write_law (ws_ c1) m) as Hw.
  destruct (st_write (ws_ c1) m) as [w ec]. cbn [fst] in Hw. assert (passes (ws_ c) w) as Hp by (by etrans).
  unfold same_account. by repeat case_match.
Qed.

Lemma close_same c : same_account c (conn_close c).
Proof.
  unfold conn_close, same_account. destruct (open_ c); [|done]. cbn. split; [apply close_law|done].
Qed.

(** What a read leaves: the account is sound, and the message is the next one. *)
Definition read_outcome c (r : option string * Conn) : Prop :=
  conn_inv r.2 /\ delivers (ws_ c) (match r.1 with Some m => [m] | None => [] end) (ws_ r.2) /\
  (open_ c = false -> r = (None, c)).

Lemma try_read_ok c : conn_inv c -> conn_try_read c ⇓ read_outcome c.
Proof.
  intros Hc. unfold conn_try_read. destruct (open_ c) eqn:Eo; cbn [negb].
  2:{ apply returns_ok. split_and!; [done|by apply passes_delivers|done]. }
  pose proof (available_law (ws_ c)) as Ha. destruct (st_available (ws_ c)) as [[w ec] n]. destruct Ha as [Ha Hn].
  assert (forall c', conn_inv c' -> passes (ws_ c) (ws_ c') -> read_outcome c (None, c')) as Hnone.
  { intros c' Hc' Hp. split_and!; [done|by apply passes_delivers|congruence]. }
  pose proof (bytes_nonneg w) as [Hsw Hhw].
  destruct ec as [e|]; cbn [failed].
  { apply returns_ok, Hnone; [|done]. unfold conn_inv. cbn. lia. }
  specialize (Hn eq_refl). cbn [buffered_bytes_ set_ws].
  assert (conn_inv (set_ws c w)) as Hc1 by (by apply conn_inv_passes).
  destruct ((n =? 0) && (buffered_bytes_ c =? 0)) eqn:Ez.
  { apply returns_ok. destruct (detect_same (set_ws c w)) as [Hd Hb]. apply Hnone.
    - by apply (same_inv (set_ws c w)).
    - etrans; [exact Ha|exact Hd]. }
  assert (0 < held w + sock w) as Hpos.
  { unfold conn_inv in Hc1. cbn in Hc1. apply andb_false_iff in Ez as [Ez%Z.eqb_neq|Ez%Z.eqb_neq]; lia. }
  apply returns_bind. cbn [ws_ set_ws]. eapply returns_mono; [by apply read_law|].
  intros [[w1 rec] m] Hread.
  assert (rec <> None -> held w <= held w1 /\ delivers (ws_ c) [] w1) as Herr.
  { destruct rec; [|done]. destruct Hread as (Hh & later & Hl). intros _. split; [done|].
    eapply (delivers_trans _ []); [by apply passes_delivers|]. exists later. by rewrite Hl. }
  assert (forall k b, 0 <= k <= held w1 -> rec <> None -> Ok (None, mkConn w1 k b) ⇓ read_outcome c) as Hfail.
  { intros k b Hk Hne. apply returns_ok. split_and!; [done|by apply Herr|congruence]. }
  pose proof (bytes_nonneg w1) as [_ Hh1].
  destruct (has_code rec WouldBlock) eqn:E1.
  { apply bool_decide_eq_true in E1. apply Hfail; [|congruence]. destruct Herr as [Hh _]; [congruence|].
    unfold conn_inv in Hc1. cbn in Hc1. cbn. lia. }
  destruct (has_code rec WsClosed) eqn:E2.
  { apply bool_decide_eq_true in E2. apply (Hfail 0 false); [lia|congruence]. }
  destruct rec as [e|]; cbn [failed]; [by apply (Hfail 0 false); [lia|]|]. clear Herr Hfail.
  destruct Hread as (moved & arrived & later & Hge & Hmv & Hs1 & Hh & Hl).
  apply returns_ok. unfold account, read_outcome. cbn [ws_ set_ws buffered_bytes_ fst snd].
  pose proof (available_law w1) as Ha2. destruct (st_available w1) as [[w2 ec2] n2]. destruct Ha2 as [Hp2 Hn2].
  pose proof Hp2 as (Eh2 & Hs2 & _). cbn [ws_ snd fst]. split_and!; [| |congruence].
  - unfold conn_inv in *. cbn in *. rewrite Eh2.
    eapply account_below; [exact Hc1|exact Hn|exact Hge|exact Hmv|exact Hh|done| |].
    + instantiate (1 := sock w2). lia.
    + destruct ec2; [by left|]. right. by rewrite (Hn2 eq_refl).
  - eapply (delivers_trans _ []); [by apply passes_delivers|].
    eapply (delivers_trans _ [m] w1 []); [by exists later|by apply passes_delivers].
Qed.

(** ** Runs of a connection *)

Inductive ConnOp := DoRead | DoTrySend (m : string) | DoSend (m : string) | DoProbe | DoClose.

Definition conn_op (op : ConnOp) c : res (list string * Conn) :=
  match op with
  | DoRead => r ← conn_try_read c; Ok (match r.1 with Some m => [m] | None => [] end, r.2)
  | DoTrySend m => Ok ([], (conn_try_send c m).2)
  | DoSend m => Ok ([], (conn_send_message c m).2)
  | DoProbe => Ok ([], probe c)
  | DoClose => Ok ([], conn_close c)
  end.

Fixpoint conn_run (ops : list ConnOp) c : res (list string * Conn) :=
  match ops with
  | [] => Ok ([], c)
  | op :: ops => r ← conn_op op c; s ← conn_run ops r.2; Ok ((r.1 ++ s.1)%list, s.2)
  end.

Lemma conn_op_ok op c : conn_inv c ->
  conn_op op c ⇓ (fun r => conn_inv r.2 /\ delivers (ws_ c) r.1 (ws_ r.2)).
Proof.
  intros Hc.
  assert (forall c', same_account c c' -> Ok ([], c') ⇓ (fun r : list string * Conn =>
    conn_inv r.2 /\ delivers (ws_ c) r.1 (ws_ r.2))) as Hsame.
  { intros c' Hs. apply returns_ok. split; [by eapply same_inv|]. apply passes_delivers, Hs. }
  destruct op; cbn [conn_op].
  - apply returns_bind. eapply returns_mono; [by apply try_read_ok|]. intros [o c'] (Hi & Hd & _).
    by apply returns_ok.
  - apply Hsame, try_send_same.
  - apply Hsame, send_same.
  - apply Hsame, detect_same.
  - apply Hsame, close_same.
Qed.

Lemma conn_run_ok ops c : conn_inv c ->
  conn_run ops c ⇓ (fun r => conn_inv r.2 /\ delivers (ws_ c) r.1 (ws_ r.2)).
Proof.
  revert c. induction ops as [|op ops IH]; intros c Hc; cbn [conn_run].
  { apply returns_ok. split; [done|]. by apply passes_delivers. }
  apply returns_bind. eapply returns_mono; [by apply conn_op_ok|]. intros [r1 c1] [Hc1 Hd1].
  apply returns_bind. eapply returns_mono; [by apply IH|]. intros [r2 c2] [Hc2 Hd2].
  apply returns_ok. split; [done|]. by eapply delivers_trans.
Qed.

End ServerCorrect.


(** ** The client *)

Section ClientCorrect.
Context {W : Type} `{StreamLaws W unmasked_frame_size}.
Implicit Type c : NetClient W.

Definition net_inv c : Prop := forall w, nc_ws c = Some w -> nc_connected c = true ->
  0 <= nc_buffered c <= held w.

Definition net_outcome (w : W) (r : option string * NetClient W) : Prop :=
  net_inv r.2 /\ exists w', nc_ws r.2 = Some w' /\
    delivers w (match r.1 with Some m => [m] | None => [] end) w'.

(** A computation that returns, or throws the error of the stream; it does not block. *)
Definition returns_or_throws {A} (m : res A) (Q : A -> Prop) : Prop := m = Err RuntimeError \/ m ⇓ Q.

Lemma receive_message_ok w0 w buffered n : passes w0 w -> 0 <= buffered <= held w -> 0 <= n <= sock w ->
  0 < held w + sock w -> returns_or_throws (receive_message w buffered n) (net_outcome w0).
Proof.
  intros Hp Hb Hn Hpos. unfold receive_message, returns_or_throws.
  pose proof (read_law w Hpos) as Hr. destruct (st_read w) as [[[w1 ec] m]|]; [|done]. cbn [returns] in Hr.
  rewrite bind_ok. pose proof (bytes_nonneg w1) as [_ Hh1].
  assert (ec <> None -> delivers w0 [] w1 /\ held w <= held w1) as Herr.
  { destruct ec; [|done]. destruct Hr as (Hh & later & Hl). intros _. split; [|done].
    eapply (delivers_trans _ []); [by apply passes_delivers|]. exists later. by rewrite Hl. }
  assert (forall k b, 0 <= k <= held w1 -> ec <> None -> net_outcome w0 (None, mkNet (Some w1) k b)) as Hfail.
  { intros k b Hk Hne. split; [|exists w1; split; [done|by apply Herr]]. intros w' [= <-] _. done. }
  destruct ec as [e|].
  - destruct Herr as [_ Hle]; [done|]. cbn [failed].
    destruct (is_transient_io_error _); [right; by apply Hfail; [lia|]|].
    destruct (_ || _); [right; by apply Hfail; [lia|]|by left].
  - clear Herr Hfail. right. destruct Hr as (moved & arrived & later & Hge & Hmv & Hs1 & Hh & Hl).
    cbn [is_transient_io_error has_code failed]. unfold is_transient_io_error, has_code.
    rewrite !bool_decide_eq_false_2 by done. cbn [orb].
    pose proof (available_law w1) as Ha2. destruct (st_available w1) as [[w2 ec2] n2]. destruct Ha2 as [Hp2 Hn2].
    pose proof Hp2 as (Eh2 & Hs2 & _). apply returns_ok. split; cbn [fst snd nc_ws].
    + intros w' [= <-] _. cbn [nc_buffered]. rewrite Eh2.
      assert (forall r, r = None \/ r = Some (sock w2) ->
        0 <= update_buffered_bytes buffered n (unmasked_frame_size (slen m)) r <= held w1) as Hacc.
      { intros r Hr. assert (0 <= update_buffered_bytes buffered n (unmasked_frame_size (slen m)) r <=
          update_buffered_bytes buffered (sock w) (unmasked_frame_size (slen m)) r) as Hle.
        { unfold update_buffered_bytes. destruct r as [a|]; repeat case_match; lia. }
        assert (sock w + arrived - moved <= sock w2) as Hs3 by (rewrite <- Hs1; exact Hs2).
        pose proof (account_below buffered (held w) (held w1) (sock w) (sock w) moved arrived (sock w2)
          (unmasked_frame_size (slen m)) r Hb eq_refl Hge Hmv Hh Hh1 Hs3 Hr) as Hbelow. lia. }
      destruct ec2; [by apply Hacc; left|]. apply Hacc. right. by rewrite (Hn2 eq_refl).
    + exists w2. split; [done|]. eapply (delivers_trans _ []); [by apply passes_delivers|].
      eapply (delivers_trans _ [m] w1 []); [by exists later|by apply passes_delivers].
Qed.

(** A poll of the client never blocks: it returns with a sound account, after the next
    message or none, or throws the stream's error. *)
Lemma try_receive_ok c w : net_inv c -> nc_ws c = Some w ->
  returns_or_throws (try_receive_snapshot c) (net_outcome w).
Proof.
  intros Hc Ew. unfold try_receive_snapshot. rewrite Ew. destruct (nc_connected c) eqn:Eo; cbn [negb].
  2:{ right. apply returns_ok. split; [done|]. exists w. split; [done|]. by apply passes_delivers. }
  pose proof (Hc w Ew Eo) as Hb. pose proof (available_law w) as Ha.
  destruct (st_available w) as [[w1 ec] n]. destruct Ha as [Hp Hn]. pose proof Hp as (Eh & Hs & _).
  pose proof (bytes_nonneg w1) as [Hs1 Hh1].
  assert (forall w' k b, passes w w' -> 0 <= k <= held w' ->
    returns_or_throws (Ok (None, mkNet (Some w') k b)) (net_outcome w)) as Hnone.
  { intros w' k b Hw Hk. right. apply returns_ok. split; [by intros ? [= <-] _|].
    exists w'. split; [done|by apply passes_delivers]. }
  destruct ec as [e|]; cbn [failed]; [apply Hnone; [done|lia]|]. specialize (Hn eq_refl).
  destruct ((n =? 0) && (nc_buffered c =? 0)) eqn:Ez.
  2:{ apply receive_message_ok; [done|lia|lia|].
      apply andb_false_iff in Ez as [Ez%Z.eqb_neq|Ez%Z.eqb_neq]; lia. }
  apply andb_true_iff in Ez as [Ez%Z.eqb_eq Ez'%Z.eqb_eq].
  assert (forall w2 peek, peek_non_blocking w1 = (w2, peek) -> passes w w2 /\
    forall k, peek = Some (None, k) -> 0 <= k /\ (0 < k -> 0 < sock w2)) as Hpeek.
  { intros w2 peek. unfold peek_non_blocking. destruct (st_non_blocking w1); cbn [negb failed].
    - pose proof (peek_law w1) as Hk. destruct (st_peek w1) as [[w3 ek] k]. destruct Hk as (Hk1 & Hk0 & Hk2).
      intros [= <- <-]. split; [by etrans|]. intros k' [= -> ->]. split; [done|by apply Hk2].
    - pose proof (mode_law w1 true) as Hm. destruct (st_set_non_blocking w1 true) as [w0 nb]. cbn [fst] in Hm.
      destruct (failed nb); [intros [= <- <-]; split; [by etrans|done]|].
      pose proof (peek_law w0) as Hk. destruct (st_peek w0) as [[w3 ek] k]. destruct Hk as (Hk1 & Hk0 & Hk2).
      pose proof (mode_law w3 false) as Hm2. intros [= <- <-]. split; [by repeat (etrans; [eassumption|])|].
      intros k' [= -> ->]. split; [done|]. intros Hpos. destruct Hm2 as (_ & Hle & _). specialize (Hk2 eq_refl Hpos). lia. }
  destruct (peek_non_blocking w1) as [w2 peek]. destruct (Hpeek w2 peek eq_refl) as [Hp2 Hk].
  pose proof (proj1 Hp2) as Eh2. pose proof (bytes_nonneg w2) as [Hs2 Hh2].
  assert (forall b, returns_or_throws (Ok (None, mkNet (Some w2) (nc_buffered c) b)) (net_outcome w)) as Hnone2
    by (intros b; apply Hnone; [done|lia]).
  destruct peek as [[ek k]|]; [|apply Hnone2]. destruct ek as [e|].
  { cbn [failed]. destruct (has_code (Some e) WouldBlock); [apply Hnone2|]. destruct (_ || _); apply Hnone2. }
  unfold has_code. rewrite !bool_decide_eq_false_2 by done. cbn [orb failed negb]. rewrite andb_true_r.
  destruct (Z.eqb_spec k 0) as [E0|E0]; [apply Hnone2|].
  destruct (Hk k eq_refl) as [Hge Hpos]. apply receive_message_ok; [done|lia|lia|]. lia.
Qed.

End ClientCorrect.

(** ** A wire that obeys the laws *)

Module Wire.

(** The messages whose frames the library holds, those in the socket, and those that
    arrive at the next polls. *)
Record Wire := mkWire { in_held : list string; in_sock : list string; coming : list (list string) }.

Definition size (l : list string) : Z := foldr (fun m n => masked_frame_size (slen m) + n) 0 l.

Definition poll (w : Wire) : Wire :=
  match coming w with
  | [] => w
  | batch :: rest => mkWire (in_held w) (in_sock w ++ batch)%list rest
  end.

#[export] Instance wire_stream : Stream Wire := {
  st_accept w := (w, None);
  st_available w := (poll w, None, size (in_sock (poll w)));
  st_non_blocking _ := false;
  st_set_non_blocking w _ := (w, None);
  st_peek w := (w, match in_sock w with [] => Some WouldBlock | _ => None end, 1);
  st_read w :=
    match (in_held w ++ in_sock w)%list with
    | [] => Err Diverges
    | m :: rest => Ok (mkWire rest [] (coming w), None, m)
    end;
  st_write w _ := (w, None);
  st_close w := w
}.

#[export] Instance wire_view : StreamView Wire := {
  sock w := size (in_sock w);
  held w := size (in_held w);
  inbox w := (in_held w ++ in_sock w ++ List.concat (coming w))%list
}.

Lemma frame_positive m : 6 <= masked_frame_size (slen m).
Proof. unfold masked_frame_size, slen. repeat case_match; lia. Qed.

Lemma size_cons m l : size (m :: l) = masked_frame_size (slen m) + size l.
Proof. done. Qed.

Lemma size_nonneg l : 0 <= size l.
Proof. induction l as [|m l IH]; [done|]. rewrite size_cons. pose proof (frame_positive m). lia. Qed.

Lemma size_app l l' : size (l ++ l')%list = size l + size l'.
Proof. induction l as [|m l IH]; [done|]. cbn [app]. rewrite !size_cons. lia. Qed.

Lemma poll_passes w : passes w (poll w).
Proof.
  unfold poll. destruct w as [h s [|batch rest]]; [reflexivity|]. split_and!; cbn -[size]; [done| |].
  - rewrite size_app. pose proof (size_nonneg batch). lia.
  - exists []. by rewrite app_nil_r, <- app_assoc.
Qed.

#[export] Instance wire_laws : StreamLaws Wire masked_frame_size.
Proof.
  split.
  - intros w. split; apply size_nonneg.
  - intros w. split; [apply poll_passes|done].
  - intros w b. reflexivity.
  - intros w. cbn -[size]. split_and!; [reflexivity|lia|]. destruct (in_sock w) as [|m l]; [done|]. intros _ _.
    rewrite size_cons. pose proof (frame_positive m). pose proof (size_nonneg l). lia.
  - intros w m. reflexivity.
  - intros w. reflexivity.
  - intros w Hpos. cbn -[size] in *. destruct (in_held w ++ in_sock w)%list as [|m rest] eqn:E.
    { apply app_eq_nil in E as [E1 E2]. rewrite E1, E2 in Hpos. cbn in Hpos. lia. }
    apply returns_ok. exists (size (in_sock w)), 0, []. pose proof (size_nonneg (in_sock w)).
    cbn -[size]. change (size []) with 0. split_and!; [lia|lia|lia|lia| |].
    + assert (size (m :: rest) = size (in_held w) + size (in_sock w)) as Hs by (by rewrite <- E, size_app).
      rewrite size_cons in Hs. lia.
    + by rewrite app_nil_r, app_assoc, E.
Qed.

End Wire.

#[local] Existing Instance Wire.wire_stream.
#[local] Existing Instance Wire.wire_view.
#[local] Existing Instance Wire.wire_laws.

Definition sample_wire : Wire.Wire := Wire.mkWire [] [] [["login ann pw"; "play"]; []; []; ["resign"]].


(** The same run, evaluated: the second message is read out of the library's buffer. *)
Example sample_run :
  (r ← conn_run [DoRead; DoProbe; DoRead; DoTrySend "searching"; DoRead] (mkConn sample_wire 0 true); Ok r.1) =
  Ok ["login ann pw"; "play"; "resign"].
Proof. vm_compute. reflexivity. Qed.

(** ** Behaviours worth knowing *)

(** A read also consumes control frames (a ping), which the account does not subtract:
    after a message and a ping of [control] bytes, all consumed, it says that [control]
    bytes are left. *)
Lemma control_frame_overestimates payload control : 0 <= payload -> 0 < control ->
  update_buffered_bytes 0 (masked_frame_size payload + control) (masked_frame_size payload) (Some 0) = control.
Proof.
  intros Hp Hc. assert (0 <= masked_frame_size payload) as Hm by (unfold masked_frame_size; repeat case_match; lia).
  unfold update_buffered_bytes. destruct (Z.ltb_spec 0 (masked_frame_size payload + control)); [|lia].
  destruct (Z.ltb_spec (masked_frame_size payload) (0 + (masked_frame_size payload + control - 0))); lia.
Qed.

(** And with nothing pending, the next poll blocks. *)
Example overestimate_blocks : conn_try_read (mkConn (Wire.mkWire [] [] []) 6 true) = Err Diverges.
Proof. reflexivity. Qed.

(** [send_message] does not look at the state of the connection, and marks it open again
    whenever the write succeeds. *)
Lemma send_message_reopens {W : Type} `{Stream W} (c : ClientConnection W) m w :
  st_write (ws_ c) m = (w, None) -> open_ (conn_send_message c m).2 = true.
Proof. intros E. unfold conn_send_message. by rewrite E. Qed.

(** A message of the client that arrives between the poll and the peek is read with a
    poll of 0 bytes: what the library takes beyond it is not accounted for. *)
Lemma late_arrival_forgotten consumed remaining : 0 <= consumed ->
  (forall n, remaining = Some n -> 0 <= n) -> update_buffered_bytes 0 0 consumed remaining = 0.
Proof.
  intros Hc Hr. unfold update_buffered_bytes. destruct remaining as [n|].
  - specialize (Hr n eq_refl). destruct (Z.ltb_spec n 0); [lia|]. destruct (Z.ltb_spec consumed (0 + 0)); lia.
  - destruct (Z.ltb_spec consumed (0 + 0)); lia.
Qed.
