(* ===== verification/Runtime.v ===== *)
(** * The server programs

    [src/src/server/game_server_runtime.cpp], [gateway_server.cpp] and
    [src/src/matchmaking/matchmaker_runtime.cpp]: one iteration of each program, composed
    of the components' iterations, and the heartbeats by which the programs find each
    other.

    The steady clock is the environment: a tick takes its readings, in nanoseconds, where
    0 is the value of a time point that was never set.  The listeners accept on
    threads of their own; polling their [io_context] finds no handler to run.  Sleeping
    and the observability counters are left out. *)

From S2P Require Import Prelude Piece BoardModel PathUtils PieceRules CollisionResolver MoveScheduler RealTimeArbiter GameState CppString BoardIO Sha256 GameMessages BoardView Snapshot Codecs Rooms Sessions Users GameLoop Ratings RuntimeStore Matchmaking Config GameResult Hosting MatchService Lobby.
From Stdlib Require Import String.
Open Scope Z_scope.

Definition ns_per_ms : Z := 1000000.
Definition ns_per_s : Z := 1000000000.

(** ** Heartbeats

    [maybe_publish_heartbeat] of the three programs. *)

Record Identity := mkIdentity {
  hb_server_id : string;
  hb_region : string;
  hb_endpoint : string;
  hb_allocation_endpoint : string;
  hb_redis_enabled : bool;
  hb_interval_s : Z
}.

(** The time points and the duration that [metrics] reports on. *)
Record Clocks := mkClocks { ck_started_at : Z; ck_last_heartbeat_at : Z; ck_last_tick_duration_ms : Z }.

Definition set_heartbeat_at (c : Clocks) (now : Z) : Clocks :=
  mkClocks (ck_started_at c) now (ck_last_tick_duration_ms c).
Definition set_tick_duration (c : Clocks) (ms : Z) : Clocks :=
  mkClocks (ck_started_at c) (ck_last_heartbeat_at c) ms.

Definition uptime_seconds (c : Clocks) (now : Z) : Z :=
  if negb (ck_started_at c =? 0) then Z.quot (now - ck_started_at c) ns_per_s else 0.

Section Heartbeat.
Context {S : Type} `{RuntimeStore S}.

Definition common_metrics (me : Identity) (rooms sessions queue now : Z) (c : Clocks) (store : S) :
    ServerMetrics :=
  mkMetrics rooms sessions queue (uptime_seconds c now) (ck_last_tick_duration_ms c)
    (hb_server_id me) (hb_region me) (hb_endpoint me) (hb_allocation_endpoint me)
    (hb_redis_enabled me) (hb_redis_enabled me && is_available store).

(** [stamp] is the wall-clock time that the store notes. *)
Definition maybe_publish_heartbeat (me : Identity) (metrics : S -> ServerMetrics) (now stamp : Z)
    (c : Clocks) (store : S) : Clocks * S :=
  if negb (ck_last_heartbeat_at c =? 0)
     && (now - ck_last_heartbeat_at c <? hb_interval_s me * ns_per_s)
  then (c, store)
  else (set_heartbeat_at c now,
        publish_server_heartbeat store (hb_server_id me) (hb_region me) (metrics store) stamp).
End Heartbeat.

(** The readings of one iteration. *)
Record Readings {C : Type} := mkReadings {
  rd_incoming : res (option (Z * C));
  rd_order : list Z;
  rd_now : Z;
  rd_process_now : Z;
  rd_heartbeat_now : Z;
  rd_metrics_now : Z;
  rd_stamp : Z
}.
Arguments Readings : clear implicits.
Arguments mkReadings {C} _ _ _ _ _ _ _.

(** ** [GameServerRuntime] *)

Section GameServer.
Context {C U G S : Type} `{Connection C} `{UserRepository U} `{GameRepository G} `{RuntimeStore S}.

Notation Loop := (LoopState C (ResultEnv U G S)).

Record Runtime := mkRuntime { rt_loop : Loop; rt_clocks : Clocks }.

Definition set_loop_store (st : Loop) (s : S) : Loop :=
  mkLoop (ls_rooms st) (ls_plane st) (ls_last_tick st)
    (mkEnv (re_users (ls_ext st)) (re_games (ls_ext st)) s).

(** The rooms of the table, whose order does not matter for counting. *)
Definition table_order (m : RoomManager) : list Z := (map_to_list (rooms_ m)).*1.

Definition runtime_metrics (me : Identity) (now : Z) (c : Clocks) (st : Loop) (store : S) : ServerMetrics :=
  common_metrics me (active_room_count (table_order (ls_rooms st)) (ls_rooms st))
    (vlen (sessions_ (ls_plane st))) 0 now c store.

Definition active_player_count (order : list Z) (m : RoomManager) : Z :=
  foldl (fun count id =>
    match find_room m id with
    | None => count
    | Some room =>
        let count := match white_player_ room with Some _ => count + 1 | None => count end in
        match black_player_ room with Some _ => count + 1 | None => count end
    end) 0 (active_rooms order m).

Definition runtime_heartbeat (me : Identity) (rd : Readings C) (r : Runtime) : Runtime :=
  let '(c, s) := maybe_publish_heartbeat me
    (runtime_metrics me (rd_metrics_now rd) (rt_clocks r) (rt_loop r))
    (rd_heartbeat_now rd) (rd_stamp rd) (rt_clocks r) (re_store (ls_ext (rt_loop r))) in
  mkRuntime (set_loop_store (rt_loop r) s) c.

(** The steps of [tick_once] before the games. *)
Definition accept_phase (manage_connections : bool) (rd : Readings C) (st : Loop) : res Loop :=
  if manage_connections then
    p ← accept_new_clients (rd_incoming rd) (ls_plane st); Ok (set_ls_plane st p)
  else Ok st.

(** The games: joins, one round of the active rooms, and the end of closed rooms. *)
Definition play_phase (rd : Readings C) (st : Loop) : res (Loop * Z) :=
  p ← join_process (ls_rooms st) (ls_plane st);
  let st := set_ls_plane st p in
  let elapsed := Z.quot (rd_now rd - ls_last_tick st) ns_per_ms in
  st ← process (rd_order rd) elapsed (rd_process_now rd) st;
  Ok (set_ls_rooms st (remove_inactive_rooms (ls_rooms st)), elapsed).

(** No disconnect handler is bound to the connections of a game server. *)
Definition prune_phase (manage_connections : bool) (st : Loop) : res Loop :=
  if manage_connections then
    r ← prune_sessions (fun _ (u : unit) => u) (ls_plane st) tt; Ok (set_ls_plane st r.1)
  else Ok st.

Definition tick_once (me : Identity) (manage_connections : bool) (rd : Readings C) (r : Runtime) :
    res Runtime :=
  st ← accept_phase manage_connections rd (rt_loop r);
  r' ← play_phase rd st;
  let '(st, elapsed) := r' : Loop * Z in
  st ← prune_phase manage_connections st;
  Ok (runtime_heartbeat me rd (mkRuntime st (set_tick_duration (rt_clocks r) elapsed))).

(** [run]: [rd0] are the readings before the loop, and stop is requested after the
    last of [ticks]. *)
Definition run_runtime (me : Identity) (manage_connections : bool) (rd0 : Readings C)
    (ticks : list (Readings C)) (r : Runtime) : res Runtime :=
  let st := set_last_tick (rt_loop r) (rd_now rd0) in
  let c := mkClocks (rd_now rd0) (ck_last_heartbeat_at (rt_clocks r))
             (ck_last_tick_duration_ms (rt_clocks r)) in
  let r := runtime_heartbeat me rd0 (mkRuntime st c) in
  r ← foldM (tick_once me manage_connections) ticks r;
  Ok (mkRuntime (set_loop_store (rt_loop r)
        (deregister_server (re_store (ls_ext (rt_loop r))) (hb_server_id me))) (rt_clocks r)).

End GameServer.
Arguments Runtime : clear implicits.

(** The identity that the constructor takes from the configuration; [listener_port] is the
    port of the creation listener, if it is enabled. *)
Definition runtime_identity (config : AppConfig) (listener_port : option Z) : Identity :=
  let server := cfg_server config in
  mkIdentity (sc_server_id server) (sc_region server) (resolve_game_endpoint server)
    (match listener_port with
     | Some port =>
         if is_empty_string (sc_allocation_endpoint server) then
           "http://" ++ sc_bind_address server ++ ":" ++ to_string port ++ "/allocate"
         else resolve_allocation_endpoint server
     | None => resolve_allocation_endpoint server
     end)
    (rc_enabled (cfg_redis config)) (rc_heartbeat_interval (cfg_redis config)).

(** ** [MatchmakerRuntime] *)

Record MatchmakerReadings := mkMatchmakerReadings {
  mr_now : Z; mr_queue_now : Z; mr_heartbeat_now : Z; mr_metrics_now : Z; mr_stamp : Z
}.

Section MatchmakerProgram.
Context {S G A : Type} `{RuntimeStore S}.
Context (config : MatchmakingConfig).

Notation Srv := (Service (S := S) (G := G) (A := A)).

Record MatchmakerRuntime := mkMatchmaker {
  mk_service : Srv; mk_last_tick : Z; mk_last_queue_process : Z; mk_clocks : Clocks
}.

Definition set_sv_store (sv : Srv) (s : S) : Srv :=
  mkService s (sv_games sv) (sv_allocator sv) (default_queue_ sv) (region_queues_ sv) (sv_notices sv).

Definition matchmaker_metrics (me : Identity) (now : Z) (c : Clocks) (sv : Srv) (store : S) :
    ServerMetrics :=
  common_metrics (mkIdentity (hb_server_id me) (hb_region me) "" "" (hb_redis_enabled me)
                    (hb_interval_s me))
    0 0 (service_waiting_count sv (hb_region me)) now c store.

Definition is_ready (redis_enabled : bool) (store : S) : bool :=
  if redis_enabled && negb (is_available store) then false
  else negb (match list_game_servers store with [] => true | _ => false end).

Definition active_game_server_count (store : S) : Z := vlen (list_game_servers store).

Definition matchmaker_tick (me : Identity) (rd : MatchmakerReadings) (r : MatchmakerRuntime) :
    res MatchmakerRuntime :=
  let now := mr_now rd in
  let due := ns_per_s <=? now - mk_last_queue_process r in
  sv ← (if due then process_queue config (mr_queue_now rd) (hb_region me) (mk_service r)
        else Ok (mk_service r));
  let last_queue_process := if due then now else mk_last_queue_process r in
  let c := set_tick_duration (mk_clocks r) (Z.quot (now - mk_last_tick r) ns_per_ms) in
  let '(c, s) := maybe_publish_heartbeat me (matchmaker_metrics me (mr_metrics_now rd) c sv)
    (mr_heartbeat_now rd) (mr_stamp rd) c (sv_store sv) in
  Ok (mkMatchmaker (set_sv_store sv s) now last_queue_process c).

End MatchmakerProgram.

(** ** [GatewayServer] *)

Section Gateway.
Context {C U J S : Type} `{Connection C} `{UserRepository U} `{!JoinClient C J} `{RuntimeStore S}.
Context (salt : Z -> list Z) (region : string).

Record Gateway := mkGateway {
  gw_lobby : LobbyState (C := C) (U := U) (J := J); gw_store : S; gw_last_tick : Z; gw_clocks : Clocks
}.

(** [process_match_timeouts_] and the disconnect handler are bound by the program. *)
Context (process_match_timeouts : option (Plane (C := C) * J -> res (Plane (C := C) * J))).
Context (on_disconnected : PlayerSession -> J -> J).

Definition gateway_metrics (me : Identity) (now : Z) (c : Clocks) (p : Plane (C := C)) (store : S) :
    ServerMetrics :=
  common_metrics (mkIdentity (hb_server_id me) (hb_region me) (hb_endpoint me) ""
                    (hb_redis_enabled me) (hb_interval_s me))
    0 (vlen (sessions_ p)) 0 now c store.

Definition authenticated_player_count (p : Plane (C := C)) : Z :=
  foldl (fun count session => if has_user session then count + 1 else count) 0 (sessions_ p).

Definition gateway_serve (st : LobbyState (C := C) (U := U) (J := J)) :
    res (LobbyState (C := C) (U := U) (J := J)) :=
  st ← lobby_process salt region st;
  match process_match_timeouts with
  | None => Ok st
  | Some timeouts => r ← timeouts (lb_plane st, lb_client st); Ok (mkLobby r.1 (lb_users st) r.2)
  end.

(** The steps of [tick_once] on the clients, and the heartbeat at its end; the clock is
    read between them, and neither depends on the other. *)
Definition gateway_round (rd : Readings C) (st : LobbyState (C := C) (U := U) (J := J)) :
    res (LobbyState (C := C) (U := U) (J := J)) :=
  p ← accept_new_clients (rd_incoming rd) (lb_plane st);
  st ← gateway_serve (set_lb_plane st p);
  r ← prune_sessions on_disconnected (lb_plane st) (lb_client st);
  Ok (mkLobby r.1 (lb_users st) r.2).
Definition gateway_beat (me : Identity) (rd : Readings C) (last_tick : Z) (c : Clocks) (p : Plane (C := C))
    (store : S) : Clocks * S :=
  let c := set_tick_duration c (Z.quot (rd_now rd - last_tick) ns_per_ms) in
  maybe_publish_heartbeat me (gateway_metrics me (rd_metrics_now rd) c p) (rd_heartbeat_now rd)
    (rd_stamp rd) c store.

Definition gateway_tick (me : Identity) (rd : Readings C) (g : Gateway) : res Gateway :=
  st ← gateway_round rd (gw_lobby g);
  let '(c, s) := gateway_beat me rd (gw_last_tick g) (gw_clocks g) (lb_plane st) (gw_store g) in
  Ok (mkGateway st s (rd_now rd) c).

End Gateway.

(** ** [GameServerRuntime]: lemmas *)

Section GameServerCorrect.
Context {C U G S : Type} `{Connection C} `{UserRepositoryLaws U} `{GameRepository G}
  `{RuntimeStoreLaws S}.

Notation Loop := (LoopState C (ResultEnv U G S)).
Implicit Types (st : Loop) (rd : Readings C).

(** Another network, with the same rooms. *)
Lemma loop_ok_plane n st p : loop_ok n st -> plane_ok p -> loop_ok n (set_ls_plane st p).
Proof.
  intros (Hm & _ & Hf) Hp. split_and!; [done|done|]. eapply finish_inv_stable; [exact Hf|].
  split; [done|]. intros id r' Hr'. by exists r'.
Qed.

(** Another store. *)
Lemma loop_ok_store n st s : loop_ok n st -> loop_ok n (set_loop_store st s).
Proof. intros (Hm & Hp & Hf). by split_and!. Qed.

Lemma lookup_remove_inactive m id :
  rooms_ (remove_inactive_rooms m) !! id =
  match rooms_ m !! id with Some r => if active_ r then Some r else None | None => None end.
Proof.
  cbn. destruct (rooms_ m !! id) as [r|] eqn:E.
  - destruct (active_ r) eqn:Ea.
    + by apply map_lookup_filter_Some.
    + apply map_lookup_filter_None. right. intros r' Hr'. simplify_eq. cbn. congruence.
  - apply map_lookup_filter_None. by left.
Qed.

Lemma loop_ok_remove_inactive n st : loop_ok n st ->
  loop_ok n (set_ls_rooms st (remove_inactive_rooms (ls_rooms st))).
Proof.
  intros (Hm & Hp & Hf).
  assert (forall id r, rooms_ (remove_inactive_rooms (ls_rooms st)) !! id = Some r ->
    rooms_ (ls_rooms st) !! id = Some r) as Hsub.
  { intros id r. rewrite lookup_remove_inactive. repeat case_match; naive_solver. }
  split_and!; [|done|].
  - destruct Hm as [Hbd Hnx Hrm]. split; [done|done|]. intros id r Hr. by apply Hrm, Hsub.
  - eapply finish_inv_stable; [exact Hf|]. split; [done|]. intros id r' Hr'. exists r'. by split; [apply Hsub|].
Qed.

(** What the round does to the table: every active room went through its round and is
    still there if it is still active; all others are gone. *)
Definition rounds (elapsed : Z) st st' : Prop :=
  (forall id r, rooms_ (ls_rooms st') !! id = Some r -> active_ r = true) /\
  forall id, match rooms_ (ls_rooms st) !! id with
    | Some r =>
        if active_ r then exists r1, room_round elapsed r r1 /\
          (rooms_ (ls_rooms st') !! id = Some r1 \/ rooms_ (ls_rooms st') !! id = None)
        else rooms_ (ls_rooms st') !! id = None
    | None => rooms_ (ls_rooms st') !! id = None
    end.

Definition elapsed_ms rd st : Z := Z.quot (rd_now rd - ls_last_tick st) ns_per_ms.

Lemma play_phase_ok n rd st : loop_ok (2 * List.length (rd_order rd) + n) st ->
  NoDup (ps_connection <$> sessions_ (ls_plane st)) -> enumerates (rd_order rd) (ls_rooms st) ->
  (forall id r, rooms_ (ls_rooms st) !! id = Some r -> tick_fits (elapsed_ms rd st) r) ->
  play_phase rd st ⇓ (fun '(st', e) => e = elapsed_ms rd st /\ loop_ok n st' /\
    rounds (elapsed_ms rd st) st st').
Proof.
  intros Hst Hd Hen Hfit. pose proof Hst as (_ & Hp & _). unfold play_phase, join_process.
  apply returns_bind. eapply returns_mono; [apply (join_loop_ok (ls_rooms st) _ _ Hp Hd)|].
  { apply NoDup_seq. }
  { intros i. rewrite elem_of_seq. lia. }
  intros p (Hp1 & _). cbv zeta. cbn [set_ls_plane ls_last_tick]. fold (elapsed_ms rd st).
  apply returns_bind. eapply returns_mono.
  { apply (process_spec n); [by apply loop_ok_plane|done|done]. }
  intros st' (Hst' & Hrooms). apply returns_ok. split; [done|].
  split; [by apply loop_ok_remove_inactive|]. unfold rounds.
  cbn [set_ls_rooms ls_rooms set_ls_plane] in *. split.
  - intros id r. rewrite lookup_remove_inactive. repeat case_match; naive_solver.
  - intros id. specialize (Hrooms id). rewrite lookup_remove_inactive.
    destruct (rooms_ (ls_rooms st) !! id) as [r|]; [|by rewrite Hrooms].
    destruct (active_ r) eqn:Ea; [|by rewrite Hrooms, Ea].
    destruct Hrooms as (r1 & r2 & Hround & -> & [->| ->]).
    + exists r1. split; [done|]. destruct (active_ r1); auto.
    + exists r1. split; [done|]. by right.
Qed.

(** Connections that were probed open stay; sessions are untouched. *)
Lemma prune_disconnected_ok (p : Plane (C := C)) : plane_ok p ->
  forallb (alive p) (sessions_ p) = true -> plane_ok (prune_disconnected p).
Proof.
  intros [Hl Hi Hn] Ha. split; [|done|done]. intros s Hs. destruct (Hl s Hs) as (addr & Ea & _).
  exists addr. split; [done|]. rewrite forallb_forall in Ha.
  specialize (Ha s (proj1 (list_elem_of_In _ _) Hs)). unfold alive in Ha. rewrite Ea in Ha.
  pose proof (load_pruned p addr) as Hload. rewrite Ha in Hload. destruct Hload as (c & Hc & _).
  unfold live. revert Hc. unfold load. clear. induction (clients_ (prune_disconnected p)) as [|[a x] l IH];
    cbn; [done|]. destruct (Z.eqb_spec a addr) as [->|]; [set_solver|]. intros Hc. apply IH in Hc. set_solver.
Qed.

Definition heartbeat_due (me : Identity) (c : Clocks) (now : Z) : bool :=
  (ck_last_heartbeat_at c =? 0) || (hb_interval_s me * ns_per_s <=? now - ck_last_heartbeat_at c).

Lemma maybe_publish_eq me metrics now stamp c (store : S) :
  maybe_publish_heartbeat me metrics now stamp c store =
  if heartbeat_due me c now then
    (set_heartbeat_at c now,
     publish_server_heartbeat store (hb_server_id me) (hb_region me) (metrics store) stamp)
  else (c, store).
Proof.
  unfold maybe_publish_heartbeat, heartbeat_due. destruct (ck_last_heartbeat_at c =? 0); [done|].
  cbn [negb andb orb]. rewrite Z.ltb_antisym. by destruct (_ <=? _).
Qed.

(** Counting the active rooms of a table that holds no others. *)
Lemma count_all_active m : (forall id r, rooms_ m !! id = Some r -> active_ r = true) ->
  active_room_count (table_order m) m = Z.of_nat (size (rooms_ m)).
Proof.
  intros Ha. unfold active_room_count, active_rooms, table_order, vlen. f_equal.
  rewrite <- length_map_to_list, <- (length_fmap fst). f_equal.
  assert (forall id, id ∈ (map_to_list (rooms_ m)).*1 -> exists r, rooms_ m !! id = Some r) as Hin.
  { intros id ([id' r] & -> & Hr%elem_of_map_to_list)%list_elem_of_fmap. by exists r. }
  induction ((map_to_list (rooms_ m)).*1) as [|id l IH]; [done|]. cbn.
  destruct (Hin id (list_elem_of_here _ _)) as [r Hr]. unfold find_room. rewrite Hr, (Ha id r Hr).
  f_equal. apply IH. intros id' Hid'. by apply Hin, list_elem_of_further.
Qed.

(** What a heartbeat leaves in the store. *)
Definition published (me : Identity) (due : bool) (rooms stamp : Z) (s s' : S) : Prop :=
  (forall u, find_player_location s' u = find_player_location s u) /\
  forall id, get_game_server s' id =
    if due && String.eqb id (hb_server_id me) then
      Some (mkServerRecord (hb_server_id me) (hb_endpoint me) (hb_allocation_endpoint me)
              (hb_region me) rooms "healthy" stamp)
    else get_game_server s id.

Lemma runtime_heartbeat_ok me n rd st c :
  loop_ok n st -> (forall id r, rooms_ (ls_rooms st) !! id = Some r -> active_ r = true) ->
  let r' := runtime_heartbeat me rd (mkRuntime st c) in
  loop_ok n (rt_loop r') /\ ls_rooms (rt_loop r') = ls_rooms st /\ ls_plane (rt_loop r') = ls_plane st /\
  ck_last_heartbeat_at (rt_clocks r') =
    (if heartbeat_due me c (rd_heartbeat_now rd) then rd_heartbeat_now rd else ck_last_heartbeat_at c) /\
  published me (heartbeat_due me c (rd_heartbeat_now rd)) (Z.of_nat (size (rooms_ (ls_rooms st))))
    (rd_stamp rd) (re_store (ls_ext st)) (re_store (ls_ext (rt_loop r'))).
Proof.
  intros Hst Ha. cbv zeta. unfold runtime_heartbeat. cbn [rt_loop rt_clocks]. rewrite maybe_publish_eq.
  destruct (heartbeat_due me c (rd_heartbeat_now rd)).
  - cbn [rt_loop rt_clocks]. split_and!; [by apply loop_ok_store|done..|].
    cbn [set_loop_store ls_ext re_store]. split; [intros u; apply find_published|].
    intros id. rewrite get_published. cbn [andb].
    destruct (String.eqb_spec id (hb_server_id me)); case_decide; try done.
    cbn. by rewrite count_all_active.
  - cbn [rt_loop rt_clocks]. split_and!; [by apply loop_ok_store|done..|]. by split.
Qed.

(** ** Properties *)


End GameServerCorrect.

#[local] Existing Instance idle_connection.
#[local] Existing Instance log_repository.

Definition sample_identity : Identity :=
  mkIdentity "game-1" "eu" "ws://host:9002" "http://host:9003/allocate" false 1.

(** A frame after 20 ms, with a heartbeat that is due. *)
Definition sample_readings : Readings bool :=
  mkReadings (Ok None) [1] 20000000 20000001 20000002 20000003 1700000000.


(** ** The matchmaker *)

Section MatchmakerCorrect.
Context {S G A : Type} `{RuntimeStoreLaws S}.
Context (config : MatchmakingConfig) (Hconfig : fits_i64 (queue_timeout config * 1000)).

(** A tick keeps the queues well formed, checks timeouts at most once a second, and
    publishes the matchmaker among the game servers. *)
Lemma matchmaker_tick_ok me rd (r : MatchmakerRuntime (S := S) (G := G) (A := A)) :
  service_ok config (mk_service r) -> 0 <= mr_queue_now rd < 2 ^ 62 ->
  matchmaker_tick config me rd r ⇓ (fun r' => service_ok config (mk_service r') /\
    (mr_now rd - mk_last_queue_process r < ns_per_s ->
       forall region, queue_at (mk_service r') region = queue_at (mk_service r) region)).
Proof.
  intros Hsv Hnow. unfold matchmaker_tick. cbv zeta. apply returns_bind.
  eapply (returns_mono _ (fun sv => service_ok config sv /\
    (mr_now rd - mk_last_queue_process r < ns_per_s -> sv = mk_service r))).
  - destruct (Z.leb_spec ns_per_s (mr_now rd - mk_last_queue_process r)); [|by apply returns_ok].
    unfold process_queue. apply returns_bind.
    eapply returns_mono; [by apply drain_timeouts_spec|]. intros [ids sv] (Hok & _).
    apply returns_ok. split; [done|lia].
  - intros sv [Hok Hsame]. rewrite maybe_publish_eq.
    assert (forall s, (forall region, list_matchmaking_queue s region = queue_at sv region) ->
      service_ok config (set_sv_store sv s) /\
      forall region, queue_at (set_sv_store sv s) region = queue_at sv region) as Hset.
    { intros s Hq. split; [by apply service_store|]. intros region. apply Hq. }
    destruct (heartbeat_due _ _ _); apply returns_ok; cbn [mk_service].
    + edestruct Hset as [H1' H2']; [intros region; apply list_published|]. split; [exact H1'|].
      intros Hlt region. rewrite H2'. by rewrite Hsame.
    + destruct (Hset (sv_store sv)) as [H1' H2']; [done|]. split; [done|].
      intros Hlt region. rewrite H2'. by rewrite Hsame.
Qed.

(** The matchmaker counts its own heartbeat as a game server: once it has published, it
    reports to be ready although no game server is there. *)
Lemma matchmaker_ready_alone (s : S) me metrics stamp :
  is_ready false (publish_server_heartbeat s (hb_server_id me) (hb_region me) metrics stamp) = true.
Proof.
  unfold is_ready. cbn [andb].
  pose proof (get_published s (hb_server_id me) (hb_region me) metrics stamp (hb_server_id me)) as Hg.
  rewrite decide_True in Hg by done.
  assert (exists x, x ∈ list_game_servers (publish_server_heartbeat s (hb_server_id me) (hb_region me)
    metrics stamp)) as [x Hx].
  { eexists (mkServerRecord _ _ _ _ _ _ _). apply listed. exact Hg. }
  destruct (list_game_servers _); [by apply not_elem_of_nil in Hx|done].
Qed.
End MatchmakerCorrect.

(** ** The gateway *)

Section GatewayCorrect.
Context {C U J S : Type} `{JoinClientOk C J} `{UserRepositoryLaws U} `{RuntimeStoreLaws S}.
Context (salt : Z -> list Z) (region : string) (Hsalt : forall id, Forall u8_ok (salt id)).
Context (Hregion : region_ok region).
Context (Hnames : forall (c c' : C) message, try_read c = (Some message, c') ->
  login_names_ok (U := U) message).
Context (on_disconnected : PlayerSession -> J -> J).

(** A tick of the gateway program: the lobby's round is safe; pruning is defined exactly
    when every client is still there, and then the sessions are those of the lobby. *)
Lemma gateway_tick_ok me rd n (g : Gateway (C := C) (U := U) (J := J) (S := S)) p :
  accept_new_clients (rd_incoming rd) (lb_plane (gw_lobby g)) = Ok p ->
  lobby_inv (List.length (sessions_ p) + n) (set_lb_plane (gw_lobby g) p) ->
  exists st, lobby_process salt region (set_lb_plane (gw_lobby g) p) = Ok st /\ lobby_inv n st /\
    if forallb (alive (lb_plane st)) (sessions_ (lb_plane st)) then
      gateway_tick salt region None on_disconnected me rd g ⇓ (fun g' =>
        sessions_ (lb_plane (gw_lobby g')) = sessions_ (lb_plane st) /\
        lb_users (gw_lobby g') = lb_users st /\ lb_client (gw_lobby g') = lb_client st)
    else gateway_tick salt region None on_disconnected me rd g = Err Undefined.
Proof.
  intros Hacc Hinv.
  destruct (proj1 (returns_eq _ _) (lobby_loop_ok salt region Hsalt Hregion Hnames n
    (ps_id <$> sessions_ p) (set_lb_plane (gw_lobby g) p)
    ltac:(by rewrite length_fmap) ltac:(done))) as (st & Est & Hdone).
  exists st. split; [exact Est|]. split; [apply Hdone|].
  unfold gateway_tick, gateway_round, gateway_serve. rewrite Hacc, bind_ok. unfold lobby_process at 1 2.
  cbn [lb_plane set_lb_plane]. rewrite Est, !bind_ok, prune_sessions_exact.
  destruct (forallb _ _); [|done]. rewrite !bind_ok. unfold gateway_beat. rewrite maybe_publish_eq.
  by destruct (heartbeat_due _ _ _).
Qed.
End GatewayCorrect.

(** ** Behaviours worth knowing *)

(** The time of the last round is advanced only by a room that ticks: while no room is
    active it stands still, so that the first room that becomes active is advanced by the
    whole idle time at once. *)
Lemma idle_time_is_charged {C U G S : Type} `{Connection C} `{UserRepositoryLaws U} `{GameRepository G}
    `{RuntimeStore S} (order : list Z) (elapsed now : Z) (st : LoopState C (ResultEnv U G S)) :
  active_rooms order (ls_rooms st) = [] -> process order elapsed now st = Ok st.
Proof. intros Ha. unfold process. by rewrite Ha. Qed.
