(* ===== verification/Gui.v ===== *)
(** * The graphical programs

    [run_offline_gui], [run_network_gui] and what they use of [src/src/main_gui.cpp]: the
    local game, and the networked client with its login screen, the handshake, the wait
    for an opponent and the game, over the controller of [UiController], the mouse of
    [ClientInput] and the session of [Client].

    An iteration takes its readings from the environment: the clock in nanoseconds, the
    texts that wait at the two connections and whether they are still open, which servers
    can be reached, how writes end, and the mouse events delivered while the frame is
    shown (only then does the library call back).  Sleeping is left out.  The texts
    exchanged with the lobby since the last reset and those handed to the game server are
    kept as history. *)

From S2P Require Import Prelude Piece BoardModel PathUtils PieceRules CollisionResolver MoveScheduler RealTimeArbiter GameState CppString BoardIO GameInput GameMessages BoardView Snapshot Rooms Sessions GameLoop ClientInput Client Float32 Renderer UiController Runtime.
From Stdlib Require Import Floats.SpecFloat String.
Open Scope Z_scope.

Definition kServerPort : Z := 8765.
Definition kDefaultBoardRows : Z := 8.
Definition kDefaultBoardCols : Z := 8.

(** [is_network_mode]; the first argument is the name of the program. *)
Definition is_network_mode (argv : list string) : bool :=
  match argv with _ :: mode :: _ => String.eqb mode "--network" | _ => false end.

(** The frame that is due after the last one, by its length in milliseconds. *)
Definition elapsed_since (last_frame now : Z) : Z := Z.quot (now - last_frame) ns_per_ms.
Definition frame_due (last_frame now : Z) : bool := kTargetFrameMs <=? elapsed_since last_frame now.

(** Mouse events are delivered to the sink that is attached. *)
Definition Mouse : Type := MouseEvent * Z * Z.

(** ** The local game *)

Section Offline.
Context {R : Type} `{UiRenderer R}.
Implicit Type c : UiController R.

(** The address of the controller, which is the sink of a local game. *)
Definition kControllerSink : Z := 1.

Definition controller_mouse (e : Mouse) c : res (UiController R) :=
  let '(event, x, y) := e in
  match on_mouse event x y (Some kControllerSink) with
  | Some (PixelClick _ x y) => UiController.on_pixel_click c x y
  | Some (PixelJump _ x y) => UiController.on_pixel_jump c x y
  | None => Ok c
  end.

(** One iteration of the loop: the time of the last frame, and whether the loop goes on. *)
Definition offline_step (now : Z) (mouse : list Mouse) c (last_frame : Z) : res (UiController R * Z * bool) :=
  let elapsed := elapsed_since last_frame now in
  if kTargetFrameMs <=? elapsed then
    r ← ui_frame c elapsed;
    c ← foldM controller_mouse mouse r.1;
    if negb r.2 then Ok (c, last_frame, false) else Ok (c, now, true)
  else Ok (c, last_frame, true).

(** The loop, for the readings of its iterations; it ends when the window asks for it. *)
Fixpoint offline_loop (ticks : list (Z * list Mouse)) c (last_frame : Z) : res (UiController R * Z) :=
  match ticks with
  | [] => Ok (c, last_frame)
  | (now, mouse) :: ticks =>
      r ← offline_step now mouse c last_frame;
      let '(c, last_frame, go_on) := r in
      if go_on : bool then offline_loop ticks c last_frame
      else c ← controller_shutdown c; Ok (c, last_frame)
  end.

Definition run_offline_gui (board : BoardModel) (renderer : R) (start : Z) (ticks : list (Z * list Mouse)) :
    res (UiController R * Z) :=
  c ← local_controller kControllerSink (new_game board) renderer;
  offline_loop ticks c start.

End Offline.

(** ** The networked client *)

(** What the program uses of [Ctd26Renderer] besides the interface of renderers. *)
Class LoginRenderer (R : Type) `{UiRenderer R} := {
  login_present : R -> string -> res (R * string * bool);
  login_layout : R -> res LoginScreenLayout;
  overlay : R -> option string -> R
}.

#[export] Instance ctd26_login {F I : Type} `{Graphics F I} (sinf : spec_float -> spec_float) :
    LoginRenderer (H := ctd26_ui sinf) (Ctd26Renderer F I) := {
  login_present := present_login_screen;
  login_layout := compute_login_screen_layout;
  overlay := set_overlay_text
}.

(** The sinks of the program. *)
Inductive Sink := NoSink | LoginSink | GameSink.
Definition sink_address (s : Sink) : option Z :=
  match s with NoSink => None | LoginSink => Some 2 | GameSink => Some 3 end.

(** Where the program is. *)
Inductive Stage := LoginScreen | Handshake | Waiting | Playing | Exited (code : Z).

Record NetworkGui (R : Type) := mkNetworkGui {
  ng_controller : UiController R;
  ng_sink : Sink;
  ng_lobby : WebSocketClient;
  ng_game : WebSocketClient;
  ng_session : NetworkLoginSession;
  ng_username : string;
  ng_play_requested : bool;
  ng_view : option BoardViewModel;
  ng_gui : NetworkGuiState;
  ng_last_frame : Z;
  ng_exchange : list Exchange;
  ng_to_game : list string
}.
Arguments mkNetworkGui {R} _ _ _ _ _ _ _ _ _ _ _ _.
Arguments ng_controller {R} _.
Arguments ng_sink {R} _.
Arguments ng_lobby {R} _.
Arguments ng_game {R} _.
Arguments ng_session {R} _.
Arguments ng_username {R} _.
Arguments ng_play_requested {R} _.
Arguments ng_view {R} _.
Arguments ng_gui {R} _.
Arguments ng_last_frame {R} _.
Arguments ng_exchange {R} _.
Arguments ng_to_game {R} _.

(** The readings of an iteration; [gi_restart] is the clock where a loop begins. *)
Record GuiInput := mkGuiInput {
  gi_now : Z;
  gi_restart : Z;
  gi_lobby : list string;
  gi_lobby_open : bool;
  gi_game : list string;
  gi_game_open : bool;
  gi_reachable : string -> Z -> bool;
  gi_write : string -> WriteOutcome;
  gi_mouse : list Mouse
}.

(** What a client receives: nothing if it is not connected, and it notices a connection
    that was closed. *)
Definition receive (c : WebSocketClient) (messages : list string) (open : bool) : WebSocketClient * list string :=
  if ws_connected c then (if open then c else ws_disconnect c, messages) else (c, []).

Section Network.
Context {R : Type} `{LoginRenderer R}.
Context (max_size process_id : Z).
Implicit Types (s : NetworkGui R) (rd : GuiInput) (c : UiController R).

(** *** Changes of the state *)

Definition set_controller s c : NetworkGui R :=
  mkNetworkGui c (ng_sink s) (ng_lobby s) (ng_game s) (ng_session s) (ng_username s) (ng_play_requested s)
    (ng_view s) (ng_gui s) (ng_last_frame s) (ng_exchange s) (ng_to_game s).
Definition set_renderer s (r : R) : NetworkGui R :=
  set_controller s (mkController (uc_state (ng_controller s)) (uc_processor (ng_controller s)) r).
Definition set_attached s (sink : Sink) : NetworkGui R :=
  mkNetworkGui (ng_controller s) sink (ng_lobby s) (ng_game s) (ng_session s) (ng_username s) (ng_play_requested s)
    (ng_view s) (ng_gui s) (ng_last_frame s) (ng_exchange s) (ng_to_game s).
Definition set_lobby_client s (lobby : WebSocketClient) : NetworkGui R :=
  mkNetworkGui (ng_controller s) (ng_sink s) lobby (ng_game s) (ng_session s) (ng_username s) (ng_play_requested s)
    (ng_view s) (ng_gui s) (ng_last_frame s) (ng_exchange s) (ng_to_game s).
Definition set_game_client s (game : WebSocketClient) (sent : list string) : NetworkGui R :=
  mkNetworkGui (ng_controller s) (ng_sink s) (ng_lobby s) game (ng_session s) (ng_username s) (ng_play_requested s)
    (ng_view s) (ng_gui s) (ng_last_frame s) (ng_exchange s) (ng_to_game s ++ sent).
Definition set_login s (session : NetworkLoginSession) (exchange : list Exchange) : NetworkGui R :=
  mkNetworkGui (ng_controller s) (ng_sink s) (ng_lobby s) (ng_game s) session (ng_username s) (ng_play_requested s)
    (ng_view s) (ng_gui s) (ng_last_frame s) exchange (ng_to_game s).
Definition set_name s (username : string) (play_requested : bool) : NetworkGui R :=
  mkNetworkGui (ng_controller s) (ng_sink s) (ng_lobby s) (ng_game s) (ng_session s) username play_requested
    (ng_view s) (ng_gui s) (ng_last_frame s) (ng_exchange s) (ng_to_game s).
Definition set_picture s (view : option BoardViewModel) (gui : NetworkGuiState) : NetworkGui R :=
  mkNetworkGui (ng_controller s) (ng_sink s) (ng_lobby s) (ng_game s) (ng_session s) (ng_username s) (ng_play_requested s)
    view gui (ng_last_frame s) (ng_exchange s) (ng_to_game s).
Definition set_last_frame s (now : Z) : NetworkGui R :=
  mkNetworkGui (ng_controller s) (ng_sink s) (ng_lobby s) (ng_game s) (ng_session s) (ng_username s) (ng_play_requested s)
    (ng_view s) (ng_gui s) now (ng_exchange s) (ng_to_game s).

(** [renderer_ptr->attach_input_sink]. *)
Definition attach s (sink : Sink) : res (NetworkGui R) :=
  r ← ui_attach (uc_renderer (ng_controller s)) (sink_address sink);
  Ok (set_attached (set_renderer s r) sink).

(** The end of the program: the window is closed and the connections too. *)
Definition shut_down s : res (NetworkGui R) :=
  c ← controller_shutdown (ng_controller s); Ok (set_controller s c).
Definition leave_lobby s : NetworkGui R := set_lobby_client s (ws_disconnect (ng_lobby s)).
Definition leave_game s : NetworkGui R := set_game_client s (ws_disconnect (ng_game s)) [].
Definition close_all s : res (Stage * NetworkGui R) :=
  s ← shut_down s; Ok (Exited 0, leave_game (leave_lobby s)).

(** *** The login screen *)

(** [LoginInputSink::on_pixel_click]. *)
Definition in_button (layout : LoginScreenLayout) (x y : Z) : res bool :=
  right ← int_add (button_x layout) (button_w layout);
  bottom ← int_add (button_y layout) (button_h layout);
  Ok ((button_x layout <=? x) && (x <? right) && (button_y layout <=? y) && (y <? bottom)).

Definition login_mouse (e : Mouse) s : res (NetworkGui R) :=
  let '(event, x, y) := e in
  match on_mouse event x y (sink_address (ng_sink s)) with
  | Some (PixelClick _ x y) =>
      layout ← login_layout (uc_renderer (ng_controller s));
      hit ← in_button layout x y;
      Ok (if hit : bool then set_name s (ng_username s) true else s)
  | _ => Ok s
  end.

(** A frame of the login screen, if one is due; the mouse reaches the login sink while it
    is attached. *)
Definition login_frame rd s : res (NetworkGui R * bool) :=
  if frame_due (ng_last_frame s) (gi_now rd) then
    r ← login_present (uc_renderer (ng_controller s)) (ng_username s);
    let '(renderer, username, should_continue) := r : R * string * bool in
    s ← foldM login_mouse (gi_mouse rd) (set_name (set_renderer s renderer) username (ng_play_requested s));
    Ok (if should_continue then set_last_frame s (gi_now rd) else s, should_continue)
  else Ok (s, true).

(** Back to the login screen after a failed attempt. *)
Definition try_again rd s : res (Stage * NetworkGui R) :=
  s ← attach (set_login s (login_reset (ng_session s)) []) LoginSink;
  Ok (LoginScreen, set_last_frame (set_name s (ng_username s) false) (gi_restart rd)).

Definition sent_text (ok : bool) (sent : option string) : list Exchange :=
  if ok then match sent with Some text => [Sent text] | None => [] end else [].

(** [login_session.send_login] over the lobby connection. *)
Definition gui_send_login rd s : res (NetworkGui R * bool) :=
  let name := resolve_username process_id (ng_username s) in
  r ← (if bool_decide (phase_ (ng_session s) = PhaseConnected)
       then ws_try_send (gi_write rd) (ng_lobby s) (send_login name name)
       else Ok (false, ng_lobby s, []));
  let '(delivered, lobby, _) := r : bool * WebSocketClient * list string in
  let '(ok, sent, session) :=
    session_send_login (fun _ => delivered) process_id (ng_username s) (ng_session s) in
  Ok (set_login (set_lobby_client s lobby) session (ng_exchange s ++ sent_text ok sent)%list, ok).

Definition step_login_screen rd s : res (Stage * NetworkGui R) :=
  r ← login_frame rd s;
  let '(s, should_continue) := r : NetworkGui R * bool in
  if negb should_continue then s ← shut_down s; Ok (Exited 0, leave_lobby s)
  else if negb (ng_play_requested s) then Ok (LoginScreen, s)
  else
    s ← attach s NoSink;
    r ← gui_send_login rd s;
    let '(s, sent) := r : NetworkGui R * bool in
    if sent then Ok (Handshake, set_last_frame s (gi_restart rd)) else try_again rd s.

(** *** [wait_for_login_handshake] *)

Definition gui_send_play rd s : res (NetworkGui R * bool) :=
  r ← (if bool_decide (phase_ (ng_session s) = LoginOk)
       then ws_try_send (gi_write rd) (ng_lobby s) send_play
       else Ok (false, ng_lobby s, []));
  let '(delivered, lobby, _) := r : bool * WebSocketClient * list string in
  let '(ok, sent, session) := try_send_play (fun _ => delivered) (ng_session s) in
  Ok (set_login (set_lobby_client s lobby) session (ng_exchange s ++ sent_text ok sent)%list, ok).

(** At most one text is read in an iteration. *)
Definition read_answer rd s : NetworkGui R :=
  let '(lobby, messages) := receive (ng_lobby s) (gi_lobby rd) (gi_lobby_open rd) in
  let s := set_lobby_client s lobby in
  match messages with
  | message :: _ =>
      set_login s (session_handle_message message (ng_session s)) (ng_exchange s ++ [Received message])%list
  | [] => s
  end.

Definition step_handshake rd s : res (Stage * NetworkGui R) :=
  r ← login_frame rd (read_answer rd s);
  let '(s, should_continue) := r : NetworkGui R * bool in
  if negb should_continue then s ← shut_down s; Ok (Exited 0, leave_lobby s)
  else if bool_decide (phase_ (ng_session s) = LoginSent) then Ok (Handshake, s)
  else
    r ← (if bool_decide (phase_ (ng_session s) = LoginFailed) then Ok (s, false) else gui_send_play rd s);
    let '(s, play_sent) := r : NetworkGui R * bool in
    if play_sent then Ok (Waiting, set_last_frame (set_picture s None new_gui_state) (gi_restart rd))
    else if negb (ws_connected (ng_lobby s)) then Ok (Exited 0, s)
    else try_again rd s.

(** *** The two loops of the game *)

Definition drain_lobby rd s : res (NetworkGui R) :=
  let '(lobby, messages) := receive (ng_lobby s) (gi_lobby rd) (gi_lobby_open rd) in
  r ← drain_network_messages max_size messages (ng_view s, ng_gui s);
  Ok (set_picture (set_lobby_client s lobby) r.1 r.2).
Definition drain_game rd s : res (NetworkGui R) :=
  let '(game, messages) := receive (ng_game s) (gi_game rd) (gi_game_open rd) in
  r ← drain_network_messages max_size messages (ng_view s, ng_gui s);
  Ok (set_picture (set_game_client s game []) r.1 r.2).

Definition switch rd s : res (NetworkGui R * bool) :=
  r ← maybe_switch_to_game_connection (gi_reachable rd) (gi_write rd) (ng_lobby s) (ng_game s) (ng_gui s);
  let '(lobby, game, sent, gui, switched) := r : WebSocketClient * WebSocketClient * list string * NetworkGuiState * bool in
  Ok (set_picture (set_game_client (set_lobby_client s lobby) game sent) (ng_view s) gui, switched).

(** A frame with a picture, if one is due, and the mouse. *)
Definition board_frame rd (view : BoardViewModel) (mouse : Mouse -> NetworkGui R -> res (NetworkGui R)) s :
    res (NetworkGui R * bool) :=
  if frame_due (ng_last_frame s) (gi_now rd) then
    r ← controller_present (ng_controller s) view;
    let '(c, should_continue) := r : UiController R * bool in
    s ← foldM mouse (gi_mouse rd) (set_controller s c);
    Ok (if should_continue then set_last_frame s (gi_now rd) else s, should_continue)
  else Ok (s, true).

Definition step_waiting rd s : res (Stage * NetworkGui R) :=
  s ← drain_lobby rd s;
  r ← switch rd s;
  let '(s, switched) := r : NetworkGui R * bool in
  s ← (if switched || using_game_connection (ng_gui s) then drain_game rd s else Ok s);
  let s := set_renderer s (overlay (uc_renderer (ng_controller s)) (matchmaking_overlay_text (gui_matchmaking (ng_gui s)))) in
  r ← board_frame rd empty_waiting_board_view (fun _ s => Ok s) s;
  let '(s, should_continue) := r : NetworkGui R * bool in
  if negb should_continue then close_all s
  else match ng_view s with
  | None => Ok (Waiting, s)
  | Some _ =>
      s ← attach (set_renderer s (overlay (uc_renderer (ng_controller s)) None)) GameSink;
      Ok (Playing, set_last_frame s (gi_restart rd))
  end.

(** [NetworkInputHandler] over the game connection. *)
Definition send_inputs rd (messages : list string) s : res (NetworkGui R) :=
  foldM (fun message s =>
    r ← ws_try_send (gi_write rd) (ng_game s) message;
    let '(_, game, sent) := r : bool * WebSocketClient * list string in
    Ok (set_game_client s game sent)) messages s.

Definition game_mouse rd (sink : NetworkGuiInputSink) (e : Mouse) s : res (NetworkGui R) :=
  let '(event, x, y) := e in
  match on_mouse event x y (sink_address (ng_sink s)) with
  | Some (PixelClick _ x y) => messages ← ClientInput.on_pixel_click sink x y; send_inputs rd messages s
  | Some (PixelJump _ x y) => messages ← ClientInput.on_pixel_jump sink x y; send_inputs rd messages s
  | None => Ok s
  end.

Definition step_playing rd s : res (Stage * NetworkGui R) :=
  s ← (if using_game_connection (ng_gui s) then drain_game rd s
       else
         s ← drain_lobby rd s;
         r ← switch rd s;
         let '(s, switched) := r : NetworkGui R * bool in
         if switched then drain_game rd s else Ok s);
  view ← deref (ng_view s);
  let sink := mkSink view (ui_layout (uc_renderer (ng_controller s))) (gui_local_side (ng_gui s)) in
  r ← board_frame rd view (game_mouse rd sink) s;
  let '(s, should_continue) := r : NetworkGui R * bool in
  if should_continue then Ok (Playing, s) else close_all s.

(** *** The program *)

Definition gui_step rd (st : Stage * NetworkGui R) : res (Stage * NetworkGui R) :=
  let '(stage, s) := st in
  match stage with
  | LoginScreen => step_login_screen rd s
  | Handshake => step_handshake rd s
  | Waiting => step_waiting rd s
  | Playing => step_playing rd s
  | Exited _ => Ok st
  end.

(** Up to the first loop; [start] is the clock where it begins. *)
Definition gui_start (reachable : string -> Z -> bool) (renderer : R) (start : Z) : res (Stage * NetworkGui R) :=
  lobby ← ws_connect reachable (mkWsClient "127.0.0.1" kServerPort false);
  c ← remote_controller kDefaultBoardRows kDefaultBoardCols renderer;
  s ← attach (mkNetworkGui c NoSink lobby (mkWsClient "127.0.0.1" kServerPort false) new_login_session ""
                false None new_gui_state start [] []) NoSink;
  s ← attach s LoginSink;
  Ok (LoginScreen, s).

Definition run_network_gui (reachable : string -> Z -> bool) (renderer : R) (start : Z) (inputs : list GuiInput) :
    res (Stage * NetworkGui R) :=
  st ← gui_start reachable renderer start;
  foldM gui_step inputs st.

(** [main]: the exit code of an exception is 1. *)
Definition gui_exit (st : res (Stage * NetworkGui R)) : option Z :=
  match st with
  | Ok (Exited code, _) => Some code
  | Ok _ => None
  | Err Undefined | Err Diverges => None
  | Err _ => Some 1
  end.

End Network.

(** ** The protocol of the networked client *)

Section Protocol.
Context {R : Type} `{LoginRenderer R}.
Context (max_size process_id : Z).
Implicit Types (s : NetworkGui R) (rd : GuiInput).

(** The connections: nothing is sent to a game server before the request to join, the
    lobby is left before the game server is used, and the game connection is used only
    after a redirect. *)
Record net_ok (lobby game : WebSocketClient) (gui : NetworkGuiState) (to_game : list string) : Prop := {
  no_game : ws_connected game = true -> to_game <> [] /\ ws_connected lobby = false;
  no_join : to_game = [] \/ exists room rest, to_game = send_join_game room :: rest;
  no_using : using_game_connection gui = true -> is_Some (gui_redirect gui) /\ ws_connected lobby = false
}.

(** Where the program is says how far the handshake is, who gets the mouse and whether
    there is a picture. *)
Definition stage_ok (stage : Stage) s : Prop :=
  match stage with
  | LoginScreen => phase_ (ng_session s) = PhaseConnected /\ ng_sink s = LoginSink /\ ng_view s = None
  | Handshake => phase_ (ng_session s) = LoginSent /\ ng_sink s = NoSink /\ ng_view s = None
  | Waiting => phase_ (ng_session s) = PlayRequested /\ ng_sink s = NoSink /\ ng_view s = None
  | Playing => phase_ (ng_session s) = PlayRequested /\ ng_sink s = GameSink /\ is_Some (ng_view s)
  | Exited code => code = 0
  end.

Record gui_inv (stage : Stage) s : Prop := {
  gv_handshake : handshake (ng_exchange s) (ng_session s);
  gv_net : net_ok (ng_lobby s) (ng_game s) (ng_gui s) (ng_to_game s);
  gv_stage : stage_ok stage s
}.

(** What the invariant is about. *)
Definition core s :=
  (ng_sink s, ng_lobby s, ng_game s, ng_session s, ng_view s, ng_gui s, ng_exchange s, ng_to_game s).

Lemma core_inv s s' : core s' = core s -> ng_sink s' = ng_sink s /\ ng_lobby s' = ng_lobby s /\ ng_game s' = ng_game s /\
  ng_session s' = ng_session s /\ ng_view s' = ng_view s /\ ng_gui s' = ng_gui s /\ ng_exchange s' = ng_exchange s /\
  ng_to_game s' = ng_to_game s.
Proof. unfold core. intros E. by simplify_eq. Qed.

Lemma inv_core stage s s' : core s' = core s -> gui_inv stage s -> gui_inv stage s'.
Proof.
  intros (E1 & E2 & E3 & E4 & E5 & E6 & E7 & E8)%core_inv [A1 A2 A3]. split; [congruence|congruence|].
  revert A3. unfold stage_ok. rewrite E1, E4, E5. done.
Qed.

Lemma inv_exit code s stage : code = 0 -> gui_inv stage s -> gui_inv (Exited code) s.
Proof. intros -> [A1 A2 _]. by split. Qed.

(** *** Frames *)

Lemma attach_core s sink s' : attach s sink = Ok s' -> core s' = core (set_attached s sink).
Proof. unfold attach. by intros (r & _ & [= <-])%bind_Ok_inv. Qed.

Lemma shut_down_core s s' : shut_down s = Ok s' -> core s' = core s.
Proof. unfold shut_down. by intros (c & _ & [= <-])%bind_Ok_inv. Qed.

Lemma login_mouse_core e s s' : login_mouse e s = Ok s' -> core s' = core s.
Proof.
  destruct e as [[event x] y]. cbn [login_mouse]. destruct (on_mouse _ _ _ _) as [[]|]; [|by intros [= <-]..].
  intros (layout & _ & (hit & _ & [= <-])%bind_Ok_inv)%bind_Ok_inv. by destruct hit.
Qed.

Lemma login_frame_core rd s s' b : login_frame rd s = Ok (s', b) -> core s' = core s.
Proof.
  unfold login_frame. destruct (frame_due _ _); [|by intros [= <- <-]].
  intros ([[r name] go_on] & _ & E)%bind_Ok_inv. apply bind_Ok_inv in E as (s1 & E & [= <- <-]).
  assert (core s1 = core s) as <-.
  { apply (foldM_Ok_inv login_mouse (fun x => core x = core s) _ _ _) in E; [done| |done].
    intros e x x' Hx Ex. by rewrite (login_mouse_core _ _ _ Ex). }
  by destruct go_on.
Qed.

(** *** Connections *)

Lemma try_send_connected write c message ok c' sent : ws_try_send write c message = Ok (ok, c', sent) ->
  (ws_connected c' = true -> ws_connected c = true) /\ (sent <> [] -> ws_connected c = true).
Proof.
  unfold ws_try_send. destruct (ws_connected c) eqn:E; cbn [negb]; [|by intros [= <- <- <-]; rewrite E]. done.
Qed.

Lemma receive_connected c messages open c' got : receive c messages open = (c', got) ->
  ws_connected c' = true -> ws_connected c = true.
Proof. unfold receive. destruct (ws_connected c) eqn:E; [done|]. intros [= <- <-]. by rewrite E. Qed.

(** Connections that close, and texts to a game server that was joined. *)
Lemma net_less lobby lobby' game game' gui to_game sent : net_ok lobby game gui to_game ->
  (ws_connected lobby' = true -> ws_connected lobby = true) ->
  (ws_connected game' = true -> ws_connected game = true) -> (sent <> [] -> ws_connected game = true) ->
  net_ok lobby' game' gui (to_game ++ sent)%list.
Proof.
  intros [A1 A2 A3] Hl Hg Hs.
  assert (forall b : bool, (ws_connected lobby' = true -> ws_connected lobby = true) -> ws_connected lobby = false ->
    ws_connected lobby' = false) as Hdown by (intros _; destruct (ws_connected lobby'), (ws_connected lobby); naive_solver).
  split.
  - intros [Hn Hb]%Hg%A1. split; [by destruct to_game|by apply (Hdown true)].
  - destruct sent as [|text sent]; [by rewrite app_nil_r|].
    destruct A2 as [->|(room & rest & ->)]; [by destruct (A1 (Hs ltac:(done))) as [[] _]|].
    right. by exists room, (rest ++ text :: sent)%list.
  - intros [Hr Hb]%A3. split; [done|by apply (Hdown true)].
Qed.

(** *** The login *)

Lemma inv_try_again rd s st stage : gui_inv stage s -> ng_view s = None -> try_again rd s = Ok st -> gui_inv st.1 st.2.
Proof.
  intros [A1 A2 A3] Hv. unfold try_again. intros (s1 & E%attach_core & [= <-])%bind_Ok_inv. cbn [fst snd].
  apply (inv_core _ (set_attached (set_login s (login_reset (ng_session s)) []) LoginSink)); [done|].
  split; [by eapply hs_reset|done|]. done.
Qed.

Lemma send_login_inv rd s s' ok stage : gui_inv stage s -> ng_sink s = NoSink -> ng_view s = None ->
  gui_send_login process_id rd s = Ok (s', ok) ->
  ng_view s' = None /\ gui_inv (if ok then Handshake else Exited 0) s'.
Proof.
  intros [A1 A2 A3] Hs Hv. unfold gui_send_login. intros ([[delivered lobby] sent0] & Er & E)%bind_Ok_inv.
  destruct (session_send_login _ _ _ _) as [[ok' sent] session] eqn:Elogin. injection E as <- <-.
  assert (ws_connected lobby = true -> ws_connected (ng_lobby s) = true) as Hl.
  { destruct (bool_decide _); [|by injection Er as <- <- <-]. by apply try_send_connected in Er as [? _]. }
  split; [done|]. split; cbn.
  - by eapply hs_login.
  - rewrite <- (app_nil_r (ng_to_game s)). eapply net_less; [eassumption|done..].
  - unfold session_send_login in Elogin. destruct ok'; [|done].
    destruct (negb _); [done|]. destruct (negb _); [done|]. injection Elogin as <- <-. done.
Qed.

Lemma login_screen_inv rd s st : gui_inv LoginScreen s -> step_login_screen process_id rd s = Ok st -> gui_inv st.1 st.2.
Proof.
  intros Hi. unfold step_login_screen. intros ([s1 go_on] & E%login_frame_core & Est)%bind_Ok_inv.
  apply (inv_core _ _ _ E) in Hi. destruct go_on; cbn [negb] in Est.
  2:{ apply bind_Ok_inv in Est as (s2 & E2%shut_down_core & [= <-]). cbn [fst snd].
      apply (inv_core _ _ _ E2), (inv_exit 0) in Hi; [|done]. destruct Hi as [A1 A2 A3]. split; [done| |done].
      cbn. rewrite <- (app_nil_r (ng_to_game s2)). eapply net_less; [eassumption|done..]. }
  destruct (ng_play_requested s1); cbn [negb] in Est; [|by injection Est as <-].
  apply bind_Ok_inv in Est as (s2 & E2%attach_core & Est).
  apply bind_Ok_inv in Est as ([s3 sent] & E3 & Est).
  pose proof Hi as [_ _ (_ & _ & Hv)]. pose proof (core_inv _ _ E2) as (Es & _ & _ & _ & Ev & _).
  apply (send_login_inv _ _ _ _ (Exited 0)) in E3 as [Hv3 Hi3]; [| |done|by rewrite Ev].
  2:{ apply (inv_core _ _ _ E2). destruct Hi as [A1 A2 A3]. by split. }
  destruct sent; [injection Est as <-; cbn [fst snd]; by apply (inv_core _ s3)|]. by eapply inv_try_again.
Qed.

(** *** The handshake *)

Lemma read_answer_inv rd s : gui_inv Handshake s ->
  handshake (ng_exchange (read_answer rd s)) (ng_session (read_answer rd s)) /\
  net_ok (ng_lobby (read_answer rd s)) (ng_game (read_answer rd s)) (ng_gui (read_answer rd s)) (ng_to_game (read_answer rd s)) /\
  ng_sink (read_answer rd s) = NoSink /\ ng_view (read_answer rd s) = None.
Proof.
  intros [A1 A2 (_ & A3 & A4)]. unfold read_answer. destruct (receive _ _ _) as [lobby messages] eqn:E.
  pose proof (receive_connected _ _ _ _ _ E) as Hl.
  assert (net_ok lobby (ng_game s) (ng_gui s) (ng_to_game s)) as Hn.
  { rewrite <- (app_nil_r (ng_to_game s)). eapply net_less; [eassumption|done..]. }
  destruct messages as [|message messages]; split_and!; try done. by apply hs_message.
Qed.

Lemma send_play_inv rd s s' ok stage : gui_inv stage s -> ng_sink s = NoSink -> ng_view s = None ->
  gui_send_play rd s = Ok (s', ok) ->
  ng_view s' = None /\ gui_inv (if ok then Waiting else Exited 0) s'.
Proof.
  intros [A1 A2 A3] Hs Hv. unfold gui_send_play. intros ([[delivered lobby] sent0] & Er & E)%bind_Ok_inv.
  destruct (try_send_play _ _) as [[ok' sent] session] eqn:Eplay. injection E as <- <-.
  assert (ws_connected lobby = true -> ws_connected (ng_lobby s) = true) as Hl.
  { destruct (bool_decide _); [|by injection Er as <- <- <-]. by apply try_send_connected in Er as [? _]. }
  split; [done|]. split; cbn.
  - by eapply hs_play.
  - rewrite <- (app_nil_r (ng_to_game s)). eapply net_less; [eassumption|done..].
  - unfold try_send_play in Eplay. destruct ok'; [|done].
    destruct (negb _); [done|]. destruct (negb _); [done|]. injection Eplay as <- <-. done.
Qed.

Lemma handshake_inv rd s st : gui_inv Handshake s -> step_handshake rd s = Ok st -> gui_inv st.1 st.2.
Proof.
  intros (A1 & A2 & A3 & A4)%(read_answer_inv rd). unfold step_handshake.
  intros ([s1 go_on] & E%login_frame_core & Est)%bind_Ok_inv.
  assert (gui_inv (Exited 0) s1) as Hi by (apply (inv_core _ (read_answer rd s)); [done|by split]).
  pose proof (core_inv _ _ E) as (Es & _ & _ & _ & Ev & _). rewrite A3 in Es. rewrite A4 in Ev.
  destruct go_on; cbn [negb] in Est.
  2:{ apply bind_Ok_inv in Est as (s2 & E2%shut_down_core & [= <-]). cbn [fst snd].
      apply (inv_core _ _ _ E2) in Hi. destruct Hi as [B1 B2 B3]. split; [done| |done].
      cbn. rewrite <- (app_nil_r (ng_to_game s2)). eapply net_less; [eassumption|done..]. }
  case_bool_decide as Hp.
  { injection Est as <-. destruct Hi as [B1 B2 _]. by split. }
  apply bind_Ok_inv in Est as ([s2 sent] & E2 & Est).
  assert (ng_view s2 = None /\ gui_inv (if sent then Waiting else Exited 0) s2) as [Hv2 Hi2].
  { case_bool_decide; [injection E2 as <- <-; by split|]. by eapply send_play_inv. }
  destruct sent.
  - injection Est as <-. destruct Hi2 as [B1 [C1 C2 C3] (B3 & B4 & _)]. split; [done|by split|by split_and!].
  - destruct (negb _); [by injection Est as <-|]. by eapply inv_try_again.
Qed.

(** *** Waiting and playing *)

(** Texts keep the connection in use, a redirect that was read, and a picture. *)
Lemma message_keeps message st st' : handle_network_message max_size message st = Ok st' ->
  using_game_connection st'.2 = using_game_connection st.2 /\
  (is_Some (gui_redirect st.2) -> is_Some (gui_redirect st'.2)) /\ (is_Some st.1 -> is_Some st'.1).
Proof.
  destruct st as [view gui]. unfold handle_network_message. intros (snapshot & _ & E)%bind_Ok_inv.
  destruct snapshot; [by injection E as <-|]. destruct (read_matchmaking_message _); [by injection E as <-|].
  destruct (read_game_redirect_message _); by injection E as <-.
Qed.

Lemma drain_keeps messages st st' : drain_network_messages max_size messages st = Ok st' ->
  using_game_connection st'.2 = using_game_connection st.2 /\
  (is_Some (gui_redirect st.2) -> is_Some (gui_redirect st'.2)) /\ (is_Some st.1 -> is_Some st'.1).
Proof.
  unfold drain_network_messages. apply (foldM_Ok_inv _ (fun x => using_game_connection x.2 = using_game_connection st.2 /\
    (is_Some (gui_redirect st.2) -> is_Some (gui_redirect x.2)) /\ (is_Some st.1 -> is_Some x.1))); [|done].
  intros message x x' (E1 & E2 & E3) (F1 & F2 & F3)%message_keeps. split_and!; [congruence|auto|auto].
Qed.

(** The parts of the invariant that hold in every stage, with what the stage fixes. *)
Definition online s : Prop :=
  handshake (ng_exchange s) (ng_session s) /\ net_ok (ng_lobby s) (ng_game s) (ng_gui s) (ng_to_game s).
Definition advances s s' : Prop :=
  online s' /\ ng_session s' = ng_session s /\ ng_sink s' = ng_sink s /\ (is_Some (ng_view s) -> is_Some (ng_view s')).

Lemma advances_refl s : online s -> advances s s.
Proof. intros Hs. unfold advances. by split_and!. Qed.

Lemma advances_trans s1 s2 s3 : advances s1 s2 -> advances s2 s3 -> advances s1 s3.
Proof. intros (_ & A1 & A2 & A3) (B0 & B1 & B2 & B3). unfold advances. split_and!; [done|congruence|congruence|auto]. Qed.

Lemma advances_core s s' : core s' = core s -> online s -> advances s s'.
Proof.
  intros (E1 & E2 & E3 & E4 & E5 & E6 & E7 & E8)%core_inv [A1 A2].
  unfold advances. split_and!; [split; congruence|done|done|by rewrite E5].
Qed.

Lemma net_gui lobby game gui gui' to_game : net_ok lobby game gui to_game ->
  using_game_connection gui' = using_game_connection gui ->
  (is_Some (gui_redirect gui) -> is_Some (gui_redirect gui')) -> net_ok lobby game gui' to_game.
Proof. intros [A1 A2 A3] Eu Hr. split; [done|done|]. rewrite Eu. intros [? ?]%A3. auto. Qed.

Lemma drain_lobby_advances rd s s' : online s -> drain_lobby max_size rd s = Ok s' -> advances s s'.
Proof.
  intros [A1 A2]. unfold drain_lobby. destruct (receive _ _ _) as [lobby messages] eqn:Er.
  pose proof (receive_connected _ _ _ _ _ Er) as Hl.
  intros ([view gui] & (Eu & Hr & Hv)%drain_keeps & [= <-])%bind_Ok_inv. cbn [fst snd] in *.
  unfold advances; split_and!; [split; [done|]|done|done|done]. eapply net_gui; [|exact Eu|exact Hr].
  cbn. rewrite <- (app_nil_r (ng_to_game s)). eapply net_less; [eassumption|done..].
Qed.

Lemma drain_game_advances rd s s' : online s -> drain_game max_size rd s = Ok s' -> advances s s'.
Proof.
  intros [A1 A2]. unfold drain_game. destruct (receive _ _ _) as [game messages] eqn:Er.
  pose proof (receive_connected _ _ _ _ _ Er) as Hl.
  intros ([view gui] & (Eu & Hr & Hv)%drain_keeps & [= <-])%bind_Ok_inv. cbn [fst snd] in *.
  unfold advances; split_and!; [split; [done|]|done|done|done]. eapply net_gui; [|exact Eu|exact Hr].
  cbn. eapply net_less; [eassumption|done..].
Qed.

(** Going to the game server: the lobby is left, and joining is the first text. *)
Lemma redirect_net reachable write redirect lobby game gui to_game lobby' game' sent ok : net_ok lobby game gui to_game ->
  redirect_execute reachable write redirect lobby game = Ok (lobby', game', sent, ok) ->
  ws_connected lobby' = false /\ net_ok lobby' game' gui (to_game ++ sent)%list.
Proof.
  intros [A1 A2 A3]. unfold redirect_execute.
  assert (ws_connected (if ws_connected lobby then ws_disconnect lobby else lobby) = false) as Hdown
    by (by destruct (ws_connected lobby) eqn:E).
  set (left := if ws_connected lobby then _ else _) in *. intros (g & _ & E)%bind_Ok_inv.
  destruct (ws_connected g) eqn:Eg; cbn [negb] in E.
  2:{ injection E as <- <- <- <-. split; [done|]. rewrite app_nil_r. split; [by rewrite Eg|done|by intros [? _]%A3]. }
  apply bind_Ok_inv in E as ([[joined g'] texts] & Es & [= <- <- <- <-]). split; [done|].
  assert (texts = [send_join_game (gr_room_id redirect)]) as ->.
  { unfold ws_try_send in Es. rewrite Eg in Es. cbn [negb] in Es. destruct (write _); by simplify_eq. }
  split.
  - intros _. split; [by destruct to_game|done].
  - right. destruct A2 as [->|(room & rest & ->)]; [by eexists _, []|]. by eexists room, (rest ++ [_])%list.
  - by intros [? _]%A3.
Qed.

Lemma switch_advances rd s s' b : online s -> switch rd s = Ok (s', b) -> advances s s'.
Proof.
  intros [A1 A2]. unfold switch. intros ([[[[lobby game] sent] gui] switched] & Er & [= <- <-])%bind_Ok_inv.
  unfold advances; split_and!; [split; [done|]|done|done|done]. cbn. unfold maybe_switch_to_game_connection in Er.
  destruct (gui_redirect (ng_gui s)) as [redirect|] eqn:Ered.
  2:{ injection Er as <- <- <- <- <-. by rewrite app_nil_r. }
  destruct (using_game_connection (ng_gui s)); [injection Er as <- <- <- <- <-; by rewrite app_nil_r|].
  apply bind_Ok_inv in Er as ([[[lobby1 game1] sent1] ok] & (Hd & Hn)%(redirect_net _ _ _ _ _ (ng_gui s) (ng_to_game s)) & E); [|done].
  destruct ok; cbn [negb] in E; injection E as <- <- <- <- <-; [|done].
  destruct Hn as [B1 B2 B3]. split; [done|done|]. intros _. cbn. by split.
Qed.

Lemma board_frame_advances rd view mouse s s' b : online s ->
  (forall e x x', online x -> mouse e x = Ok x' -> advances x x') ->
  board_frame rd view mouse s = Ok (s', b) -> advances s s'.
Proof.
  intros Hs Hm. unfold board_frame. destruct (frame_due _ _); [|intros [= <- <-]; by apply advances_refl].
  intros ([c go_on] & _ & E)%bind_Ok_inv. apply bind_Ok_inv in E as (s1 & E & [= <- <-]).
  assert (advances s s1) as Hs1.
  { apply (foldM_Ok_inv mouse (fun x => advances s x)) in E; [done| |by apply advances_core].
    intros e x x' Hx Ex. eapply advances_trans; [exact Hx|]. apply (Hm e); [apply Hx|done]. }
  eapply advances_trans; [exact Hs1|]. apply advances_core; [by destruct go_on|apply Hs1].
Qed.

Lemma game_mouse_advances rd sink e s s' : online s -> game_mouse rd sink e s = Ok s' -> advances s s'.
Proof.
  intros Hs. assert (forall messages x, send_inputs rd messages s = Ok x -> advances s x) as Hsend.
  { intros messages x. unfold send_inputs. apply foldM_Ok_inv; [|by apply advances_refl].
    intros message y y' Hy ([[ok game] sent] & [Hg Hsent]%try_send_connected & [= <-])%bind_Ok_inv.
    eapply advances_trans; [exact Hy|]. destruct Hy as [[B1 B2] _]. unfold advances; split_and!; [split; [done|]|done|done|done].
    cbn. eapply net_less; [eassumption|done..]. }
  destruct e as [[event x] y]. cbn [game_mouse]. destruct (on_mouse _ _ _ _) as [[]|].
  - by intros (messages & _ & E%Hsend)%bind_Ok_inv.
  - by intros (messages & _ & E%Hsend)%bind_Ok_inv.
  - intros [= <-]. by apply advances_refl.
Qed.

Lemma close_all_inv s st : online s -> close_all s = Ok st -> gui_inv st.1 st.2.
Proof.
  intros Hs. unfold close_all. intros (s1 & E%shut_down_core & [= <-])%bind_Ok_inv.
  destruct (advances_core _ _ E Hs) as [[B1 B2] _]. split; [done| |done]. cbn. by eapply net_less.
Qed.

Lemma waiting_inv rd s st : gui_inv Waiting s -> step_waiting max_size rd s = Ok st -> gui_inv st.1 st.2.
Proof.
  intros [A1 A2 (A3 & A4 & _)]. unfold step_waiting.
  intros (s1 & E1%drain_lobby_advances & E)%bind_Ok_inv; [|done].
  apply bind_Ok_inv in E as ([s2 b] & E2%switch_advances & E); [|apply E1].
  apply bind_Ok_inv in E as (s3 & E3 & E).
  assert (advances s2 s3) as H3.
  { destruct (_ || _); [apply drain_game_advances in E3; [done|apply E2]|injection E3 as <-; apply advances_refl, E2]. }
  apply bind_Ok_inv in E as ([s4 go_on] & E4 & E).
  match type of E4 with board_frame _ _ _ ?x = _ => assert (advances s3 x) as H4 by (apply advances_core; [done|apply H3]) end.
  apply board_frame_advances in E4; [|apply H4|intros e x x' Hx [= <-]; by apply advances_refl].
  pose proof (advances_trans _ _ _ (advances_trans _ _ _ (advances_trans _ _ _ E1 E2) H3) (advances_trans _ _ _ H4 E4))
    as (Hon & Es & Ek & _). clear E1 E2 E3 H3 H4 E4.
  destruct go_on; cbn [negb] in E; [|by eapply close_all_inv].
  destruct (ng_view s4) as [view|] eqn:Ev.
  - apply bind_Ok_inv in E as (s5 & E5%attach_core & [= <-]). cbn [fst snd].
    apply (inv_core _ (set_attached s4 GameSink)); [exact E5|].
    destruct Hon as [B1 B2]. split; [done|done|]. split_and!; [cbn; congruence|done|by exists view].
  - injection E as <-. destruct Hon as [B1 B2]. split; [done|done|]. cbn; split_and!; [congruence|congruence|done].
Qed.

Lemma playing_inv rd s st : gui_inv Playing s -> step_playing max_size rd s = Ok st -> gui_inv st.1 st.2.
Proof.
  intros [A1 A2 (A3 & A4 & A5)]. unfold step_playing. intros (s1 & E1 & E)%bind_Ok_inv.
  assert (advances s s1) as H1.
  { destruct (using_game_connection _); [by eapply drain_game_advances|].
    apply bind_Ok_inv in E1 as (x1 & F1%drain_lobby_advances & E1); [|done].
    apply bind_Ok_inv in E1 as ([x2 b] & F2%switch_advances & E1); [|apply F1].
    eapply advances_trans; [exact F1|]. eapply advances_trans; [exact F2|].
    destruct b; [apply drain_game_advances in E1; [done|apply F2]|injection E1 as <-; apply advances_refl, F2]. }
  apply bind_Ok_inv in E as (view & _ & E). apply bind_Ok_inv in E as ([s2 go_on] & E2 & E).
  apply board_frame_advances in E2; [|apply H1|intros e x x'; apply game_mouse_advances].
  pose proof (advances_trans _ _ _ H1 E2) as (Hon & Es & Ek & Hv).
  destruct go_on; [|by eapply close_all_inv]. injection E as <-. destruct Hon as [B1 B2].
  split; [done|done|]. cbn; split_and!; [congruence|congruence|by apply Hv].
Qed.

Lemma start_inv reachable renderer start st : gui_start (R := R) reachable renderer start = Ok st -> gui_inv st.1 st.2.
Proof.
  unfold gui_start. intros (lobby & _ & E)%bind_Ok_inv. apply bind_Ok_inv in E as (c & _ & E).
  apply bind_Ok_inv in E as (s1 & E1%attach_core & E). apply bind_Ok_inv in E as (s2 & E2%attach_core & [= <-]).
  apply core_inv in E1 as (_ & F2 & F3 & F4 & F5 & F6 & F7 & F8), E2 as (G1 & G2 & G3 & G4 & G5 & G6 & G7 & G8).
  cbn in *. split; cbn [fst snd].
  - rewrite G7, G4, F7, F4. apply hs_new.
  - rewrite G2, G3, G6, G8, F2, F3, F6, F8. by split; [|left|].
  - cbn. rewrite G4, G1, G5, F4, F5. done.
Qed.

Lemma gui_step_inv rd st st' : gui_inv st.1 st.2 -> gui_step max_size process_id rd st = Ok st' -> gui_inv st'.1 st'.2.
Proof.
  destruct st as [[] s]; cbn [gui_step fst snd].
  - apply login_screen_inv.
  - apply handshake_inv.
  - apply waiting_inv.
  - apply playing_inv.
  - by intros Hi [= <-].
Qed.

(** C35: The networked client keeps to its protocol, whatever the servers send, however
    writes end and wherever the mouse clicks: at every moment of a run the stage of the
    program agrees with the phase of the login, which is the one the texts exchanged with
    the lobby justify, so that play was requested only after the server accepted the
    login, and the program waits or plays only then; the mouse goes to the login screen
    or to the game only in their stages; a game is shown only when a picture was
    received, so that the picture is never read before it is there; a game server is sent
    nothing before the request to join the room of a redirect; and the client is never
    connected to the lobby and a game server at once. *)
Theorem network_gui_protocol reachable (renderer : R) start inputs stage s
    (Hrun : run_network_gui max_size process_id reachable renderer start inputs = Ok (stage, s)) :
  stage_ok stage s /\ phase_meaning (ng_exchange s) (ng_session s) /\ play_after_login (ng_exchange s) /\
  (stage = Waiting \/ stage = Playing -> login_accepted (ng_exchange s) (rating_ (ng_session s))) /\
  (ng_to_game s = [] \/ exists room rest, ng_to_game s = send_join_game room :: rest) /\
  ~ (ws_connected (ng_lobby s) = true /\ ws_connected (ng_game s) = true).
Proof.
  unfold run_network_gui in Hrun. apply bind_Ok_inv in Hrun as (st & Hst%start_inv & Hrun).
  apply (foldM_Ok_inv _ (fun st => gui_inv st.1 st.2)) in Hrun as [A1 [B1 B2 B3] A3];
    [|intros; by eapply gui_step_inv|done]. cbn [fst snd] in *.
  destruct (handshake_meaning _ _ A1) as [Hm Hp]. split_and!; [done|done|done| |done|].
  - unfold phase_meaning in Hm. intros [->| ->]; destruct A3 as (E & _); rewrite E in Hm; apply Hm.
  - intros [Hl [_ Hg]%B1]. congruence.
Qed.
End Protocol.

(** ** The local game is the game of its frames and clicks *)

Section OfflineCorrect.
Context {R : Type} {rd_ok : Z -> Z -> Z -> Z -> R -> Prop} `{UiRendererLaws R rd_ok}.
Implicit Type c : UiController R.

Definition mouse_event (e : Mouse) : list UiEvent :=
  match e with
  | (LButtonDown, x, y) => [EvClick x y]
  | (RButtonDown, x, y) => [EvJump x y]
  | (OtherEvent, _, _) => []
  end.

Lemma mouse_events l c c' : foldM controller_mouse l c = Ok c' -> foldM ui_event (List.concat (mouse_event <$> l)) c = Ok c'.
Proof.
  revert c. induction l as [|[[event x] y] l IH]; intros c; [done|]. cbn [foldM fmap list_fmap List.concat].
  intros (c1 & E1 & E2)%bind_Ok_inv. rewrite foldM_app. apply IH in E2.
  destruct event; cbn in *; [rewrite E1|rewrite E1|injection E1 as <-]; exact E2.
Qed.

Lemma shutdown_state c c' : controller_shutdown c = Ok c' -> uc_state c' = uc_state c.
Proof. unfold controller_shutdown. by intros (r & _ & [= <-])%bind_Ok_inv. Qed.

(** Each frame that is due advances the game by its length, then come the clicks made
    while it was shown; iterations in between do nothing. *)
Fixpoint loop_events (ticks : list (Z * list Mouse)) (last_frame : Z) (events : list UiEvent) : Prop :=
  match ticks with
  | [] => events = []
  | (now, mouse) :: ticks =>
      if frame_due last_frame now then
        exists rest, events = (EvFrame (elapsed_since last_frame now) :: List.concat (mouse_event <$> mouse) ++ rest)%list /\
          (rest = [] \/ loop_events ticks now rest)
      else loop_events ticks last_frame events
  end.

Lemma offline_loop_events ticks : forall c last_frame c' t, offline_loop ticks c last_frame = Ok (c', t) ->
  exists events c1, loop_events ticks last_frame events /\ foldM ui_event events c = Ok c1 /\ uc_state c' = uc_state c1.
Proof.
  induction ticks as [|[now mouse] ticks IH]; intros c last_frame c' t; cbn [offline_loop].
  { intros [= <- <-]. by exists [], c. }
  intros ([[c1 last1] go_on] & E1 & E2)%bind_Ok_inv. unfold offline_step in E1. cbv zeta in E1.
  cbn [loop_events]. unfold frame_due. destruct (kTargetFrameMs <=? elapsed_since last_frame now).
  - apply bind_Ok_inv in E1 as ([c2 go_on'] & Ef & E1). apply bind_Ok_inv in E1 as (c3 & Em%mouse_events & E1).
    cbn [fst snd] in *.
    assert (foldM ui_event (EvFrame (elapsed_since last_frame now) :: List.concat (mouse_event <$> mouse)) c = Ok c3) as Hc3.
    { cbn [foldM ui_event]. rewrite Ef, !bind_ok. exact Em. }
    destruct go_on'; cbn [negb] in E1; injection E1 as <- <- <-.
    + destruct (IH _ _ _ _ E2) as (events & c4 & Hl & Hr & Hs).
      eexists _, c4. split; [|split; [|exact Hs]]; [exists events; split; [reflexivity|by right]|].
      rewrite app_comm_cons, foldM_app, Hc3, bind_ok. exact Hr.
    + apply bind_Ok_inv in E2 as (c4 & Es%shutdown_state & [= <- <-]).
      eexists _, c3. split; [|split; [|exact Es]]; [exists []; split; [reflexivity|by left]|]. by rewrite app_nil_r.
  - injection E1 as <- <- <-. by apply IH in E2.
Qed.

(** The local program plays exactly the game of its frames and clicks. *)
Lemma offline_gui_refines board (renderer : R) start ticks c' t :
  0 < gs_rows (new_game board) < 100000 -> 0 < gs_cols (new_game board) < 100000 ->
  run_offline_gui board renderer start ticks = Ok (c', t) ->
  let g := new_game board in
  exists events g', loop_events ticks start events /\
    foldM (game_event (mkLayout 0 0 100 (100 * gs_cols g) (100 * gs_rows g))) events g = Ok g' /\
    uc_state c' = Some g'.
Proof.
  intros Hr Hc. unfold run_offline_gui. intros (c & Ec & (events & c1 & Hl & Hrun & Hs)%offline_loop_events)%bind_Ok_inv.
  destruct (ui_run_game _ _ _ _ _ _ Hr Hc Ec Hrun) as (_ & g' & Eg & Eg').
  exists events, g'. split_and!; [done|done|congruence].
Qed.
End OfflineCorrect.

(** ** Samples *)

(** A renderer without a window, with the login screen of a window of 800 by 800. *)
#[local] Existing Instance Headless.headless_ui.
#[local] Existing Instance Headless.headless_laws.
#[local] Instance headless_login : LoginRenderer Headless.HeadlessRenderer := {|
  login_present r name := Ok (r, name, true);
  login_layout _ := Ok (mkLogin 200 400 400 40 334 493 133 40);
  overlay r _ := r
|}.

Definition quiet_input (now : Z) (lobby : list string) (mouse : list Mouse) : GuiInput :=
  mkGuiInput now now lobby true [] true (fun _ _ => true) (fun _ => Written) mouse.

(** A click on the button, the answer of the server, a redirect. *)
Definition sample_inputs : list GuiInput :=
  [quiet_input 20000000 [] [(LButtonDown, 400, 500)];
   quiet_input 40000000 ["login_ok 1000"]%string [];
   quiet_input 60000000 ["searching"; "game_redirect ws://127.0.0.1:8766 3 white"]%string [(LButtonDown, 10, 10)]].

Definition sample_gui : Stage * NetworkGui Headless.HeadlessRenderer :=
  match run_network_gui 1000 7 (fun _ _ => true) Headless.empty_headless 0 sample_inputs with
  | Ok st => st
  | Err _ => (Exited 1, mkNetworkGui (mkController None None Headless.empty_headless) NoSink
      (mkWsClient "" 0 false) (mkWsClient "" 0 false) new_login_session "" false None new_gui_state 0 [] [])
  end.

(** The client has asked to join the room it was sent to, and left the lobby. *)
Example sample_gui_joined :
  sample_gui.1 = Waiting /\ ng_to_game sample_gui.2 = ["join_game 3"]%string /\
  ng_exchange sample_gui.2 = [Sent "login Player7 Player7"; Received "login_ok 1000"; Sent "play"]%string /\
  ws_connected (ng_lobby sample_gui.2) = false /\ gui_local_side (ng_gui sample_gui.2) = Some White.
Proof. vm_compute. by split_and!. Qed.

Lemma network_gui_protocol_witness :
  stage_ok Waiting sample_gui.2 /\ phase_meaning (ng_exchange sample_gui.2) (ng_session sample_gui.2) /\
  play_after_login (ng_exchange sample_gui.2) /\
  (Waiting = Waiting \/ Waiting = Playing -> login_accepted (ng_exchange sample_gui.2) (rating_ (ng_session sample_gui.2))) /\
  (ng_to_game sample_gui.2 = [] \/ exists room rest, ng_to_game sample_gui.2 = send_join_game room :: rest) /\
  ~ (ws_connected (ng_lobby sample_gui.2) = true /\ ws_connected (ng_game sample_gui.2) = true).
Proof.
  apply (network_gui_protocol 1000 7 (fun _ _ => true) Headless.empty_headless 0 sample_inputs).
  vm_compute. reflexivity.
Defined.

(** ** Behaviours worth knowing *)

(** The length of a frame is cut to milliseconds while the time of the last frame is not,
    so that the game is slower than the clock on the wall: ten frames of 16.9 ms advance
    it by 160 ms instead of 169. *)
Example local_clock_lags :
  match run_offline_gui sample_board Headless.empty_headless 0
          ((fun k => (16900000 * Z.of_nat k, [])) <$> seq 1 10) with
  | Ok (c, last_frame) => fmap clock_ms (uc_state c) = Some 160 /\ elapsed_since 0 last_frame = 169
  | Err _ => False
  end.
Proof. vm_compute. by split. Qed.

(** A redirect with an endpoint that cannot be read ends the program. *)
Example bad_redirect_exits :
  gui_exit (run_network_gui 1000 7 (fun _ _ => true) Headless.empty_headless 0
    [quiet_input 20000000 [] [(LButtonDown, 400, 500)]; quiet_input 40000000 ["login_ok 1000"]%string [];
     quiet_input 60000000 ["game_redirect nowhere 3 white"]%string []]) = Some 1.
Proof. vm_compute. reflexivity. Qed.
