(* ===== verification/Monolith.v ===== *)
(** * The single-server program

    [src/src/server/game_server.cpp] and [gateway_server_monolith.cpp]: the gateway and the
    game server of [Runtime] over one set of clients, rooms and repositories, with the
    matchmaking of [LocalMatch] in between.  Every object is shared, so that the state has
    each of them once and the two iterations are run on it in turn.

    Repositories and the store are those of [GameResult] and [RuntimeStore]; the readings
    of an iteration are those of its two halves and one reading of the clock for the
    matchmaking. *)

From S2P Require Import Prelude Piece BoardModel PathUtils PieceRules CollisionResolver MoveScheduler RealTimeArbiter GameState CppString Sha256 BoardIO GameMessages BoardView Snapshot Codecs Rooms Sessions Users GameLoop Ratings RuntimeStore Matchmaking Config GameResult Hosting MatchService Lobby LocalMatch Runtime Tables Sqlite.
From Stdlib Require Import String.
Open Scope string_scope.
Open Scope Z_scope.

(** The identity under which the gateway publishes itself. *)
Definition gateway_identity (config : AppConfig) : Identity :=
  let server := cfg_server config in
  mkIdentity (sc_gateway_server_id server) (sc_region server) (resolve_game_endpoint server) ""
    (rc_enabled (cfg_redis config)) (rc_heartbeat_interval (cfg_redis config)).

Record ServerReadings {C : Type} := mkServerReadings {
  sr_gateway : Readings C; sr_clock : Z; sr_runtime : Readings C
}.
Arguments ServerReadings : clear implicits.
Arguments mkServerReadings {C} _ _ _.

Section Server.
Context {C U G S : Type} `{Connection C} `{UserRepository U} `{GameRepository G} `{RuntimeStore S}.
Context (config : AppConfig) (salt : Z -> list Z).

Notation Local := (LocalClient (S := S) (G := G)).
Notation Lobby := (LobbyState (C := C) (U := U) (J := Local)).
Notation Loop := (LoopState C (ResultEnv U G S)).

(** [GameServer]: the members of the client plane, the queue of the matchmaking service,
    the rooms, the repositories and the store, and what the two halves note. *)
Record GameServer := mkServer {
  gs_plane : Plane (C := C);
  gs_users : U;
  gs_waiting : list WaitingEntry;
  gs_rooms : RoomManager;
  gs_games : G;
  gs_store : S;
  gs_gateway_tick : Z;
  gs_gateway_clocks : Clocks;
  gs_runtime_tick : Z;
  gs_runtime_clocks : Clocks
}.

(** The constructor; [now] are the readings of the constructors of the two halves. *)
Definition game_server (default_board : BoardModel) (plane : Plane (C := C)) (users : U) (games : G)
    (store : S) (gateway_now runtime_now : Z) : GameServer :=
  mkServer plane users [] (new_manager default_board) games store gateway_now (mkClocks 0 0 0)
    runtime_now (mkClocks 0 0 0).

Definition local_host : LocalGameHost :=
  mkHost (sc_server_id (cfg_server config)) (resolve_game_endpoint (cfg_server config)).

(** The services of the program, with its configuration; the timeout is kept in seconds. *)
#[local] Instance server_client : JoinClient C Local :=
  local_client local_host (sc_server_id (cfg_server config)) (max_rating_difference (cfg_matchmaking config)).

Definition server_timeouts : Plane (C := C) * Local -> res (Plane (C := C) * Local) :=
  process_timeouts (queue_timeout (cfg_matchmaking config) * 1000).

(** The objects as the gateway sees them. *)
Definition gateway_view (clock : Z) (g : GameServer) : Lobby :=
  mkLobby (gs_plane g) (gs_users g)
    (mkLocal (gs_waiting g) (gs_rooms g) (gs_games g) (gs_store g) clock).

(** The objects as the game server sees them, after the gateway's half. *)
Definition runtime_view (g : GameServer) (st : Lobby) (store : S) : Loop :=
  mkLoop (lc_rooms (lb_client st)) (lb_plane st) (gs_runtime_tick g)
    (mkEnv (lb_users st) (lc_games (lb_client st)) store).

Definition server_tick (rd : ServerReadings C) (g : GameServer) : res GameServer :=
  st ← gateway_round salt (sc_region (cfg_server config)) (Some server_timeouts) monolith_on_disconnected
         (sr_gateway rd) (gateway_view (sr_clock rd) g);
  let '(c, store) := gateway_beat (gateway_identity config) (sr_gateway rd) (gs_gateway_tick g)
    (gs_gateway_clocks g) (lb_plane st) (lc_store (lb_client st)) in
  r ← tick_once (runtime_identity config None) false (sr_runtime rd)
        (mkRuntime (runtime_view g st store) (gs_runtime_clocks g));
  let loop := rt_loop r in
  Ok (mkServer (ls_plane loop) (re_users (ls_ext loop)) (lc_waiting (lb_client st)) (ls_rooms loop)
        (re_games (ls_ext loop)) (re_store (ls_ext loop)) (rd_now (sr_gateway rd)) c
        (ls_last_tick loop) (rt_clocks r)).

Definition set_gs_store (g : GameServer) (store : S) : GameServer :=
  mkServer (gs_plane g) (gs_users g) (gs_waiting g) (gs_rooms g) (gs_games g) store
    (gs_gateway_tick g) (gs_gateway_clocks g) (gs_runtime_tick g) (gs_runtime_clocks g).

(** [run]; stop is requested after the last of [ticks]. *)
Definition server_run (ticks : list (ServerReadings C)) (g : GameServer) : res GameServer :=
  g ← foldM server_tick ticks g;
  Ok (set_gs_store g (deregister_server (gs_store g) (hb_server_id (gateway_identity config)))).

(** [metrics], read at [now]: those of the gateway, with the fields of the game server. *)
Definition server_metrics (gateway_now runtime_now : Z) (g : GameServer) : ServerMetrics :=
  let result := gateway_metrics (gateway_identity config) gateway_now (gs_gateway_clocks g) (gs_plane g)
    (gs_store g) in
  let loop := mkLoop (gs_rooms g) (gs_plane g) (gs_runtime_tick g)
    (mkEnv (gs_users g) (gs_games g) (gs_store g)) in
  let m := runtime_metrics (runtime_identity config None) runtime_now (gs_runtime_clocks g) loop (gs_store g) in
  mkMetrics (sm_active_rooms m) (sm_connected_sessions result) (vlen (gs_waiting g))
    (sm_server_uptime_seconds result) (sm_last_tick_duration_ms result) (sm_server_id m) (sm_region result)
    (sm_endpoint m) (sm_allocation_endpoint result) (sm_redis_enabled result) (sm_redis_connected result).

End Server.
Arguments GameServer : clear implicits.

(** ** What the halves keep *)

Section Correct.
Context {C U G S : Type} `{Connection C} `{UserRepositoryLaws U} `{GameRepository G} `{RuntimeStoreLaws S}.
Context (config : AppConfig) (salt : Z -> list Z) (Hsalt : forall id, Forall u8_ok (salt id)).
Context (Hnames : forall (c c' : C) message, try_read c = (Some message, c') ->
  login_names_ok (U := U) message).
(** The ids of the repository are those of an SQL table. *)
Context (Hids : forall id, id_ok (S := U) id -> 0 <= id < 2 ^ 31).

Notation Local := (LocalClient (S := S) (G := G)).
Notation Lobby := (LobbyState (C := C) (U := U) (J := Local)).
Implicit Types (p : Plane (C := C)) (j : Local) (st : Lobby) (g : GameServer C U G S) (u : U).

#[local] Instance client : JoinClient C Local := server_client config.

(** The users of the seats of all rooms. *)
Definition seats (P : Z -> Prop) (m : RoomManager) : Prop := forall id r player,
  rooms_ m !! id = Some r -> white_player_ r = Some player \/ black_player_ r = Some player ->
  P (gp_user_id player).

Lemma seats_mono (P Q : Z -> Prop) m : (forall id, P id -> Q id) -> seats P m -> seats Q m.
Proof. intros HPQ Hm id r player Hr Hp. by eapply HPQ, Hm. Qed.

(** ** Who is seated during the lobby's round *)

(** Every seat belongs to [old] or to the user of a session; the queue's times are
    readings of the clock. *)
Record seated (old : Z -> Prop) (clock : Z) (n : nat) p j : Prop := {
  sd_local : local_ok n p j;
  sd_seats : seats (fun id => old id \/ has_session_of p id) (lc_rooms j);
  sd_clock : lc_clock j = clock;
  sd_times : forall e, e ∈ lc_waiting j -> 0 <= we_enqueue_time e < 2 ^ 62
}.

Lemma seated_users old clock n p p' j : local_ok n p' j -> keeps_users p p' ->
  seated old clock n p j -> seated old clock n p' j.
Proof.
  intros Hl Hk [_ Hs Hc Ht]. split; [done| |done|done]. eapply seats_mono, Hs. intros id [?|?]; [by left|right].
  by apply Hk.
Qed.

Lemma session_known p s id : s ∈ sessions_ p -> ps_user_id s = Some id -> has_session_of p id.
Proof. intros Hs E. by exists s. Qed.

(** A match seats users of sessions. *)
Lemma match_seats (P : Z -> Prop) (w b : PlayerSession) p j j' :
  match_room (local_host config) (sc_server_id (cfg_server config)) w b p j j' ->
  seats P (lc_rooms j) -> (forall id, ps_user_id w = Some id \/ ps_user_id b = Some id -> P id) ->
  seats P (lc_rooms j').
Proof.
  intros (wp & bp & wu & bu & p1 & _ & _ & Hwu & Hbu & _ & Hroom) Hs HP.
  destruct (create_game _ _ _) as [games db]. destruct Hroom as (_ & _ & _ & Hnew & Hother & _).
  intros id r player Hr Hpl. destruct (decide (id = Rooms.next_id_ (lc_rooms j))) as [->|Hne].
  - rewrite Hnew in Hr. injection Hr as <-. apply HP. cbn in Hpl. destruct Hpl as [Hpl|Hpl]; injection Hpl as <-; cbn; auto.
  - rewrite Hother in Hr by done. by eapply Hs.
Qed.

Lemma seated_join old clock n p j s uid profile region : 0 <= clock < 2 ^ 62 -> lobby_ok p ->
  seated old clock (1 + n) p j -> s ∈ sessions_ p -> ps_state s = Connected -> ps_user_id s = Some uid ->
  ps_profile s = Some profile ->
  let p0 := put_session p (request_play s) in
  join (mkMatchRequest (ps_id s) uid (pl_rating profile) region) (p0, j) ⇓ (fun '(p', j', response) =>
    only_matching p0 p' /\ seated old clock n p' j' /\
    exists message, response = Some (mkMatchResponse Queued message)).
Proof.
  intros Hclock Hl [Hlocal Hs Hc Ht] Hin Hst Hu Hpl p0.
  destruct (begin_search (1 + n) p j s (lo_plane _ Hl) Hlocal Hin Hst) as (Ereq & Hm0 & Hs0 & _ & _); [by eexists|].
  fold p0 in Hm0, Hs0. pose proof (matching_users _ _ Hm0) as Hk0.
  eapply returns_mono; [by apply (local_join_spec (local_host config) (sc_server_id (cfg_server config))
    (max_rating_difference (cfg_matchmaking config)) n)|].
  intros [[p' j'] response] (Hm & Hj & Hresp & Hout). split_and!; [done| |done].
  assert (keeps_users p p') as Hk by (intros id Hid; by apply (matching_users _ _ Hm), Hk0).
  assert (seats (fun id => old id \/ has_session_of p' id) (lc_rooms j)) as Hold.
  { eapply seats_mono, Hs. intros id [?|?]; [by left|right; by apply Hk]. }
  destruct Hout as [(_ & _ & ->)|[(_ & l1 & e & l2 & o & El & Hf & _ & _ & Ew & _ & Hroom)|(_ & _ & _ & ->)]].
  - by split.
  - split; [done| | |].
    + eapply match_seats; [exact Hroom|exact Hold|]. apply find_session_id in Hf as [Ho _].
      intros id [E|E]; right; apply (matching_users _ _ Hm); [by exists o|by exists (request_play s)].
    + destruct Hroom as (wp & bp & wu & bu & p1 & _ & _ & _ & _ & _ & Hroom).
      destruct (create_game _ _ _). destruct Hroom as (_ & -> & _). done.
    + rewrite Ew. intros e' He'. apply Ht. rewrite El. set_solver.
  - split; [done|done|done|]. cbn [set_lc_waiting lc_waiting].
    intros e [He| ->%list_elem_of_singleton]%elem_of_app; [by apply Ht|]. cbn. by rewrite Hc.
Qed.

(** The join client with this invariant. *)
Definition seated_ok (old : Z -> Prop) (clock : Z) (Hclock : 0 <= clock < 2 ^ 62) : JoinClientOk C Local.
Proof.
  refine {| region_ok _ := True; client_inv := seated old clock |}.
  - intros n p j [Hl Hs Hc Ht]. split; [by apply local_mono|done..].
  - intros n p p' j Hok _ Hk Hu. apply (seated_users _ _ _ p); [|done|done]. eapply local_keeps; [apply Hok|done].
  - intros n p j s uid profile region _ Hl Hok Hs Hst Hu Hpl p0.
    eapply returns_mono; [by apply (seated_join old clock n)|].
    intros [[p' j'] response] (Hm & Hj & (message & ->)). done.
Defined.

(** ** The state of the program *)

Record server_ok (n m : nat) st : Prop := {
  so_lobby : lobby_ok (lb_plane st);
  so_local : local_ok n (lb_plane st) (lb_client st);
  so_users : users_ok m (lb_users st);
  so_left : ids_left n (lb_users st);
  so_sessions : forall id, has_session_of (lb_plane st) id -> known (lb_users st) id;
  so_seats : seats (known (lb_users st)) (lc_rooms (lb_client st));
  so_times : forall e, e ∈ lc_waiting (lb_client st) -> 0 <= we_enqueue_time e < 2 ^ 62;
  so_connections : NoDup (ps_connection <$> sessions_ (lb_plane st))
}.

(** Users stay known when accounts are added. *)
Lemma known_grows u u' id : repo_ok u -> repo_ok u' -> grows u u' -> known u id -> known u' id.
Proof.
  intros Hu Hu' [Hk _] [Hi [pl (name & c & E & Hid & _)%find_profile_spec]]; [|done..]. split; [done|].
  exists (profile c). apply find_profile_spec; [done..|]. exists name, c. auto.
Qed.

Lemma users_grow m u u' : rating_ok m 1000 -> repo_ok u' -> grows u u' -> users_ok m u -> users_ok m u'.
Proof.
  intros Hr Hu' [Hk Hn] [_ Hc]. split; [done|]. intros name c E.
  destruct (credentials u name) as [c0|] eqn:E0.
  - rewrite (Hk _ _ E0) in E. injection E as <-. by eapply Hc.
  - by rewrite (Hn _ _ E0 E).
Qed.

Lemma users_accounts m u : users_ok m u -> accounts_ok u.
Proof. intros [Hu Hc]. split; [done|]. intros name c E. specialize (Hc name c E). unfold rating_ok in Hc. lia. Qed.

(** The user of an account whose password was given is known. *)
Lemma logged_in_known u s s' : repo_ok u -> logged_in u s s' -> forall id, ps_user_id s' = Some id -> known u id.
Proof.
  intros Hu (_ & c & pw & E & _ & E1 & _) id Eid. pose proof (credentials_id_ok _ _ _ Hu E) as Hi.
  rewrite E1 in Eid. cbn in Eid. injection Eid as <-. pose proof (Hids _ Hi) as Hr.
  assert (to_u64 (to_int (uc_id c)) = uc_id c) as ->.
  { rewrite (wrap_s_id 32) by lia. apply wrap_u_id; lia. }
  split; [done|]. exists (profile c). apply find_profile_spec; [done..|]. by exists (uc_username c), c.
Qed.

Lemma changed_connections u (l l' : list PlayerSession) : Forall2 (changed u) l l' ->
  ps_connection <$> l' = ps_connection <$> l.
Proof. induction 1 as [|x y l l' (_ & E & _) _ IH]; [done|]. by rewrite !fmap_cons, E, IH. Qed.

(** Sessions that changed as the lobby may change them have known users. *)
Lemma changed_known p p' u u' : repo_ok u -> repo_ok u' -> grows u u' ->
  Forall2 (changed u') (sessions_ p) (sessions_ p') ->
  (forall id, has_session_of p id -> known u id) -> forall id, has_session_of p' id -> known u' id.
Proof.
  intros Hu Hu' Hg HF Hk id (s' & Hs' & E). destruct (Forall2_elem _ _ _ _ HF Hs') as (s & Hs & _ & _ & Hc).
  destruct Hc as [[Eu _]|Hlog]; [|by eapply logged_in_known].
  apply (known_grows u); [done..|]. apply Hk. exists s. split; [done|congruence].
Qed.

(** ** The gateway's half *)

Lemma lobby_half n m st clock : 0 <= clock < 2 ^ 62 -> rating_ok m 1000 -> lc_clock (lb_client st) = clock ->
  server_ok (List.length (sessions_ (lb_plane st)) + n) m st ->
  lobby_process salt (sc_region (cfg_server config)) st ⇓ (fun st' => server_ok n m st' /\
    lc_clock (lb_client st') = clock /\ grows (lb_users st) (lb_users st') /\
    Forall2 (changed (lb_users st')) (sessions_ (lb_plane st)) (sessions_ (lb_plane st'))).
Proof.
  intros Hclock Hr Ec [H1' H2' H3' H4' H5' H6' H7' H8'].
  pose (Hc := seated_ok (known (lb_users st)) clock Hclock).
  eapply returns_mono.
  { apply (lobby_loop_ok (H1 := Hc) salt (sc_region (cfg_server config)) Hsalt I Hnames n (ps_id <$> sessions_ (lb_plane st)) st).
    - rewrite length_fmap. split; [done| |by eapply users_accounts|done]. split; [done| |done|done].
      eapply seats_mono, H6'. by left.
    - done. }
  intros st' ([L1 [K1 K2 K3 K4] L3 L4] & Hg & HF). pose proof (proj1 H3') as Hu. pose proof (proj1 L3) as Hu'.
  split_and!; [|done|done|done].
  assert (forall id, has_session_of (lb_plane st') id -> known (lb_users st') id) as Hk
    by exact (changed_known _ _ _ _ Hu Hu' Hg HF H5').
  split; [done|done|by eapply users_grow|done|done| |done|by rewrite (changed_connections _ _ _ HF)].
  eapply seats_mono, K2. intros id [Hold|?]; [|by apply Hk]. exact (known_grows _ _ _ Hu Hu' Hg Hold).
Qed.

Lemma timeouts_half n m st : fits_i64 (queue_timeout (cfg_matchmaking config) * 1000 * 1000000) ->
  0 <= lc_clock (lb_client st) < 2 ^ 62 -> server_ok n m st ->
  server_timeouts config (lb_plane st, lb_client st) ⇓ (fun '(p', j') =>
    server_ok n m (mkLobby p' (lb_users st) j') /\ only_matching (lb_plane st) p' /\
    lc_rooms j' = lc_rooms (lb_client st) /\ lc_store j' = lc_store (lb_client st)).
Proof.
  intros Hfit Hclock [H1' H2' H3' H4' H5' H6' H7' H8']. unfold server_timeouts.
  eapply returns_mono; [eapply process_timeouts_ok with (n := n); [apply _|apply H1'|done..]|].
  intros [p' j'] (Hm & Hl & -> & _). split_and!; [|done|done|done].
  split; cbn [lb_plane lb_users lb_client set_lc_waiting lc_rooms lc_waiting] in *; [|done|done|done| |done| |].
  - by eapply lobby_matching.
  - intros id (s' & Hs' & E). destruct (Forall2_elem _ _ _ _ (om_sessions _ _ Hm) Hs') as (s & Hs & _ & _ & Eu & _).
    apply H5'. exists s. split; [done|congruence].
  - intros e [He _]%list_elem_of_In%filter_In. apply H7'. by apply list_elem_of_In.
  - assert (ps_connection <$> sessions_ p' = ps_connection <$> sessions_ (lb_plane st)) as ->; [|done].
    apply (changed_connections (lb_users st)). eapply Forall2_impl; [apply Hm|]. intros x y. apply changed_same.
Qed.
(** Accepted clients served: the lobby's round and the timeouts. *)
Definition serve (clock : Z) p g : res Lobby :=
  gateway_serve salt (sc_region (cfg_server config)) (Some (server_timeouts config))
    (set_lb_plane (gateway_view clock g) p).

Lemma serve_ok n m clock p g : fits_i64 (queue_timeout (cfg_matchmaking config) * 1000 * 1000000) ->
  0 <= clock < 2 ^ 62 -> rating_ok m 1000 ->
  server_ok (List.length (sessions_ p) + n) m (set_lb_plane (gateway_view clock g) p) ->
  serve clock p g ⇓ (fun st => server_ok n m st /\ grows (gs_users g) (lb_users st) /\
    Forall2 (changed (lb_users st)) (sessions_ p) (sessions_ (lb_plane st))).
Proof.
  intros Hfit Hclock Hr Hok. unfold serve, gateway_serve. apply returns_bind.
  eapply returns_mono; [by apply (lobby_half n m _ clock)|]. intros st1 (Hok1 & Ec & Hg & HF).
  apply returns_bind. eapply returns_mono; [apply (timeouts_half n m); [done|by rewrite Ec|done]|].
  intros [p2 j2] (Hok2 & Hm & _). apply returns_ok. split_and!; [done|done|]. cbn [fst snd lb_plane lb_users].
  eapply Forall2_compose; [|exact HF|apply (om_sessions _ _ Hm)].
  intros x y z Hxy Hyz. eapply changed_trans; [reflexivity|exact Hxy|by apply changed_same].
Qed.

(** ** The game server's half *)

Lemma runtime_view_ok n m st g p store : server_ok n m st -> plane_ok p ->
  loop_ok m (runtime_view g (mkLobby p (lb_users st) (lb_client st)) store).
Proof.
  intros Hok Hp. split_and!; [apply (so_local _ _ _ Hok)|done|]. split; [apply Hok|]. apply (so_seats _ _ _ Hok).
Qed.

Definition server_loop g : LoopState C (ResultEnv U G S) :=
  mkLoop (gs_rooms g) (gs_plane g) (gs_runtime_tick g) (mkEnv (gs_users g) (gs_games g) (gs_store g)).

(** The outcome of an iteration whose gateway's half ended in [st]: the gateway is
    published if its heartbeat is due, the rooms went through their rounds, and the game
    server is published if its heartbeat is due. *)
Definition played (rd : ServerReadings C) (k : nat) g st g' : Prop :=
  exists (store : S) (st2 : LoopState C (ResultEnv U G S)),
    let due := heartbeat_due (gateway_identity config) (gs_gateway_clocks g) (rd_heartbeat_now (sr_gateway rd)) in
    let due' := heartbeat_due (runtime_identity config None) (gs_runtime_clocks g) (rd_heartbeat_now (sr_runtime rd)) in
    let st1 := runtime_view g (set_lb_plane st (prune_disconnected (lb_plane st))) store in
    published (gateway_identity config) due 0 (rd_stamp (sr_gateway rd)) (lc_store (lb_client st)) store /\
    play_phase (sr_runtime rd) st1 = Ok (st2, elapsed_ms (sr_runtime rd) st1) /\
    rounds (elapsed_ms (sr_runtime rd) st1) st1 st2 /\
    published (runtime_identity config None) due' (Z.of_nat (size (rooms_ (ls_rooms st2))))
      (rd_stamp (sr_runtime rd)) (re_store (ls_ext st2)) (gs_store g') /\
    loop_ok k (server_loop g') /\ gs_rooms g' = ls_rooms st2 /\ gs_plane g' = ls_plane st2 /\
    gs_waiting g' = lc_waiting (lb_client st).

Lemma gateway_beat_ok rd last_tick c p (store : S) :
  published (gateway_identity config) (heartbeat_due (gateway_identity config) c (rd_heartbeat_now rd)) 0
    (rd_stamp rd) store (gateway_beat (C := C) (gateway_identity config) rd last_tick c p store).2.
Proof.
  unfold gateway_beat. rewrite maybe_publish_eq.
  change (heartbeat_due _ (set_tick_duration c _) _) with (heartbeat_due (gateway_identity config) c (rd_heartbeat_now rd)).
  destruct (heartbeat_due _ _ _); cbn [snd]; [|by split]. split; [intros; apply find_published|].
  intros id. rewrite get_published. cbn [andb]. destruct (String.eqb_spec id (hb_server_id (gateway_identity config)));
    by case_decide.
Qed.
Lemma runtime_half rd k m st g p c (store : S) : plane_ok p -> NoDup (ps_connection <$> sessions_ p) ->
  server_ok k m st -> forall n, m = (2 * List.length (rd_order (sr_runtime rd)) + n)%nat ->
  let st1 := runtime_view g (mkLobby p (lb_users st) (lb_client st)) store in
  enumerates (rd_order (sr_runtime rd)) (ls_rooms st1) ->
  (forall id room, rooms_ (ls_rooms st1) !! id = Some room -> tick_fits (elapsed_ms (sr_runtime rd) st1) room) ->
  exists st2 : LoopState C (ResultEnv U G S), play_phase (sr_runtime rd) st1 = Ok (st2, elapsed_ms (sr_runtime rd) st1) /\
    rounds (elapsed_ms (sr_runtime rd) st1) st1 st2 /\
    tick_once (runtime_identity config None) false (sr_runtime rd) (mkRuntime st1 c) ⇓ (fun r =>
      loop_ok n (rt_loop r) /\ ls_rooms (rt_loop r) = ls_rooms st2 /\ ls_plane (rt_loop r) = ls_plane st2 /\
      published (runtime_identity config None)
        (heartbeat_due (runtime_identity config None) c (rd_heartbeat_now (sr_runtime rd)))
        (Z.of_nat (size (rooms_ (ls_rooms st2)))) (rd_stamp (sr_runtime rd)) (re_store (ls_ext st2))
        (re_store (ls_ext (rt_loop r)))).
Proof.
  intros Hp Hd Hok n -> st1 Hen Hfit.
  pose proof (runtime_view_ok _ _ st g p store Hok Hp) as Hloop. fold st1 in Hloop.
  destruct (proj1 (returns_eq _ _) (play_phase_ok n (sr_runtime rd) st1 Hloop Hd Hen Hfit))
    as ([st2 e] & Hplay & -> & Hok2 & Hr). exists st2. split_and!; [done..|].
  unfold tick_once, accept_phase, prune_phase. cbn [rt_loop rt_clocks]. rewrite bind_ok, Hplay, !bind_ok.
  apply returns_ok.
  destruct (runtime_heartbeat_ok (runtime_identity config None) n (sr_runtime rd) st2
    (set_tick_duration c (elapsed_ms (sr_runtime rd) st1))) as (A1 & A2 & A3 & _ & A5); [done|apply Hr|].
  by split_and!.
Qed.

End Correct.

(** ** Samples *)

#[local] Existing Instance counting_games.
#[local] Existing Instance TableEngine.engine.
#[local] Existing Instance TableEngine.engine_laws.

(** A client that asks to play, once. *)
#[local] Instance eager_connection : Connection bool := {|
  is_open _ := true;
  try_read (c : bool) := (if c then Some "play" else None, false);
  try_send c _ := (true, c);
  send_message c _ := (true, c);
  probe_disconnect c := c
|}.

Definition server_config : AppConfig :=
  mkAppConfig default_server_config default_database_config default_redis_config default_matchmaking_config
    default_logging_config default_allocation_config.

(** Ann is searching since time 5, Bob asks to play. *)
Definition ann : PlayerSession :=
  set_session_state (assign_user (new_session 0 (Some 4096)) 1 "ann" 1000) Searching.
Definition bob : PlayerSession := assign_user (new_session 1 (Some 8192)) 2 "bob" 1040.
Definition ann_and_bob : Plane (C := bool) :=
  mkPlane [(4096, false); (8192, true)] 2 [ann; bob] 2 {["ann"; "bob"]}.
Definition two_rows : PlayersTable := mkPlayers [mkRow 1 "ann" 1000 (Some "h"); mkRow 2 "bob" 1040 (Some "h")] 2.
Definition two_users : SqliteUserRepository (D := TableEngine.Engine) :=
  mkSqliteUsers (mkSqlite "kfc.db" (Some (TableEngine.mkEngine (mkTables two_rows (mkGames [] 0)) 2))) None.
Definition sample_game_server :
    GameServer bool (SqliteUserRepository (D := TableEngine.Engine)) Z InMemoryRuntimeStore :=
  mkServer ann_and_bob two_users [mkEntry 0 5] (new_manager sample_board) 3 new_memory_store 0 (mkClocks 0 0 0)
    0 (mkClocks 0 0 0).

(** An iteration 20 ms later. *)
Definition sample_server_readings : ServerReadings bool :=
  mkServerReadings (mkReadings (Ok None) [] 20000000 0 20000001 20000002 1700000000) 20000000
    (mkReadings (Ok None) [1] 20000003 20000004 20000005 20000006 1700000000).

Definition no_salt (_ : Z) : list Z := replicate 16 7.

(** Both are seated in the first room and play. *)
Example ann_and_bob_play :
  match server_tick server_config no_salt sample_server_readings sample_game_server with
  | Ok g => (ps_state <$> sessions_ (gs_plane g), ps_room_id <$> sessions_ (gs_plane g),
             fmap (fun r => (gp_user_id <$> white_player_ r, gp_user_id <$> black_player_ r)) (rooms_ (gs_rooms g) !! 1),
             gs_waiting g)
  | Err _ => ([], [], None, [])
  end = ([Playing; Playing], [Some 1; Some 1], Some (Some 1, Some 2), []).
Proof. vm_compute. reflexivity. Qed.

Lemma two_rows_ok : table_ok two_rows.
Proof.
  split; cbn [two_rows rows sequence].
  - repeat constructor; vm_compute; congruence.
  - apply (bool_decide_unpack _). by vm_compute.
  - apply (bool_decide_unpack _). by vm_compute.
  - lia.
Qed.

Lemma two_users_known id : id = 1 \/ id = 2 -> known two_users id.
Proof. intros [->| ->]; (split; [vm_compute; by split|vm_compute; by eexists]). Qed.

Lemma two_users_rows : players two_users = two_rows.
Proof. reflexivity. Qed.

Lemma two_users_ok m : rating_ok m 1040 -> users_ok m two_users.
Proof.
  intros Hm. assert (table_ok (players two_users)) as Ht by (rewrite two_users_rows; apply two_rows_ok).
  split; [split; [by eexists; split|done]|].
  intros name c (r & Hr & _ & _ & ->)%accounts_spec; [|done]. rewrite two_users_rows in Hr.
  revert Hr. cbn [two_rows rows]. intros [->|[->|Hr]%elem_of_cons]%elem_of_cons; [| |set_solver];
    (match goal with |- rating_ok _ ?x => let v := eval vm_compute in x in change x with v end);
    unfold rating_ok in *; lia.
Qed.

Lemma ann_and_bob_ok : lobby_ok ann_and_bob.
Proof.
  split; cbn [ann_and_bob sessions_ registry_].
  - split; cbn [ann_and_bob sessions_ next_session_id_].
    + intros s [->|[->|Hs]%elem_of_cons]%elem_of_cons; [eexists..|set_solver];
        (split; [done|]); unfold live; simpl; set_solver.
    + apply NoDup_cons. split; [set_solver|apply NoDup_singleton].
    + intros s [->|[->|Hs]%elem_of_cons]%elem_of_cons; simpl; [lia..|set_solver].
  - intros s [->|[->|Hs]%elem_of_cons]%elem_of_cons; [| |set_solver]; split; eauto.
  - intros s pl [->|[->|Hs]%elem_of_cons]%elem_of_cons; [| |set_solver]; intros [= <-]; simpl; set_solver.
  - intros s1 s2 l1 l2 [->|[->|Hs]%elem_of_cons]%elem_of_cons [->|[->|Hs']%elem_of_cons]%elem_of_cons;
      try set_solver; intros [= <-] [= <-]; done.
  - intros s pl [->|[->|Hs]%elem_of_cons]%elem_of_cons; [| |set_solver]; intros [= <-]; simpl; lia.
  - intros s u [->|[->|Hs]%elem_of_cons]%elem_of_cons; [| |set_solver]; intros [= <-]; by unfold fits_u64.
Qed.

Lemma sample_server_ok2 : server_ok 2 2 (set_lb_plane (gateway_view 20000000 sample_game_server) ann_and_bob).
Proof.
  split; cbn [set_lb_plane gateway_view sample_game_server lb_plane lb_users lb_client gs_waiting gs_users gs_rooms lc_rooms lc_waiting].
  - apply ann_and_bob_ok.
  - split; cbn [lc_rooms lc_waiting].
    + apply new_manager_ok, sample_manager_ok.
    + cbn. lia.
    + apply NoDup_singleton.
    + intros e ->%list_elem_of_singleton. exists ann. split_and!; [set_solver|done|].
      split_and!; [done|by eexists|]. eexists. split; [done|]. simpl. lia.
  - apply two_users_ok. unfold rating_ok. lia.
  - by vm_compute.
  - intros id (s & [->|[->|Hs]%elem_of_cons]%elem_of_cons & E); [| |set_solver]; injection E as <-;
      apply two_users_known; auto.
  - intros id r player Hr. cbn [new_manager rooms_] in Hr. by rewrite lookup_empty in Hr.
  - intros e ->%list_elem_of_singleton. cbn. lia.
  - apply NoDup_cons. split; [set_solver|apply NoDup_singleton].
Qed.


(** ** Behaviours worth knowing *)

Section Behaviours.
Context {C U G S : Type} `{Connection C} `{UserRepository U} `{GameRepository G} `{RuntimeStore S}.
Context (config : AppConfig) (salt : Z -> list Z).
Implicit Type g : GameServer C U G S.

Lemma publish_started me metrics now stamp c (store : S) :
  ck_started_at (maybe_publish_heartbeat me metrics now stamp c store).1 = ck_started_at c.
Proof. unfold maybe_publish_heartbeat. by destruct (_ && _). Qed.

Lemma server_tick_started rd g g' : server_tick config salt rd g = Ok g' ->
  ck_started_at (gs_gateway_clocks g') = ck_started_at (gs_gateway_clocks g).
Proof.
  unfold server_tick. destruct (gateway_round _ _ _ _ _ _) as [st|]; [|done]. rewrite bind_ok.
  destruct (gateway_beat _ _ _ _ _ _) as [c store] eqn:E. apply (f_equal fst) in E.
  apply (f_equal ck_started_at) in E. unfold gateway_beat in E. rewrite publish_started in E.
  destruct (tick_once _ _ _ _); [|done]. rewrite bind_ok. intros [= <-]. cbn [gs_gateway_clocks]. cbn in E |- *. congruence.
Qed.

(** Nobody notes when the single-server program was started, because only [run] of the two
    halves does, which it does not call: it reports an uptime of 0 for ever. *)
Lemma server_uptime_zero ticks board plane users games store now1 now2 g' now3 now4 :
  server_run config salt ticks (game_server board plane users games store now1 now2) = Ok g' ->
  sm_server_uptime_seconds (server_metrics config now3 now4 g') = 0.
Proof.
  unfold server_run. assert (forall g, ck_started_at (gs_gateway_clocks g) = 0 ->
    forall g', foldM (server_tick config salt) ticks g = Ok g' -> ck_started_at (gs_gateway_clocks g') = 0) as Hall.
  { induction ticks as [|rd ticks IH]; intros g Hg g1; cbn [foldM]; [by intros [= <-]|].
    destruct (server_tick config salt rd g) as [g2|] eqn:E; [|done]. rewrite bind_ok. apply IH.
    by rewrite (server_tick_started _ _ _ E). }
  destruct (foldM _ _ _) as [g1|] eqn:E; [|done]. rewrite bind_ok. intros [= <-].
  cbn [server_metrics sm_server_uptime_seconds gateway_metrics common_metrics set_gs_store gs_gateway_clocks].
  unfold uptime_seconds. by rewrite (Hall (game_server board plane users games store now1 now2) eq_refl _ E).
Qed.
End Behaviours.

(** At its end the program takes the gateway's entry out of the store but not the one of
    the game server, which it has published too. *)
Example game_server_stays_listed :
  match server_run server_config no_salt [sample_server_readings] sample_game_server with
  | Ok g => gsr_server_id <$> list_game_servers (gs_store g)
  | Err _ => []
  end = [sc_server_id (cfg_server server_config)] /\
  sc_gateway_server_id (cfg_server server_config) <> sc_server_id (cfg_server server_config).
Proof. split; [vm_compute; reflexivity|done]. Qed.
