(* ===== verification/Programs.v ===== *)
(** * Putting the programs together

    [src/src/app/server_infrastructure.cpp], [server_builder.h], [matchmaker_builder.h],
    [server/client_connection_plane.cpp] and the four [main_*.cpp] of the servers: the
    database and the store that the configuration selects, behind their interfaces; the
    objects of each program in their first state; the runs of the gateway and the
    matchmaker; health and readiness; and the exit codes.

    A constructor may throw: [outcome] is a value or the text of the exception.  Binding
    a port is the environment.  The user and the game repository of a program refer to one
    connection; they use different tables of it, and each is modelled with a view of its
    own. *)

From S2P Require Import Prelude Piece BoardModel PathUtils PieceRules CollisionResolver MoveScheduler RealTimeArbiter GameState CppString Sha256 BoardIO GameMessages BoardView Snapshot Codecs Rooms Sessions Users GameLoop Ratings RuntimeStore Matchmaking RedisStore Config RedisClient GameResult Tables Sqlite Postgres Hosting MatchService Lobby Observability Http LocalMatch Runtime Monolith.
From Stdlib Require Import String.
Open Scope string_scope.
Open Scope Z_scope.

Inductive outcome (A : Type) := Built (a : A) | Thrown (what : string).
Arguments Built {A} a.
Arguments Thrown {A} what.

#[export] Instance outcome_bind : MBind outcome :=
  fun A B k m => match m with Built a => k a | Thrown what => Thrown what end.

(** ** The ports of the clients *)

Definition set_websocket (server : ServerConfig) (port max_clients : Z) : ServerConfig :=
  mkServerConfig port (sc_game_port server) (sc_health_port server) (sc_game_health_port server)
    (sc_game_internal_port server) (sc_matchmaker_port server) (sc_matchmaker_health_port server)
    (sc_gateway_internal_port server) (sc_bind_address server) (sc_server_id server)
    (sc_gateway_server_id server) (sc_region server) (sc_endpoint server) (sc_allocation_endpoint server)
    (sc_matchmaker_endpoint server) (sc_gateway_notification_endpoint server) max_clients
    (sc_game_max_clients server).

Definition make_gateway_websocket_config (config : AppConfig) : ServerConfig :=
  set_websocket (cfg_server config) (sc_port (cfg_server config)) (sc_max_clients (cfg_server config)).
Definition make_game_websocket_config (config : AppConfig) : ServerConfig :=
  set_websocket (cfg_server config) (sc_game_port (cfg_server config)) (sc_game_max_clients (cfg_server config)).
Definition make_monolithic_websocket_config (config : AppConfig) : ServerConfig :=
  set_websocket (cfg_server config) (sc_port (cfg_server config)) (sc_max_clients (cfg_server config)).

(** [ClientConnectionPlane]; [listen] is the exception of the acceptor for an address and
    a port, if it throws one. *)
Definition client_plane {C : Type} (listen : string -> Z -> option string) (websocket : ServerConfig) :
    outcome (Plane (C := C)) :=
  match listen (sc_bind_address websocket) (sc_port websocket) with
  | Some what => Thrown what
  | None => Built (mkPlane [] (sc_max_clients websocket) [] 0 ∅)
  end.

(** ** [ServerInfrastructure] *)

Section Infrastructure.
Context {D E K : Type} `{Sqlite D} `{Libpq E} `{Hiredis K} `{RedisServer K}.

(** The implementations behind the interfaces. *)
Inductive Store := MemoryStore (s : InMemoryRuntimeStore) | RedisBacked (c : option K).
Inductive Database := SqliteConnection (s : SqliteDatabase D) | PostgresLink (c : PostgresConnection E).
Inductive UserBackend :=
| SqliteUsers (s : SqliteUserRepository (D := D))
| PostgresUsers (s : PostgresUserRepository (D := E)).

#[export] Instance store_dispatch : RuntimeStore Store := {|
  is_available s := match s with MemoryStore s => is_available s | RedisBacked c => is_available c end;
  register_room s room white black server endpoint := match s with
    | MemoryStore s => MemoryStore (register_room s room white black server endpoint)
    | RedisBacked c => RedisBacked (register_room c room white black server endpoint) end;
  unregister_room s room white black := match s with
    | MemoryStore s => MemoryStore (unregister_room s room white black)
    | RedisBacked c => RedisBacked (unregister_room c room white black) end;
  publish_server_heartbeat s server region metrics now := match s with
    | MemoryStore s => MemoryStore (publish_server_heartbeat s server region metrics now)
    | RedisBacked c => RedisBacked (publish_server_heartbeat c server region metrics now) end;
  deregister_server s server := match s with
    | MemoryStore s => MemoryStore (deregister_server s server)
    | RedisBacked c => RedisBacked (deregister_server c server) end;
  find_player_location s u := match s with
    | MemoryStore s => find_player_location s u | RedisBacked c => find_player_location c u end;
  list_game_servers s := match s with
    | MemoryStore s => list_game_servers s | RedisBacked c => list_game_servers c end;
  get_game_server s id := match s with
    | MemoryStore s => get_game_server s id | RedisBacked c => get_game_server c id end;
  set_matchmaking_queue s region q := match s with
    | MemoryStore s => MemoryStore (set_matchmaking_queue s region q)
    | RedisBacked c => RedisBacked (set_matchmaking_queue c region q) end;
  list_matchmaking_queue s region := match s with
    | MemoryStore s => list_matchmaking_queue s region | RedisBacked c => list_matchmaking_queue c region end
|}.

#[export] Instance users_dispatch : UserRepository UserBackend := {|
  create_user s name := match s with
    | SqliteUsers s => let r := create_user s name in (SqliteUsers r.1, r.2)
    | PostgresUsers s => let r := create_user s name in (PostgresUsers r.1, r.2) end;
  create_user_with_id s id name := match s with
    | SqliteUsers s => let r := create_user_with_id s id name in (SqliteUsers r.1, r.2)
    | PostgresUsers s => let r := create_user_with_id s id name in (PostgresUsers r.1, r.2) end;
  find_by_id s id := match s with SqliteUsers s => find_by_id s id | PostgresUsers s => find_by_id s id end;
  find_by_username s name := match s with
    | SqliteUsers s => find_by_username s name | PostgresUsers s => find_by_username s name end;
  find_credentials_by_username s name := match s with
    | SqliteUsers s => find_credentials_by_username s name
    | PostgresUsers s => find_credentials_by_username s name end;
  find_profile_by_id s id := match s with
    | SqliteUsers s => find_profile_by_id s id | PostgresUsers s => find_profile_by_id s id end;
  create_user_with_password s name rating hash := match s with
    | SqliteUsers s => let r := create_user_with_password s name rating hash in (SqliteUsers r.1, r.2)
    | PostgresUsers s => let r := create_user_with_password s name rating hash in (PostgresUsers r.1, r.2) end;
  update_rating s id rating := match s with
    | SqliteUsers s => let r := update_rating s id rating in (SqliteUsers r.1, r.2)
    | PostgresUsers s => let r := update_rating s id rating in (PostgresUsers r.1, r.2) end
|}.

#[export] Instance games_dispatch : GameRepository Database := {|
  create_game g white black := match g with
    | SqliteConnection s => let r := create_game s white black in (SqliteConnection r.1, r.2)
    | PostgresLink c => let r := create_game c white black in (PostgresLink r.1, r.2) end;
  finish_game g id winner := match g with
    | SqliteConnection s => let r := finish_game s id winner in (SqliteConnection r.1, r.2)
    | PostgresLink c => let r := finish_game c id winner in (PostgresLink r.1, r.2) end;
  finish_game_without_winner g id := match g with
    | SqliteConnection s => let r := finish_game_without_winner s id in (SqliteConnection r.1, r.2)
    | PostgresLink c => let r := finish_game_without_winner c id in (PostgresLink r.1, r.2) end
|}.

Record Infrastructure := mkInfrastructure {
  in_backend : DatabaseBackend; in_redis : RedisConfig; in_store : Store; in_database : Database;
  in_users : UserBackend
}.

Definition make_postgres_settings (database : DatabaseConfig) : Settings :=
  mkSettings (db_host database) (db_port database) (db_database database) (db_username database)
    (db_password database).

Definition make_runtime_store (config : AppConfig) : Store :=
  if rc_enabled (cfg_redis config) then RedisBacked (impl (cfg_redis config)) else MemoryStore new_memory_store.

Definition database_connected (d : Database) : bool :=
  match d with SqliteConnection s => is_connected s | PostgresLink c => pg_is_connected c end.

Definition server_infrastructure (config : AppConfig) : outcome Infrastructure :=
  let store := make_runtime_store config in
  if rc_enabled (cfg_redis config) && negb (is_available store) then Thrown "Failed to connect to Redis"
  else
    let built database users :=
      Built (mkInfrastructure (db_backend (cfg_database config)) (cfg_redis config) store database users) in
    match db_backend (cfg_database config) with
    | PostgreSQL =>
        let '(postgres, opened) := pg_open (mkPostgres (make_postgres_settings (cfg_database config)) None) in
        if negb opened then Thrown "Failed to connect to PostgreSQL"
        else built (PostgresLink postgres) (PostgresUsers (mkPostgresUsers postgres None))
    | SQLite =>
        let '(sqlite, opened) := open_database (sqlite_database (db_path (cfg_database config))) in
        if negb opened then Thrown "Failed to initialize database"
        else
          let '(sqlite, initialized) := initialize_schema sqlite in
          if negb initialized then Thrown "Failed to initialize database"
          else built (SqliteConnection sqlite) (SqliteUsers (mkSqliteUsers sqlite None))
    end.

Definition get_health_status (i : Infrastructure) (server_running : bool) : HealthStatus :=
  make_health_status server_running (in_backend i) (database_connected (in_database i))
    (rc_enabled (in_redis i)) (in_store i).

End Infrastructure.
Arguments Store : clear implicits.
Arguments Database : clear implicits.
Arguments UserBackend : clear implicits.
Arguments Infrastructure : clear implicits.

(** ** The board of a new game

    The servers have the same [default_board]. *)

Definition default_grid : list (list string) :=
  [["bR"; "bN"; "bB"; "bQ"; "bK"; "bB"; "bN"; "bR"];
   ["bP"; "bP"; "bP"; "bP"; "bP"; "bP"; "bP"; "bP"];
   ["."; "."; "."; "."; "."; "."; "."; "."];
   ["."; "."; "."; "."; "."; "."; "."; "."];
   ["."; "."; "."; "."; "."; "."; "."; "."];
   ["."; "."; "."; "."; "."; "."; "."; "."];
   ["wP"; "wP"; "wP"; "wP"; "wP"; "wP"; "wP"; "wP"];
   ["wR"; "wN"; "wB"; "wQ"; "wK"; "wB"; "wN"; "wR"]].

Definition default_board : res BoardModel := from_token_grid default_grid.

(** ** The programs *)

Section Programs.
Context {C D E K : Type} `{Connection C} `{Sqlite D} `{Libpq E} `{Hiredis K} `{RedisServer K}.
Context (listen : string -> Z -> option string).

Notation Infra := (Infrastructure D E K).
Notation Users := (UserBackend D E).
Notation Games := (Database D E).
Notation Stores := (Store K).

(** [BuiltGameServer]: the single-server program. *)
Definition build_game_server (config : AppConfig) (board : BoardModel) (gateway_now runtime_now : Z) :
    outcome (Infra * GameServer C Users Games Stores) :=
  i ← server_infrastructure config;
  p ← client_plane listen (make_monolithic_websocket_config config);
  Built (i, game_server board p (in_users i) (in_database i) (in_store i) gateway_now runtime_now).

(** [BuiltGameServerRuntime]; the creation listener binds its port in the constructor of
    the runtime, which notes the port for the endpoint. *)
Definition build_game_server_runtime (config : AppConfig) (board : BoardModel) (now : Z) :
    outcome (Infra * Runtime C Users Games Stores) :=
  i ← server_infrastructure config;
  p ← client_plane listen (make_game_websocket_config config);
  match listen (sc_bind_address (cfg_server config)) (sc_game_internal_port (cfg_server config)) with
  | Some what => Thrown what
  | None => Built (i, mkRuntime (mkLoop (new_manager board) p now
                      (mkEnv (in_users i) (in_database i) (in_store i))) (mkClocks 0 0 0))
  end.

(** [BuiltGateway] over a join client [j]; the listener of notifications binds its port. *)
Definition build_gateway {J : Type} (j : J) (config : AppConfig) (now : Z) :
    outcome (Infra * Gateway (C := C) (U := Users) (J := J) (S := Stores)) :=
  i ← server_infrastructure config;
  p ← client_plane listen (make_gateway_websocket_config config);
  match listen (sc_bind_address (cfg_server config)) (sc_gateway_internal_port (cfg_server config)) with
  | Some what => Thrown what
  | None => Built (i, mkGateway (mkLobby p (in_users i) j) (in_store i) now (mkClocks 0 0 0))
  end.

(** [BuiltMatchmaker] over an allocator [a]; the service, which takes its queue from the
    store, is made before the port is bound. *)
Definition build_matchmaker {A : Type} (a : A) (config : AppConfig) (now : Z) :
    res (outcome (Infra * MatchmakerRuntime (S := Stores) (G := Games) (A := A))) :=
  match server_infrastructure config with
  | Thrown what => Ok (Thrown what)
  | Built i =>
      service ← new_service (cfg_matchmaking config) (in_store i) (in_database i) a;
      Ok (match listen (sc_bind_address (cfg_server config)) (sc_matchmaker_port (cfg_server config)) with
          | Some what => Thrown what
          | None => Built (i, mkMatchmaker service now now (mkClocks 0 0 0))
          end)
  end.

(** ** Runs *)

(** [GatewayServer::run]; [rd0] are the readings before the loop. *)
Definition run_gateway {J : Type} `{!JoinClient C J} {U S : Type} `{UserRepository U} `{RuntimeStore S}
    (salt : Z -> list Z) (region : string) timeouts on_disconnected (me : Identity) (rd0 : Readings C)
    (ticks : list (Readings C)) (g : Gateway (C := C) (U := U) (J := J) (S := S)) :
    res (Gateway (C := C) (U := U) (J := J) (S := S)) :=
  let c := mkClocks (rd_now rd0) (ck_last_heartbeat_at (gw_clocks g)) (ck_last_tick_duration_ms (gw_clocks g)) in
  let '(c, s) := maybe_publish_heartbeat me
    (gateway_metrics me (rd_metrics_now rd0) c (lb_plane (gw_lobby g))) (rd_heartbeat_now rd0) (rd_stamp rd0) c
    (gw_store g) in
  g ← foldM (gateway_tick salt region timeouts on_disconnected me) ticks
        (mkGateway (gw_lobby g) s (rd_now rd0) c);
  Ok (mkGateway (gw_lobby g) (deregister_server (gw_store g) (hb_server_id me)) (gw_last_tick g) (gw_clocks g)).

(** [MatchmakerRuntime::run]. *)
Definition run_matchmaker {S G A : Type} `{RuntimeStore S} (config : MatchmakingConfig) (me : Identity)
    (rd0 : MatchmakerReadings) (ticks : list MatchmakerReadings)
    (r : MatchmakerRuntime (S := S) (G := G) (A := A)) : res (MatchmakerRuntime (S := S) (G := G) (A := A)) :=
  let c := mkClocks (mr_now rd0) (ck_last_heartbeat_at (mk_clocks r)) (ck_last_tick_duration_ms (mk_clocks r)) in
  let '(c, s) := maybe_publish_heartbeat me (matchmaker_metrics me (mr_metrics_now rd0) c (mk_service r))
    (mr_heartbeat_now rd0) (mr_stamp rd0) c (sv_store (mk_service r)) in
  r ← foldM (matchmaker_tick config me) ticks
        (mkMatchmaker (set_sv_store (mk_service r) s) (mr_now rd0) (mk_last_queue_process r) c);
  Ok (mkMatchmaker (set_sv_store (mk_service r) (deregister_server (sv_store (mk_service r)) (hb_server_id me)))
        (mk_last_tick r) (mk_last_queue_process r) (mk_clocks r)).

(** ** Reports and readiness, as the programs hand them to the health server *)

Definition monolith_ready (config : AppConfig) (store : Stores) : bool :=
  if negb (rc_enabled (cfg_redis config)) then true else is_available store.
Definition monolith_report (config : AppConfig) (counters : MetricCounters) (now1 now2 : Z)
    (g : GameServer C Users Games Stores) : string :=
  format_prometheus_metrics KGameServer (server_metrics config now1 now2 g) counters 0 0 0 false.

Definition game_server_ready (config : AppConfig) (i : Infra) (store : Stores) (allocation_api_active : bool) : bool :=
  check_game_server_ready (database_connected (in_database i)) (rc_enabled (cfg_redis config)) store
    allocation_api_active.
Definition game_server_report (me : Identity) (counters : MetricCounters) (now : Z) (order : list Z)
    (allocation_api_active : bool) (r : Runtime C Users Games Stores) : string :=
  format_prometheus_metrics KGameServer
    (runtime_metrics me now (rt_clocks r) (rt_loop r) (re_store (ls_ext (rt_loop r)))) counters 0
    (active_player_count order (ls_rooms (rt_loop r))) 0 allocation_api_active.

Definition gateway_ready {N : Type} `{Network N} (config : AppConfig) (i : Infra) (store : Stores) (n : N) :
    res (N * bool) :=
  check_gateway_ready (database_connected (in_database i)) (rc_enabled (cfg_redis config)) store
    (resolve_matchmaker_health_endpoint (cfg_server config)) n.
Definition gateway_report {J : Type} (me : Identity) (counters : MetricCounters) (now : Z)
    (g : Gateway (C := C) (U := Users) (J := J) (S := Stores)) : string :=
  format_prometheus_metrics KGateway
    (gateway_metrics me now (gw_clocks g) (lb_plane (gw_lobby g)) (gw_store g)) counters
    (authenticated_player_count (lb_plane (gw_lobby g))) 0 0 false.

Definition matchmaker_ready (config : AppConfig) (i : Infra) (store : Stores) : bool :=
  check_matchmaker_ready (database_connected (in_database i)) (rc_enabled (cfg_redis config)) store.
Definition matchmaker_report {A : Type} (me : Identity) (counters : MetricCounters) (now : Z)
    (r : MatchmakerRuntime (S := Stores) (G := Games) (A := A)) : string :=
  format_prometheus_metrics KMatchmaker
    (matchmaker_metrics me now (mk_clocks r) (mk_service r) (sv_store (mk_service r))) counters 0 0
    (active_game_server_count (sv_store (mk_service r))) false.

(** ** [main]: the exit code and what is written to the standard error *)

Definition main {A B : Type} (build : res (outcome A)) (run : A -> res B) : res (Z * string) :=
  o ← build;
  match o with
  | Thrown what => Ok (1, "Error: " ++ what ++ String (chr 10) "")
  | Built a => _ ← run a; Ok (0, "")
  end.

End Programs.

(** ** The infrastructure *)

Section InfrastructureCorrect.
Context {D E K : Type} `{SqliteLaws D} `{LibpqLaws E} `{Hiredis K} `{RedisServer K}.

(** Behind the interface, both databases are the same repository over a table: what is
    proved for such repositories, the laws of [UserRepository] among it, holds for the
    configured one. *)
#[export] Program Instance backend_tables : TableRepository (UserBackend D E) := {
  connected s := match s with SqliteUsers s => connected s | PostgresUsers s => connected s end;
  players s := match s with SqliteUsers s => players s | PostgresUsers s => players s end
}.
Next Obligation. intros [s|s] name Hs; exact (tr_find s name Hs). Qed.
Next Obligation. intros [s|s] id Hs; exact (tr_profile s id Hs). Qed.
Next Obligation. intros [s|s] name rating hash Hs Hr; exact (tr_create s name rating hash Hs Hr). Qed.
Next Obligation. intros [s|s] id rating Hs Hr; exact (tr_update s id rating Hs Hr). Qed.

(** What the constructor has opened. *)
Definition opened (config : AppConfig) (i : Infrastructure D E K) : Prop :=
  let database := cfg_database config in
  match db_backend database with
  | PostgreSQL => exists d, pq_connectdb (c_str (conninfo (make_postgres_settings database))) = Some d /\
      pq_connection_ok d = true /\
      (pg_schema d -> int_rows (players_table (pg_tables d)) -> 0 <= sequence (players_table (pg_tables d)) ->
       connected (in_users i) /\ players (in_users i) = players_table (pg_tables d))
  | SQLite => exists d0 d, sqlite_open (c_str (db_path database)) = (Some d0, true) /\
      initialize_schema (mkSqlite (db_path database) (Some d0)) = (mkSqlite (db_path database) (Some d), true) /\
      (schema d -> connected (in_users i) /\ players (in_users i) = players_table (tables d))
  end.

(** Why it has thrown. *)
Definition not_opened (config : AppConfig) (what : string) : Prop :=
  let database := cfg_database config in
  match db_backend database with
  | PostgreSQL => what = "Failed to connect to PostgreSQL" /\
      connection_ok (pq_connectdb (D := E) (c_str (conninfo (make_postgres_settings database)))) = false
  | SQLite => what = "Failed to initialize database" /\
      ((sqlite_open (D := D) (c_str (db_path database))).2 = false \/
       (initialize_schema (mkSqlite (db_path database) (sqlite_open (D := D) (c_str (db_path database))).1)).2 = false)
  end.


End InfrastructureCorrect.

(** ** First states *)

Lemma default_board_ok : default_board ⇓ (fun b => start_board b /\ token_rows b = default_grid).
Proof.
  unfold default_board. destruct (from_token_grid default_grid) as [b|] eqn:E; [|vm_compute in E; done].
  split; [split|].
  - eapply board_of_tokens_wf; [|exact E]. by vm_compute.
  - by eapply from_token_grid_idle.
  - vm_compute in E. injection E as <-. by vm_compute.
Qed.

(** A fresh single-server program, without clients and rooms, is in the invariant of its
    iterations, with whatever accounts the database has. *)
Lemma fresh_server_ok {C U G S : Type} `{Connection C} `{UserRepositoryLaws U} `{GameRepository G}
    `{RuntimeStoreLaws S} listen (config : AppConfig) (p : Plane (C := C)) (users : U) (games : G) (store : S)
    board clock now1 now2 n m : (Z.of_nat n < 2 ^ 63) -> start_board board -> users_ok m users -> ids_left n users ->
  client_plane listen (make_monolithic_websocket_config config) = Built p ->
  server_ok n m (gateway_view clock (game_server board p users games store now1 now2)).
Proof.
  intros Hn Hb Hu Hi Hp. unfold client_plane in Hp. destruct (listen _ _); [done|]. injection Hp as <-.
  split; cbn [gateway_view game_server lb_plane lb_users lb_client gs_plane gs_users gs_waiting gs_rooms lc_rooms lc_waiting sessions_];
    [| |done|done| | | |apply NoDup_nil_2].
  - split; [split; cbn [sessions_]; [|apply NoDup_nil_2|]|..]; cbn [sessions_]; intros s; intros;
      (match goal with Hs : _ ∈ [] |- _ => by apply not_elem_of_nil in Hs end).
  - split; cbn [lc_rooms lc_waiting new_manager Rooms.next_id_].
    + by apply new_manager_ok.
    + lia.
    + apply NoDup_nil_2.
    + by intros e He%not_elem_of_nil.
  - by intros id (s & Hs%not_elem_of_nil & _).
  - intros id r player Hr. cbn [new_manager rooms_] in Hr. by rewrite lookup_empty in Hr.
  - by intros e He%not_elem_of_nil.
Qed.

(** The separate programs leave no entry of their own in the store when they stop. *)
Lemma programs_deregister {C U G S J A : Type} `{Connection C} `{UserRepository U} `{GameRepository G}
    `{RuntimeStoreLaws S} `{!JoinClient C J} me :
  (forall manage rd0 ticks (r r' : Runtime C U G S), run_runtime me manage rd0 ticks r = Ok r' ->
     get_game_server (re_store (ls_ext (rt_loop r'))) (hb_server_id me) = None) /\
  (forall salt region timeouts on_disconnected rd0 ticks (g g' : Gateway (C := C) (U := U) (J := J) (S := S)),
     run_gateway salt region timeouts on_disconnected me rd0 ticks g = Ok g' ->
     get_game_server (gw_store g') (hb_server_id me) = None) /\
  (forall config rd0 ticks (r r' : MatchmakerRuntime (S := S) (G := G) (A := A)),
     run_matchmaker config me rd0 ticks r = Ok r' ->
     get_game_server (sv_store (mk_service r')) (hb_server_id me) = None).
Proof.
  assert (forall s : S, get_game_server (deregister_server s (hb_server_id me)) (hb_server_id me) = None) as Hgone.
  { intros s. by rewrite get_deregistered, decide_True by done. }
  split_and!.
  - intros manage rd0 ticks r r'. unfold run_runtime. cbv zeta. intros (x & _ & [= <-])%bind_Ok_inv. apply Hgone.
  - intros salt region timeouts on_disconnected rd0 ticks g g'. unfold run_gateway. cbv zeta.
    destruct (maybe_publish_heartbeat _ _ _ _ _ _) as [c s]. intros (x & _ & [= <-])%bind_Ok_inv. apply Hgone.
  - intros config rd0 ticks r r'. unfold run_matchmaker. cbv zeta.
    destruct (maybe_publish_heartbeat _ _ _ _ _ _) as [c s]. intros (x & _ & [= <-])%bind_Ok_inv. apply Hgone.
Qed.

(** ** A program that starts *)

#[local] Existing Instance TableEngine.engine.
#[local] Existing Instance TableServer.server.
#[local] Existing Instance map_server.
#[local] Existing Instance map_hiredis.
#[local] Existing Instance eager_connection.

(** With the default configuration the program starts over SQLite; a port that is taken
    ends it with code 1 and the text of the exception. *)
Example default_program_starts :
  let start listen := main (Ok (build_game_server (C := bool) (D := TableEngine.Engine) (E := Tables)
    (K := gmap string string) listen server_config sample_board 1 2)) (fun _ => Ok tt) in
  start (fun _ _ => None) = Ok (0, "") /\
  start (fun _ _ => Some "bind: Address already in use") =
    Ok (1, "Error: bind: Address already in use" ++ String (chr 10) "").
Proof. split; vm_compute; reflexivity. Qed.
