(* ===== verification/Cluster.v ===== *)
(** * The distributed configuration

    Gateway, matchmaker and game servers as separate programs that share a store and call
    each other over HTTP: the lobby's join client is [MatchmakingHttpClient], whose request
    runs [RemoteMatchmakingService] in the matchmaker, which asks the game servers through
    [RemoteGameAllocator] and [GameAllocationHttpClient] and reports to the gateway through
    [GatewayNotifierHttpClient].

    The state of the cluster is the gateway's sessions, the matchmaking service with the
    shared store, and the game servers by address; requests are handled by the listeners of
    [Http].  [Backend] is everything behind the gateway; it is an instance of the lobby's
    interface [JoinClient], so that the theorem about the lobby holds for the distributed
    gateway too, and [cluster_match_correct] follows one match through all programs. *)

From S2P Require Import Prelude Piece BoardModel PathUtils PieceRules CollisionResolver MoveScheduler RealTimeArbiter GameState CppString Sha256 PasswordHash BoardIO GameMessages BoardView Snapshot Codecs Rooms Sessions Users GameLoop Ratings RuntimeStore Matchmaking Config GameResult Hosting Allocation MatchService Lobby Observability Http LocalMatch ClientInput Client.
From Stdlib Require Import Ascii String Sorted.
Open Scope string_scope.
Open Scope Z_scope.

(** ** Game servers *)

Section Farm.
Context {C S : Type} `{Connection C} `{RuntimeStore S}.

(** A game server: its rooms, connections, configured names and service token, and the
    correlation id of its listener. *)
Record GameNode := mkNode {
  gn_rooms : RoomManager;
  gn_plane : Plane (C := C);
  gn_host : LocalGameHost;
  gn_token : string;
  gn_correlation : Correlation
}.

Definition set_gn (node : GameNode) (m : RoomManager) (c : Correlation) : GameNode :=
  mkNode m (gn_plane node) (gn_host node) (gn_token node) c.

(** The servers by host and port of their creation listeners. *)
Notation Farm := (@gmap (string * string) prod_eq_dec prod_countable GameNode).

(** A request to the listener of a server.  The handler and the host have the same id and
    endpoint. *)
Definition node_connection (node : GameNode) (request : HttpReq) (s : S) :
    res (GameNode * S * option HttpResp) :=
  let host := gn_host node in
  r ← creation_connection (host_create_room host (Some (gn_plane node))) (lh_game_server_id host)
        (lh_endpoint host) (gn_token node) request (gn_rooms node, s, gn_correlation node);
  let '(m, s, c, response) := r in
  Ok (set_gn node m c, s, response).

(** Nobody listens at an address that is not in the table; a server that fails drops the
    connection. *)
#[export] Instance farm_network : Network (Farm * S) := {|
  exchange st host port request :=
    match st.1 !! (host, port) with
    | None => Ok (st, None)
    | Some node =>
        match node_connection node request st.2 with
        | Ok (node', s, response) => Ok ((<[(host, port) := node']> st.1, s), response)
        | Err _ => Ok (st, None)
        end
    end
|}.

Context (timeout : Z) (token correlation_id : string).

(** The loop of [RemoteGameAllocator::allocate_game], with the servers it asks; no response
    stands for the exception at its end. *)
Fixpoint ask_candidates (request : GameCreationRequest) (attempts max_retry_count : nat)
    (candidates : list GameServerRecord) (st : Farm * S) : res (Farm * S * option GameCreationResponse) :=
  match candidates with
  | [] => Ok (st, None)
  | server :: rest =>
      if Nat.leb max_retry_count attempts then Ok (st, None)
      else
        r ← http_allocate timeout token correlation_id (gsr_allocation_endpoint server) request st;
        match r.2 with
        | None => ask_candidates request (attempts + 1) max_retry_count rest r.1
        | Some response => Ok (r.1, Some (complete_response server response))
        end
  end.

Definition farm_allocate_game (ttl now : Z) (max_retry_count : nat) (s : S) (farm : Farm)
    (request : GameCreationRequest) : S * Farm * option GameCreationResponse :=
  match (candidates ← list_available_servers ttl now s;
         ask_candidates request 0 max_retry_count candidates (farm, s)) with
  | Ok (farm', s', response) => (s', farm', response)
  | Err _ => (s, farm, None)
  end.

(** ** What asking a server does *)

(** The server that listens at an allocation endpoint. *)
Definition node_at (farm : Farm) (endpoint : string) : option ((string * string) * GameNode) :=
  match parse_allocation_endpoint endpoint with
  | Some (mkParsed host port target) =>
      if String.eqb target "/allocate" then
        match farm !! (host, port) with Some node => Some ((host, port), node) | None => None end
      else None
  | None => None
  end.

Definition admits (node : GameNode) : bool :=
  is_empty_string (gn_token node) || String.eqb token (gn_token node).

(** The server of the record is there and accepts the token. *)
Definition answers (farm : Farm) (r : GameServerRecord) : bool :=
  match node_at farm (gsr_allocation_endpoint r) with Some (_, node) => admits node | None => false end.

(** Nothing but correlation ids differs. *)
Definition same_node (a b : GameNode) : Prop := b = set_gn a (gn_rooms a) (gn_correlation b).
Definition same_farm (f g : Farm) : Prop := forall a, option_Forall2 same_node (f !! a) (g !! a).

#[export] Instance same_node_preorder : PreOrder same_node.
Proof.
  split; [by intros []|]. intros [] [] [] E1 E2. unfold same_node, set_gn in *. by simplify_eq/=.
Qed.
#[export] Instance same_farm_preorder : PreOrder same_farm.
Proof.
  split; [intros f a; reflexivity|]. intros f g h H1 H2 a. etransitivity; [apply H1|apply H2].
Qed.

Lemma same_farm_insert (f : Farm) a node node' : f !! a = Some node -> same_node node node' ->
  same_farm f (<[a := node']> f).
Proof.
  intros Ha Hn b. destruct (decide (a = b)) as [<-|Hne].
  - rewrite lookup_insert_eq, Ha. by constructor.
  - rewrite lookup_insert_ne by done. reflexivity.
Qed.

Lemma node_at_same f g e : same_farm f g ->
  option_Forall2 (fun x y => x.1 = y.1 /\ same_node x.2 y.2) (node_at f e) (node_at g e).
Proof.
  intros Hs. unfold node_at. destruct (parse_allocation_endpoint e) as [[host port target]|]; [|constructor].
  destruct (String.eqb target "/allocate"); [|constructor].
  destruct (Hs (host, port)); by constructor.
Qed.

Lemma answers_same f g r : same_farm f g -> answers g r = answers f r.
Proof.
  intros Hs. unfold answers. destruct (node_at_same f g (gsr_allocation_endpoint r) Hs) as [[a x] [b y] [_ E]|]; [|done].
  cbn in E. unfold admits. by rewrite E.
Qed.

(** [n] more rooms can be made, and the names survive the codec. *)
Record node_ok (n : nat) (node : GameNode) : Prop := {
  no_rooms : manager_ok (gn_rooms node);
  no_left : Rooms.next_id_ (gn_rooms node) + Z.of_nat n < 2 ^ 64;
  no_id : no_bar (lh_game_server_id (gn_host node)) /\ lh_game_server_id (gn_host node) <> "";
  no_endpoint : no_bar (lh_endpoint (gn_host node)) /\ lh_endpoint (gn_host node) <> ""
}.
Definition farm_ok (n : nat) (farm : Farm) : Prop := forall a node, farm !! a = Some node -> node_ok n node.

Lemma node_ok_le n n' node : (n' <= n)%nat -> node_ok n node -> node_ok n' node.
Proof. intros Hle [H1 H2 H3 H4]. split; [done|lia|done|done]. Qed.
Lemma farm_ok_le n n' farm : (n' <= n)%nat -> farm_ok n farm -> farm_ok n' farm.
Proof. intros Hle Hf a node Ha. eapply node_ok_le; [done|by eapply Hf]. Qed.

Lemma node_ok_same n a b : same_node a b -> node_ok n a -> node_ok n b.
Proof. intros -> [H1 H2 H3 H4]. by split. Qed.
Lemma farm_ok_same n f g : same_farm f g -> farm_ok n f -> farm_ok n g.
Proof.
  intros Hs Hf a node Ha. pose proof (Hs a) as Hsa. rewrite Ha in Hsa. inversion Hsa as [x y Hxy E|].
  eapply node_ok_same; [done|]. by eapply Hf.
Qed.

(** A server after it has made the room of a request: the room is new, active, and has the
    users of the request; nothing else has changed. *)
Definition hosts (request : GameCreationRequest) (node node' : GameNode) : Prop :=
  let id := Rooms.next_id_ (gn_rooms node) in
  node' = set_gn node (gn_rooms node') (gn_correlation node') /\
  manager_ok (gn_rooms node') /\ Rooms.next_id_ (gn_rooms node') = id + 1 /\
  rooms_ (gn_rooms node) !! id = None /\
  rooms_ (gn_rooms node') !! id = Some (hosted_room (Some (gn_plane node)) request id
    (rm_default_board_ (gn_rooms node))) /\
  forall i, i <> id -> rooms_ (gn_rooms node') !! i = rooms_ (gn_rooms node) !! i.

Lemma hosts_ok n request node node' : hosts request node node' -> node_ok (1 + n) node -> node_ok n node'.
Proof.
  intros (E & Hm & Hn & _) [H1 H2 H3 H4]. split; [done|lia|..]; by rewrite E.
Qed.

(** The answer of a server: its next room, its name and endpoint. *)
Definition node_answer (node : GameNode) : GameCreationResponse :=
  mkCreationResponse (Rooms.next_id_ (gn_rooms node)) (lh_game_server_id (gn_host node))
    (Some (lh_endpoint (gn_host node))).

Definition register_answer (request : GameCreationRequest) (answer : GameCreationResponse) (s : S) : S :=
  register_room s (cp_room_id answer) (cr_white_user_id request) (cr_black_user_id request)
    (cp_game_server_id answer) (match cp_endpoint answer with Some e => e | None => "" end).

Lemma allocate_node n request node s : node_ok (1 + n) node -> exists m',
  allocate (host_create_room (gn_host node) (Some (gn_plane node))) (lh_game_server_id (gn_host node))
    (lh_endpoint (gn_host node)) request (gn_rooms node, s) =
  Ok (m', register_answer request (node_answer node) s, node_answer node) /\
  forall c, hosts request node (set_gn node m' c).
Proof.
  intros [Hm Hl [_ Hi] [_ He]]. unfold allocate. cbn [fst snd].
  destruct (host_create_room_spec (gn_host node) (Some (gn_plane node)) request (gn_rooms node) Hm)
    as (m' & -> & Hm' & Hn & Hnone & Hroom & Ho); [lia|].
  rewrite bind_ok. cbn [cp_endpoint cp_game_server_id cp_room_id].
  assert (forall a b, a <> "" -> or_else a b = a) as Hor by (by intros [] b).
  rewrite !Hor by done. exists m'. split; [done|]. intros c. split_and!; done.
Qed.

Lemma node_answer_ok n node : node_ok (1 + n) node -> creation_response_ok (node_answer node).
Proof.
  intros [[_ Hn _] Hl [Hi _] He]. split_and!; [|done|by intros e [= <-]]. unfold fits_u64. cbn. lia.
Qed.

(** The listener's answer to an allocation as the client understands it. *)
Lemma node_connection_spec n node host port request s : node_ok (1 + n) node -> creation_request_ok request ->
  exists node' s' resp,
    node_connection node (post_request (mkParsed host port "/allocate") correlation_id (token_fields token)
      (encode_game_creation_request request)) s = Ok (node', s', resp) /\
    if admits node then hosts request node node' /\ s' = register_answer request (node_answer node) s /\
      ok_body resp ≫= decode_game_creation_response = Some (node_answer node)
    else same_node node node' /\ s' = s /\ ok_body resp ≫= decode_game_creation_response = None.
Proof.
  intros Hok Hreq. destruct (allocate_node n request node s Hok) as (m' & Ealloc & Hhosts).
  destruct (creation_answers (host_create_room (gn_host node) (Some (gn_plane node))) (lh_game_server_id (gn_host node))
    (lh_endpoint (gn_host node)) host port token (gn_token node) correlation_id request
    (gn_rooms node, s, gn_correlation node)) as [c Ec]; [done| |].
  { cbn [fst]. rewrite Ealloc. intros st' r [= _ <-]. by eapply node_answer_ok. }
  cbn [fst] in Ec. rewrite Ealloc, bind_ok in Ec. cbn [fst snd] in Ec. fold (admits node) in Ec.
  unfold node_connection. cbv zeta.
  destruct (creation_connection _ _ _ _ _ _) as [[[[m s1] c1] resp]|]; [|by destruct (admits node)].
  rewrite bind_ok in Ec. cbn [fst snd] in Ec. rewrite bind_ok. eexists _, _, _. split; [done|].
  destruct (admits node); injection Ec as -> -> -> E; [by split_and!|]. by destruct node.
Qed.

(** A request for something else is refused. *)
Lemma node_connection_elsewhere node parsed body s : pe_target parsed <> "/allocate" ->
  exists node' s' resp,
    node_connection node (post_request parsed correlation_id (token_fields token) body) s = Ok (node', s', resp) /\
    same_node node node' /\ s' = s /\ ok_body resp = None.
Proof.
  intros Hne. unfold node_connection, creation_connection. cbv zeta. set (req := post_request _ _ _ _).
  match goal with |- context [in_scope req ?run ?st] => destruct (in_scope_eq req run st) as [c' ->] end.
  destruct (posted parsed correlation_id (token_fields token) body) as (E1 & E2 & _). fold req in E1, E2.
  rewrite E1, E2. rewrite bool_decide_true by done. destruct (String.eqb_spec (pe_target parsed) "/allocate"); [done|].
  eexists _, _, _. split; [reflexivity|]. by destruct node.
Qed.

(** What asking the server at an endpoint does to the servers and the store. *)
Definition asked_at (request : GameCreationRequest) (endpoint : string) (st st' : Farm * S)
    (answer : option GameCreationResponse) : Prop :=
  match node_at st.1 endpoint with
  | Some (a, node) =>
      if admits node then exists node', hosts request node node' /\ st'.1 = <[a := node']> st.1 /\
        st'.2 = register_answer request (node_answer node) st.2 /\ answer = Some (node_answer node)
      else same_farm st.1 st'.1 /\ st'.2 = st.2 /\ answer = None
  | None => same_farm st.1 st'.1 /\ st'.2 = st.2 /\ answer = None
  end.

Lemma ask_spec n st endpoint request : farm_ok (1 + n) st.1 -> creation_request_ok request ->
  http_allocate timeout token correlation_id endpoint request st ⇓ (fun r => asked_at request endpoint st r.1 r.2).
Proof.
  intros Hf Hreq. unfold http_allocate, post_to, asked_at, node_at. fold (token_fields token).
  destruct (parse_allocation_endpoint endpoint) as [[host port target]|]; [|by split_and!; [reflexivity|..]].
  cbn [exchange farm_network pe_host pe_port]. destruct st as [farm s]. cbn [fst snd] in *.
  destruct (farm !! (host, port)) as [node|] eqn:Ea; cycle 1.
  { rewrite !bind_ok. destruct (String.eqb target "/allocate"); apply returns_ok; by split_and!; [reflexivity|..]. }
  destruct (String.eqb_spec target "/allocate") as [->|Hne].
  - destruct (node_connection_spec n node host port request s (Hf _ _ Ea) Hreq) as (node' & s' & resp & -> & Hr).
    rewrite !bind_ok. apply returns_ok. cbn [fst snd].
    destruct (admits node); destruct Hr as (Hr & Es & Eb); rewrite <- Eb; [by exists node'|].
    split_and!; [by eapply same_farm_insert|done|]. by destruct (ok_body resp).
  - destruct (node_connection_elsewhere node (mkParsed host port target) (encode_game_creation_request request) s Hne)
      as (node' & s' & resp & -> & Hs & -> & Eb).
    rewrite !bind_ok. apply returns_ok. cbn [fst snd].
    rewrite Eb.
    split_and!; [by eapply same_farm_insert|done|done].
Qed.

Lemma same_farm_both (f g : Farm) a node : same_farm f g -> same_farm (<[a := node]> f) (<[a := node]> g).
Proof.
  intros Hs b. destruct (decide (a = b)) as [<-|Hne].
  - rewrite !lookup_insert_eq. reflexivity.
  - rewrite !lookup_insert_ne by done. apply Hs.
Qed.

Lemma hosts_same request node1 node2 node' : same_node node1 node2 -> hosts request node2 node' ->
  hosts request node1 node'.
Proof. intros E H'. unfold hosts in *. by rewrite E in H'. Qed.

(** The room was made by the first of the candidates that answers, within the retries. *)
Definition allocated (request : GameCreationRequest) (max : nat) (candidates : list GameServerRecord)
    (farm farm' : Farm) (response : GameCreationResponse) : Prop :=
  exists k r a node node', (k < max)%nat /\ candidates !! k = Some r /\
    (forall i r', (i < k)%nat -> candidates !! i = Some r' -> answers farm r' = false) /\
    node_at farm (gsr_allocation_endpoint r) = Some (a, node) /\ admits node = true /\
    hosts request node node' /\ same_farm (<[a := node']> farm) farm' /\ response = node_answer node.

Definition refused (max : nat) (candidates : list GameServerRecord) (farm farm' : Farm) : Prop :=
  (forall i r, (i < max)%nat -> candidates !! i = Some r -> answers farm r = false) /\ same_farm farm farm'.

(** Asking the rest after a candidate that does not answer. *)
Lemma refused_then max r (rest : list GameServerRecord) (f g h : Farm) : answers f r = false ->
  same_farm f g -> refused max rest g h -> refused (1 + max) (r :: rest) f h.
Proof.
  intros Hr Hs (Hall & Hs2). split; [|by etrans].
  intros [|i] r' Hi E; [by simplify_eq/=|]. rewrite <- (answers_same _ g) by done. apply (Hall i); [lia|done].
Qed.

Lemma allocated_then request max r (rest : list GameServerRecord) (f g h : Farm) response : answers f r = false ->
  same_farm f g -> allocated request max rest g h response -> allocated request (1 + max) (r :: rest) f h response.
Proof.
  intros Hr Hs (k & r' & a & node1 & node' & Hk & Er & Hbefore & Hat & Had & Hh & Hsame & ->).
  pose proof (node_at_same _ _ (gsr_allocation_endpoint r') Hs) as Hn. rewrite Hat in Hn.
  inversion Hn as [[a' node] y [Ea Hnode] E|]; subst. cbn [fst snd] in *. subst a'.
  exists (Datatypes.S k), r', a, node, node'. split_and!; [lia|done| | | | | |].
  - intros [|i] x Hi Ex; [by simplify_eq/=|]. rewrite <- (answers_same _ g) by done. apply (Hbefore i); [lia|done].
  - done.
  - unfold admits in *. by rewrite Hnode in Had.
  - by eapply hosts_same.
  - etrans; [by apply same_farm_both|done].
  - by rewrite Hnode.
Qed.

(** The outcome of asking the candidates. *)
Definition ask_outcome (request : GameCreationRequest) (max : nat) (candidates : list GameServerRecord)
    (st st' : Farm * S) (answer : option GameCreationResponse) : Prop :=
  match answer with
  | Some response => allocated request max candidates st.1 st'.1 response /\
      st'.2 = register_answer request response st.2
  | None => refused max candidates st.1 st'.1 /\ st'.2 = st.2
  end.

Lemma node_at_in (farm : Farm) e a node : node_at farm e = Some (a, node) -> farm !! a = Some node.
Proof. unfold node_at. intros E. repeat case_match; by simplify_eq. Qed.

Lemma answer_complete n node r : node_ok n node -> complete_response r (node_answer node) = node_answer node.
Proof.
  intros [_ _ [_ Hi] [_ He]]. unfold complete_response, node_answer, or_else. cbn.
  by destruct (lh_game_server_id _), (lh_endpoint _).
Qed.

Lemma ask_candidates_spec n request max candidates : creation_request_ok request -> forall from st,
  farm_ok (1 + n) st.1 -> (from <= max)%nat ->
  ask_candidates request from max candidates st ⇓ (fun '(st', answer) =>
    ask_outcome request (max - from) candidates st st' answer).
Proof.
  intros Hreq. induction candidates as [|r rest IH]; intros from st Hf Hle; cbn [ask_candidates].
  { apply returns_ok. split; [|done]. by split; [intros i r|reflexivity]. }
  destruct (Nat.leb_spec max from) as [Hm|Hm].
  { apply returns_ok. split; [|done]. by split; [intros; lia|reflexivity]. }
  apply returns_bind. eapply returns_mono; [by apply (ask_spec n)|]. intros [st1 answer] Hask. cbn [fst snd] in *.
  replace (max - from)%nat with (1 + (max - (from + 1)))%nat by lia.
  assert (same_farm st.1 st1.1 -> st1.2 = st.2 -> answers st.1 r = false ->
    ask_candidates request (from + 1) max rest st1 ⇓ (fun '(st', answer) =>
      ask_outcome request (1 + (max - (from + 1))) (r :: rest) st st' answer)) as Hrest.
  { intros Hs Es Hr. eapply returns_mono; [apply IH; [by eapply farm_ok_same|lia]|].
    intros [st2 [response|]] [Hr2 E2]; (split; [|congruence]); [by eapply allocated_then|by eapply refused_then]. }
  unfold asked_at in Hask. unfold answers in Hrest.
  destruct (node_at st.1 (gsr_allocation_endpoint r)) as [[a node]|] eqn:Eat.
  - destruct (admits node) eqn:Ead.
    + destruct Hask as (node' & Hh & Ef & Es & ->). apply returns_ok. rewrite (answer_complete (1 + n)) by (by eapply Hf, node_at_in).
      split; [|done]. exists 0%nat, r, a, node, node'.
      split_and!; [lia|done|intros; lia|done|done|done|by rewrite Ef|done].
    + destruct Hask as (Hs & Es & ->). by apply Hrest.
  - destruct Hask as (Hs & Es & ->). by apply Hrest.
Qed.

Section Laws.
Context `{!RuntimeStoreLaws S}.
Context (ttl now : Z) (max_retry_count : nat).

Definition beats_ok (s : S) : Prop := forall id r, get_game_server s id = Some r -> gsr_last_heartbeat r < 2 ^ 63.

(** Allocating a game: the live servers are asked, best first. *)
Lemma farm_allocate_spec n s farm request : 0 <= now < 2 ^ 63 -> beats_ok s -> farm_ok (1 + n) farm ->
  creation_request_ok request ->
  let '(s', farm', answer) := farm_allocate_game ttl now max_retry_count s farm request in
  exists candidates, available ttl now s candidates /\
    ask_outcome request max_retry_count candidates (farm, s) (farm', s') answer.
Proof.
  intros Hnow Hb Hf Hreq. unfold farm_allocate_game.
  destruct (list_available_spec ttl now s Hnow) as (candidates & -> & _ & Hav).
  { intros r Hr%listed. by eapply Hb. }
  rewrite bind_ok. pose proof (ask_candidates_spec n request max_retry_count candidates Hreq 0 (farm, s) Hf) as Hask.
  destruct (proj1 (returns_eq _ _) (Hask (Nat.le_0_l _))) as ([[farm' s'] answer] & -> & Hr).
  rewrite Nat.sub_0_r in Hr. by exists candidates.
Qed.

(** Whatever the servers do, the queues stay. *)
Lemma farm_allocate_queues s farm request region :
  list_matchmaking_queue (farm_allocate_game ttl now max_retry_count s farm request).1.1 region =
  list_matchmaking_queue s region.
Proof.
  unfold farm_allocate_game. destruct (list_available_servers _ _ _) as [candidates|]; [|done]. rewrite bind_ok.
  assert (forall request' (node : GameNode) s node' s' resp, node_connection node request' s = Ok (node', s', resp) ->
    list_matchmaking_queue s' region = list_matchmaking_queue s region) as Hnode.
  { intros request' node s1 node' s' resp. unfold node_connection, creation_connection. cbv zeta.
    match goal with |- context [in_scope request' ?run ?st] => destruct (in_scope_eq request' run st) as [c' ->] end.
    cbn [fst snd].
    destruct (_ || _); [rewrite !bind_ok; by intros [= _ <- _]|].
    destruct (negb _); [rewrite !bind_ok; by intros [= _ <- _]|].
    destruct (decode_game_creation_request _); [|rewrite !bind_ok; by intros [= _ <- _]].
    unfold allocate. cbn [fst snd]. destruct (host_create_room _ _ _ _) as [[m r]|]; [|done].
    rewrite !bind_ok. intros [= _ <- _]. apply list_registered. }
  assert (forall from st st' o, ask_candidates request from max_retry_count candidates st = Ok (st', o) ->
    list_matchmaking_queue st'.2 region = list_matchmaking_queue st.2 region) as Hask.
  { induction candidates as [|r rest IH]; intros from st st' o; cbn [ask_candidates]; [by intros [= <- _]|].
    case_match; [by intros [= <- _]|]. intros ([st1 answer] & E1 & E2)%bind_Ok_inv.
    assert (list_matchmaking_queue st1.2 region = list_matchmaking_queue st.2 region) as Est.
    { revert E1. unfold http_allocate, post_to.
      destruct (parse_allocation_endpoint _); [|rewrite !bind_ok; by intros [= <- _]].
      cbn [exchange farm_network]. destruct (st.1 !! _) as [node|]; [|rewrite !bind_ok; by intros [= <- _]].
      destruct (node_connection node _ st.2) as [[[node' s'] resp]|] eqn:En;
        rewrite !bind_ok; intros [= <- _]; [by eapply Hnode|done]. }
    rewrite <- Est. destruct answer; cbn [fst snd] in E2; [by injection E2 as <- _|by eapply IH]. }
  destruct (ask_candidates _ _ _ _ _) as [[[farm' s'] o]|] eqn:E; [|done]. by apply (Hask _ _ _ _ E).
Qed.

End Laws.
End Farm.

(** ** What the gateway tells the players of a match *)

Section Texts.
Context {C : Type} `{Connection C}.

(** A connection after texts were sent on it. *)
Definition sends (c : C) (texts : list string) : C := foldl (fun c m => (try_send c m).2) c texts.

Definition texts_for (id : Z) (l : list (Z * string)) : list string := snd <$> filter (fun e => e.1 = id) l.

Definition send_all (l : list (Z * string)) (p : Plane (C := C)) : res Plane :=
  foldM (fun e => gateway_send e.1 e.2) l p.

(** A text goes to the connection of its session and nowhere else. *)
Lemma gateway_send_exact id m (p : Plane (C := C)) : plane_ok p -> exists p', gateway_send id m p = Ok p' /\
  traffic p p' /\
  match find_session p id with
  | None => p' = p
  | Some s => exists a c, ps_connection s = Some a /\ load p a = Ok c /\ load p' a = Ok (try_send c m).2 /\
      forall a', a' <> a -> load p' a' = load p a'
  end.
Proof.
  intros Hp. unfold gateway_send, sink_send, sink_with. destruct (find_session p id) as [s|] eqn:Es; cycle 1.
  { rewrite bind_ok. eexists. split; [done|]. by split; [reflexivity|]. }
  destruct (po_live p Hp s (proj1 (find_session_id _ _ _ Es))) as (a & Ea & Hl). destruct (load_live p a Hl) as [c Hc].
  rewrite Ea, Hc, bind_ok. destruct (try_send c m) as [b c'] eqn:Et. rewrite bind_ok. eexists. split; [done|].
  split; [apply store_traffic|]. exists a, c. split_and!; [done|done| |intros; by apply load_store_other].
  rewrite Et. by apply load_store_same.
Qed.

Lemma connection_apart (p : Plane (C := C)) s t a : plane_ok p -> NoDup (ps_connection <$> sessions_ p) ->
  s ∈ sessions_ p -> t ∈ sessions_ p -> ps_connection s = Some a -> ps_connection t = Some a -> s = t.
Proof.
  intros Hp Hnd (i & Hi)%list_elem_of_lookup (j & Hj)%list_elem_of_lookup Es Et.
  assert (i = j) as ->; [|congruence]. apply (NoDup_lookup _ i j (Some a) Hnd).
  - by rewrite list_lookup_fmap, Hi, <- Es.
  - by rewrite list_lookup_fmap, Hj, <- Et.
Qed.

Lemma send_all_exact l (p : Plane (C := C)) : plane_ok p -> NoDup (ps_connection <$> sessions_ p) ->
  send_all l p ⇓ (fun p' => traffic p p' /\ forall s a c, s ∈ sessions_ p -> ps_connection s = Some a ->
    load p a = Ok c -> load p' a = Ok (sends c (texts_for (ps_id s) l))).
Proof.
  revert p. induction l as [|[id m] l IH]; intros p Hp Hnd; unfold send_all; cbn [foldM].
  { apply returns_ok. by split; [reflexivity|]. }
  destruct (gateway_send_exact id m p Hp) as (p1 & E & Ht & Hsend). cbn [fst snd]. rewrite E, bind_ok.
  pose proof (tr_sessions _ _ Ht) as Es.
  eapply returns_mono; [apply IH; [by eapply traffic_ok|by rewrite Es]|].
  intros p2 [Ht2 Hall]. split; [by etrans|]. intros s a c Hs Ea Hc. rewrite Es in Hall. unfold texts_for.
  destruct (decide (id = ps_id s)) as [->|Hne].
  - rewrite filter_cons_True by done. rewrite (find_session_in p s Hp Hs) in Hsend.
    destruct Hsend as (a' & c' & Ea' & Hc' & Hl & _). simplify_eq.
    rewrite Hc in Hc'. injection Hc' as <-. cbn [fmap list_fmap snd sends foldl].
    by apply Hall.
  - rewrite filter_cons_False by done. apply Hall; [done|done|]. rewrite <- Hc.
    destruct (find_session p id) as [t|] eqn:Et; [|by rewrite Hsend].
    destruct Hsend as (a' & c' & Ea' & _ & _ & Ho). apply Ho. intros ->.
    apply find_session_id in Et as [Hin Eid]. apply Hne. rewrite <- Eid. f_equal. by eapply connection_apart.
Qed.

(** The texts of [handle_match_found]. *)
Definition match_messages (n : MatchNotification) : list (Z * string) :=
  let w := mc_white_player_id n in
  let b := mc_black_player_id n in
  let info := mkRedirect (mc_room_id n) (mc_server_id n) (mc_endpoint n) in
  [(w, "match_found white"); (b, "match_found black"); (w, "game_start white"); (b, "game_start black");
   (w, redirect_message (info White)); (b, redirect_message (info Black))].

Definition told (side : PieceColor) (n : MatchNotification) (s : PlayerSession) (p p' : Plane (C := C)) : Prop :=
  forall a c, ps_connection s = Some a -> load p a = Ok c ->
    load p' a = Ok (sends c (match_texts side (mkRedirect (mc_room_id n) (mc_server_id n) (mc_endpoint n) side))).

Lemma texts_for_players n : mc_white_player_id n <> mc_black_player_id n ->
  texts_for (mc_white_player_id n) (match_messages n) =
    match_texts White (mkRedirect (mc_room_id n) (mc_server_id n) (mc_endpoint n) White) /\
  texts_for (mc_black_player_id n) (match_messages n) =
    match_texts Black (mkRedirect (mc_room_id n) (mc_server_id n) (mc_endpoint n) Black).
Proof.
  intros Hne. unfold texts_for, match_messages.
  split; repeat first [rewrite filter_cons_True by done|rewrite filter_cons_False by (cbn; congruence)]; done.
Qed.

Lemma matching_connections (p p' : Plane (C := C)) : only_matching p p' ->
  ps_connection <$> sessions_ p' = ps_connection <$> sessions_ p.
Proof.
  intros [_ Hs _]. induction Hs as [|x y l l' (_ & E & _) _ IH]; [done|]. by rewrite !fmap_cons, E, IH.
Qed.

(** Both players of a match are seated and told, and nobody else. *)
Lemma match_found_told n (p : Plane (C := C)) w b : plane_ok p -> NoDup (ps_connection <$> sessions_ p) ->
  mc_white_player_id n <> mc_black_player_id n ->
  find_session p (mc_white_player_id n) = Some w -> find_session p (mc_black_player_id n) = Some b ->
  handle_match_found n p ⇓ (fun p' => only_matching p p' /\
    both_matched (mc_white_player_id n) (mc_black_player_id n) (mc_room_id n) p p' /\
    told White n w p p' /\ told Black n b p p').
Proof.
  intros Hp Hnd Hne Ew Eb. set (q := seat_both (mc_white_player_id n) (mc_black_player_id n) (mc_room_id n) p).
  assert (handle_match_found n p = send_all (match_messages n) q) as ->.
  { unfold handle_match_found. rewrite Ew, Eb. cbv zeta. change (update_session (mc_black_player_id n) _ _) with q.
    unfold send_all, notify_match_found, notify_game_start, send_game_redirect. cbn [foldM match_messages fst snd].
    repeat (destruct (gateway_send _ _ _); [rewrite !bind_ok|done]). done. }
  destruct (seat_both_ok _ _ (mc_room_id n) p Hp Hne) as [M F]. fold q in M, F.
  assert (forall a, load q a = load p a) as Hload.
  { intros a. unfold q, seat_both, update_both, update_session. by repeat case_match. }
  assert (forall id s, find_session p id = Some s ->
    exists s', s' ∈ sessions_ q /\ ps_id s' = id /\ ps_connection s' = ps_connection s) as Hin.
  { intros id s [Hs <-]%find_session_id.
    destruct (matching_session _ q s Hp M Hs) as (s' & _ & Hs' & (E1 & E2 & _) & _). by exists s'. }
  eapply returns_mono; [apply send_all_exact; [apply M|by rewrite (matching_connections _ _ M)]|].
  intros p' [Ht Hsent]. destruct (texts_for_players n Hne) as [Tw Tb].
  unfold told. rewrite <- Tw, <- Tb. split_and!.
  - eapply matching_trans; [exact M|]. by apply traffic_matching; [apply M|].
  - intros id. by rewrite (find_traffic _ _ _ Ht).
  - destruct (Hin _ _ Ew) as (s' & Hs' & <- & Ec). intros a c Ha Hc. apply Hsent; [done|congruence|].
    by rewrite Hload.
  - destruct (Hin _ _ Eb) as (s' & Hs' & <- & Ec). intros a c Ha Hc. apply Hsent; [done|congruence|].
    by rewrite Hload.
Qed.

End Texts.

(** ** The programs behind the gateway *)

(** How the programs are configured to find each other: host and port of the matchmaker and
    of the gateway's notification listener, and the parameters of the clients. *)
Record Wiring := mkWiring {
  wi_matchmaker : string * string;
  wi_gateway : string * string;
  wi_gateway_server_id : string;
  wi_matchmaking : MatchmakingConfig;
  wi_timeout : Z;
  wi_service_token : string;
  wi_server_ttl : Z;
  wi_max_retries : nat;
  wi_lobby_correlation : string;
  wi_matchmaker_correlation : string
}.

Definition endpoint_of (address : string * string) : string := http_endpoint address.1 address.2.

Section Backend.
Context {C S G : Type} `{Connection C} `{RuntimeStore S} `{GameRepository G}.
Context (w : Wiring).

Notation Farm := (@gmap (string * string) prod_eq_dec prod_countable (GameNode (C := C))).
Notation Srv := (Service (S := S) (G := G) (A := Farm)).

(** The matchmaker with the store, and the game servers as its allocator; the clocks are
    the readings for the queue and for the servers' heartbeats. *)
Record Backend := mkBackend {
  bk_service : Srv; bk_correlation : Correlation; bk_clock : Z; bk_allocation_clock : Z
}.

Definition backend_allocate (now : Z) : S -> Farm -> GameCreationRequest -> S * Farm * option GameCreationResponse :=
  farm_allocate_game (wi_timeout w) (wi_service_token w) (wi_matchmaker_correlation w) (wi_server_ttl w) now
    (wi_max_retries w).

(** A call of the notifier: a request to the gateway's listener. *)
Definition deliver_notice (notice : Notice) (p : Plane (C := C)) : res (Plane (C := C)) :=
  let network := wired (notification_connection (C := C)) (wi_gateway w).1 (wi_gateway w).2 in
  let url := endpoint_of (wi_gateway w) in
  match notice with
  | MatchFound n =>
      r ← http_notify_match_found (H := network) (wi_timeout w) url (wi_matchmaker_correlation w) n p; Ok r.1
  | SearchTimeout id =>
      r ← http_notify_search_timeout (H := network) (wi_timeout w) url (wi_matchmaker_correlation w) id p; Ok r.1
  end.

Definition set_notices (sv : Srv) (ns : list Notice) : Srv :=
  mkService (sv_store sv) (sv_games sv) (sv_allocator sv) (default_queue_ sv) (region_queues_ sv) ns.

(** A request to the matchmaker.  The service calls the notifier last, so that the
    notices it recorded are delivered when it is done. *)
Definition backend_connection (request : HttpReq) (st : Plane (C := C) * Backend) :
    res (Plane (C := C) * Backend * option HttpResp) :=
  let j := st.2 in
  r ← matchmaking_connection (backend_allocate (bk_allocation_clock j)) (wi_matchmaking w) (wi_gateway_server_id w)
        (bk_clock j) request (bk_service j, bk_correlation j);
  let '(sv, c, response) := r in
  p ← foldM deliver_notice (sv_notices sv) st.1;
  Ok (p, mkBackend (set_notices sv []) c (bk_clock j) (bk_allocation_clock j), response).

#[export] Instance backend_network : Network (Plane (C := C) * Backend) :=
  wired backend_connection (wi_matchmaker w).1 (wi_matchmaker w).2.

(** The lobby's client: [MatchmakingHttpClient]. *)
#[export] Instance backend_client : JoinClient C Backend := {|
  join request st :=
    http_join (H := backend_network) (wi_timeout w) (endpoint_of (wi_matchmaker w)) (wi_lobby_correlation w) request st;
  leave player_id region st :=
    http_leave (H := backend_network) (wi_timeout w) (endpoint_of (wi_matchmaker w)) (wi_lobby_correlation w)
      player_id region st
|}.

(** The matchmaker's own round: searches that took too long are given up. *)
Definition backend_timeouts (region : string) (st : Plane (C := C) * Backend) : res (Plane (C := C) * Backend) :=
  let j := st.2 in
  sv ← process_queue (wi_matchmaking w) (bk_clock j) region (bk_service j);
  p ← foldM deliver_notice (sv_notices sv) st.1;
  Ok (p, mkBackend (set_notices sv []) (bk_correlation j) (bk_clock j) (bk_allocation_clock j)).

(** ** Invariant *)

(** [n] more games can be allocated everywhere. *)
Record backend_ok (n : nat) (j : Backend) : Prop := {
  bo_service : service_ok (wi_matchmaking w) (bk_service j);
  bo_notices : sv_notices (bk_service j) = [];
  bo_farm : farm_ok n (sv_allocator (bk_service j));
  bo_beats : beats_ok (sv_store (bk_service j));
  bo_entries : forall region e, e ∈ queue_at (bk_service j) region ->
    fits_u64 (qp_player_id e) /\ fits_u64 (qp_user_id e);
  bo_clock : 0 <= bk_clock j < 2 ^ 62;
  bo_allocation_clock : 0 <= bk_allocation_clock j < 2 ^ 63
}.

Definition request_ok (request : MatchRequest) : Prop :=
  fits_u64 (mr_player_id request) /\ fits_u64 (mr_user_id request) /\ 0 <= mr_elo request < 2 ^ 31 /\
  no_bar (mr_region request).

Definition wiring_ok : Prop :=
  host_ok (wi_matchmaker w).1 /\ port_ok (wi_matchmaker w).2 /\ host_ok (wi_gateway w).1 /\ port_ok (wi_gateway w).2 /\
  fits_i64 (queue_timeout (wi_matchmaking w) * 1000).

(** The two clocks and the correlation ids of the programs aside, the backend after a call. *)
Definition backend_with (j : Backend) (sv : Srv) (c : Correlation) : Backend :=
  mkBackend (set_notices sv []) c (bk_clock j) (bk_allocation_clock j).

(** A request to join is the call of the service, and the delivery of its notices. *)
Lemma backend_join_eq request (p : Plane (C := C)) j : wiring_ok -> request_ok request -> exists c,
  join request (p, j) =
  (r ← enter_queue (backend_allocate (bk_allocation_clock j)) (wi_matchmaking w) (wi_gateway_server_id w) (bk_clock j)
         request (bk_service j);
   p' ← foldM deliver_notice (sv_notices r.1) p;
   Ok (p', backend_with j r.1 c, r.2)).
Proof.
  intros (Hh & Hp & _) (H1' & H2' & H3' & H4'). 
  destruct (join_answers (backend_allocate (bk_allocation_clock j)) (wi_matchmaking w) (wi_gateway_server_id w) (bk_clock j)
    (wi_matchmaker w).1 (wi_matchmaker w).2 (wi_lobby_correlation w) request (bk_service j, bk_correlation j))
    as [c Ec]; [done|done|unfold fits_int; lia|done|].
  exists c. cbn [join backend_client]. unfold http_join, post_text, backend_network, endpoint_of.
  rewrite delivered_post by done. unfold backend_connection at 1. cbn [fst snd].
  cbn [fst] in Ec.
  destruct (matchmaking_connection _ _ _ _ _ _) as [[[sv c1] resp]|], (enter_queue _ _ _ _ _ _) as [[sv' answer]|];
    cbn [mbind res_bind fst snd] in Ec |- *; [|done|done|by injection Ec as ->].
  injection Ec as -> -> <-. by destruct (foldM deliver_notice (sv_notices sv') p).
Qed.

Section BackendLaws.
Context `{!RuntimeStoreLaws S}.
(** Game ids are [int]s. *)
Context (Hgames : forall (g : G) white black g' id, create_game g white black = (g', Some id) -> fits_int id).
Context (Hw : wiring_ok).

(** What is left of the queue of a region after a request. *)
Definition rivals (j : Backend) (request : MatchRequest) : list QueuedPlayer :=
  without (mr_player_id request) (queue_at (bk_service j) (region_of request)).

Definition locations (sv : Srv) (u : Z) : option GameServerLocation := find_player_location (sv_store sv) u.

(** Nobody fits, and the newcomer waits. *)
Definition must_wait (j : Backend) (request : MatchRequest) (sv : Srv) : Prop :=
  Forall (fun e => ~ close_to (wi_matchmaking w) request e) (rivals j request) /\
  queue_at sv (region_of request) = (rivals j request ++ [newcomer (bk_clock j) request])%list /\
  sv_notices sv = [] /\ sv_allocator sv = sv_allocator (bk_service j) /\
  forall u, locations sv u = locations (bk_service j) u.

(** The first player that fits is taken out of the queue; [candidates] are the live servers,
    best first. *)
Definition taken (j : Backend) (request : MatchRequest) (white : QueuedPlayer) (sv : Srv)
    (candidates : list GameServerRecord) : Prop :=
  exists l1 l2, rivals j request = (l1 ++ white :: l2)%list /\
    close_to (wi_matchmaking w) request white /\
    Forall (fun e => ~ close_to (wi_matchmaking w) request e) l1 /\
    queue_at sv (region_of request) = (l1 ++ l2)%list /\
    available (wi_server_ttl w) (bk_allocation_clock j) (sv_store (bk_service j)) candidates.

(** No server answers: both players are dropped. *)
Definition dropped (j : Backend) (request : MatchRequest) (white : QueuedPlayer) (sv : Srv) : Prop :=
  exists candidates, taken j request white sv candidates /\ sv_notices sv = [] /\
    refused (wi_service_token w) (wi_max_retries w) candidates (sv_allocator (bk_service j)) (sv_allocator sv).

(** The best server that answers has made a room for the two, the store sends both there,
    and the notice [n] names room, server and endpoint. *)
Definition game_made (j : Backend) (request : MatchRequest) (white : QueuedPlayer) (n : MatchNotification)
    (sv : Srv) : Prop :=
  exists candidates db response endpoint, taken j request white sv candidates /\
    allocated (wi_service_token w) (mkCreationRequest (qp_user_id white) (mr_user_id request) db) (wi_max_retries w)
      candidates (sv_allocator (bk_service j)) (sv_allocator sv) response /\
    cp_endpoint response = Some endpoint /\
    n = mkMatchCompleted (qp_player_id white) (qp_user_id white) (mr_player_id request) (mr_user_id request)
          (cp_room_id response) (cp_game_server_id response) endpoint /\
    sv_notices sv = [MatchFound n] /\
    forall u, locations sv u =
      if decide (u = qp_user_id white \/ u = mr_user_id request)
      then Some (mkLocation (cp_game_server_id response) endpoint (cp_room_id response))
      else locations (bk_service j) u.

Lemma allocated_ok n request max candidates (f g : Farm) response : farm_ok (1 + n) f ->
  allocated (wi_service_token w) request max candidates f g response ->
  farm_ok n g /\ creation_response_ok response /\ cp_game_server_id response <> "" /\
  exists e, cp_endpoint response = Some e.
Proof.
  intros Hf (k & r & a & node & node' & _ & _ & _ & Hat & _ & Hh & Hs & ->).
  pose proof (Hf _ _ (node_at_in _ _ _ _ Hat)) as Hok. split_and!.
  - eapply farm_ok_same; [exact Hs|]. intros b x [[<- <-]|[Hne Hb]]%lookup_insert_Some; [by eapply hosts_ok|].
    eapply node_ok_le; [|by eapply Hf]. lia.
  - by eapply node_answer_ok.
  - apply Hok.
  - by eexists.
Qed.

Lemma available_same (s s' : S) ttl now candidates : (forall id, get_game_server s' id = get_game_server s id) ->
  available ttl now s' candidates -> available ttl now s candidates.
Proof. intros E [Hin Hs]. split; [|done]. intros r. rewrite Hin. by rewrite E. Qed.

Definition entry_fits (e : QueuedPlayer) : Prop := fits_u64 (qp_player_id e) /\ fits_u64 (qp_user_id e).

Lemma rivals_fit n j request e : backend_ok n j -> e ∈ rivals j request ->
  entry_fits e /\ qp_player_id e <> mr_player_id request.
Proof.
  intros Hj He. split.
  - apply list_elem_of_In, filter_In in He as [He _]. eapply (bo_entries n j Hj). by apply list_elem_of_In.
  - intros E. eapply (without_not_in (mr_player_id request)). apply list_elem_of_fmap. by exists e.
Qed.

(** A service whose queues hold entries in range. *)
Lemma backend_with_ok n j sv l request c : backend_ok (1 + n) j -> service_ok (wi_matchmaking w) sv ->
  (forall r, r <> region_of request -> queue_at sv r = queue_at (bk_service j) r) ->
  queue_at sv (region_of request) = l -> Forall entry_fits l -> farm_ok n (sv_allocator sv) ->
  beats_ok (sv_store sv) -> backend_ok n (backend_with j sv c).
Proof.
  intros [B1 B2 B3 B4 B5 B6 B7] Hsv Hother El Hl Hfarm Hbeats.
  split; cbn [backend_with bk_service set_notices sv_notices sv_allocator sv_store]; try done.
  - by apply (service_store _ sv).
  - intros region e. unfold queue_at. cbn [set_notices sv_store]. intros He.
    destruct (decide (region = region_of request)) as [->|Hne].
    + rewrite Forall_forall in Hl. apply Hl. by rewrite <- El.
    + eapply B5. by rewrite <- (Hother region).
Qed.

(** What became of a request. *)
Definition entered (j : Backend) (request : MatchRequest) (sv : Srv) (answer : option MatchResponse) : Prop :=
  (must_wait j request sv /\ answer = Some (mkMatchResponse Queued "queued")) \/
  (exists white, dropped j request white sv /\ answer = None) \/
  (exists white n, game_made j request white n sv /\ answer = Some (mkMatchResponse Queued "matched")).

(** The match that the service makes is allocated on the farm. *)
Lemma made_entered n j request sv answer l1 white l2 : backend_ok (1 + n) j -> request_ok request ->
  rivals j request = (l1 ++ white :: l2)%list -> close_to (wi_matchmaking w) request white ->
  Forall (fun e => ~ close_to (wi_matchmaking w) request e) l1 ->
  queue_at sv (region_of request) = (l1 ++ l2)%list ->
  match_made (backend_allocate (bk_allocation_clock j)) (wi_gateway_server_id w) (bk_service j) request white sv answer ->
  farm_ok n (sv_allocator sv) /\ beats_ok (sv_store sv) /\ entered j request sv answer.
Proof.
  intros Hj (R1 & R2 & R3 & R4) El Hc Hf Eq Hmade. pose proof Hj as [B1 B2 B3 B4 B5 B6 B7].
  destruct (rivals_fit (1 + n) j request white Hj) as [[_ Wu] _]; [rewrite El; set_solver|].
  unfold match_made in Hmade. destruct (create_game _ _ _) as [g db] eqn:Edb.
  destruct Hmade as (s1 & (_ & Hloc1 & Hget1) & Hmade). set (creation := mkCreationRequest _ _ db) in Hmade.
  assert (creation_request_ok creation) as Hcr by (split_and!; [done|done|cbn; intros id ->; by eapply Hgames]).
  assert (beats_ok s1) as Hb1 by (intros id r; rewrite Hget1; apply B4).
  pose proof (farm_allocate_spec (wi_timeout w) (wi_service_token w) (wi_matchmaker_correlation w) (wi_server_ttl w)
    (bk_allocation_clock j) (wi_max_retries w) n s1 (sv_allocator (bk_service j)) creation B7 Hb1 B3 Hcr) as Halloc.
  unfold backend_allocate in Hmade. destruct (farm_allocate_game _ _ _ _ _ _ _ _ _) as [[s2 farm'] response].
  destruct Halloc as (candidates & Hav & Hoc). apply (available_same (sv_store (bk_service j))) in Hav; [|done].
  destruct Hmade as (_ & <- & Hmade).
  assert (taken j request white sv candidates) as Htaken by (by exists l1, l2).
  destruct response as [response|]; destruct Hoc as [Hoc Es2]; cbn [fst snd] in Hoc, Es2.
  - destruct Hmade as (-> & En & Eget & Eloc).
    destruct (allocated_ok n _ _ _ _ _ _ B3 Hoc) as (Hfarm & Hresp & Hne & endpoint & Ee). rewrite Ee in *.
    assert (or_else (cp_game_server_id response) (wi_gateway_server_id w) = cp_game_server_id response)
      as Eor by (by destruct (cp_game_server_id response)). rewrite Eor in *.
    split_and!; [done| |].
    { intros id r. rewrite Eget, Es2. unfold register_answer. rewrite get_registered. apply Hb1. }
    right; right. eexists white, _. split; [|done]. exists candidates, db, response, endpoint.
    split_and!; [done|done|done|done|by rewrite En, B2|].
    intros u. unfold locations. rewrite Eloc. case_decide as Hu; [done|]. rewrite Es2. unfold register_answer.
    rewrite find_registered. cbn [creation cr_white_user_id cr_black_user_id]. by rewrite decide_False, Hloc1.
  - destruct Hmade as (-> & En & Es). split_and!; [|by rewrite Es, Es2|].
    { eapply farm_ok_same; [apply Hoc|]. eapply farm_ok_le; [|exact B3]. lia. }
    right; left. exists white. split; [|done]. exists candidates. split_and!; [done|by rewrite En, B2|done].
Qed.

Lemma enter_spec n j request : backend_ok (1 + n) j -> request_ok request ->
  enter_queue (backend_allocate (bk_allocation_clock j)) (wi_matchmaking w) (wi_gateway_server_id w) (bk_clock j)
    request (bk_service j) ⇓ (fun '(sv, answer) =>
    (forall c, backend_ok n (backend_with j sv c)) /\ entered j request sv answer).
Proof.
  intros Hj Hreq. pose proof Hj as [B1 B2 B3 B4 B5 B6 B7]. pose proof Hreq as (R1 & R2 & R3 & R4).
  eapply returns_mono.
  { apply (enter_queue_spec (backend_allocate (bk_allocation_clock j)) (wi_matchmaking w) (wi_gateway_server_id w));
      [apply Hw| |done|done|done]. intros. by apply farm_allocate_queues. }
  intros [sv answer] (Hsv & Hother & Hout). fold (rivals j request) in Hout.
  destruct Hout as [(l1 & white & l2 & El & Hc & Hf & Eq & Hmade)|(Hf & Eq & Ea & Eg & Eal & En & Eget & Eloc)].
  - destruct (made_entered n j request sv answer l1 white l2) as (Hfarm & Hbeats & Hent); [done..|].
    split; [|done]. intros c. eapply backend_with_ok; [done..| |done|done].
    apply Forall_forall. intros e He. eapply (rivals_fit (1 + n) j request); [done|]. rewrite El. set_solver.
  - split; [|left; split; [split_and!|]; [done|done|by rewrite En|done|done|done]].
    intros c. eapply backend_with_ok; [done..| | |].
    + apply Forall_app. split; [|by apply Forall_singleton].
      apply Forall_forall. intros e He. by eapply (rivals_fit (1 + n) j request).
    + rewrite Eal. eapply farm_ok_le; [|exact B3]. lia.
    + intros id r. rewrite Eget. apply B4.
Qed.

(** *** The notices reach the gateway *)

Lemma notice_fits n j request white notice sv : backend_ok (1 + n) j -> request_ok request ->
  game_made j request white notice sv ->
  (forall p, deliver_notice (MatchFound notice) p = handle_match_found notice p) /\
  mc_white_player_id notice <> mc_black_player_id notice.
Proof.
  intros Hj (R1 & R2 & R3 & R4) (candidates & db & response & endpoint & Ht & Hal & Ee & -> & _).
  destruct Ht as (l1 & l2 & El & _). destruct (rivals_fit _ _ request white Hj) as [[W1 W2] Hne]; [rewrite El; set_solver|].
  destruct (allocated_ok n _ _ _ _ _ _ (bo_farm _ _ Hj) Hal) as (_ & (P1 & P2 & P3) & _). split; [|done].
  intros p. unfold deliver_notice, endpoint_of. destruct Hw as (_ & _ & Hh & Hp & _).
  rewrite delivered_match_found; [|done..|by apply P3]. by destruct (handle_match_found _ p).
Qed.

(** What a request to join does to the gateway and behind it. *)
Definition delivered (request : MatchRequest) (p p' : Plane (C := C)) (j : Backend) (sv : Srv)
    (answer : option MatchResponse) : Prop :=
  (must_wait j request sv /\ answer = Some (mkMatchResponse Queued "queued") /\ p' = p) \/
  (exists white, dropped j request white sv /\ answer = None /\ p' = p) \/
  (exists white n, game_made j request white n sv /\ answer = Some (mkMatchResponse Queued "matched") /\
     mc_white_player_id n <> mc_black_player_id n /\ handle_match_found n p = Ok p').

Lemma join_delivers n p j request : backend_ok (1 + n) j -> request_ok request -> plane_ok p ->
  join request (p, j) ⇓ (fun '(p', j', answer) => exists sv c, j' = backend_with j sv c /\ backend_ok n j' /\
    only_matching p p' /\ delivered request p p' j sv answer).
Proof.
  intros Hj Hreq Hp. destruct (backend_join_eq request p j Hw Hreq) as [c ->]. apply returns_bind.
  eapply returns_mono; [by apply (enter_spec n)|]. intros [sv answer] [Hok Hent]. cbn [fst snd].
  destruct Hent as [[Hwait ->]|[(white & Hdrop & ->)|(white & notice & Hgame & ->)]].
  - pose proof Hwait as (_ & _ & -> & _). cbn [foldM]. rewrite bind_ok. apply returns_ok.
    exists sv, c. split_and!; [done|done|by apply matching_refl|by left].
  - pose proof Hdrop as (candidates & _ & -> & _). cbn [foldM]. rewrite bind_ok. apply returns_ok.
    exists sv, c. split_and!; [done|done|by apply matching_refl|]. right; left. by exists white.
  - destruct (notice_fits n j request white notice sv Hj Hreq Hgame) as [Hdel Hne].
    pose proof Hgame as (_ & _ & _ & _ & _ & _ & _ & _ & -> & _). cbn [foldM]. rewrite Hdel.
    destruct (proj1 (returns_eq _ _) (handle_match_found_ok notice p Hp Hne)) as (p' & E & Hm & _).
    rewrite E, !bind_ok. apply returns_ok. exists sv, c. split_and!; [done|done|done|]. right; right.
    by exists white, notice.
Qed.

(** The programs behind the gateway obey the interface of the lobby. *)
#[export] Instance backend_client_ok : JoinClientOk C Backend.
Proof.
  refine {| region_ok := no_bar; client_inv n _ j := backend_ok n j |}.
  - intros n _ j [B1 B2 B3 B4 B5 B6 B7]. split; [done|done| |done..]. eapply farm_ok_le; [|exact B3]. lia.
  - done.
  - intros n p j s uid profile region Hr Hl Hj Hs Hst Hu Hpl p0.
    assert (plane_ok p0) as Hp0.
    { eapply (put_ok p s); [apply Hl|done|..]; unfold request_play; by case_match. }
    eapply returns_mono; [apply (join_delivers n); [done| |done]|].
    + split; [apply (po_next p (lo_plane p Hl) s Hs)|]. split; [by eapply (lo_user_ids p Hl)|].
      split; [by eapply (lo_rating p Hl)|done].
    + intros [[p' j'] answer] (sv & c & -> & Hok & Hm & _). split_and!; [done|done|]. by repeat case_match.
Defined.

(** *** Searches that took too long *)

Lemma search_timeout_ok id (p : Plane (C := C)) : plane_ok p -> handle_search_timeout id p ⇓ (fun p' => only_matching p p' /\
  forall i, find_session p' i = if i =? id then cancel_search <$> find_session p id else find_session p i).
Proof.
  intros Hp. unfold handle_search_timeout, notify_search_timeout.
  pose proof (update_matching id cancel_search p Hp cancel_same) as M.
  eapply returns_mono; [apply gateway_send_ok, M|]. intros p' Ht. split.
  - eapply matching_trans; [exact M|]. by apply traffic_matching; [apply M|].
  - intros i. rewrite (find_traffic _ _ _ Ht). apply find_update; [done|]. intros s. apply cancel_same.
Qed.

(** The sessions of the players are back in the lobby. *)
Definition given_up (ids : list Z) (p p' : Plane (C := C)) : Prop := forall i,
  find_session p' i = if bool_decide (i ∈ ids) then cancel_search <$> find_session p i else find_session p i.

Lemma deliver_timeouts ids (p : Plane (C := C)) : plane_ok p -> Forall fits_u64 ids ->
  foldM deliver_notice (SearchTimeout <$> ids) p ⇓ (fun p' => only_matching p p' /\ given_up ids p p').
Proof.
  intros Hp Hids. revert p Hp. induction Hids as [|id ids Hid _ IH]; intros p Hp; cbn [fmap list_fmap foldM].
  { apply returns_ok. by split; [apply matching_refl|]. }
  assert (deliver_notice (SearchTimeout id) p = handle_search_timeout id p) as ->.
  { unfold deliver_notice, endpoint_of. destruct Hw as (_ & _ & Hh & Hport & _).
    rewrite delivered_search_timeout by done. by destruct (handle_search_timeout id p). }
  apply returns_bind. eapply returns_mono; [by apply search_timeout_ok|]. intros p1 [M1 F1].
  eapply returns_mono; [apply IH, M1|]. intros p2 [M2 F2]. split; [by eapply matching_trans|].
  intros i. rewrite F2, F1. destruct (Z.eqb_spec i id) as [->|Hne].
  - rewrite (bool_decide_eq_true_2 (id ∈ id :: ids)) by set_solver. destruct (find_session p id); [|by case_bool_decide].
    cbn. case_bool_decide; [|done]. cbn. by rewrite cancel_twice.
  - rewrite (bool_decide_ext (i ∈ id :: ids) (i ∈ ids)) by set_solver. done.
Qed.

(** A round of the matchmaker over the queue of a region: exactly the players who have
    waited for the configured time leave the queue, and their sessions are back in the
    lobby; nobody else is touched, and nothing faults. *)
Theorem cluster_timeouts_correct n p j region : backend_ok n j -> plane_ok p ->
  let out := filter (waited_out (wi_matchmaking w) (bk_clock j)) (queue_at (bk_service j) region) in
  backend_timeouts region (p, j) ⇓ (fun '(p', j') => backend_ok n j' /\ only_matching p p' /\
    given_up (qp_player_id <$> out) p p' /\
    queue_at (bk_service j') region =
      filter (fun e => ~ waited_out (wi_matchmaking w) (bk_clock j) e) (queue_at (bk_service j) region)).
Proof.
  intros Hj Hp out. pose proof Hj as [B1 B2 B3 B4 B5 B6 B7]. unfold backend_timeouts, process_queue. cbn [fst snd].
  apply returns_bind, returns_bind.
  eapply returns_mono; [apply (drain_timeouts_spec (wi_matchmaking w)); [apply Hw|done|done]|].
  intros [ids sv] (Hsv & Eids & Eq & Hother & Hloc & Eg & Ea & En & Eget). fold out in Eids. apply returns_ok. cbn [snd].
  rewrite En, B2. cbn [app]. apply returns_bind.
  assert (Forall fits_u64 ids) as Hids.
  { rewrite Eids. apply Forall_fmap, Forall_forall. intros e [_ He]%list_elem_of_filter. by eapply B5. }
  eapply returns_mono; [by apply deliver_timeouts|]. intros p' [M F]. apply returns_ok. rewrite Eids in F.
  split_and!; [|done|done|exact Eq].
  split; cbn [bk_service set_notices sv_notices sv_store sv_allocator bk_clock bk_allocation_clock]; try done.
  - by apply (service_store _ sv).
  - by rewrite Ea.
  - intros id r. rewrite Eget. apply B4.
  - intros r e. unfold queue_at. cbn [set_notices sv_store]. fold (queue_at sv r). intros He.
    destruct (decide (r = region)) as [->|Hne]; [|rewrite Hother in He by done; by eapply B5].
    rewrite Eq in He. apply list_elem_of_filter in He as [_ He]. by eapply B5.
Qed.

(** ** One match through all programs *)

Section Match.
Context {U : Type} `{UserRepositoryLaws U}.
Context (region : string) (Hregion : no_bar region).
Notation Lobby := (LobbyState (C := C) (U := U) (J := Backend)).
Implicit Types (st : Lobby) (p q : Plane (C := C)) (s v : PlayerSession).

(** All sessions but those with the ids are the same. *)
Definition elsewhere (ids : list Z) p q : Prop := forall id, id ∉ ids -> find_session q id = find_session p id.

(** The sessions and connections after a match was found: both players are in the room, on
    their sides, and were sent the texts of the match; the newcomer also "searching". *)
Definition both_seated (n : MatchNotification) s v addr (c : C) p q : Prop :=
  let room := mc_room_id n in
  let info := mkRedirect room (mc_server_id n) (mc_endpoint n) in
  find_session q (ps_id v) = Some (matched room White v) /\
  find_session q (ps_id s) = Some (matched room Black (request_play s)) /\
  elsewhere [ps_id v; ps_id s] p q /\ told White n v p q /\
  load q addr = Ok (sends c (match_texts Black (info Black) ++ ["searching"])%list).

Definition search_result (request : MatchRequest) s addr (c : C) st st' : Prop :=
  let j := lb_client st in
  let p := lb_plane st in
  let q := lb_plane st' in
  exists sv cid, lb_client st' = backend_with j sv cid /\
  ((must_wait j request sv /\ find_session q (ps_id s) = Some (request_play s) /\ elsewhere [ps_id s] p q /\
      load q addr = Ok (sends c ["searching"])) \/
   (exists white, dropped j request white sv /\ elsewhere [] p q /\ load q addr = Ok (sends c ["search_failed"])) \/
   (exists white n, game_made j request white n sv /\
      forall v, find_session p (qp_player_id white) = Some v -> both_seated n s v addr c p q)).

Lemma reply_exact p addr c message : load p addr = Ok c ->
  reply p addr message = Ok (store p addr (try_send c message).2).
Proof. intros Hc. unfold reply. rewrite Hc, bind_ok. by destruct (try_send c message). Qed.

Lemma load_is_live p addr c : load p addr = Ok c -> live p addr.
Proof.
  unfold load, live. induction (clients_ p) as [|e l IH]; cbn; [done|].
  destruct (Z.eqb_spec e.1 addr) as [<-|]; [set_solver|]. intros Hc. apply IH in Hc. set_solver.
Qed.

Lemma load_replied p addr c message : load p addr = Ok c ->
  load (store p addr (try_send c message).2) addr = Ok (try_send c message).2.
Proof. intros Hc. apply load_store_same. by eapply load_is_live. Qed.

(** The newcomer's reply after the texts of the match. *)
Lemma match_seated n s v addr c p p0 p' : plane_ok p -> NoDup (ps_connection <$> sessions_ p) ->
  s ∈ sessions_ p -> ps_connection s = Some addr -> load p addr = Ok c ->
  p0 = put_session p (request_play s) -> ps_id s = mc_black_player_id n -> mc_white_player_id n <> mc_black_player_id n ->
  find_session p (mc_white_player_id n) = Some v -> handle_match_found n p0 = Ok p' ->
  exists c', load p' addr = Ok c' /\ both_seated n s v addr c p (store p' addr (try_send c' "searching").2).
Proof.
  intros Hp Hnd Hs Ha Hc Ep0 Ebl Hne Hv Hmf.
  assert (ps_id (request_play s) = ps_id s /\ ps_connection (request_play s) = ps_connection s) as [Ei Ec]
    by (unfold request_play; by case_match).
  assert (same_user s (request_play s)) as Hsame by (unfold request_play; by case_match).
  pose proof (put_matching p s (request_play s) Hp Hs Hsame) as M0. rewrite <- Ep0 in M0.
  assert (forall a, load p0 a = load p a) as Hload by (intros a; by rewrite Ep0).
  assert (forall id, find_session p0 id = if id =? ps_id s then Some (request_play s) else find_session p id) as Hf0.
  { intros id. rewrite Ep0. by apply find_put. }
  assert (find_session p0 (mc_white_player_id n) = Some v) as Hv0.
  { rewrite Hf0. destruct (Z.eqb_spec (mc_white_player_id n) (ps_id s)); [congruence|done]. }
  assert (find_session p0 (mc_black_player_id n) = Some (request_play s)) as Hs0 by (by rewrite Hf0, Ebl, Z.eqb_refl).
  pose proof (match_found_told n p0 v (request_play s) (om_plane _ _ M0)) as Htold.
  rewrite (matching_connections _ _ M0), Hmf in Htold. destruct (Htold Hnd Hne Hv0 Hs0) as (M & F & Tw & Tb).
  pose proof (find_session_id _ _ _ Hv) as [Hin Eid].
  pose proof (Tb addr c) as Hblack. rewrite Ec, Hload in Hblack. specialize (Hblack Ha Hc).
  eexists. split; [exact Hblack|]. unfold both_seated. cbv zeta. split_and!.
  - change (find_session p' (ps_id v) = Some (matched (mc_room_id n) White v)). rewrite F, Eid, Z.eqb_refl. by rewrite Hv0.
  - change (find_session p' (ps_id s) = Some (matched (mc_room_id n) Black (request_play s))).
    rewrite F, Ebl, Hs0, Z.eqb_refl. destruct (Z.eqb_spec (mc_black_player_id n) (mc_white_player_id n)); [congruence|done].
  - intros id Hid. change (find_session p' id = find_session p id). rewrite F.
    destruct (Z.eqb_spec id (mc_white_player_id n)); [set_solver|].
    destruct (Z.eqb_spec id (mc_black_player_id n)); [set_solver|].
    rewrite Hf0. destruct (Z.eqb_spec id (ps_id s)); [set_solver|done].
  - intros a cv Hav Hcv. rewrite load_store_other; [apply Tw; [done|by rewrite Hload]|].
    intros ->. assert (v = s) by (by eapply connection_apart). congruence.
  - by rewrite (load_replied _ _ _ _ Hblack).
Qed.

(** *** The lobby's reply *)

(** What [lobby_play] does with the client's answer. *)
Definition play_reply (id addr : Z) (users : U) (p : Plane (C := C)) (j : Backend) (response : option MatchResponse) :
    res Lobby :=
  match response with
  | Some (mkMatchResponse Queued _) => lobby_reply (mkLobby p users j) addr "searching"
  | _ => session ← deref (find_session p id);
         lobby_reply (mkLobby (put_session p (cancel_search session)) users j) addr "search_failed"
  end.

Section Reply.
Context (st : Lobby) (s : PlayerSession) (uid : Z) (profile : Player) (addr : Z) (c : C).
Context (Hl : lobby_ok (lb_plane st)) (Hs : s ∈ sessions_ (lb_plane st)) (Hstate : ps_state s = Connected).
Context (Huser : ps_user_id s = Some uid) (Hprofile : ps_profile s = Some profile).
Context (Haddr : ps_connection s = Some addr) (Hc : load (lb_plane st) addr = Ok c).
Notation search := (mkMatchRequest (ps_id s) uid (pl_rating profile) region).
Notation p0 := (put_session (lb_plane st) (request_play s)).

Lemma begins_search : request_play s = set_session_state s Searching.
Proof. unfold request_play, has_user. by rewrite Hstate, Huser. Qed.

Lemma searching_plane : plane_ok p0.
Proof. eapply (put_ok _ s); [apply Hl|done|..]; by rewrite begins_search. Qed.

Lemma find_searching id :
  find_session p0 id = if id =? ps_id s then Some (request_play s) else find_session (lb_plane st) id.
Proof. apply find_put; [apply Hl|done|by rewrite begins_search]. Qed.

Lemma searching_found : find_session p0 (ps_id s) = Some (request_play s).
Proof. by rewrite find_searching, Z.eqb_refl. Qed.

Lemma play_request_ok : request_ok search.
Proof.
  split; [apply (po_next _ (lo_plane _ Hl) s Hs)|]. split; [by eapply (lo_user_ids _ Hl)|].
  split; [by eapply (lo_rating _ Hl)|done].
Qed.

Lemma lobby_play_eq : lobby_play region s addr st =
  (r ← join search (p0, lb_client st); play_reply (ps_id s) addr (lb_users st) r.1.1 r.1.2 r.2).
Proof.
  unfold lobby_play, user_id, rating, session_player.  cbv zeta.
  rewrite bool_decide_eq_true_2 by (by rewrite begins_search).
  replace (ps_user_id (request_play s)) with (Some uid) by (by rewrite begins_search).
  replace (ps_profile (request_play s)) with (Some profile) by (by rewrite begins_search).
  replace (ps_id (request_play s)) with (ps_id s) by (by rewrite begins_search).
  cbn [deref]. rewrite !bind_ok. cbn [set_lb_plane lb_plane lb_client]. 
  by destruct (join search (p0, lb_client st)) as [[[p' j'] response]|].
Qed.

(** The three answers. *)
Lemma waiting_reply sv cid st' : must_wait (lb_client st) search sv ->
  play_reply (ps_id s) addr (lb_users st) p0 (backend_with (lb_client st) sv cid) (Some (mkMatchResponse Queued "queued"))
    = Ok st' ->
  search_result search s addr c st st'.
Proof.
  intros Hwait. unfold play_reply, lobby_reply. cbn [lb_plane]. rewrite (reply_exact p0 addr c) by done.
  rewrite bind_ok. intros [= <-]. exists sv, cid. split; [done|left]. cbn [lb_plane set_lb_plane].
  split_and!; [done|exact searching_found| |by apply (load_replied p0)].
  intros id Hid. change (find_session p0 id = find_session (lb_plane st) id). rewrite find_searching.
  destruct (Z.eqb_spec id (ps_id s)); [set_solver|done].
Qed.

Lemma dropped_reply sv cid white st' : dropped (lb_client st) search white sv ->
  play_reply (ps_id s) addr (lb_users st) p0 (backend_with (lb_client st) sv cid) None = Ok st' ->
  search_result search s addr c st st'.
Proof.
  intros Hdrop. unfold play_reply, lobby_reply. rewrite searching_found. cbn [deref]. rewrite bind_ok.
  cbn [lb_plane]. set (p1 := put_session p0 _). rewrite (reply_exact p1 addr c) by done. rewrite bind_ok.
  intros [= <-]. exists sv, cid. split; [done|right; left]. exists white. cbn [lb_plane set_lb_plane].
  split_and!; [done| |by apply (load_replied p1)].
  intros id _. change (find_session p1 id = find_session (lb_plane st) id). unfold p1.
  rewrite (find_put p0 (request_play s)); [|apply searching_plane|apply (find_session_id p0 (ps_id s)), searching_found|].
  2:{ by rewrite begins_search. }
  rewrite find_searching, begins_search. cbn [ps_id set_session_state]. destruct (Z.eqb_spec id (ps_id s)) as [->|]; [|done].
  rewrite (find_session_in _ s (lo_plane _ Hl) Hs). f_equal. destruct s; cbn in *; by rewrite Hstate.
Qed.

Lemma matched_reply sv cid white notice p' st' : NoDup (ps_connection <$> sessions_ (lb_plane st)) ->
  game_made (lb_client st) search white notice sv -> mc_white_player_id notice <> mc_black_player_id notice ->
  handle_match_found notice p0 = Ok p' ->
  play_reply (ps_id s) addr (lb_users st) p' (backend_with (lb_client st) sv cid) (Some (mkMatchResponse Queued "matched"))
    = Ok st' ->
  search_result search s addr c st st'.
Proof.
  intros Hnd Hgame Hne Hmf.
  assert (exists c', load p' addr = Ok c') as [c' Hc'].
  { destruct (matching_session p0 p' (request_play s) searching_plane) as (_ & _ & _ & _ & Hlive).
    - destruct (proj1 (returns_eq _ _) (handle_match_found_ok notice p0 searching_plane Hne)) as (p1 & E1 & M1 & _). congruence.
    - apply (find_session_id p0 (ps_id s)), searching_found.
    - apply load_live, Hlive. by rewrite begins_search. }
  unfold play_reply, lobby_reply. cbn [lb_plane]. rewrite (reply_exact p' addr c') by done. rewrite bind_ok.
  intros [= <-]. exists sv, cid. split; [done|right; right]. exists white, notice. split; [done|].
  intros v Hv. cbn [lb_plane set_lb_plane].
  assert (mc_white_player_id notice = qp_player_id white /\ mc_black_player_id notice = ps_id s) as [Ew Eb].
  { by destruct Hgame as (? & ? & ? & ? & _ & _ & _ & -> & _). }
  destruct (match_seated notice s v addr c (lb_plane st) p0 p') as (c2 & E2 & Hseat); [apply Hl|done..|by rewrite Ew|done|].
  rewrite Hc' in E2. injection E2 as <-. exact Hseat.
Qed.

End Reply.


End Match.
End BackendLaws.
End Backend.

(** ** On the game server

    Only the lobby gives sessions a user, and it runs in the gateway. *)

Section Dedicated.
Context {C X : Type} `{Connection C} `{FinishHandler C X}.
Implicit Types (p : Plane (C := C)) (st : LoopState C X).

Definition no_users p : Prop := forall s, s ∈ sessions_ p -> ps_user_id s = None.

(** Without users nobody takes a seat, whatever the clients ask for. *)
Lemma nobody_seated (m : RoomManager) p : plane_ok p -> NoDup (ps_connection <$> sessions_ p) -> no_users p ->
  join_process m p ⇓ (fun p' => sessions_ p' = sessions_ p).
Proof.
  intros Hp Hnd Hno. eapply returns_mono; [apply (join_loop_ok m _ p Hp Hnd); [apply NoDup_seq|]|].
  { intros i. rewrite elem_of_seq. lia. }
  intros p' (_ & Hlen & _ & Hall). apply list_eq_same_length with (List.length (sessions_ p)); [done|done|].
  intros i x y Hi Hx Hy. destruct (po_live p Hp y (list_elem_of_lookup_2 _ _ _ Hy)) as (a & Ea & Hl).
  destruct (load_live p a Hl) as [c Hc]. destruct (Hall i y a c) as (s' & Es & Hj); [rewrite elem_of_seq; lia|done..|].
  destruct Hj as [(rid & side & _ & (? & ? & ? & ? & _ & _ & _ & _ & Eu & _) & _)|[-> _]]; [|congruence].
  rewrite (Hno y (list_elem_of_lookup_2 _ _ _ Hy)) in Eu. done.
Qed.

(** The seats of a room that is made there have the player id 0. *)
Lemma hosted_ids p request id board : no_users p ->
  gp_player_id <$> white_player_ (hosted_room (Some p) request id board) = Some 0 /\
  gp_player_id <$> black_player_ (hosted_room (Some p) request id board) = Some 0.
Proof.
  intros Hno. unfold hosted_room, seat. cbn [white_player_ black_player_].
  assert (forall u, find_session_by_user_id p u = None) as E; [|by rewrite !E].
  intros u. unfold find_session_by_user_id. destruct (find_if _ _) as [s|] eqn:Es; [|done].
  apply find_if_elem in Es as [Hs Hu]. by rewrite (Hno s Hs) in Hu.
Qed.

(** Unless the first client the server ever had is still connected, such a room is closed
    in its first round, as a game that both players have left. *)
Lemma unattended_room_ends st elapsed now id room white black :
  find_room (ls_rooms st) id = Some room -> white_player_ room = Some white -> black_player_ room = Some black ->
  gp_player_id white = 0 -> gp_player_id black = 0 -> find_session (ls_plane st) 0 = None ->
  process_room elapsed now id st = finish (id_ room) None Disconnect st.
Proof.
  intros Hr Hw Hb Ew Eb Hs. unfold process_room, probe_room, both_room_players_disconnected, is_player_connected, probe_player.
  rewrite Hr. cbn [deref]. rewrite bind_ok, Hw, Hb. unfold with_player. cbn [ls_plane set_ls_plane].
  rewrite Ew, Eb, Hs, !bind_ok. rewrite ?Hs, ?bind_ok. cbn [ls_plane set_ls_plane]. rewrite ?Hs, ?bind_ok.
  by destruct st.
Qed.

End Dedicated.

(** ** A sample cluster

    Ann waits for an opponent in the region "eu" and Bob asks to play; one of the two listed
    game servers is there. *)

(** Connections that keep what was sent on them. *)
#[local] Instance keeping_connection : Connection (list string) := {|
  is_open _ := true;
  try_read c := (None, c);
  try_send c message := (true, (c ++ [message])%list);
  send_message c message := (true, (c ++ [message])%list);
  probe_disconnect c := c
|}.

#[local] Instance constant_games : GameRepository unit := {|
  create_game _ _ _ := (tt, Some 7);
  finish_game g _ _ := (g, true);
  finish_game_without_winner g _ := (g, true)
|}.

Definition sample_wiring : Wiring :=
  mkWiring ("10.0.0.1", "8081") ("10.0.0.2", "8082") "gw" (mkConfig 100 60) 500 "secret" 30 3 "id-1" "id-1".

(** "game-0" has fewer rooms but nobody listens at its address. *)
Definition cluster_store : InMemoryRuntimeStore :=
  let metrics rooms endpoint allocation := mkMetrics rooms 0 0 0 0 "" "" endpoint allocation false false in
  set_matchmaking_queue
    (publish_server_heartbeat
      (publish_server_heartbeat new_memory_store "game-0" "eu" (metrics 0 "ws://10.0.0.3:9002" "http://10.0.0.3:9003/allocate") 1000)
      "game-1" "eu" (metrics 1 "ws://10.0.0.4:9002" "http://10.0.0.4:9003/allocate") 1005)
    "eu" [mkQueued 0 10 1000 1000].

Definition no_clients : Plane (C := list string) := mkPlane [] 8 [] 0 ∅.
Definition sample_node : GameNode :=
  mkNode sample_manager no_clients (mkHost "game-1" "ws://10.0.0.4:9002") "secret" (mkCorrelation "" 0).
Definition sample_backend : Backend (C := list string) (S := InMemoryRuntimeStore) (G := unit) :=
  mkBackend (mkService cluster_store tt {[("10.0.0.4", "9003") := sample_node]} (mkCell "local" 100 60000 []) ∅ [])
    (mkCorrelation "" 0) 1010 1010.

Definition cluster_lobby : LobbyState (C := list string) (U := InMemoryUserRepository) (J := Backend) :=
  mkLobby (mkPlane [(4096, []); (8192, [])] 2 [ann_session; bob_session] 2 {["ann"; "bob"]}) sample_users sample_backend.

Lemma sample_wiring_ok : wiring_ok sample_wiring.
Proof. split_and!; try done; unfold fits_i64; cbn; lia. Qed.

Lemma constant_games_ok : forall (g : unit) white black g' id, create_game g white black = (g', Some id) -> fits_int id.
Proof. intros g white black g' id [= _ <-]. unfold fits_int. lia. Qed.

Lemma cluster_queue region : list_matchmaking_queue cluster_store region =
  if decide (region = "eu") then [mkQueued 0 10 1000 1000] else [].
Proof. unfold cluster_store. cbv zeta. rewrite list_set. by case_decide. Qed.

Lemma sample_backend_ok : backend_ok sample_wiring 1 sample_backend.
Proof.
  split; cbn [sample_backend bk_service sv_notices sv_store sv_allocator bk_clock bk_allocation_clock]; [|done|..|lia|lia].
  - split; cbn [sv_store default_queue_ region_queues_]; [|done|done|].
    + split; [done|done|done|]. by rewrite cluster_queue.
    + intros region. rewrite cluster_queue. case_decide; split; try (repeat constructor; cbn; lia);
        first [apply NoDup_singleton|apply NoDup_nil_2].
  - intros a node [_ <-]%lookup_singleton_Some. split; [apply sample_manager_ok|cbn; lia|done|done].
  - intros id r. unfold cluster_store. cbv zeta. rewrite get_set_queue, !get_published.
    repeat case_decide; [intros [= <-]; cbn; lia..|done].
  - intros region e. unfold queue_at. cbn [sv_store]. rewrite cluster_queue. case_decide; [|set_solver].
    intros ->%list_elem_of_singleton. cbn. unfold fits_u64. lia.
Qed.

#[local] Instance sample_backend_client : JoinClient (list string) (Backend (S := InMemoryRuntimeStore) (G := unit)) :=
  backend_client sample_wiring.
#[local] Instance sample_backend_client_ok : JoinClientOk (list string) (Backend (S := InMemoryRuntimeStore) (G := unit)) :=
  backend_client_ok sample_wiring constant_games_ok sample_wiring_ok.


(** What the two players are sent, and the room on the second server. *)
Example ann_and_bob_redirected :
  match lobby_play "eu" bob_session 8192 cluster_lobby with
  | Ok st => clients_ (lb_plane st) =
      [(4096, ["match_found white"; "game_start white"; "game_redirect ws://10.0.0.4:9002 2 white"]);
       (8192, ["match_found black"; "game_start black"; "game_redirect ws://10.0.0.4:9002 2 black"; "searching"])] /\
      (fun node => active_rooms [1; 2] (gn_rooms node)) <$>
        sv_allocator (bk_service (lb_client st)) !! ("10.0.0.4", "9003") = Some [1; 2]
  | Err _ => False
  end.
Proof. vm_compute. done. Qed.

(** ** Behaviours worth knowing *)

(** The sample with another entry in the stored queue. *)
Definition with_entry (e : QueuedPlayer) (sessions : list PlayerSession) :
    LobbyState (C := list string) (U := InMemoryUserRepository) (J := Backend) :=
  let sv := bk_service sample_backend in
  mkLobby (mkPlane [(4096, []); (8192, [])] 2 sessions 2 {["ann"; "bob"]}) sample_users
    (mkBackend (mkService (set_matchmaking_queue cluster_store "eu" [e]) (sv_games sv) (sv_allocator sv)
       (default_queue_ sv) (region_queues_ sv) []) (mkCorrelation "" 0) 1010 1010).

(** The entries of the queue outlive the gateway (they are kept in the store) and name
    sessions of the gateway, which counts its sessions from 0: after a restart the entry of a
    user who is gone stands for somebody else's session.  Ann, who did not ask for a game, is
    taken out of the lobby for a game in which user 99 plays White. *)
Example stale_entry_seats_stranger :
  match lobby_play "eu" bob_session 8192
    (with_entry (mkQueued 0 99 1000 1000) [cancel_search ann_session; bob_session]) with
  | Ok st => ps_state <$> sessions_ (lb_plane st) = [Playing; Playing] /\
      (node ← sv_allocator (bk_service (lb_client st)) !! ("10.0.0.4", "9003");
       room ← find_room (gn_rooms node) 2; gp_user_id <$> white_player_ room) = Some 99
  | Err _ => False
  end.
Proof. vm_compute. done. Qed.

(** If the session of the opponent is gone the notice of the match is ignored for both:
    the newcomer is told "searching", is in no queue, and will never be told anything else. *)
Example newcomer_stranded :
  match lobby_play "eu" bob_session 8192 (with_entry (mkQueued 5 99 1000 1000) [ann_session; bob_session]) with
  | Ok st => find_session (lb_plane st) 1 = Some (request_play bob_session) /\
      queue_at (bk_service (lb_client st)) "eu" = [] /\
      clients_ (lb_plane st) = [(4096, []); (8192, ["searching"])]
  | Err _ => False
  end.
Proof. vm_compute. done. Qed.
